(** * ROCOM geodesy core: [www/js/latlong.js]

    A shallow embedding of the two components of [latlong.js]:

    - the DMS text codec ([Geo.parseDMS], [Geo.toDMS], [Geo.toLat],
      [Geo.toLon], [Geo.toBrng]) and the number formatter
      [Number.prototype.toPrecisionFixed];
    - the great-circle / rhumb-line engine ([LatLon] and its methods);

    and of the ride timer of [www/js/app.js] (the callback [startApp] hands
    to [setInterval], and [stopTime]).

    Numbers.  The program computes on binary64 numbers.  Part I embeds it
    twice.  First in exact arithmetic: the codec and the formatter on
    rationals ([Q]: every finite binary64 value is a rational, and all
    functions stay executable), the engine, which needs [sin], [cos], [ln],
    [sqrt] and [PI], on the reals ([R]).  The theorems of Part II that say
    "in exact arithmetic" are about this embedding only; the others are about
    texts, whole numbers or relations that the rounding of each operation
    keeps.  Then, in the module
    [Binary64], the codec and the two bearings with every operation rounded
    to the nearest binary64 number: it serves to compute where the program
    departs from exact arithmetic, and to bound the round trip of the codec
    as the program runs it.  The infinities and the negative zero are
    outside both; [NaN] is kept because the codec signals failure with it.

    Strings.  A JavaScript string is the list of its UTF-16 code units. *)

From Stdlib Require Import ZArith QArith Qround Qabs Qpower List Ascii String Bool Lia Lqa.
From Stdlib Require Import Reals Lra.
From Stdlib Require Qcanon.
Import ListNotations.

Set Implicit Arguments.

(* ================================================================== *)
(** * Part I: definitions *)
(* ================================================================== *)

(** ** Strings as lists of UTF-16 code units *)

Section JSStrings.
Local Open Scope Z_scope.

Definition jsstring := list Z.

(** The code units of an ASCII literal. *)
Definition u16 (s : string) : jsstring :=
  map (fun a => Z.of_N (N_of_ascii a)) (list_ascii_of_string s).

Definition cu_eqb (a b : Z) : bool := a =? b.

Fixpoint str_eqb (a b : jsstring) : bool :=
  match a, b with
  | [], [] => true
  | x :: a', y :: b' => cu_eqb x y && str_eqb a' b'
  | _, _ => false
  end.

Definition len (s : jsstring) : Z := Z.of_nat (List.length s).

(** Glyphs used by the codec: the degree sign, prime, double prime and the
    en dash returned for a missing value. *)
Definition cu_degree : Z := 176.    (* U+00B0 *)
Definition cu_prime : Z := 8242.    (* U+2032 *)
Definition cu_dprime : Z := 8243.   (* U+2033 *)
Definition cu_endash : Z := 8211.   (* U+2013 *)

Definition cu_0 : Z := 48.
Definition cu_dot : Z := 46.
Definition cu_comma : Z := 44.
Definition cu_minus : Z := 45.
Definition cu_plus : Z := 43.
Definition cu_e : Z := 101.

Definition is_digit (c : Z) : bool := (48 <=? c) && (c <=? 57).

(** [WhiteSpace] and [LineTerminator] of ECMAScript: what [trim] strips. *)
Definition is_line_terminator (c : Z) : bool :=
  (c =? 10) || (c =? 13) || (c =? 8232) || (c =? 8233).

Definition is_white (c : Z) : bool :=
  (c =? 9) || (c =? 11) || (c =? 12) || (c =? 32) || (c =? 160) ||
  (c =? 5760) || ((8192 <=? c) && (c <=? 8202)) || (c =? 8239) ||
  (c =? 8287) || (c =? 12288) || (c =? 65279) || is_line_terminator c.

Fixpoint drop_white (s : jsstring) : jsstring :=
  match s with
  | c :: r => if is_white c then drop_white r else s
  | [] => []
  end.

(** [String.prototype.trim]. *)
Definition trim (s : jsstring) : jsstring :=
  rev (drop_white (rev (drop_white s))).

(** [s.replace(/^-/, '')]. *)
Definition strip_leading_minus (s : jsstring) : jsstring :=
  match s with
  | c :: r => if c =? cu_minus then r else s
  | [] => []
  end.

(** The class [[NSEW]] under the [i] flag: only the ASCII letters fold. *)
Definition is_compass (c : Z) : bool :=
  (c =? 78) || (c =? 83) || (c =? 69) || (c =? 87) ||
  (c =? 110) || (c =? 115) || (c =? 101) || (c =? 119).

Definition is_west_south (c : Z) : bool :=
  (c =? 87) || (c =? 83) || (c =? 119) || (c =? 115).

(** [s.replace(/[NSEW]$/i, '')]. *)
Definition strip_trailing_compass (s : jsstring) : jsstring :=
  match rev s with
  | c :: r => if is_compass c then rev r else s
  | [] => []
  end.

(** The class [[0-9.,]]; its complement separates the fields. *)
Definition is_field_char (c : Z) : bool :=
  is_digit c || (c =? cu_dot) || (c =? cu_comma).

(** [s.split(/[^0-9.,]+/)]: [cur] is the field being read (reversed),
    [insep] tells that the previous code unit belonged to a separator. *)
Fixpoint split_go (cur : jsstring) (insep : bool) (s : jsstring)
  : list jsstring :=
  match s with
  | [] => [rev cur]
  | c :: r =>
      if is_field_char c then split_go (c :: cur) false r
      else if insep then split_go cur true r
      else rev cur :: split_go [] true r
  end.

Definition split_fields (s : jsstring) : list jsstring :=
  split_go [] false s.

(** [/^-|[WS]$/i.test(s)]. *)
Definition test_negative (s : jsstring) : bool :=
  match s with
  | c :: _ => (c =? cu_minus) ||
              match rev s with l :: _ => is_west_south l | [] => false end
  | [] => false
  end.

(** [Array.prototype.join] with the default separator, as used by the
    abstract comparison [dms == ''] of an array with a string. *)
Fixpoint join_comma (l : list jsstring) : jsstring :=
  match l with
  | [] => []
  | [a] => a
  | a :: r => a ++ cu_comma :: join_comma r
  end.

(** [s.replace('360', '0')] and the like: the first occurrence of a string
    pattern is replaced. *)
Fixpoint starts_with (p s : jsstring) : bool :=
  match p, s with
  | [], _ => true
  | x :: p', y :: s' => cu_eqb x y && starts_with p' s'
  | _ :: _, [] => false
  end.

Fixpoint replace_first (p r s : jsstring) : jsstring :=
  if starts_with p s then r ++ skipn (List.length p) s
  else match s with
       | [] => []
       | c :: s' => c :: replace_first p r s'
       end.

(** [s.indexOf(p) >= 0]. *)
Fixpoint includes (p s : jsstring) : bool :=
  starts_with p s ||
  match s with
  | [] => false
  | _ :: s' => includes p s'
  end.

(** [s.replace(/\./, '')]: the first full stop is removed. *)
Fixpoint remove_first_dot (s : jsstring) : jsstring :=
  match s with
  | [] => []
  | c :: r => if c =? cu_dot then r else c :: remove_first_dot r
  end.

(** [s.slice(1)]. *)
Definition slice1 (s : jsstring) : jsstring := skipn 1 s.

Definition zeros (n : nat) : jsstring := repeat cu_0 n.

End JSStrings.

(** ** Decimal digits *)

Section Digits.
Local Open Scope Z_scope.

(** Value of a digit string, most significant digit first. *)
Definition digits_val (ds : jsstring) : Z :=
  fold_left (fun acc c => 10 * acc + (c - 48)) ds 0.

Fixpoint digits_loop (fuel : nat) (n : Z) (acc : jsstring) : jsstring :=
  match fuel with
  | O => acc
  | S f =>
      let acc' := (48 + n mod 10) :: acc in
      if n / 10 =? 0 then acc' else digits_loop f (n / 10) acc'
  end.

(** The decimal digits of a non-negative integer, no leading zero ("0" for
    zero). *)
Definition digits (n : Z) : jsstring :=
  digits_loop (S (Z.to_nat (Z.log2 n))) n [].

End Digits.

(** ** Completion records and values *)

Inductive error : Type := TypeError | RangeError | ReferenceError.

Inductive result (A : Type) : Type :=
| Returns (a : A)
| Throws (e : error).

Arguments Returns {A} a.
Arguments Throws {A} e.

Definition bind {A B} (r : result A) (k : A -> result B) : result B :=
  match r with
  | Returns a => k a
  | Throws e => Throws e
  end.

Declare Scope js_scope.
Delimit Scope js_scope with js.
Notation "x <- c ;; k" := (bind c (fun x => k))
  (at level 61, c at next level, right associativity) : js_scope.

(** A Number in exact arithmetic. *)
Inductive number : Type :=
| NaN
| Num (q : Q).

(** A JavaScript value.  An object is represented by what [String(o)] yields
    for it (["[object Object]"] for a plain object, ["1,2"] for the array
    [[1,2]], ["[object HTMLInputElement]"] for a form field); it has no
    [trim] method of its own.  [VObject] so stands for the objects that keep
    the [valueOf] and [toString] they inherit: plain objects, arrays, page
    elements.  Wrapper objects ([new String('5W')], which has a [trim]),
    dates, functions, symbols and big integers are outside the model. *)
Inductive value : Type :=
| VUndefined
| VNull
| VBoolean (b : bool)
| VNumber (n : number)
| VString (s : jsstring)
| VObject (to_string : jsstring).

Definition typeof (v : value) : jsstring :=
  match v with
  | VUndefined => u16 "undefined"
  | VNull => u16 "object"
  | VBoolean _ => u16 "boolean"
  | VNumber _ => u16 "number"
  | VString _ => u16 "string"
  | VObject _ => u16 "object"
  end.

(** ** Numbers: arithmetic of the exact model *)

Section Numbers.
Local Open Scope Q_scope.

Definition Qlt_bool (a b : Q) : bool := negb (Qle_bool b a).

Definition pow10 (k : Z) : Q := inject_Z 10 ^ k.

(** Truncation towards zero, as used by the remainder operator [%]. *)
Definition Qtrunc (q : Q) : Z :=
  if Qle_bool 0 q then Qfloor q else Qceiling q.

Definition nlift2 (f : Q -> Q -> Q) (a b : number) : number :=
  match a, b with
  | Num x, Num y => Num (f x y)
  | _, _ => NaN
  end.

Definition nadd := nlift2 Qplus.
Definition nsub := nlift2 Qminus.
Definition nmul := nlift2 Qmult.

(** [a / b]; the codec only divides by the literals 1, 60 and 3600, a zero
    divisor (an infinity in JavaScript) is outside the model. *)
Definition ndiv (a b : number) : number :=
  match a, b with
  | Num x, Num y => if Qeq_bool y 0 then NaN else Num (x / y)
  | _, _ => NaN
  end.

(** [a % b]: the result has the sign of the dividend. *)
Definition nrem (a b : number) : number :=
  match a, b with
  | Num x, Num y =>
      if Qeq_bool y 0 then NaN else Num (x - y * inject_Z (Qtrunc (x / y)))
  | _, _ => NaN
  end.

Definition nneg (a : number) : number :=
  match a with Num x => Num (- x) | NaN => NaN end.

(** [Math.abs] and [Math.floor]. *)
Definition nabs (a : number) : number :=
  match a with Num x => Num (Qabs x) | NaN => NaN end.

Definition nfloor (a : number) : number :=
  match a with Num x => Num (inject_Z (Qfloor x)) | NaN => NaN end.

(** [a < b] and [a > b] on numbers: false as soon as one side is [NaN]. *)
Definition nlt (a b : number) : bool :=
  match a, b with
  | Num x, Num y => Qlt_bool x y
  | _, _ => false
  end.

Definition ngt (a b : number) : bool := nlt b a.

Definition n_isNaN (a : number) : bool :=
  match a with NaN => true | Num _ => false end.

Definition nZ (z : Z) : number := Num (inject_Z z).

End Numbers.

(** ** Conversions between strings and numbers *)

Section Conversions.
Local Open Scope Z_scope.

(** [split_at p s]: the code units before the first one satisfying [p], and
    those after it when there is one. *)
Fixpoint split_at (p : Z -> bool) (s : jsstring)
  : jsstring * option jsstring :=
  match s with
  | [] => ([], None)
  | c :: r =>
      if p c then ([], Some r)
      else let (a, b) := split_at p r in (c :: a, b)
  end.

Definition all_digits (s : jsstring) : bool := forallb is_digit s.

(** [StrUnsignedDecimalLiteral] without its exponent: digits with at most
    one full stop and at least one digit. *)
Definition parse_mantissa (s : jsstring) : option Q :=
  let (ip, fp) := split_at (fun c => c =? cu_dot) s in
  let fp := match fp with Some f => f | None => [] end in
  if all_digits ip && all_digits fp && negb (len ip + len fp =? 0)
  then Some (inject_Z (digits_val (ip ++ fp)) * pow10 (- len fp))%Q
  else None.

Definition strip_sign (s : jsstring) : bool * jsstring :=
  match s with
  | c :: r => if c =? cu_minus then (true, r)
              else if c =? cu_plus then (false, r) else (false, s)
  | [] => (false, [])
  end.

(** [ExponentPart] after its [e]: an optional sign and at least one digit. *)
Definition parse_exponent (s : jsstring) : option Z :=
  let (neg, ds) := strip_sign s in
  match ds with
  | [] => None
  | _ => if all_digits ds
         then Some (if neg then - digits_val ds else digits_val ds)
         else None
  end.

(** [StringToNumber] on decimal literals: surrounding white space, an
    optional sign, a mantissa and an optional exponent; the empty string is
    zero.  The literal [Infinity] and the hexadecimal, octal and binary forms
    are outside the model (they would need letters, which the codec's fields
    cannot contain). *)
Definition StringToNumber (s : jsstring) : number :=
  match trim s with
  | [] => Num 0
  | t =>
      let (neg, body) := strip_sign t in
      let (m, e) := split_at (fun c => (c =? cu_e) || (c =? 69)) body in
      match parse_mantissa m,
            match e with Some es => parse_exponent es | None => Some 0 end with
      | Some q, Some k =>
          Num ((if neg then Qopp q else q) * pow10 k)%Q
      | _, _ => NaN
      end
  end.

(** [floor (log10 x)] for a positive rational, from the digit counts of the
    numerator and the denominator. *)
Definition floor_log10 (x : Q) : Z :=
  let k := len (digits (Qnum x)) - len (digits (Zpos (Qden x))) in
  if Qle_bool (pow10 k) x then k else k - 1.

(** The integers [e] and [n] of [Number.prototype.toPrecision]:
    [10^(p-1) <= n < 10^p] and [n * 10^(e-p+1)] is as close to [x] as
    possible, the larger one on a tie ([x] positive). *)
Definition sig_digits (x : Q) (p : Z) : Z * Z :=
  let e0 := floor_log10 x in
  let n0 := Qfloor (x * pow10 (p - 1 - e0) + (1 # 2))%Q in
  if n0 =? 10 ^ p then (e0 + 1, 10 ^ (p - 1)) else (e0, n0).

Definition firstz (n : Z) (s : jsstring) : jsstring := firstn (Z.to_nat n) s.
Definition skipz (n : Z) (s : jsstring) : jsstring := skipn (Z.to_nat n) s.
Definition zerosz (n : Z) : jsstring := zeros (Z.to_nat n).

(** The exponent suffix [e+dd] / [e-dd]. *)
Definition exponent_suffix (e : Z) : jsstring :=
  cu_e :: (if e <? 0 then cu_minus else cu_plus) :: digits (Z.abs e).

(** Mantissa with the decimal point after its first digit. *)
Definition point_after_first (m : jsstring) : jsstring :=
  match m with
  | [] => []
  | [a] => [a]
  | a :: b => a :: cu_dot :: b
  end.

(** Layout of [Number::toString]: [ds] are the [k] significant digits, the
    decimal point sits after the [n]-th. *)
Definition layout (ds : jsstring) (n : Z) : jsstring :=
  let k := len ds in
  if (k <=? n) && (n <=? 21) then ds ++ zerosz (n - k)
  else if (0 <? n) && (n <=? 21) then firstz n ds ++ cu_dot :: skipz n ds
  else if (-6 <? n) && (n <=? 0) then cu_0 :: cu_dot :: zerosz (- n) ++ ds
  else point_after_first ds ++ exponent_suffix (n - 1).

(** Search for the least number of significant digits, at most 17, that
    renders [x] exactly; [k] is the count being tried. *)
Fixpoint shortest_digits (fuel : nat) (x : Q) (k : Z) : Z * Z :=
  let (e, s) := sig_digits x k in
  match fuel with
  | O => (e, s)
  | S f =>
      if Qeq_bool (inject_Z s * pow10 (e - k + 1))%Q x then (e, s)
      else shortest_digits f x (k + 1)
  end.

(** [Number::toString] in radix 10.  An integer below [10^21] is its decimal
    digits (the case [k <= n <= 21] of the algorithm); otherwise the shortest
    exact decimal expansion with at most 17 significant digits is laid out,
    the exact counterpart of the shortest round-trip digits of a binary64. *)
Definition NumberToString (x : number) : jsstring :=
  match x with
  | NaN => u16 "NaN"
  | Num q =>
      let r := Qred q in
      let a := Qabs r in
      let sign := if Qlt_bool r 0 then [cu_minus] else [] in
      if Qeq_bool a 0 then u16 "0"
      else if (Zpos (Qden r) =? 1) && Qlt_bool a (pow10 21)
      then sign ++ digits (Qnum a)
      else let (e, s) := shortest_digits 16 a 1 in
           sign ++ layout (digits s) (e + 1)
  end.

(** [ToString] and [ToNumber] on values. *)
Definition ToString (v : value) : jsstring :=
  match v with
  | VUndefined => u16 "undefined"
  | VNull => u16 "null"
  | VBoolean b => if b then u16 "true" else u16 "false"
  | VNumber n => NumberToString n
  | VString s => s
  | VObject s => s
  end.

Definition ToNumber (v : value) : number :=
  match v with
  | VUndefined => NaN
  | VNull => Num 0
  | VBoolean b => if b then Num 1 else Num 0
  | VNumber n => n
  | VString s => StringToNumber s
  | VObject s => StringToNumber s
  end.

(** The digits of [n] with the decimal point [f] places from the right,
    padded with leading zeros up to [f + 1] digits: the string [toFixed]
    builds from its integer [n]. *)
Definition fixed_string (n f : Z) : jsstring :=
  let m := digits n in
  if f =? 0 then m
  else
    let m := if len m <=? f then zerosz (f + 1 - len m) ++ m else m in
    let k := len m in
    firstz (k - f) m ++ cu_dot :: skipz (k - f) m.

(** [Number.prototype.toFixed(f)]: [n] is the integer for which [n / 10^f]
    is as close to [x] as possible, the larger one on a tie. *)
Definition toFixed (x : number) (f : Z) : result jsstring :=
  if (f <? 0) || (100 <? f) then Throws RangeError
  else match x with
       | NaN => Returns (u16 "NaN")
       | Num q =>
           let a := Qabs q in
           if Qle_bool (pow10 21) a then Returns (NumberToString x)
           else
             let n := Qfloor (a * pow10 f + (1 # 2))%Q in
             Returns ((if Qlt_bool q 0 then [cu_minus] else []) ++
                      fixed_string n f)
       end.

(** [Number.prototype.toPrecision(p)]. *)
Definition toPrecision (x : number) (p : Z) : result jsstring :=
  match x with
  | NaN => Returns (u16 "NaN")
  | Num q =>
      if (p <? 1) || (100 <? p) then Throws RangeError
      else
        let a := Qabs q in
        let sign := if Qlt_bool q 0 then [cu_minus] else [] in
        let (e, m) := if Qeq_bool a 0 then (0, zerosz p)
                      else let (e, n) := sig_digits a p in (e, digits n) in
        if (e <? -6) || (p <=? e)
        then Returns (sign ++ point_after_first m ++ exponent_suffix e)
        else if e =? p - 1 then Returns (sign ++ m)
        else if 0 <=? e
        then Returns (sign ++ firstz (e + 1) m ++ cu_dot :: skipz (e + 1) m)
        else Returns (sign ++ cu_0 :: cu_dot :: zerosz (- (e + 1)) ++ m)
  end.

End Conversions.

(** ** [Number.prototype.toPrecisionFixed] *)

Section PrecisionFixed.
Local Open Scope Z_scope.

(** One line against [/(.+)e\+(.+)/] (sign [c] = [+]) or [/(.+)e-(.+)/]
    ([c] = [-]).  The first group is greedy, so the engine settles on the
    last [e c] that still leaves a code unit on each side; the result is the
    pair of captures. *)
Fixpoint split_exp (c : Z) (l : jsstring) : option (jsstring * jsstring) :=
  match l with
  | [] => None
  | x :: r =>
      match split_exp c r with
      | Some (sg, ex) => Some (x :: sg, ex)
      | None =>
          match r with
          | e :: c' :: ((_ :: _) as ex) =>
              if (e =? cu_e) && (c' =? c) then Some ([x], ex) else None
          | _ => None
          end
      end
  end.

(** [s.replace(re, f)] for these two expressions.  [.] does not match a line
    terminator, so a match lies within one line and, both groups being
    greedy, covers that line entirely; the first line that matches is the one
    replaced.  [line] is the line read so far. *)
Fixpoint replace_go (c : Z) (f : jsstring -> jsstring -> jsstring)
    (line s : jsstring) : jsstring :=
  match s with
  | [] =>
      match split_exp c line with
      | Some (sg, ex) => f sg ex
      | None => line
      end
  | x :: r =>
      if is_line_terminator x then
        match split_exp c line with
        | Some (sg, ex) => f sg ex ++ x :: r
        | None => line ++ x :: replace_go c f [] r
        end
      else replace_go c f (line ++ [x]) r
  end.

Definition replace_exp (c : Z) (f : jsstring -> jsstring -> jsstring)
    (s : jsstring) : jsstring :=
  replace_go c f [] s.

(** Number of turns of [while (exp-- > l)]: none when [exp] is not a
    number. *)
Definition turns (exp : number) (l : Z) : nat :=
  match exp with
  | NaN => O
  | Num e => Z.to_nat (Qceiling (e - inject_Z l))
  end.

(** [while (exp-- > l) sig = sig + '0']. *)
Fixpoint append_zeros (fuel : nat) (exp : number) (l : Z) (sig : jsstring)
  : jsstring :=
  match fuel with
  | O => sig
  | S f =>
      if ngt exp (nZ l)
      then append_zeros f (nsub exp (nZ 1)) l (sig ++ [cu_0])
      else sig
  end.

(** [while (exp-- > 1) sig = '0' + sig]. *)
Fixpoint prepend_zeros (fuel : nat) (exp : number) (sig : jsstring)
  : jsstring :=
  match fuel with
  | O => sig
  | S f =>
      if ngt exp (nZ 1)
      then prepend_zeros f (nsub exp (nZ 1)) (cu_0 :: sig)
      else sig
  end.

(** The callback of the first replacement; the implicit global [l] it
    assigns is read nowhere else. *)
Definition pad_trailing (sig exp : jsstring) : jsstring :=
  let sig := remove_first_dot sig in
  let l := len sig - 1 in
  let exp := StringToNumber exp in
  append_zeros (turns exp l) exp l sig.

(** The callback of the second replacement. *)
Definition pad_leading (sig exp : jsstring) : jsstring :=
  let sig := remove_first_dot sig in
  let exp := StringToNumber exp in
  cu_0 :: cu_dot :: prepend_zeros (turns exp 1) exp sig.

Definition toPrecisionFixed (x : number) (precision : Z) : result jsstring :=
  (n <- toPrecision x precision ;;
   let n := replace_exp cu_plus pad_trailing n in
   let n := replace_exp cu_minus pad_leading n in
   Returns n)%js.

End PrecisionFixed.

(** ** The DMS codec: namespace [Geo] *)

Section Geo.
Local Open Scope Z_scope.

Definition is_finite (n : number) : bool := negb (n_isNaN n).

(** The local [dms] of [Geo.parseDMS] once the trailing empty field has
    been spliced off, for the string [str] = [String(dmsStr)]. *)
Definition parseDMS_dms (str : jsstring) : list jsstring :=
  let dms := split_fields (strip_trailing_compass (strip_leading_minus
               (trim str))) in
  match rev dms with
  | l :: _ => if str_eqb l [] then removelast dms else dms
  | [] => dms
  end.

(** [Geo.parseDMS].  [var deg] is declared in the [switch] further down and
    hoisted, so the guard on the first line reads that local, which is still
    [undefined]. *)
Definition parseDMS (dmsStr : value) : result number :=
  let deg := VUndefined in
  if str_eqb (typeof deg) (u16 "object") then Throws TypeError
  else if str_eqb (typeof dmsStr) (u16 "number") && is_finite (ToNumber dmsStr)
  then Returns (ToNumber dmsStr)
  else
    let dms := parseDMS_dms (ToString dmsStr) in
    if str_eqb (join_comma dms) [] then Returns NaN
    else
      let deg :=
        match dms with
        | [d; m; s] =>
            Some (VNumber (nadd (nadd (ndiv (StringToNumber d) (nZ 1))
                                      (ndiv (StringToNumber m) (nZ 60)))
                                (ndiv (StringToNumber s) (nZ 3600))))
        | [d; m] =>
            Some (VNumber (nadd (ndiv (StringToNumber d) (nZ 1))
                                (ndiv (StringToNumber m) (nZ 60))))
        | [d] => Some (VString d)
        | _ => None
        end in
      match deg with
      | None => Returns NaN
      | Some deg =>
          match dmsStr with
          | VString s =>
              let deg := if test_negative (trim s)
                         then VNumber (nneg (ToNumber deg)) else deg in
              Returns (ToNumber deg)
          | _ => Throws TypeError   (* [dmsStr.trim] is not a function *)
          end
      end.

(** The implicit global [dms] that [Geo.toDMS] assigns without declaring
    it: [None] until a first assignment creates it. *)
Definition globals := option jsstring.

(** [if (v < k) v = '0' + v]. *)
Definition pad_below (k : Z) (v : value) : value :=
  if nlt (ToNumber v) (nZ k) then VString (cu_0 :: ToString v) else v.

(** [Geo.toDMS]; [None] for [format] or [dp] is [undefined], the result
    [None] is [null]. *)
Definition toDMS (deg : value) (format : option jsstring) (dp : option Z)
    (g : globals) : result (option jsstring * globals) :=
  if str_eqb (typeof deg) (u16 "object") then Throws TypeError
  else if n_isNaN (ToNumber deg) then Returns (None, g)
  else
    let format := match format with Some f => f | None => u16 "dms" end in
    let (format, dp) :=
      match dp with
      | Some dp => (format, dp)
      | None =>
          if str_eqb format (u16 "d") then (format, 4)
          else if str_eqb format (u16 "dm") then (format, 2)
          else if str_eqb format (u16 "dms") then (format, 0)
          else (u16 "dms", 0)
      end in
    let deg := nabs (ToNumber deg) in
    if str_eqb format (u16 "d") then
      (d <- toFixed deg dp ;;
       let d := pad_below 100 (VString d) in
       let d := pad_below 10 d in
       let dms := ToString d ++ [cu_degree] in
       Returns (Some dms, Some dms))%js
    else if str_eqb format (u16 "dm") then
      (min <- toFixed (nmul deg (nZ 60)) dp ;;
       let d := VNumber (nfloor (ndiv (StringToNumber min) (nZ 60))) in
       m <- toFixed (nrem (StringToNumber min) (nZ 60)) dp ;;
       let d := pad_below 100 d in
       let d := pad_below 10 d in
       let m := pad_below 10 (VString m) in
       let dms := ToString d ++ cu_degree :: ToString m ++ [cu_prime] in
       Returns (Some dms, Some dms))%js
    else if str_eqb format (u16 "dms") then
      (sec <- toFixed (nmul deg (nZ 3600)) dp ;;
       let d := VNumber (nfloor (ndiv (StringToNumber sec) (nZ 3600))) in
       let m := VNumber (nrem (nfloor (ndiv (StringToNumber sec) (nZ 60)))
                              (nZ 60)) in
       s <- toFixed (nrem (StringToNumber sec) (nZ 60)) dp ;;
       let d := pad_below 100 d in
       let d := pad_below 10 d in
       let m := pad_below 10 m in
       let s := pad_below 10 (VString s) in
       let dms := ToString d ++ cu_degree :: ToString m ++ cu_prime ::
                  ToString s ++ [cu_dprime] in
       Returns (Some dms, Some dms))%js
    else
      match g with
      | Some dms => Returns (Some dms, g)
      | None => Throws ReferenceError   (* [dms] is not defined *)
      end.

(** [deg < 0 ? neg : pos]. *)
Definition compass (deg : value) (neg pos : string) : jsstring :=
  if nlt (ToNumber deg) (nZ 0) then u16 neg else u16 pos.

(** [Geo.toLat]. *)
Definition toLat (deg : value) (format : option jsstring) (dp : option Z)
    (g : globals) : result (jsstring * globals) :=
  (r <- toDMS deg format dp g ;;
   let (lat, g') := r in
   Returns (match lat with
            | None => [cu_endash]
            | Some lat => slice1 lat ++ compass deg "S" "N"
            end, g'))%js.

(** [Geo.toLon]. *)
Definition toLon (deg : value) (format : option jsstring) (dp : option Z)
    (g : globals) : result (jsstring * globals) :=
  (r <- toDMS deg format dp g ;;
   let (lon, g') := r in
   Returns (match lon with
            | None => [cu_endash]
            | Some lon => lon ++ compass deg "W" "E"
            end, g'))%js.

(** [Geo.toBrng]. *)
Definition toBrng (deg : value) (format : option jsstring) (dp : option Z)
    (g : globals) : result (jsstring * globals) :=
  let deg := nrem (nadd (ToNumber deg) (nZ 360)) (nZ 360) in
  (r <- toDMS (VNumber deg) format dp g ;;
   let (brng, g') := r in
   Returns (match brng with
            | None => [cu_endash]
            | Some brng => replace_first (u16 "360") (u16 "0") brng
            end, g'))%js.

End Geo.

(** ** The engine: [LatLon] over the reals *)

(** Where the code divides by zero (a zero radius; a pole, at which a
    tangent vanishes or has no value) it computes with an infinity or a
    [NaN].  The functions of the real library are total and have a value
    there which the code does not have: the theorems of Part II leave these
    inputs out by hypothesis. *)

Section Engine.
Local Open Scope R_scope.

(** Truncation towards zero and the remainder operator [%] on reals. *)
Definition Rtrunc (r : R) : Z :=
  if Rle_dec 0 r then Int_part r else (- Int_part (- r))%Z.

Definition Rrem (x y : R) : R := x - y * IZR (Rtrunc (x / y)).

(** [a == b] on reals. *)
Definition Reqb (a b : R) : bool := if Req_EM_T a b then true else false.

(** [Math.atan2(y, x)], with values in [(-PI, PI]]. *)
Definition atan2 (y x : R) : R :=
  if Rlt_dec 0 x then atan (y / x)
  else if Rlt_dec x 0 then
    if Rle_dec 0 y then atan (y / x) + PI else atan (y / x) - PI
  else if Rlt_dec 0 y then PI / 2
  else if Rlt_dec y 0 then - (PI / 2)
  else 0.

(** [Number.prototype.toRadians] and [Number.prototype.toDegrees]. *)
Definition toRadians (x : R) : R := x * PI / 180.
Definition toDegrees (x : R) : R := x * 180 / PI.

Record LatLon : Type := mkLatLon { lat : R; lon : R; radius : R }.

(** The constructor [new LatLon(lat, lon, radius)]; [None] is an omitted
    radius. *)
Definition new_LatLon (lat lon : R) (radius : option R) : LatLon :=
  let radius := match radius with None => 6371 | Some r => r end in
  mkLatLon lat lon radius.

(** [(lam + 3*Math.PI) % (2*Math.PI) - Math.PI], the line each point-valued
    method ends with. *)
Definition normalise_lon (lam : R) : R :=
  Rrem (lam + 3 * PI) (2 * PI) - PI.

(** The literal [10e-12] of the two rhumb-line methods. *)
Definition lit_10e_12 : R := 10 * / 10 ^ 12.

(** A distance is a Number before it is formatted: [round64] is the rounding
    of a real to a representable number, on which [toPrecisionFixed] works. *)
Variable round64 : R -> Q.

Definition toPrecisionFixedR (d : R) (precision : Z) : result jsstring :=
  toPrecisionFixed (Num (round64 d)) precision.

(** [LatLon.prototype.distanceTo]; [None] is an omitted precision. *)
Definition distanceTo (this point : LatLon) (precision : option Z)
  : result jsstring :=
  let precision := match precision with None => 4%Z | Some p => p end in
  let R := radius this in
  let phi1 := toRadians (lat this) in
  let lam1 := toRadians (lon this) in
  let phi2 := toRadians (lat point) in
  let lam2 := toRadians (lon point) in
  let dphi := phi2 - phi1 in
  let dlam := lam2 - lam1 in
  let a := sin (dphi / 2) * sin (dphi / 2) +
           cos phi1 * cos phi2 * sin (dlam / 2) * sin (dlam / 2) in
  let c := 2 * atan2 (sqrt a) (sqrt (1 - a)) in
  let d := R * c in
  toPrecisionFixedR d precision.

(** [LatLon.prototype.bearingTo]. *)
Definition bearingTo (this point : LatLon) : R :=
  let phi1 := toRadians (lat this) in
  let phi2 := toRadians (lat point) in
  let dlam := toRadians (lon point - lon this) in
  let y := sin dlam * cos phi2 in
  let x := cos phi1 * sin phi2 - sin phi1 * cos phi2 * cos dlam in
  let theta := atan2 y x in
  Rrem (toDegrees theta + 360) 360.

(** [LatLon.prototype.finalBearingTo]. *)
Definition finalBearingTo (this point : LatLon) : R :=
  let phi1 := toRadians (lat point) in
  let phi2 := toRadians (lat this) in
  let dlam := toRadians (lon this - lon point) in
  let y := sin dlam * cos phi2 in
  let x := cos phi1 * sin phi2 - sin phi1 * cos phi2 * cos dlam in
  let theta := atan2 y x in
  Rrem (toDegrees theta + 180) 360.

(** [LatLon.prototype.midpointTo]: the longitude before normalisation, then
    the method. *)
Definition midpointTo_lam3 (this point : LatLon) : R :=
  let phi1 := toRadians (lat this) in
  let lam1 := toRadians (lon this) in
  let phi2 := toRadians (lat point) in
  let dlam := toRadians (lon point - lon this) in
  let Bx := cos phi2 * cos dlam in
  let By := cos phi2 * sin dlam in
  lam1 + atan2 By (cos phi1 + Bx).

Definition midpointTo (this point : LatLon) : LatLon :=
  let phi1 := toRadians (lat this) in
  let phi2 := toRadians (lat point) in
  let dlam := toRadians (lon point - lon this) in
  let Bx := cos phi2 * cos dlam in
  let By := cos phi2 * sin dlam in
  let phi3 := atan2 (sin phi1 + sin phi2)
                    (sqrt ((cos phi1 + Bx) * (cos phi1 + Bx) + By * By)) in
  let lam3 := midpointTo_lam3 this point in
  let lam3 := normalise_lon lam3 in
  new_LatLon (toDegrees phi3) (toDegrees lam3) None.

(** [LatLon.prototype.destinationPoint]. *)
Definition destinationPoint_lam2 (this : LatLon) (brng dist : R) : R :=
  let theta := toRadians brng in
  let delta := dist / radius this in
  let phi1 := toRadians (lat this) in
  let lam1 := toRadians (lon this) in
  let phi2 := asin (sin phi1 * cos delta +
                    cos phi1 * sin delta * cos theta) in
  lam1 + atan2 (sin theta * sin delta * cos phi1)
               (cos delta - sin phi1 * sin phi2).

Definition destinationPoint (this : LatLon) (brng dist : R) : LatLon :=
  let theta := toRadians brng in
  let delta := dist / radius this in
  let phi1 := toRadians (lat this) in
  let phi2 := asin (sin phi1 * cos delta +
                    cos phi1 * sin delta * cos theta) in
  let lam2 := destinationPoint_lam2 this brng dist in
  let lam2 := normalise_lon lam2 in
  new_LatLon (toDegrees phi2) (toDegrees lam2) None.

(** [Math.acos] followed by [if (isNaN(theta1)) theta1 = 0]: in exact
    arithmetic the quotient [n / d] has no arc cosine when [d] vanishes or
    when it leaves [[-1, 1]]. *)
Definition acos_or_zero (n d : R) : R :=
  if Req_EM_T d 0 then 0
  else if Rlt_dec (n / d) (-1) then 0
  else if Rlt_dec 1 (n / d) then 0
  else acos (n / d).

(** [LatLon.intersection]; [None] is [null].  [theta12] and [theta21] are
    implicit globals of the source, assigned before they are read. *)
Definition intersection (p1 : LatLon) (brng1 : R) (p2 : LatLon) (brng2 : R)
  : option LatLon :=
  let phi1 := toRadians (lat p1) in
  let lam1 := toRadians (lon p1) in
  let phi2 := toRadians (lat p2) in
  let lam2 := toRadians (lon p2) in
  let theta13 := toRadians brng1 in
  let theta23 := toRadians brng2 in
  let dphi := phi2 - phi1 in
  let dlam := lam2 - lam1 in
  let delta12 := 2 * asin (sqrt (sin (dphi / 2) * sin (dphi / 2) +
      cos phi1 * cos phi2 * sin (dlam / 2) * sin (dlam / 2))) in
  if Reqb delta12 0 then None
  else
    let theta1 := acos_or_zero (sin phi2 - sin phi1 * cos delta12)
                               (sin delta12 * cos phi1) in
    let theta2 := acos ((sin phi1 - sin phi2 * cos delta12) /
                        (sin delta12 * cos phi2)) in
    let (theta12, theta21) :=
      if Rlt_dec 0 (sin (lam2 - lam1))
      then (theta1, 2 * PI - theta2)
      else (2 * PI - theta1, theta2) in
    let alpha1 := Rrem (theta13 - theta12 + PI) (2 * PI) - PI in
    let alpha2 := Rrem (theta21 - theta23 + PI) (2 * PI) - PI in
    if Reqb (sin alpha1) 0 && Reqb (sin alpha2) 0 then None
    else if Rlt_dec (sin alpha1 * sin alpha2) 0 then None
    else
      let alpha3 := acos (- cos alpha1 * cos alpha2 +
                          sin alpha1 * sin alpha2 * cos delta12) in
      let delta13 := atan2 (sin delta12 * sin alpha1 * sin alpha2)
                           (cos alpha2 + cos alpha1 * cos alpha3) in
      let phi3 := asin (sin phi1 * cos delta13 +
                        cos phi1 * sin delta13 * cos theta13) in
      let dlam13 := atan2 (sin theta13 * sin delta13 * cos phi1)
                          (cos delta13 - sin phi1 * sin phi3) in
      let lam3 := lam1 + dlam13 in
      let lam3 := normalise_lon lam3 in
      Some (new_LatLon (toDegrees phi3) (toDegrees lam3) None).

(** [if (Math.abs(dlam) > Math.PI) dlam = dlam>0 ? -(2*Math.PI-dlam) :
    (2*Math.PI+dlam)]. *)
Definition shorter_way (dlam : R) : R :=
  if Rlt_dec PI (Rabs dlam)
  then if Rlt_dec 0 dlam then - (2 * PI - dlam) else 2 * PI + dlam
  else dlam.

(** The Mercator difference [dpsi] of two latitudes in radians. *)
Definition mercator_dpsi (phi1 phi2 : R) : R :=
  ln (tan (phi2 / 2 + PI / 4) / tan (phi1 / 2 + PI / 4)).

(** [LatLon.prototype.rhumbDistanceTo]: its locals [dpsi] and [q], then the
    method. *)
Definition rhumbDistanceTo_dpsi (this point : LatLon) : R :=
  mercator_dpsi (toRadians (lat this)) (toRadians (lat point)).

Definition rhumbDistanceTo_q (this point : LatLon) : R :=
  let phi1 := toRadians (lat this) in
  let phi2 := toRadians (lat point) in
  let dphi := phi2 - phi1 in
  let dpsi := rhumbDistanceTo_dpsi this point in
  if Rlt_dec lit_10e_12 (Rabs dpsi) then dphi / dpsi else cos phi1.

Definition rhumbDistanceTo (this point : LatLon) : result jsstring :=
  let R := radius this in
  let phi1 := toRadians (lat this) in
  let phi2 := toRadians (lat point) in
  let dphi := phi2 - phi1 in
  let dlam := toRadians (Rabs (lon point - lon this)) in
  let dlam := shorter_way dlam in
  let q := rhumbDistanceTo_q this point in
  let delta := sqrt (dphi * dphi + q * q * dlam * dlam) in
  let dist := delta * R in
  toPrecisionFixedR dist 4.

(** [LatLon.prototype.rhumbBearingTo]. *)
Definition rhumbBearingTo (this point : LatLon) : R :=
  let phi1 := toRadians (lat this) in
  let phi2 := toRadians (lat point) in
  let dlam := toRadians (lon point - lon this) in
  let dlam := shorter_way dlam in
  let dpsi := mercator_dpsi phi1 phi2 in
  let theta := atan2 dlam dpsi in
  Rrem (toDegrees theta + 360) 360.

(** [LatLon.prototype.rhumbDestinationPoint]: the latitude reached, the
    locals [dphi], [dpsi] and [q], the longitude before normalisation, then
    the method. *)
Definition rhumbDestinationPoint_dphi (this : LatLon) (brng dist : R) : R :=
  let delta := dist / radius this in
  let theta := toRadians brng in
  delta * cos theta.

Definition rhumbDestinationPoint_phi2 (this : LatLon) (brng dist : R) : R :=
  let phi1 := toRadians (lat this) in
  let phi2 := phi1 + rhumbDestinationPoint_dphi this brng dist in
  if Rlt_dec (PI / 2) (Rabs phi2)
  then if Rlt_dec 0 phi2 then PI - phi2 else - PI - phi2
  else phi2.

Definition rhumbDestinationPoint_dpsi (this : LatLon) (brng dist : R) : R :=
  mercator_dpsi (toRadians (lat this))
                (rhumbDestinationPoint_phi2 this brng dist).

Definition rhumbDestinationPoint_q (this : LatLon) (brng dist : R) : R :=
  let phi1 := toRadians (lat this) in
  let dphi := rhumbDestinationPoint_dphi this brng dist in
  let dpsi := rhumbDestinationPoint_dpsi this brng dist in
  if Rlt_dec lit_10e_12 (Rabs dpsi) then dphi / dpsi else cos phi1.

Definition rhumbDestinationPoint_lam2 (this : LatLon) (brng dist : R) : R :=
  let delta := dist / radius this in
  let lam1 := toRadians (lon this) in
  let theta := toRadians brng in
  let q := rhumbDestinationPoint_q this brng dist in
  let dlam := delta * sin theta / q in
  lam1 + dlam.

Definition rhumbDestinationPoint (this : LatLon) (brng dist : R) : LatLon :=
  let phi2 := rhumbDestinationPoint_phi2 this brng dist in
  let lam2 := rhumbDestinationPoint_lam2 this brng dist in
  let lam2 := normalise_lon lam2 in
  new_LatLon (toDegrees phi2) (toDegrees lam2) None.

(** [LatLon.prototype.rhumbMidpointTo].  [!isFinite(lam3)]: in exact
    arithmetic the quotient is not finite when its divisor [Math.log(f2/f1)]
    vanishes. *)
Definition rhumbMidpointTo_lam3 (this point : LatLon) : R :=
  let phi1 := toRadians (lat this) in
  let lam1 := toRadians (lon this) in
  let phi2 := toRadians (lat point) in
  let lam2 := toRadians (lon point) in
  let lam1 := if Rlt_dec PI (Rabs (lam2 - lam1)) then lam1 + 2 * PI
              else lam1 in
  let phi3 := (phi1 + phi2) / 2 in
  let f1 := tan (PI / 4 + phi1 / 2) in
  let f2 := tan (PI / 4 + phi2 / 2) in
  let f3 := tan (PI / 4 + phi3 / 2) in
  if Req_EM_T (ln (f2 / f1)) 0 then (lam1 + lam2) / 2
  else ((lam2 - lam1) * ln f3 + lam1 * ln f2 - lam2 * ln f1) / ln (f2 / f1).

Definition rhumbMidpointTo (this point : LatLon) : LatLon :=
  let phi1 := toRadians (lat this) in
  let phi2 := toRadians (lat point) in
  let phi3 := (phi1 + phi2) / 2 in
  let lam3 := rhumbMidpointTo_lam3 this point in
  let lam3 := normalise_lon lam3 in
  new_LatLon (toDegrees phi3) (toDegrees lam3) None.

End Engine.

Section EngineLocals.
Local Open Scope R_scope.

(** The locals [delta12], the angular distance between the two points, and
    [lam3], the longitude before its normalisation, of
    [LatLon.intersection]. *)
Definition intersection_delta12 (p1 p2 : LatLon) : R :=
  let phi1 := toRadians (lat p1) in
  let lam1 := toRadians (lon p1) in
  let phi2 := toRadians (lat p2) in
  let lam2 := toRadians (lon p2) in
  let dphi := phi2 - phi1 in
  let dlam := lam2 - lam1 in
  2 * asin (sqrt (sin (dphi / 2) * sin (dphi / 2) +
      cos phi1 * cos phi2 * sin (dlam / 2) * sin (dlam / 2))).

Definition intersection_lam3 (p1 : LatLon) (brng1 : R) (p2 : LatLon)
    (brng2 : R) : R :=
  let phi1 := toRadians (lat p1) in
  let lam1 := toRadians (lon p1) in
  let phi2 := toRadians (lat p2) in
  let lam2 := toRadians (lon p2) in
  let theta13 := toRadians brng1 in
  let theta23 := toRadians brng2 in
  let delta12 := intersection_delta12 p1 p2 in
  let theta1 := acos_or_zero (sin phi2 - sin phi1 * cos delta12)
                             (sin delta12 * cos phi1) in
  let theta2 := acos ((sin phi1 - sin phi2 * cos delta12) /
                      (sin delta12 * cos phi2)) in
  let (theta12, theta21) :=
    if Rlt_dec 0 (sin (lam2 - lam1))
    then (theta1, 2 * PI - theta2)
    else (2 * PI - theta1, theta2) in
  let alpha1 := Rrem (theta13 - theta12 + PI) (2 * PI) - PI in
  let alpha2 := Rrem (theta21 - theta23 + PI) (2 * PI) - PI in
  let alpha3 := acos (- cos alpha1 * cos alpha2 +
                      sin alpha1 * sin alpha2 * cos delta12) in
  let delta13 := atan2 (sin delta12 * sin alpha1 * sin alpha2)
                       (cos alpha2 + cos alpha1 * cos alpha3) in
  let phi3 := asin (sin phi1 * cos delta13 +
                    cos phi1 * sin delta13 * cos theta13) in
  let dlam13 := atan2 (sin theta13 * sin delta13 * cos phi1)
                      (cos delta13 - sin phi1 * sin phi3) in
  lam1 + dlam13.

End EngineLocals.

(** ** Printing a point *)

Section Display.

Variable round64 : R -> Q.

(** [LatLon.prototype.toString]; [None] is an omitted format.  The fields
    [lat] and [lon] are Numbers: their reals are rounded by [round64]. *)
Definition toString (this : LatLon) (format : option jsstring)
    (dp : option Z) (g : globals) : result (jsstring * globals) :=
  let format := match format with None => u16 "dms" | Some f => f end in
  (r <- toLat (VNumber (Num (round64 (lat this)))) (Some format) dp g ;;
   let (a, g1) := r in
   r' <- toLon (VNumber (Num (round64 (lon this)))) (Some format) dp g1 ;;
   let (b, g2) := r' in
   Returns (a ++ u16 ", " ++ b, g2))%js.

End Display.

(** ** The ride timer of [www/js/app.js] *)

Section RideTimer.
Local Open Scope Z_scope.

(** The globals [seconds], [minutes] and [hours] of [app.js]; they only ever
    hold integers.  The globals [secs] and [mins] are assigned before they
    are read in each of the two functions below, so that they carry nothing
    from one call to the next. *)
Record timer : Type := mkTimer { seconds : Z; minutes : Z; hours : Z }.

Definition timer_start : timer := mkTimer 0 0 0.

(** The callback that [startApp] hands to [setInterval], once a second: the
    new globals and the text it writes into the ride-duration field.  (The
    clock it writes into the field [.sTime] is outside the model.) *)
Definition tick (t : timer) : timer * jsstring :=
  let (seconds, minutes) :=
    if seconds t =? 60 then (0, minutes t + 1) else (seconds t, minutes t) in
  let mins :=
    if minutes <? 10
    then cu_0 :: ToString (VNumber (nZ minutes)) ++ u16 ":"
    else ToString (VNumber (nZ minutes)) ++ u16 ":" in
  let (minutes, hours) :=
    if minutes =? 60 then (0, hours t + 1) else (minutes, hours t) in
  let secs :=
    if seconds <? 10
    then VString (cu_0 :: ToString (VNumber (nZ seconds)))
    else VNumber (nZ seconds) in
  let seconds := seconds + 1 in
  (mkTimer seconds minutes hours, mins ++ ToString secs).

(** [stopTime]: the new globals and, when it writes one, the text written
    into the ride-duration field.  Its last statement,
    [clearTimeout(clearTime)], cancels nothing: [clearTime] is never
    assigned. *)
Definition stopTime (t : timer) : timer * option jsstring :=
  if negb (seconds t =? 0) || negb (minutes t =? 0) || negb (hours t =? 0)
  then
    let seconds := 0 in
    let minutes := 0 in
    let secs := cu_0 :: ToString (VNumber (nZ seconds)) in
    let mins := cu_0 :: ToString (VNumber (nZ minutes)) ++ u16 ":" in
    (mkTimer seconds minutes (hours t), Some (mins ++ secs))
  else (t, None).

(** The globals after [n] calls of the callback. *)
Fixpoint run (n : nat) (t : timer) : timer :=
  match n with
  | O => t
  | S k => fst (tick (run k t))
  end.

End RideTimer.

(** ** Rounding to binary64 *)

Section Rounding.
Local Open Scope Z_scope.

(** The integer nearest to [n / d], the even one of two equally near
    ([0 <= n], [0 < d]). *)
Definition nearest_even (n d : Z) : Z :=
  let k := n / d in
  let r := n mod d in
  if 2 * r <? d then k
  else if d <? 2 * r then k + 1
  else if Z.even k then k else k + 1.

(** [floor (log2 a)] for a positive rational. *)
Definition floor_log2 (a : Q) : Z :=
  let e := Z.log2 (Qnum a) - Z.log2 (Zpos (Qden a)) in
  if Qle_bool (inject_Z 2 ^ e) a then e else e - 1.

(** Rounding to binary64, to nearest and ties to even: 53 significant bits,
    least exponent -1022 (below it the spacing stays [2^-1074]).  The
    rational is put in lowest terms first, so that equal rationals are
    rounded to the same fraction. *)
Definition b64 (q : Q) : Q :=
  let q := Qred q in
  if Qeq_bool q 0 then 0%Q
  else
    let a := Qabs q in
    let u := Z.max (floor_log2 a) (-1022) - 52 in
    let m := if 0 <=? u
             then nearest_even (Qnum a) (Zpos (Qden a) * 2 ^ u)
             else nearest_even (Qnum a * 2 ^ (- u)) (Zpos (Qden a)) in
    let r := Qred (inject_Z m * inject_Z 2 ^ u)%Q in
    if Qle_bool 0 q then r else Qopp r.

(** The exponent of the last place of the binary64 numbers around [q]. *)
Definition last_place (q : Q) : Z :=
  Z.max (floor_log2 (Qabs (Qred q))) (-1022) - 52.

End Rounding.

(** ** [Math.sin], [Math.cos], [Math.atan2] *)

(** ECMAScript prescribes the value of these functions at a few special
    arguments only and leaves the others to the implementation.  The model
    takes one implementation: the binary64 number nearest to the value of
    the function's series, summed in fixed point with 200 fractional
    bits. *)

Section FixedPointSeries.
Local Open Scope Z_scope.

(** Fixed point with 200 fractional bits: the integer [z] stands for
    [z / 2^200]. *)
Definition fx_one : Z := 2 ^ 200.

Definition fx_of (q : Q) : Z := Qfloor (q * inject_Z fx_one)%Q.

Definition fx_to (z : Z) : Q := Qred (Qmake z (Z.to_pos fx_one)).

Definition fx_mul (a b : Z) : Z := Z.shiftr (a * b) 200.

Definition fx_div (a b : Z) : Z := Z.shiftl a 200 / b.

(** Euler's series of the arc tangent,
    [atan t = sum_n (2^(2n) (n!)^2 / (2n+1)!) t^(2n+1) / (1+t^2)^(n+1)]:
    each term is the one before times [z * 2n / (2n+1)],
    [z = t^2 / (1+t^2)]. *)
Fixpoint atan_series (fuel : nat) (n term z acc : Z) : Z :=
  match fuel with
  | O => acc
  | S f =>
      let term' := fx_mul term z * (2 * n) / (2 * n + 1) in
      atan_series f (n + 1) term' z (acc + term')
  end.

(** [atan t] for [0 <= t <= 1]. *)
Definition fx_atan (t : Z) : Z :=
  let d := fx_one + fx_mul t t in
  let y := fx_div t d in
  atan_series 210 1 y (fx_div (fx_mul t t) d) y.

(** Machin's formula. *)
Definition fx_pi : Z :=
  Eval vm_compute in
    (16 * fx_atan (fx_one / 5) - 4 * fx_atan (fx_one / 239)).

(** The series of the sine and the cosine: each term is the one before
    times [- x^2 / ((k+1) (k+2))]. *)
Fixpoint trig_series (fuel : nat) (k term x2 acc : Z) : Z :=
  match fuel with
  | O => acc
  | S f =>
      let term' := - (fx_mul term x2 / ((k + 1) * (k + 2))) in
      trig_series f (k + 2) term' x2 (acc + term')
  end.

(** The argument brought into [[-pi, pi)]. *)
Definition fx_reduce (x : Z) : Z :=
  x - (x + fx_pi) / (2 * fx_pi) * (2 * fx_pi).

Definition fx_sin (x : Z) : Z :=
  let r := fx_reduce x in
  trig_series 50 1 r (fx_mul r r) r.

Definition fx_cos (x : Z) : Z :=
  let r := fx_reduce x in
  trig_series 50 0 fx_one (fx_mul r r) fx_one.

(** [atan (a / b)] for [0 <= a], [0 < b], in [[0, pi/2]]. *)
Definition fx_atan_ratio (a b : Q) : Z :=
  if Qle_bool a b then fx_atan (fx_of (a / b))
  else fx_pi / 2 - fx_atan (fx_of (b / a)).

End FixedPointSeries.

Section MathLibrary.
Local Open Scope Q_scope.

(** [Math.PI]: the binary64 number nearest to pi. *)
Definition Math_PI : Q := 884279719003555 # 281474976710656.

(** Arguments so small that [sin x] and [atan x] round to [x]. *)
Definition tiny (q : Q) : bool := Qle_bool (Qabs q) (inject_Z 2 ^ (-100)).

Definition Math_sin (x : number) : number :=
  match x with
  | NaN => NaN
  | Num q => if tiny q then Num q else Num (b64 (fx_to (fx_sin (fx_of q))))
  end.

Definition Math_cos (x : number) : number :=
  match x with
  | NaN => NaN
  | Num q => Num (b64 (fx_to (fx_cos (fx_of q))))
  end.

(** [Math.atan2(y, x)], in [[-PI, PI]]. *)
Definition Math_atan2 (y x : number) : number :=
  match y, x with
  | Num y, Num x =>
      if Qeq_bool y 0 then Num (if Qle_bool 0 x then 0 else Math_PI)
      else
        let s := if Qle_bool 0 y then 1 else -1 in
        if Qeq_bool x 0 then Num (s * b64 (fx_to (fx_pi / 2)))
        else if Qle_bool 0 x && tiny (y / x) then Num (b64 (y / x))
        else
          let a := fx_atan_ratio (Qabs y) (Qabs x) in
          let a := if Qle_bool 0 x then a else (fx_pi - a)%Z in
          Num (s * b64 (fx_to a))
  | _, _ => NaN
  end.

End MathLibrary.

(** ** The same code in binary64 arithmetic *)

(** The definitions above take every operation exactly.  The program runs
    on binary64 numbers: each arithmetic operation, and each conversion of a
    string into a number, yields the binary64 number nearest to the exact
    result.  The module [Binary64] embeds the codec and the two bearings
    once more with that rounding, so that the places where the program
    departs from exact arithmetic can be computed.  What stays outside: the
    infinities (a result of magnitude [2^1024] or more, a division by
    zero) and the sign of a zero. *)

Module Binary64.

Section Arithmetic.
Local Open Scope Q_scope.

Definition nlift2 (f : Q -> Q -> Q) (a b : number) : number :=
  match a, b with
  | Num x, Num y => Num (b64 (f x y))
  | _, _ => NaN
  end.

Definition nadd := nlift2 Qplus.
Definition nsub := nlift2 Qminus.
Definition nmul := nlift2 Qmult.

Definition ndiv (a b : number) : number :=
  match a, b with
  | Num x, Num y => if Qeq_bool y 0 then NaN else Num (b64 (x / y))
  | _, _ => NaN
  end.

(** [a % b], [Math.abs], [Math.floor] and the unary minus are exact on
    binary64 numbers: [nrem], [nabs], [nfloor] and [nneg] serve as they
    are.  So do [toFixed], which rounds the exact value of its binary64
    number, and [ToString], which the codec applies to whole numbers
    only. *)

(** [StringToNumber]: the decimal value, rounded. *)
Definition StringToNumber (s : jsstring) : number :=
  match StringToNumber s with
  | Num q => Num (b64 q)
  | NaN => NaN
  end.

Definition ToNumber (v : value) : number :=
  match v with
  | VUndefined => NaN
  | VNull => Num 0
  | VBoolean b => if b then Num 1 else Num 0
  | VNumber n => n
  | VString s => StringToNumber s
  | VObject s => StringToNumber s
  end.

End Arithmetic.

Section Geo.
Local Open Scope Z_scope.

(** [Geo.parseDMS]. *)
Definition parseDMS (dmsStr : value) : result number :=
  let deg := VUndefined in
  if str_eqb (typeof deg) (u16 "object") then Throws TypeError
  else if str_eqb (typeof dmsStr) (u16 "number") && is_finite (ToNumber dmsStr)
  then Returns (ToNumber dmsStr)
  else
    let dms := parseDMS_dms (ToString dmsStr) in
    if str_eqb (join_comma dms) [] then Returns NaN
    else
      let deg :=
        match dms with
        | [d; m; s] =>
            Some (VNumber (nadd (nadd (ndiv (StringToNumber d) (nZ 1))
                                      (ndiv (StringToNumber m) (nZ 60)))
                                (ndiv (StringToNumber s) (nZ 3600))))
        | [d; m] =>
            Some (VNumber (nadd (ndiv (StringToNumber d) (nZ 1))
                                (ndiv (StringToNumber m) (nZ 60))))
        | [d] => Some (VString d)
        | _ => None
        end in
      match deg with
      | None => Returns NaN
      | Some deg =>
          match dmsStr with
          | VString s =>
              let deg := if test_negative (trim s)
                         then VNumber (nneg (ToNumber deg)) else deg in
              Returns (ToNumber deg)
          | _ => Throws TypeError   (* [dmsStr.trim] is not a function *)
          end
      end.

(** [if (v < k) v = '0' + v]. *)
Definition pad_below (k : Z) (v : value) : value :=
  if nlt (ToNumber v) (nZ k) then VString (cu_0 :: ToString v) else v.

(** [Geo.toDMS]. *)
Definition toDMS (deg : value) (format : option jsstring) (dp : option Z)
    (g : globals) : result (option jsstring * globals) :=
  if str_eqb (typeof deg) (u16 "object") then Throws TypeError
  else if n_isNaN (ToNumber deg) then Returns (None, g)
  else
    let format := match format with Some f => f | None => u16 "dms" end in
    let (format, dp) :=
      match dp with
      | Some dp => (format, dp)
      | None =>
          if str_eqb format (u16 "d") then (format, 4)
          else if str_eqb format (u16 "dm") then (format, 2)
          else if str_eqb format (u16 "dms") then (format, 0)
          else (u16 "dms", 0)
      end in
    let deg := nabs (ToNumber deg) in
    if str_eqb format (u16 "d") then
      (d <- toFixed deg dp ;;
       let d := pad_below 100 (VString d) in
       let d := pad_below 10 d in
       let dms := ToString d ++ [cu_degree] in
       Returns (Some dms, Some dms))%js
    else if str_eqb format (u16 "dm") then
      (min <- toFixed (nmul deg (nZ 60)) dp ;;
       let d := VNumber (nfloor (ndiv (StringToNumber min) (nZ 60))) in
       m <- toFixed (nrem (StringToNumber min) (nZ 60)) dp ;;
       let d := pad_below 100 d in
       let d := pad_below 10 d in
       let m := pad_below 10 (VString m) in
       let dms := ToString d ++ cu_degree :: ToString m ++ [cu_prime] in
       Returns (Some dms, Some dms))%js
    else if str_eqb format (u16 "dms") then
      (sec <- toFixed (nmul deg (nZ 3600)) dp ;;
       let d := VNumber (nfloor (ndiv (StringToNumber sec) (nZ 3600))) in
       let m := VNumber (nrem (nfloor (ndiv (StringToNumber sec) (nZ 60)))
                              (nZ 60)) in
       s <- toFixed (nrem (StringToNumber sec) (nZ 60)) dp ;;
       let d := pad_below 100 d in
       let d := pad_below 10 d in
       let m := pad_below 10 m in
       let s := pad_below 10 (VString s) in
       let dms := ToString d ++ cu_degree :: ToString m ++ cu_prime ::
                  ToString s ++ [cu_dprime] in
       Returns (Some dms, Some dms))%js
    else
      match g with
      | Some dms => Returns (Some dms, g)
      | None => Throws ReferenceError   (* [dms] is not defined *)
      end.

Definition compass (deg : value) (neg pos : string) : jsstring :=
  if nlt (ToNumber deg) (nZ 0) then u16 neg else u16 pos.

(** [Geo.toLat]. *)
Definition toLat (deg : value) (format : option jsstring) (dp : option Z)
    (g : globals) : result (jsstring * globals) :=
  (r <- toDMS deg format dp g ;;
   let (lat, g') := r in
   Returns (match lat with
            | None => [cu_endash]
            | Some lat => slice1 lat ++ compass deg "S" "N"
            end, g'))%js.

(** [Geo.toLon]. *)
Definition toLon (deg : value) (format : option jsstring) (dp : option Z)
    (g : globals) : result (jsstring * globals) :=
  (r <- toDMS deg format dp g ;;
   let (lon, g') := r in
   Returns (match lon with
            | None => [cu_endash]
            | Some lon => lon ++ compass deg "W" "E"
            end, g'))%js.

(** [Geo.toBrng]. *)
Definition toBrng (deg : value) (format : option jsstring) (dp : option Z)
    (g : globals) : result (jsstring * globals) :=
  let deg := nrem (nadd (ToNumber deg) (nZ 360)) (nZ 360) in
  (r <- toDMS (VNumber deg) format dp g ;;
   let (brng, g') := r in
   Returns (match brng with
            | None => [cu_endash]
            | Some brng => replace_first (u16 "360") (u16 "0") brng
            end, g'))%js.

End Geo.

Section Engine.

Record LatLon : Type :=
  mkLatLon { lat : number; lon : number; radius : number }.

(** [Number.prototype.toRadians] and [Number.prototype.toDegrees]. *)
Definition toRadians (x : number) : number :=
  ndiv (nmul x (Num Math_PI)) (nZ 180).

Definition toDegrees (x : number) : number :=
  ndiv (nmul x (nZ 180)) (Num Math_PI).

(** [LatLon.prototype.bearingTo]. *)
Definition bearingTo (this point : LatLon) : number :=
  let phi1 := toRadians (lat this) in
  let phi2 := toRadians (lat point) in
  let dlam := toRadians (nsub (lon point) (lon this)) in
  let y := nmul (Math_sin dlam) (Math_cos phi2) in
  let x := nsub (nmul (Math_cos phi1) (Math_sin phi2))
                (nmul (nmul (Math_sin phi1) (Math_cos phi2))
                      (Math_cos dlam)) in
  let theta := Math_atan2 y x in
  nrem (nadd (toDegrees theta) (nZ 360)) (nZ 360).

(** [LatLon.prototype.finalBearingTo]. *)
Definition finalBearingTo (this point : LatLon) : number :=
  let phi1 := toRadians (lat point) in
  let phi2 := toRadians (lat this) in
  let dlam := toRadians (nsub (lon this) (lon point)) in
  let y := nmul (Math_sin dlam) (Math_cos phi2) in
  let x := nsub (nmul (Math_cos phi1) (Math_sin phi2))
                (nmul (nmul (Math_sin phi1) (Math_cos phi2))
                      (Math_cos dlam)) in
  let theta := Math_atan2 y x in
  nrem (nadd (toDegrees theta) (nZ 180)) (nZ 360).

(** The two points of the sample usage in the header of [latlong.js]:
    [new LatLon(51.5136, -0.0983)] and [new LatLon(51.4778, -0.0015)]. *)
Definition sample_p1 : LatLon :=
  mkLatLon (Num (b64 (515136 # 10000))) (Num (b64 (-983 # 10000))) (nZ 6371).

Definition sample_p2 : LatLon :=
  mkLatLon (Num (b64 (514778 # 10000))) (Num (b64 (-15 # 10000))) (nZ 6371).

End Engine.

End Binary64.

(** ** Predicates used in the statements *)

(** The code units of a fixed-point rendering: digits, the full stop and the
    minus sign. *)
Definition fixed_char (c : Z) : bool :=
  is_digit c || (c =? cu_dot)%Z || (c =? cu_minus)%Z.

Definition fixed_point_form (s : jsstring) : bool := forallb fixed_char s.

(** Strings without the letter [e], and strings without a line terminator. *)
Definition no_e (s : jsstring) : bool :=
  forallb (fun x => negb (x =? cu_e)%Z) s.

Definition one_line (s : jsstring) : bool :=
  forallb (fun x => negb (is_line_terminator x)) s.

(** [dec_str s n f]: the string [s] is a decimal numeral with [f] digits
    after the point whose digits, read without the point, are the integer
    [n]; so [s] denotes [n / 10^f]. *)
Definition dec_str (s : jsstring) (n f : Z) : Prop :=
  exists ip fp,
    all_digits ip = true /\ all_digits fp = true /\ ip <> [] /\
    len fp = f /\ digits_val (ip ++ fp) = n /\
    (s = ip ++ cu_dot :: fp \/ (fp = [] /\ s = ip)).

(** A concrete rounding, used to exercise the theorems on [distanceTo]: down
    to the next multiple of [2^-20]. *)
Definition round_grid (r : R) : Q :=
  Qmake (Int_part (r * 1048576)) 1048576.

(** The formats [Geo.toDMS] knows, the part of a degree each counts its
    last figure in, and the decimal places it takes when none are given. *)
Definition known_format (format : jsstring) : bool :=
  str_eqb format (u16 "d") || str_eqb format (u16 "dm") ||
  str_eqb format (u16 "dms").

Definition format_unit (format : jsstring) : Q :=
  if str_eqb format (u16 "d") then 1
  else if str_eqb format (u16 "dm") then 60 else 3600.

Definition default_places (format : jsstring) : Z :=
  if str_eqb format (u16 "d") then 4
  else if str_eqb format (u16 "dm") then 2 else 0.

(** A count of minutes or seconds on two digits, as the ride timer shows
    it. *)
Definition two_digits (k : Z) : jsstring :=
  if (k <? 10)%Z then cu_0 :: digits k else digits k.

(** The numeric strings that [StringToNumber] above leaves out: after
    trimming, a literal with a radix prefix ([0x], [0o], [0b], in either
    case) or [Infinity] with an optional sign.  (The test is on the prefix
    alone, so that it also holds of some strings that are no numbers.) *)
Definition radix_or_infinity (s : jsstring) : bool :=
  let t := trim s in
  starts_with (u16 "0x") t || starts_with (u16 "0X") t ||
  starts_with (u16 "0o") t || starts_with (u16 "0O") t ||
  starts_with (u16 "0b") t || starts_with (u16 "0B") t ||
  str_eqb (snd (strip_sign t)) (u16 "Infinity").

(** Texts between the numeric fields of [Geo.parseDMS]: a run of
    characters that its [split(/[^0-9.,]+/)] takes as a separator, a run it
    takes as a field, and a text made of fields each followed by a
    separator. *)
Definition sep_run (s : jsstring) : bool :=
  forallb (fun c => negb (is_field_char c)) s.

Definition field_run (s : jsstring) : bool :=
  forallb is_field_char s && negb (str_eqb s []).

Definition separated (l : list (jsstring * jsstring)) : bool :=
  forallb (fun p => field_run (fst p) && sep_run (snd p) &&
                    negb (str_eqb (snd p) [])) l.

Fixpoint flatten_fields (l : list (jsstring * jsstring)) : jsstring :=
  match l with
  | [] => []
  | p :: r => fst p ++ snd p ++ flatten_fields r
  end.

(** The last character of a text: a W or S (either case), a white
    character. *)
Definition ends_west_south (s : jsstring) : bool :=
  match rev s with
  | c :: _ => is_west_south c
  | [] => false
  end.

Definition ends_white (s : jsstring) : bool :=
  match rev s with
  | c :: _ => is_white c
  | [] => false
  end.

(** Degrees, minutes and seconds put together: [d/1 + m/60 + s/3600],
    and [NaN] for no field or more than three. *)
Definition sexagesimal (l : list number) : number :=
  match l with
  | [d] => d
  | [d; m] => nadd (ndiv d (nZ 1)) (ndiv m (nZ 60))
  | [d; m; s] =>
      nadd (nadd (ndiv d (nZ 1)) (ndiv m (nZ 60))) (ndiv s (nZ 3600))
  | _ => NaN
  end.

(** The text of [Geo.toDMS] in closed form.  [round_places a f] is [a]
    times [10^f] rounded half up; [pad_to k s n f] puts a '0' before the
    numeral [s] of [n / 10^f] when that is below [k]. *)
Definition round_places (a : Q) (f : Z) : Z :=
  Qfloor (Qabs a * pow10 f + (1 # 2)).

Definition pad_to (k : Z) (s : jsstring) (n f : Z) : jsstring :=
  if (n <? k * 10 ^ f)%Z then cu_0 :: s else s.

Definition degrees_text (D : Z) : jsstring :=
  pad_to 10 (pad_to 100 (digits D) D 0) D 0.

Definition d_text (N f : Z) : jsstring :=
  pad_to 10 (pad_to 100 (fixed_string N f) N f) N f ++ [cu_degree].

Definition dm_text (N f : Z) : jsstring :=
  let u := (10 ^ f)%Z in
  let D := (N / (60 * u))%Z in
  let R := (N mod (60 * u))%Z in
  degrees_text D ++ cu_degree :: pad_to 10 (fixed_string R f) R f ++
  [cu_prime].

Definition dms_text (N f : Z) : jsstring :=
  let u := (10 ^ f)%Z in
  let D := (N / (3600 * u))%Z in
  let M := ((N / (60 * u)) mod 60)%Z in
  let R := (N mod (60 * u))%Z in
  degrees_text D ++ cu_degree :: pad_to 10 (digits M) M 0 ++ cu_prime ::
  pad_to 10 (fixed_string R f) R f ++ [cu_dprime].

Definition rendering (format : jsstring) (N f : Z) : jsstring :=
  if str_eqb format (u16 "d") then d_text N f
  else if str_eqb format (u16 "dm") then dm_text N f else dms_text N f.

(** The number of seconds that [Geo.toDMS] rounds: the product by 3600,
    itself rounded. *)
Definition seconds64 (x : Q) : Z :=
  round_places (b64 (Qabs x * inject_Z 3600)%Q) 0.


(* ================================================================== *)
(** * Part II: properties *)
(* ================================================================== *)

(** ** The remainder operator and [atan2] on reals *)

Section RealLemmas.
Local Open Scope R_scope.

Lemma Rtrunc_between (r : R) (k : Z) :
  0 <= r -> IZR k <= r < IZR k + 1 -> Rtrunc r = k.
Proof.
  intros Hr [Hlo Hhi]. unfold Rtrunc.
  destruct (Rle_dec 0 r) as [_ | Hn]; [| contradiction].
  symmetry. apply Int_part_spec. split; lra.
Qed.

Lemma Rtrunc_between_neg (r : R) (k : Z) :
  r < 0 -> IZR k - 1 < r <= IZR k -> Rtrunc r = k.
Proof.
  intros Hr [Hlo Hhi]. unfold Rtrunc.
  destruct (Rle_dec 0 r) as [Hp | _]; [lra |].
  assert (Hfl : (- k)%Z = Int_part (- r)).
  { apply Int_part_spec. rewrite opp_IZR. lra. }
  rewrite <- Hfl. lia.
Qed.

Lemma Rrem_eq (x y : R) (k : Z) :
  0 < y -> 0 <= x -> IZR k * y <= x < (IZR k + 1) * y ->
  Rrem x y = x - IZR k * y.
Proof.
  intros Hy Hx [Hlo Hhi]. unfold Rrem.
  assert (Hq : 0 <= x / y) by (apply Rmult_le_pos; [lra | left; now apply Rinv_0_lt_compat]).
  rewrite (@Rtrunc_between (x / y) k Hq); [ring |].
  split.
  - apply Rmult_le_reg_r with y; [exact Hy |]. unfold Rdiv.
    rewrite Rmult_assoc, Rinv_l by lra. lra.
  - apply Rmult_lt_reg_r with y; [exact Hy |]. unfold Rdiv.
    rewrite Rmult_assoc, Rinv_l by lra. lra.
Qed.

Lemma Rrem_neg_eq (x y : R) (k : Z) :
  0 < y -> x < 0 -> (IZR k - 1) * y < x <= IZR k * y ->
  Rrem x y = x - IZR k * y.
Proof.
  intros Hy Hx [Hlo Hhi]. unfold Rrem.
  assert (Hq : x / y < 0).
  { assert (0 < / y) by now apply Rinv_0_lt_compat. unfold Rdiv. nra. }
  rewrite (@Rtrunc_between_neg (x / y) k Hq); [ring |].
  split.
  - apply Rmult_lt_reg_r with y; [exact Hy |]. unfold Rdiv.
    rewrite Rmult_assoc, Rinv_l by lra. lra.
  - apply Rmult_le_reg_r with y; [exact Hy |]. unfold Rdiv.
    rewrite Rmult_assoc, Rinv_l by lra. lra.
Qed.

(** For a non-negative dividend the remainder lies in [[0, y)]. *)
Lemma Rrem_range (x y : R) :
  0 < y -> 0 <= x -> 0 <= Rrem x y < y.
Proof.
  intros Hy Hx. unfold Rrem, Rtrunc.
  assert (Hq : 0 <= x / y) by (apply Rmult_le_pos; [lra | left; now apply Rinv_0_lt_compat]).
  destruct (Rle_dec 0 (x / y)) as [_ | Hn]; [| contradiction].
  destruct (base_Int_part (x / y)) as [H1 H2].
  assert (Hxy : x = x / y * y) by (field; lra).
  split.
  - assert (y * IZR (Int_part (x / y)) <= y * (x / y)) by (apply Rmult_le_compat_l; lra).
    lra.
  - assert (y * (x / y - 1) < y * IZR (Int_part (x / y))) by (apply Rmult_lt_compat_l; lra).
    lra.
Qed.

Lemma atan2_bounds (y x : R) : - PI < atan2 y x <= PI.
Proof.
  pose proof PI_RGT_0 as Hpi. unfold atan2.
  destruct (Rlt_dec 0 x) as [Hx | Hx].
  - destruct (atan_bound (y / x)). lra.
  - destruct (Rlt_dec x 0) as [Hx' | Hx'].
    + assert (Hinv : / x < 0) by now apply Rinv_lt_0_compat.
      destruct (Rle_dec 0 y) as [Hy | Hy].
      * assert (y / x <= 0) by (unfold Rdiv; nra).
        assert (atan (y / x) <= 0).
        { destruct (Req_dec (y / x) 0) as [E | E].
          - rewrite E, atan_0. lra.
          - rewrite <- atan_0. left. apply atan_increasing. lra. }
        destruct (atan_bound (y / x)). lra.
      * assert (0 < y / x) by (unfold Rdiv; nra).
        assert (0 < atan (y / x)) by (rewrite <- atan_0; now apply atan_increasing).
        destruct (atan_bound (y / x)). lra.
    + destruct (Rlt_dec 0 y); [lra |]. destruct (Rlt_dec y 0); lra.
Qed.

Lemma toDegrees_bounds (t : R) :
  - PI < t <= PI -> -180 < toDegrees t <= 180.
Proof.
  pose proof PI_RGT_0 as Hpi. intros [Hlo Hhi]. unfold toDegrees.
  assert (Hi : 0 < / PI) by now apply Rinv_0_lt_compat.
  assert (E : forall a, a * PI * / PI = a) by (intros; field; lra).
  split.
  - apply Rmult_lt_reg_r with PI; [exact Hpi |]. unfold Rdiv.
    rewrite Rmult_assoc, Rinv_l by lra. lra.
  - apply Rmult_le_reg_r with PI; [exact Hpi |]. unfold Rdiv.
    rewrite Rmult_assoc, Rinv_l by lra. lra.
Qed.

End RealLemmas.

(** ** Engine: an intersection that exists *)

Section IntersectionExample.
Local Open Scope R_scope.

Lemma Reqb_false (a b : R) : a <> b -> Reqb a b = false.
Proof. intros H. unfold Reqb. destruct (Req_EM_T a b); [contradiction | reflexivity]. Qed.

Lemma atan2_1_0 : atan2 1 0 = PI / 2.
Proof.
  unfold atan2. destruct (Rlt_dec 0 0); [lra |].
  destruct (Rlt_dec 0 0); [lra |]. destruct (Rlt_dec 0 1); [reflexivity | lra].
Qed.

Lemma atan2_0_0 : atan2 0 0 = 0.
Proof.
  unfold atan2. destruct (Rlt_dec 0 0); [lra |].
  destruct (Rlt_dec 0 0); [lra |]. destruct (Rlt_dec 0 0); [lra | reflexivity].
Qed.

Lemma acos_or_zero_0_1 : acos_or_zero 0 1 = PI / 2.
Proof.
  unfold acos_or_zero. destruct (Req_EM_T 1 0); [lra |].
  replace (0 / 1) with 0 by field.
  destruct (Rlt_dec 0 (-1)); [lra |]. destruct (Rlt_dec 1 0); [lra |].
  apply acos_0.
Qed.

(** Two meridians, 90 degrees apart on the equator, meet at the pole. *)
Lemma intersection_at_pole :
  intersection (mkLatLon 0 0 6371) 0 (mkLatLon 0 90 6371) 0 =
  Some (mkLatLon 90 0 6371).
Proof.
  pose proof PI_RGT_0 as Hpi.
  assert (Hs4 : 0 < sin (PI / 4)).
  { apply sin_gt_0; lra. }
  unfold intersection. cbn [lat lon].
  replace (toRadians 0) with 0 by (unfold toRadians; field).
  replace (toRadians 90) with (PI / 2) by (unfold toRadians; field).
  replace ((0 - 0) / 2) with 0 by field.
  replace ((PI / 2 - 0) / 2) with (PI / 4) by field.
  replace (PI / 2 - 0) with (PI / 2) by field.
  rewrite sin_0, cos_0.
  replace (0 * 0 + 1 * 1 * sin (PI / 4) * sin (PI / 4))
    with (sin (PI / 4) * sin (PI / 4)) by ring.
  rewrite (sqrt_square (sin (PI / 4))) by lra.
  rewrite asin_sin by (split; lra).
  replace (2 * (PI / 4)) with (PI / 2) by field.
  rewrite (Reqb_false (a := PI / 2) (b := 0)) by lra.
  rewrite sin_PI2, cos_PI2.
  destruct (Rlt_dec 0 1) as [_ | H]; [| lra].
  replace (0 - 0 * 0) with 0 by ring. replace (1 * 1) with 1 by ring.
  rewrite acos_or_zero_0_1. replace (0 / 1) with 0 by field. rewrite acos_0.
  cbv beta iota.
  replace (Rrem (0 - PI / 2 + PI) (2 * PI)) with (PI / 2)
    by (rewrite (@Rrem_eq (0 - PI / 2 + PI) (2 * PI) 0); lra).
  replace (Rrem (2 * PI - PI / 2 - 0 + PI) (2 * PI)) with (PI / 2)
    by (rewrite (@Rrem_eq (2 * PI - PI / 2 - 0 + PI) (2 * PI) 1); lra).
  replace (PI / 2 - PI) with (- (PI / 2)) by field.
  rewrite sin_neg, cos_neg, sin_PI2, cos_PI2.
  rewrite (Reqb_false (a := Ropp 1) (b := 0)) by lra. cbn [andb].
  destruct (Rlt_dec (Ropp 1 * Ropp 1) 0) as [H | _]; [lra |].
  replace (- 0 * 0 + Ropp 1 * Ropp 1 * 0) with 0 by ring.
  rewrite acos_0, cos_PI2.
  replace (1 * Ropp 1 * Ropp 1) with 1 by ring. replace (0 + 0 * 0) with 0 by ring.
  rewrite atan2_1_0, sin_PI2, cos_PI2.
  replace (0 * 0 + 1 * 1 * 1) with 1 by ring.
  rewrite asin_1, sin_PI2.
  replace (0 * 1 * 1) with 0 by ring. replace (0 - 0 * 1) with 0 by ring.
  rewrite atan2_0_0.
  unfold normalise_lon.
  rewrite (@Rrem_eq (0 + 0 + 3 * PI) (2 * PI) 1) by lra.
  unfold new_LatLon, toDegrees. f_equal. f_equal; field; lra.
Qed.

End IntersectionExample.

(** ** Engine: bearings *)

Section Bearings.
Local Open Scope R_scope.

Lemma bearing_arith (t : R) :
  -180 < t <= 180 ->
  Rrem (t + 180) 360 = Rrem (Rrem (t + 360) 360 + 180) 360 /\
  0 <= Rrem (t + 360) 360 < 360 /\
  0 <= Rrem (t + 180) 360 < 360.
Proof.
  intros [Hlo Hhi].
  assert (H360 : 0 <= Rrem (t + 360) 360 < 360) by (apply Rrem_range; lra).
  assert (H180 : 0 <= Rrem (t + 180) 360 < 360) by (apply Rrem_range; lra).
  split; [| split; assumption].
  destruct (Rlt_dec t 0) as [Hneg | Hpos].
  - rewrite (@Rrem_eq (t + 360) 360 0) by lra.
    rewrite (@Rrem_eq (t + 180) 360 0) by lra.
    rewrite (@Rrem_eq (t + 360 - 0 * 360 + 180) 360 1) by lra. lra.
  - rewrite (@Rrem_eq (t + 360) 360 1) by lra.
    destruct (Rlt_dec t 180) as [Hlt | Hge].
    + rewrite (@Rrem_eq (t + 180) 360 0) by lra.
      rewrite (@Rrem_eq (t + 360 - 1 * 360 + 180) 360 0) by lra. lra.
    + rewrite (@Rrem_eq (t + 180) 360 1) by lra.
      rewrite (@Rrem_eq (t + 360 - 1 * 360 + 180) 360 1) by lra. lra.
Qed.

(** Values of the three functions that every implementation is known by. *)
Lemma Math_library_samples :
  Math_sin (Num Math_PI) = Num (b64 (12246467991473532 # 10 ^ 32)) /\
  Math_cos (Num Math_PI) = Num (-1) /\
  Math_sin (Num 1) = Num (b64 (8414709848078965 # 10 ^ 16)) /\
  Math_cos (Num 1) = Num (b64 (5403023058681398 # 10 ^ 16)) /\
  Math_atan2 (Num 1) (Num 1) = Num (b64 (7853981633974483 # 10 ^ 16)) /\
  Math_atan2 (Num 1) (Num (-1)) = Num (b64 (2356194490192345 # 10 ^ 15)) /\
  Math_atan2 (Num 0) (Num (-1)) = Num (b64 (3141592653589793 # 10 ^ 15)) /\
  Math_atan2 (Num 0) (Num 1) = Num 0.
Proof. repeat split; vm_compute; reflexivity. Qed.



End Bearings.

(** ** Engine: distance *)

Section Distance.
Local Open Scope R_scope.

(** C9.  For two points of the same radius the haversine distance does not
    depend on the direction: [p1.distanceTo(p2)] and [p2.distanceTo(p1)]
    format the same number (whether or not the points are antipodal). *)
Theorem distanceTo_symmetric (round64 : R -> Q) (p1 p2 : LatLon)
    (precision : option Z) :
  radius p1 = radius p2 ->
  distanceTo round64 p1 p2 precision = distanceTo round64 p2 p1 precision.
Proof.
  intros Hr. unfold distanceTo. rewrite Hr.
  set (phi1 := toRadians (lat p1)). set (phi2 := toRadians (lat p2)).
  set (lam1 := toRadians (lon p1)). set (lam2 := toRadians (lon p2)).
  replace ((phi1 - phi2) / 2) with (- ((phi2 - phi1) / 2)) by field.
  replace ((lam1 - lam2) / 2) with (- ((lam2 - lam1) / 2)) by field.
  rewrite !sin_neg.
  set (s := sin ((phi2 - phi1) / 2)). set (u := sin ((lam2 - lam1) / 2)).
  replace (- s * - s + cos phi2 * cos phi1 * - u * - u)
    with (s * s + cos phi1 * cos phi2 * u * u) by ring.
  reflexivity.
Qed.

Lemma distanceTo_symmetric_witness :
  distanceTo round_grid (mkLatLon 51.5136 (-0.0983) 6371)
             (mkLatLon 51.4778 (-0.0015) 6371) (Some 4%Z) =
  distanceTo round_grid (mkLatLon 51.4778 (-0.0015) 6371)
             (mkLatLon 51.5136 (-0.0983) 6371) (Some 4%Z).
Proof.
  apply (@distanceTo_symmetric round_grid (mkLatLon 51.5136 (-0.0983) 6371)
           (mkLatLon 51.4778 (-0.0015) 6371) (Some 4%Z)).
  reflexivity.
Defined.

End Distance.

(** ** Engine: normalisation of the longitude *)

Section Longitude.
Local Open Scope R_scope.

Lemma normalise_lon_range (lam : R) :
  - (3 * PI) <= lam -> - PI <= normalise_lon lam < PI.
Proof.
  pose proof PI_RGT_0 as Hpi. intros Hlam. unfold normalise_lon.
  destruct (@Rrem_range (lam + 3 * PI) (2 * PI)) as [H1 H2]; lra.
Qed.

Lemma toDegrees_half_open (x : R) :
  - PI <= x < PI -> -180 <= toDegrees x < 180.
Proof.
  pose proof PI_RGT_0 as Hpi. intros [Hlo Hhi]. unfold toDegrees, Rdiv.
  split.
  - apply Rmult_le_reg_r with PI; [exact Hpi |].
    rewrite Rmult_assoc, Rinv_l by lra. lra.
  - apply Rmult_lt_reg_r with PI; [exact Hpi |].
    rewrite Rmult_assoc, Rinv_l by lra. lra.
Qed.

Lemma normalised_degrees (lam : R) :
  - (3 * PI) <= lam -> -180 <= toDegrees (normalise_lon lam) < 180.
Proof. intros H. apply toDegrees_half_open, normalise_lon_range, H. Qed.

Lemma toRadians_ge (l : R) : -360 <= l -> - (2 * PI) <= toRadians l.
Proof.
  pose proof PI_RGT_0 as Hpi. intros H. unfold toRadians.
  replace (l * PI / 180) with (PI * (l / 180)) by field.
  replace (- (2 * PI)) with (PI * (-2)) by ring.
  apply Rmult_le_compat_l; lra.
Qed.

Lemma plus_atan2_ge (l y x : R) :
  -360 <= l -> - (3 * PI) <= toRadians l + atan2 y x.
Proof.
  intros H. pose proof (toRadians_ge H). pose proof (atan2_bounds y x). lra.
Qed.

(** On the equator the midpoint of a point with itself keeps the longitude. *)
Lemma midpointTo_lam3_self (l r : R) :
  midpointTo_lam3 (mkLatLon 0 l r) (mkLatLon 0 l r) = toRadians l.
Proof.
  unfold midpointTo_lam3; simpl.
  replace (l - l) with 0 by ring.
  replace (toRadians 0) with 0 by (unfold toRadians; field).
  rewrite sin_0, cos_0. unfold atan2.
  destruct (Rlt_dec 0 (1 + 1 * 1)) as [_ | H]; [| lra].
  replace (1 * 0 / (1 + 1 * 1)) with 0 by field.
  rewrite atan_0. ring.
Qed.

Lemma midpointTo_lon_180 :
  lon (midpointTo (mkLatLon 0 180 6371) (mkLatLon 0 180 6371)) = -180.
Proof.
  pose proof PI_RGT_0 as Hpi.
  unfold midpointTo, new_LatLon; simpl. rewrite midpointTo_lam3_self.
  unfold normalise_lon, toRadians.
  rewrite (@Rrem_eq (180 * PI / 180 + 3 * PI) (2 * PI) 2) by lra.
  unfold toDegrees. field. lra.
Qed.

Lemma midpointTo_lon_minus_720 :
  lon (midpointTo (mkLatLon 0 (-720) 6371) (mkLatLon 0 (-720) 6371)) = -360.
Proof.
  pose proof PI_RGT_0 as Hpi.
  unfold midpointTo, new_LatLon; simpl. rewrite midpointTo_lam3_self.
  unfold normalise_lon, toRadians.
  rewrite (@Rrem_neg_eq (-720 * PI / 180 + 3 * PI) (2 * PI) 0) by lra.
  unfold toDegrees. field. lra.
Qed.


End Longitude.

(** ** Engine: the Mercator stretch factor *)

Section Stretch.
Local Open Scope R_scope.

Lemma lit_10e_12_value : lit_10e_12 = / 10 ^ 11.
Proof. unfold lit_10e_12. field. Qed.

(** Concrete courses on either side of the threshold. *)
Lemma mercator_dpsi_equator_30 :
  mercator_dpsi (toRadians 0) (toRadians 30) = ln 3 / 2.
Proof.
  unfold mercator_dpsi, toRadians.
  replace (30 * PI / 180 / 2 + PI / 4) with (PI / 3) by field.
  replace (0 * PI / 180 / 2 + PI / 4) with (PI / 4) by field.
  rewrite tan_PI3, tan_PI4.
  replace (sqrt 3 / 1) with (sqrt 3) by field.
  assert (Hs : 0 < sqrt 3) by (apply sqrt_lt_R0; lra).
  assert (E : ln 3 = ln (sqrt 3) + ln (sqrt 3)).
  { rewrite <- ln_mult by assumption. f_equal. symmetry. apply sqrt_sqrt. lra. }
  lra.
Qed.

Lemma ln_3_large : / 10 ^ 11 < Rabs (ln 3 / 2).
Proof.
  assert (H2 : / 2 < ln 2) by apply ln_lt_2.
  assert (H3 : ln 2 < ln 3) by (apply ln_increasing; lra).
  assert (Hs : / 10 ^ 11 < / 4).
  { apply Rinv_lt_contravar; [| lra]. apply Rmult_lt_0_compat; [lra |]. apply pow_lt; lra. }
  rewrite Rabs_right by lra. lra.
Qed.

Lemma mercator_dpsi_same (phi : R) :
  tan (phi / 2 + PI / 4) <> 0 -> mercator_dpsi phi phi = 0.
Proof.
  intros H. unfold mercator_dpsi.
  replace (tan (phi / 2 + PI / 4) / tan (phi / 2 + PI / 4)) with 1 by (field; exact H).
  apply ln_1.
Qed.

Lemma rhumbDestinationPoint_dpsi_north :
  rhumbDestinationPoint_dpsi (mkLatLon 0 0 6371) 0 (6371 * (PI / 6)) =
  ln 3 / 2.
Proof.
  pose proof PI_RGT_0 as Hpi.
  unfold rhumbDestinationPoint_dpsi, rhumbDestinationPoint_phi2,
    rhumbDestinationPoint_dphi. cbn [lat lon radius].
  replace (toRadians 0) with 0 by (unfold toRadians; field).
  rewrite cos_0.
  replace (0 + 6371 * (PI / 6) / 6371 * 1) with (PI / 6) by field.
  destruct (Rlt_dec (PI / 2) (Rabs (PI / 6))) as [H | _].
  - rewrite Rabs_right in H by lra. lra.
  - rewrite <- mercator_dpsi_equator_30. f_equal; unfold toRadians; field.
Qed.

Lemma rhumbDestinationPoint_dpsi_still :
  rhumbDestinationPoint_dpsi (mkLatLon 0 0 6371) 90 0 = 0.
Proof.
  pose proof PI_RGT_0 as Hpi.
  unfold rhumbDestinationPoint_dpsi, rhumbDestinationPoint_phi2,
    rhumbDestinationPoint_dphi. cbn [lat lon radius].
  replace (toRadians 0) with 0 by (unfold toRadians; field).
  replace (0 + 0 / 6371 * cos (toRadians 90)) with 0 by field.
  destruct (Rlt_dec (PI / 2) (Rabs 0)) as [H | _].
  - rewrite Rabs_R0 in H. lra.
  - apply mercator_dpsi_same.
    replace (0 / 2 + PI / 4) with (PI / 4) by field. rewrite tan_PI4. lra.
Qed.

End Stretch.

(** ** Engine: the longitude returned, the stretch factor used *)

Section LongitudeTheorem.
Local Open Scope R_scope.

Lemma intersection_lon (p1 : LatLon) (brng1 : R) (p2 : LatLon) (brng2 : R)
    (r : LatLon) :
  intersection p1 brng1 p2 brng2 = Some r ->
  lon r = toDegrees (normalise_lon (intersection_lam3 p1 brng1 p2 brng2)).
Proof.
  unfold intersection, intersection_lam3, intersection_delta12.
  repeat match goal with
         | |- context [if ?b then _ else _] => destruct b
         end; try discriminate;
    intros E; injection E as <-; reflexivity.
Qed.

Lemma intersection_lam3_ge (p1 : LatLon) (brng1 : R) (p2 : LatLon)
    (brng2 : R) :
  -360 <= lon p1 -> - (3 * PI) <= intersection_lam3 p1 brng1 p2 brng2.
Proof.
  intros H. unfold intersection_lam3.
  destruct (Rlt_dec 0 _); apply plus_atan2_ge, H.
Qed.

(** Two points a quarter of the equator apart. *)
Lemma intersection_delta12_quarter :
  intersection_delta12 (mkLatLon 0 0 6371) (mkLatLon 0 90 6371) = PI / 2.
Proof.
  pose proof PI_RGT_0 as Hpi.
  assert (Hs4 : 0 < sin (PI / 4)) by (apply sin_gt_0; lra).
  unfold intersection_delta12. cbn [lat lon].
  replace (toRadians 0) with 0 by (unfold toRadians; field).
  replace (toRadians 90) with (PI / 2) by (unfold toRadians; field).
  replace ((0 - 0) / 2) with 0 by field.
  replace ((PI / 2 - 0) / 2) with (PI / 4) by field.
  rewrite sin_0, cos_0.
  replace (0 * 0 + 1 * 1 * sin (PI / 4) * sin (PI / 4))
    with (sin (PI / 4) * sin (PI / 4)) by ring.
  rewrite (sqrt_square (sin (PI / 4))) by lra.
  rewrite asin_sin by (split; lra). field.
Qed.

(** The latitude reached, and the longitude before normalisation, when
    nothing is travelled from the origin of the coordinates. *)
Lemma rhumbDestinationPoint_phi2_still :
  rhumbDestinationPoint_phi2 (mkLatLon 0 0 6371) 90 0 = 0.
Proof.
  pose proof PI_RGT_0 as Hpi.
  unfold rhumbDestinationPoint_phi2, rhumbDestinationPoint_dphi.
  cbn [lat lon radius].
  replace (toRadians 0) with 0 by (unfold toRadians; field).
  replace (0 + 0 / 6371 * cos (toRadians 90)) with 0 by field.
  destruct (Rlt_dec (PI / 2) (Rabs 0)) as [H | _]; [| reflexivity].
  rewrite Rabs_R0 in H. lra.
Qed.

Lemma rhumbDestinationPoint_lam2_still :
  rhumbDestinationPoint_lam2 (mkLatLon 0 0 6371) 90 0 = 0.
Proof.
  unfold rhumbDestinationPoint_lam2, rhumbDestinationPoint_q.
  rewrite rhumbDestinationPoint_dpsi_still. cbn [lat lon radius].
  replace (toRadians 0) with 0 by (unfold toRadians; field).
  destruct (Rlt_dec lit_10e_12 (Rabs 0)) as [H | _].
  - rewrite Rabs_R0 in H. unfold lit_10e_12 in H.
    assert (0 < 10 * / 10 ^ 12).
    { apply Rmult_lt_0_compat; [lra |]. apply Rinv_0_lt_compat, pow_lt. lra. }
    lra.
  - rewrite cos_0. field.
Qed.



End LongitudeTheorem.

Section StretchTheorem.
Local Open Scope R_scope.



End StretchTheorem.

(** ** Engine: the radius of a result *)

Section Radius.
Local Open Scope R_scope.

(** C10.  Every point built by [midpointTo], [destinationPoint],
    [intersection], [rhumbDestinationPoint] and [rhumbMidpointTo] has the
    default radius 6371, whatever the radii of the operands. *)
Theorem result_radius_default :
  (forall p q, radius (midpointTo p q) = 6371) /\
  (forall p brng dist, radius (destinationPoint p brng dist) = 6371) /\
  (forall p1 brng1 p2 brng2,
      match intersection p1 brng1 p2 brng2 with
      | Some r => radius r = 6371
      | None => True
      end) /\
  (forall p brng dist, radius (rhumbDestinationPoint p brng dist) = 6371) /\
  (forall p q, radius (rhumbMidpointTo p q) = 6371).
Proof.
  repeat split; try reflexivity.
  intros p1 brng1 p2 brng2. unfold intersection.
  repeat match goal with
         | |- context [if ?b then _ else _] => destruct b
         end; simpl; auto.
Qed.

End Radius.

(** ** Codec and formatter: sample evaluations *)

Section Samples.
Local Open Scope Z_scope.

(** The two sample inputs of the source's header: 51 deg 28' 40.12'' N and
    000 deg 00' 05.31'' W, with their glyphs and blanks. *)
Lemma parseDMS_samples :
  parseDMS (VString (u16 "51" ++ cu_degree :: u16 " 28" ++ cu_prime ::
                     u16 " 40.12" ++ cu_dprime :: u16 " N"))
    = Returns (Num (1111920720 # 21600000)) /\
  parseDMS (VString (u16 "000" ++ cu_degree :: u16 " 00" ++ cu_prime ::
                     u16 " 05.31" ++ cu_dprime :: u16 " W"))
    = Returns (Num (-31860 # 21600000)) /\
  parseDMS (VString (u16 "-3 37 09")) = Returns (Num (-781740 # 216000)) /\
  parseDMS (VNumber (Num (3 # 2))) = Returns (Num (3 # 2)).
Proof. repeat split; vm_compute; reflexivity. Qed.

Lemma built_in_samples :
  toFixed (Num (185320 # 1)) 0 = Returns (u16 "185320") /\
  toFixed (Num (5 # 1000)) 2 = Returns (u16 "0.01") /\
  toFixed (Num (- 5 # 10000)) 2 = Returns (u16 "-0.00") /\
  toFixed (Num 1) 101 = Throws RangeError /\
  toPrecision (Num (123456 # 100)) 3 = Returns (u16 "1.23e+3") /\
  toPrecision (Num (123456 # 100)) 6 = Returns (u16 "1234.56") /\
  toPrecision (Num (999 # 1000)) 2 = Returns (u16 "1.0") /\
  toPrecision (Num (1 # 1000000)) 2 = Returns (u16 "0.0000010") /\
  toPrecision (Num (1 # 10000000)) 2 = Returns (u16 "1.0e-7") /\
  toPrecision (Num 1) 0 = Throws RangeError /\
  NumberToString (Num (- 25 # 2)) = u16 "-12.5" /\
  NumberToString (Num (15 # 10000000)) = u16 "0.0000015" /\
  NumberToString (Num (1 # 10000000)) = u16 "1e-7" /\
  StringToNumber (u16 " 05.31 ") = Num (531 # 100).
Proof. repeat split; vm_compute; reflexivity. Qed.
End Samples.

(** ** Codec: the type guards *)

Section Guards.
Local Open Scope Z_scope.

(** C1.  [Geo.parseDMS] does not reject an object: its guard tests the
    hoisted local [deg], not the argument, and a plain object (whose string
    is ["[object Object]"]) is answered with [NaN].  [Geo.toDMS], whose guard
    tests its argument, throws a [TypeError] for every object. *)
Theorem parseDMS_object_not_rejected :
  parseDMS (VObject (u16 "[object Object]")) = Returns NaN /\
  (forall s format dp g, toDMS (VObject s) format dp g = Throws TypeError).
Proof. split; [vm_compute |]; reflexivity. Qed.

(** The guard of [Geo.parseDMS] never fires; an exception can still come
    from the call [dmsStr.trim()] on its last line, as for the array
    [[51, 28]], and [Geo.toDMS] has two further ways to throw. *)
Lemma parseDMS_array_throws :
  parseDMS (VObject (u16 "51,28")) = Throws TypeError.
Proof. vm_compute. reflexivity. Qed.

Lemma toDMS_other_exceptions :
  toDMS (VNumber (Num 1)) (Some (u16 "dms")) (Some 101) None
    = Throws RangeError /\
  toDMS (VNumber (Num 1)) (Some (u16 "deg")) (Some 2) None
    = Throws ReferenceError.
Proof. split; vm_compute; reflexivity. Qed.

(** C7.  [Geo.toBrng(1.3601, 'd')] renders ["001.3601"] and the patch
    turns it into ["001.01"]; [Geo.toBrng(-400)] is rendered as 40 degrees,
    the remainder [-40] having lost its sign in [Geo.toDMS]. *)
Theorem toBrng_patch_rewrites_digits :
  toDMS (VNumber (Num (13601 # 10000))) (Some (u16 "d")) None None
    = Returns (Some (u16 "001.3601" ++ [cu_degree]),
               Some (u16 "001.3601" ++ [cu_degree])) /\
  toBrng (VNumber (Num (13601 # 10000))) (Some (u16 "d")) None None
    = Returns (u16 "001.01" ++ [cu_degree],
               Some (u16 "001.3601" ++ [cu_degree])) /\
  toBrng (VNumber (Num (-400 # 1))) None None None
    = Returns (u16 "040" ++ cu_degree :: u16 "00" ++ cu_prime ::
               u16 "00" ++ [cu_dprime],
               Some (u16 "040" ++ cu_degree :: u16 "00" ++ cu_prime ::
                     u16 "00" ++ [cu_dprime])).
Proof. repeat split; vm_compute; reflexivity. Qed.

(** The patch does what it is there for when rounding reaches 360. *)
Lemma toBrng_rounded_up :
  toBrng (VNumber (Num (3599999 # 10000))) None None None
    = Returns (u16 "0" ++ cu_degree :: u16 "00" ++ cu_prime ::
               u16 "00" ++ [cu_dprime],
               Some (u16 "360" ++ cu_degree :: u16 "00" ++ cu_prime ::
                     u16 "00" ++ [cu_dprime])).
Proof. vm_compute. reflexivity. Qed.

End Guards.

(** ** Codec: parsing a string *)

Section ParseString.
Local Open Scope Z_scope.

Lemma nadd_NaN_l (b : number) : nadd NaN b = NaN.
Proof. reflexivity. Qed.

Lemma nadd_NaN_r (a : number) : nadd a NaN = NaN.
Proof. destruct a; reflexivity. Qed.

Lemma ndiv_NaN_l (b : number) : ndiv NaN b = NaN.
Proof. reflexivity. Qed.

Lemma parseDMS_string_cases (s : jsstring) :
  parseDMS (VString s) =
  let dms := parseDMS_dms s in
  if str_eqb (join_comma dms) [] then Returns NaN
  else match dms with
       | [d; m; sc] =>
           let v := nadd (nadd (ndiv (StringToNumber d) (nZ 1))
                               (ndiv (StringToNumber m) (nZ 60)))
                         (ndiv (StringToNumber sc) (nZ 3600)) in
           Returns (if test_negative (trim s) then nneg v else v)
       | [d; m] =>
           let v := nadd (ndiv (StringToNumber d) (nZ 1))
                         (ndiv (StringToNumber m) (nZ 60)) in
           Returns (if test_negative (trim s) then nneg v else v)
       | [d] =>
           Returns (if test_negative (trim s) then nneg (StringToNumber d)
                    else StringToNumber d)
       | _ => Returns NaN
       end.
Proof.
  unfold parseDMS.
  change (str_eqb (typeof VUndefined) (u16 "object")) with false.
  change (str_eqb (typeof (VString s)) (u16 "number")) with false.
  cbn [andb ToString]. cbv zeta.
  destruct (str_eqb (join_comma (parseDMS_dms s)) []); [reflexivity |].
  destruct (parseDMS_dms s) as [| d [| m [| sc [| x r]]]]; try reflexivity;
    destruct (test_negative (trim s)); reflexivity.
Qed.

(** C8.  On a string [Geo.parseDMS] always returns; the result is [NaN]
    when more than three fields are left, when a field is not numeric, and
    when no field is left (the list is empty or holds one empty field). *)
Theorem parseDMS_string_never_raises (s : jsstring) :
  (exists n, parseDMS (VString s) = Returns n) /\
  ((3 < List.length (parseDMS_dms s))%nat ->
   parseDMS (VString s) = Returns NaN) /\
  ((exists f, In f (parseDMS_dms s) /\ StringToNumber f = NaN) ->
   parseDMS (VString s) = Returns NaN) /\
  (parseDMS_dms s = [] \/ parseDMS_dms s = [[]] ->
   parseDMS (VString s) = Returns NaN).
Proof.
  rewrite parseDMS_string_cases. cbv zeta.
  split; [| split; [| split]].
  - destruct (str_eqb _ _); [eexists; reflexivity |].
    destruct (parseDMS_dms s) as [| d [| m [| sc [| x r]]]];
      eexists; reflexivity.
  - intros Hlen. destruct (str_eqb _ _); [reflexivity |].
    destruct (parseDMS_dms s) as [| d [| m [| sc [| x r]]]];
      simpl in Hlen; try lia; reflexivity.
  - intros (f & Hin & Hnan). destruct (str_eqb _ _); [reflexivity |].
    destruct (parseDMS_dms s) as [| d [| m [| sc [| x r]]]];
      try reflexivity; simpl in Hin;
      repeat match goal with
             | H : _ \/ _ |- _ => destruct H
             | H : False |- _ => destruct H
             end; subst; rewrite Hnan;
      rewrite ?ndiv_NaN_l, ?nadd_NaN_r, ?nadd_NaN_l;
      destruct (test_negative (trim s)); reflexivity.
  - intros [E | E]; rewrite E; reflexivity.
Qed.

Lemma parseDMS_string_never_raises_witness :
  parseDMS (VString (u16 "1 2 3 4")) = Returns NaN /\
  parseDMS (VString (u16 "12 3.4.5")) = Returns NaN /\
  parseDMS (VString (u16 "N")) = Returns NaN.
Proof.
  split; [| split].
  - apply (proj1 (proj2 (parseDMS_string_never_raises (u16 "1 2 3 4")))).
    vm_compute. lia.
  - apply (proj1 (proj2 (proj2
             (parseDMS_string_never_raises (u16 "12 3.4.5"))))).
    exists (u16 "3.4.5"). split; [vm_compute; auto | vm_compute; reflexivity].
  - apply (proj2 (proj2 (proj2 (parseDMS_string_never_raises (u16 "N"))))).
    left. vm_compute. reflexivity.
Defined.

End ParseString.

(** ** Formatter: digits and fixed-point strings *)

Section FixedPoint.
Local Open Scope Z_scope.

Ltac bool_lia :=
  repeat (rewrite ?orb_true_iff, ?andb_true_iff, ?orb_false_iff,
            ?andb_false_iff, ?negb_true_iff, ?negb_false_iff,
            ?Z.eqb_eq, ?Z.eqb_neq, ?Z.leb_le, ?Z.leb_gt,
            ?Z.ltb_lt, ?Z.ltb_ge in *);
  lia.

Lemma is_digit_mod (n : Z) : is_digit (48 + n mod 10) = true.
Proof.
  pose proof (Z.mod_pos_bound n 10 ltac:(lia)). unfold is_digit. bool_lia.
Qed.

Lemma digits_loop_all_digits (fuel : nat) :
  forall n acc, all_digits acc = true ->
                all_digits (digits_loop fuel n acc) = true.
Proof.
  induction fuel as [| f IH]; intros n acc Hacc; [exact Hacc |].
  cbn [digits_loop]. cbv zeta.
  assert (H : all_digits ((48 + n mod 10) :: acc) = true).
  { unfold all_digits. cbn [forallb]. rewrite is_digit_mod. exact Hacc. }
  destruct (n / 10 =? 0); [exact H | now apply IH].
Qed.

Lemma digits_all_digits (n : Z) : all_digits (digits n) = true.
Proof. unfold digits. now apply digits_loop_all_digits. Qed.

Lemma digits_loop_nonempty (fuel : nat) :
  forall n acc, acc <> [] -> digits_loop fuel n acc <> [].
Proof.
  induction fuel as [| f IH]; intros n acc Hacc; [exact Hacc |].
  cbn [digits_loop]. cbv zeta.
  destruct (n / 10 =? 0); [discriminate | apply IH; discriminate].
Qed.

Lemma digits_nonempty (n : Z) : digits n <> [].
Proof.
  unfold digits. cbn [digits_loop]. cbv zeta.
  destruct (n / 10 =? 0); [discriminate | apply digits_loop_nonempty; discriminate].
Qed.

Lemma zeros_all_digits (k : nat) : all_digits (zeros k) = true.
Proof. induction k; simpl; auto. Qed.

Lemma all_digits_fixed (s : jsstring) :
  all_digits s = true -> fixed_point_form s = true.
Proof.
  unfold all_digits, fixed_point_form. rewrite !forallb_forall.
  intros H c Hc. unfold fixed_char. now rewrite (H c Hc).
Qed.

Lemma forallb_firstn {A} (f : A -> bool) (k : nat) :
  forall l, forallb f l = true -> forallb f (firstn k l) = true.
Proof.
  induction k as [| k IH]; intros [| x l] H; simpl in *; auto.
  apply andb_true_iff in H as [Hx Hl]. now rewrite Hx, IH.
Qed.

Lemma forallb_skipn {A} (f : A -> bool) (k : nat) :
  forall l, forallb f l = true -> forallb f (skipn k l) = true.
Proof.
  induction k as [| k IH]; intros [| x l] H; simpl in *; auto.
  apply andb_true_iff in H as [Hx Hl]. now apply IH.
Qed.

Lemma fixed_app (a b : jsstring) :
  fixed_point_form (a ++ b) = fixed_point_form a && fixed_point_form b.
Proof. apply forallb_app. Qed.

Lemma fixed_point_after_first (m : jsstring) :
  fixed_point_form m = true -> fixed_point_form (point_after_first m) = true.
Proof.
  destruct m as [| a [| b r]]; simpl; auto.
Qed.

Lemma point_after_first_nonempty (m : jsstring) :
  m <> [] -> point_after_first m <> [].
Proof. destruct m as [| a [| b r]]; simpl; congruence. Qed.

Lemma fixed_remove_first_dot (s : jsstring) :
  fixed_point_form s = true -> fixed_point_form (remove_first_dot s) = true.
Proof.
  induction s as [| c r IH]; simpl; auto.
  intros H. apply andb_true_iff in H as [Hc Hr].
  destruct (c =? cu_dot); simpl; [exact Hr | now rewrite Hc, IH].
Qed.

Lemma fixed_append_zeros (fuel : nat) :
  forall exp l sig, fixed_point_form sig = true ->
                    fixed_point_form (append_zeros fuel exp l sig) = true.
Proof.
  induction fuel as [| f IH]; intros exp l sig H; [exact H |].
  cbn [append_zeros].
  destruct (ngt exp (nZ l)); [| exact H].
  apply IH. rewrite fixed_app, H. reflexivity.
Qed.

Lemma fixed_prepend_zeros (fuel : nat) :
  forall exp sig, fixed_point_form sig = true ->
                  fixed_point_form (prepend_zeros fuel exp sig) = true.
Proof.
  induction fuel as [| f IH]; intros exp sig H; [exact H |].
  cbn [prepend_zeros].
  destruct (ngt exp (nZ 1)); [| exact H].
  apply IH. unfold fixed_point_form. cbn [forallb]. exact H.
Qed.

Lemma fixed_pad_trailing (sig exp : jsstring) :
  fixed_point_form sig = true ->
  fixed_point_form (pad_trailing sig exp) = true.
Proof.
  intros H. unfold pad_trailing.
  now apply fixed_append_zeros, fixed_remove_first_dot.
Qed.

Lemma fixed_pad_leading (sig exp : jsstring) :
  fixed_point_form sig = true ->
  fixed_point_form (pad_leading sig exp) = true.
Proof.
  intros H. unfold pad_leading, fixed_point_form. cbn [forallb].
  change (fixed_char cu_0) with true. change (fixed_char cu_dot) with true.
  cbn [andb]. now apply fixed_prepend_zeros, fixed_remove_first_dot.
Qed.

(** A fixed-point string holds no [e]. *)
Lemma fixed_char_not_e (c : Z) : fixed_char c = true -> (c =? cu_e) = false.
Proof. unfold fixed_char, is_digit, cu_dot, cu_minus, cu_e. intros H. bool_lia. Qed.

Lemma fixed_char_not_lt (c : Z) :
  fixed_char c = true -> is_line_terminator c = false.
Proof.
  unfold fixed_char, is_digit, cu_dot, cu_minus, is_line_terminator.
  intros H. bool_lia.
Qed.

Lemma fixed_no_exponent (c : Z) (s : jsstring) :
  fixed_point_form s = true -> includes [cu_e; c] s = false.
Proof.
  induction s as [| x r IH]; [reflexivity |].
  unfold fixed_point_form. cbn [forallb].
  intros H. apply andb_true_iff in H as [Hx Hr].
  change (includes [cu_e; c] (x :: r))
    with (starts_with [cu_e; c] (x :: r) || includes [cu_e; c] r).
  cbn [starts_with]. unfold cu_eqb at 1.
  rewrite (Z.eqb_sym cu_e x), (fixed_char_not_e _ Hx). cbn [andb orb].
  now apply IH.
Qed.

End FixedPoint.

(** ** Formatter: the two replacements *)

Section Replacements.
Local Open Scope Z_scope.

Lemma fixed_no_e (s : jsstring) : fixed_point_form s = true -> no_e s = true.
Proof.
  unfold fixed_point_form, no_e. rewrite !forallb_forall.
  intros H c Hc. now rewrite (fixed_char_not_e _ (H c Hc)).
Qed.

Lemma fixed_one_line (s : jsstring) :
  fixed_point_form s = true -> one_line s = true.
Proof.
  unfold fixed_point_form, one_line. rewrite !forallb_forall.
  intros H c Hc. now rewrite (fixed_char_not_lt _ (H c Hc)).
Qed.

Lemma all_digits_one_line (s : jsstring) :
  all_digits s = true -> one_line s = true.
Proof. intros H. now apply fixed_one_line, all_digits_fixed. Qed.

Lemma all_digits_no_e (s : jsstring) : all_digits s = true -> no_e s = true.
Proof. intros H. now apply fixed_no_e, all_digits_fixed. Qed.

(** Without a line terminator the replacement sees a single line. *)
Lemma replace_go_one_line (c : Z) (f : jsstring -> jsstring -> jsstring) :
  forall s line, one_line s = true ->
    replace_go c f line s =
    match split_exp c (line ++ s) with
    | Some (sg, ex) => f sg ex
    | None => line ++ s
    end.
Proof.
  induction s as [| x r IH]; intros line H.
  - cbn [replace_go]. rewrite app_nil_r. reflexivity.
  - unfold one_line in H. cbn [forallb] in H.
    apply andb_true_iff in H as [Hx Hr]. apply negb_true_iff in Hx.
    cbn [replace_go]. rewrite Hx, (IH (line ++ [x]) Hr), <- app_assoc.
    reflexivity.
Qed.

Lemma split_exp_no_e (c : Z) (l : jsstring) :
  no_e l = true -> split_exp c l = None.
Proof.
  induction l as [| x r IH]; [reflexivity |].
  unfold no_e. cbn [forallb]. intros H.
  apply andb_true_iff in H as [_ Hr].
  cbn [split_exp]. rewrite (IH Hr).
  destruct r as [| e [| c' [| y ex]]]; try reflexivity.
  unfold no_e in Hr. cbn [forallb] in Hr.
  apply andb_true_iff in Hr as [He _]. apply negb_true_iff in He.
  now rewrite He.
Qed.

Lemma split_exp_cons (c x : Z) (r : jsstring) :
  split_exp c (x :: r) =
  match split_exp c r with
  | Some (sg, ex) => Some (x :: sg, ex)
  | None =>
      match r with
      | e :: c' :: ((_ :: _) as ex) =>
          if (e =? cu_e) && (c' =? c) then Some ([x], ex) else None
      | _ => None
      end
  end.
Proof. reflexivity. Qed.

(** The exponent mark is found when the exponent itself holds no [e]. *)
Lemma split_exp_found (c : Z) (ex : jsstring) :
  ex <> [] -> no_e (c :: ex) = true ->
  forall sg, sg <> [] -> split_exp c (sg ++ cu_e :: c :: ex) = Some (sg, ex).
Proof.
  intros Hex Hne.
  assert (Hmark : split_exp c (cu_e :: c :: ex) = None).
  { rewrite split_exp_cons, (split_exp_no_e c _ Hne).
    unfold no_e in Hne. cbn [forallb] in Hne.
    apply andb_true_iff in Hne as [Hc _]. apply negb_true_iff in Hc.
    destruct ex as [| z [| w ex]]; try reflexivity. now rewrite Hc. }
  induction sg as [| x sg IH]; [congruence |]. intros _.
  cbn [app]. rewrite split_exp_cons. destruct sg as [| y sg].
  - cbn [app]. rewrite Hmark. destruct ex as [| z ex]; [congruence |].
    now rewrite !Z.eqb_refl.
  - rewrite IH by discriminate. reflexivity.
Qed.

(** The other sign does not match. *)
Lemma split_exp_other_sign (c c' : Z) (ex : jsstring) :
  c <> c' -> no_e (c :: ex) = true ->
  forall sg, no_e sg = true -> split_exp c' (sg ++ cu_e :: c :: ex) = None.
Proof.
  intros Hc Hne.
  assert (Hmark : split_exp c' (cu_e :: c :: ex) = None).
  { rewrite split_exp_cons, (split_exp_no_e c' _ Hne).
    unfold no_e in Hne. cbn [forallb] in Hne.
    apply andb_true_iff in Hne as [Hce _]. apply negb_true_iff in Hce.
    destruct ex as [| z [| w ex]]; try reflexivity. now rewrite Hce. }
  induction sg as [| x sg IH]; intros Hsg; [exact Hmark |].
  unfold no_e in Hsg. cbn [forallb] in Hsg.
  apply andb_true_iff in Hsg as [_ Hsg].
  cbn [app]. rewrite split_exp_cons, (IH Hsg).
  destruct sg as [| y sg].
  - cbn [app]. destruct ex as [| z ex]; [reflexivity |].
    apply Z.eqb_neq in Hc. now rewrite Hc, andb_false_r.
  - cbn [app]. cbn [forallb] in Hsg.
    apply andb_true_iff in Hsg as [Hy _]. apply negb_true_iff in Hy.
    destruct (sg ++ cu_e :: c :: ex) as [| a [| b t]]; try reflexivity;
      now rewrite Hy.
Qed.

End Replacements.


(** ** Codec: decimal strings and their values *)

Section DecimalStrings.
Local Open Scope Z_scope.

Lemma fold_digits_acc (s : jsstring) :
  forall acc,
    fold_left (fun a c => 10 * a + (c - 48)) s acc =
    acc * 10 ^ len s + digits_val s.
Proof.
  unfold digits_val, len.
  induction s as [| c r IH]; intros acc.
  - cbn [fold_left List.length]. change (Z.of_nat 0) with 0. lia.
  - cbn [fold_left List.length]. rewrite IH, (IH (10 * 0 + (c - 48))).
    rewrite Nat2Z.inj_succ, Z.pow_succ_r by lia. ring.
Qed.

Lemma digits_val_cons (c : Z) (s : jsstring) :
  digits_val (c :: s) = (c - 48) * 10 ^ len s + digits_val s.
Proof.
  unfold digits_val at 1. cbn [fold_left]. rewrite fold_digits_acc. ring.
Qed.

Lemma len_app (a b : jsstring) : len (a ++ b) = len a + len b.
Proof. unfold len. rewrite length_app. lia. Qed.

Lemma len_cons (c : Z) (s : jsstring) : len (c :: s) = len s + 1.
Proof. unfold len. cbn [List.length]. lia. Qed.

Lemma len_nonneg (s : jsstring) : 0 <= len s.
Proof. unfold len. lia. Qed.

Lemma digits_val_app (a b : jsstring) :
  digits_val (a ++ b) = digits_val a * 10 ^ len b + digits_val b.
Proof.
  unfold digits_val at 1. rewrite fold_left_app.
  fold (digits_val a). apply fold_digits_acc.
Qed.

Lemma digits_val_zeros (k : nat) : digits_val (zeros k) = 0.
Proof.
  induction k as [| k IH]; [reflexivity |].
  unfold zeros in *. cbn [repeat]. rewrite digits_val_cons, IH.
  unfold cu_0. lia.
Qed.

Lemma len_zeros (k : nat) : len (zeros k) = Z.of_nat k.
Proof. unfold len, zeros. now rewrite repeat_length. Qed.

Lemma digits_loop_val (fuel : nat) :
  forall n acc, 0 <= n < 2 ^ Z.of_nat fuel ->
    digits_val (digits_loop fuel n acc) = n * 10 ^ len acc + digits_val acc.
Proof.
  induction fuel as [| f IH]; intros n acc Hn.
  - change (2 ^ Z.of_nat 0) with 1 in Hn. cbn [digits_loop].
    replace n with 0 by lia. lia.
  - cbn [digits_loop]. cbv zeta.
    rewrite Nat2Z.inj_succ, Z.pow_succ_r in Hn by lia.
    pose proof (Z.div_mod n 10 ltac:(lia)) as Hdm.
    pose proof (Z.mod_pos_bound n 10 ltac:(lia)) as Hmod.
    destruct (n / 10 =? 0) eqn:E.
    + apply Z.eqb_eq in E. rewrite digits_val_cons.
      replace (48 + n mod 10 - 48) with n by lia. reflexivity.
    + rewrite IH.
      * rewrite digits_val_cons, len_cons, Z.pow_add_r by (pose proof (len_nonneg acc); lia).
        replace (48 + n mod 10 - 48) with (n mod 10) by lia.
        rewrite Hdm at 3. ring.
      * split; [apply Z.div_pos; lia |].
        apply Z.div_lt_upper_bound; lia.
Qed.

Lemma digits_val_digits (n : Z) : 0 <= n -> digits_val (digits n) = n.
Proof.
  intros Hn. unfold digits. rewrite digits_loop_val.
  - change (len []) with 0. change (digits_val []) with 0. lia.
  - split; [exact Hn |].
    destruct (Z.eq_dec n 0) as [-> | Hne]; [reflexivity |].
    rewrite Nat2Z.inj_succ, Z2Nat.id by apply Z.log2_nonneg.
    apply Z.log2_spec. lia.
Qed.

Lemma all_digits_app (a b : jsstring) :
  all_digits (a ++ b) = all_digits a && all_digits b.
Proof. apply forallb_app. Qed.

Lemma firstn_skipn_len (k : Z) (m : jsstring) :
  0 <= k <= len m -> len (skipz k m) = len m - k.
Proof.
  intros Hk. unfold skipz, len in *. rewrite length_skipn. lia.
Qed.

Lemma digits_val_nonneg (s : jsstring) :
  all_digits s = true -> 0 <= digits_val s.
Proof.
  induction s as [| c r IH]; [intros _; reflexivity |].
  unfold all_digits. cbn [forallb]. intros H.
  apply andb_true_iff in H as [Hc Hr].
  rewrite digits_val_cons. specialize (IH Hr).
  unfold is_digit in Hc. apply andb_true_iff in Hc as [H1 H2].
  apply Z.leb_le in H1, H2.
  assert (0 <= 10 ^ len r) by (apply Z.pow_nonneg; lia). nia.
Qed.

End DecimalStrings.

(** ** Codec: reading a decimal string back *)

Section ReadBack.
Local Open Scope Z_scope.

Lemma trim_fix (s : jsstring) :
  drop_white s = s -> drop_white (rev s) = rev s -> trim s = s.
Proof.
  intros H1 H2. unfold trim. rewrite H1, H2. apply rev_involutive.
Qed.

Lemma drop_white_head (c : Z) (r : jsstring) :
  is_white c = false -> drop_white (c :: r) = c :: r.
Proof. intros H. cbn [drop_white]. now rewrite H. Qed.

Lemma trim_ends (a z : Z) (body : jsstring) :
  is_white a = false -> is_white z = false ->
  trim (a :: body ++ [z]) = a :: body ++ [z].
Proof.
  intros Ha Hz. apply trim_fix.
  - now apply drop_white_head.
  - change (a :: body ++ [z]) with ((a :: body) ++ [z]).
    rewrite rev_app_distr. cbn [rev app]. now apply drop_white_head.
Qed.

Lemma is_digit_not_white (c : Z) : is_digit c = true -> is_white c = false.
Proof.
  unfold is_digit, is_white, is_line_terminator. intros H.
  repeat (rewrite ?orb_true_iff, ?andb_true_iff, ?orb_false_iff,
            ?andb_false_iff, ?Z.eqb_eq, ?Z.eqb_neq, ?Z.leb_le, ?Z.leb_gt in * ).
  lia.
Qed.

Lemma is_field_char_not_white (c : Z) :
  is_field_char c = true -> is_white c = false.
Proof.
  unfold is_field_char, is_digit, is_white, is_line_terminator, cu_dot, cu_comma.
  intros H.
  repeat (rewrite ?orb_true_iff, ?andb_true_iff, ?orb_false_iff,
            ?andb_false_iff, ?Z.eqb_eq, ?Z.eqb_neq, ?Z.leb_le, ?Z.leb_gt in * ).
  lia.
Qed.

Lemma trim_field_chars (s : jsstring) :
  forallb is_field_char s = true -> trim s = s.
Proof.
  intros H. rewrite forallb_forall in H. apply trim_fix.
  - destruct s as [| c r]; [reflexivity |].
    apply drop_white_head, is_field_char_not_white, H. now left.
  - destruct (rev s) as [| c r] eqn:E; [reflexivity |].
    apply drop_white_head, is_field_char_not_white, H.
    apply in_rev. rewrite E. now left.
Qed.

Lemma split_at_none (p : Z -> bool) (s : jsstring) :
  forallb (fun c => negb (p c)) s = true -> split_at p s = (s, None).
Proof.
  induction s as [| c r IH]; [reflexivity |].
  cbn [forallb split_at]. intros H.
  apply andb_true_iff in H as [Hc Hr]. apply negb_true_iff in Hc.
  now rewrite Hc, (IH Hr).
Qed.

Lemma split_at_found (p : Z -> bool) (a b : jsstring) (x : Z) :
  forallb (fun c => negb (p c)) a = true -> p x = true ->
  split_at p (a ++ x :: b) = (a, Some b).
Proof.
  intros Ha Hx. induction a as [| c r IH].
  - cbn [app split_at]. now rewrite Hx.
  - cbn [forallb] in Ha. apply andb_true_iff in Ha as [Hc Hr].
    apply negb_true_iff in Hc.
    cbn [app split_at]. now rewrite Hc, (IH Hr).
Qed.

Lemma all_digits_no_dot (s : jsstring) :
  all_digits s = true -> forallb (fun c => negb (c =? cu_dot)) s = true.
Proof.
  unfold all_digits. rewrite !forallb_forall. intros H c Hc.
  specialize (H c Hc). unfold is_digit, cu_dot in *.
  apply andb_true_iff in H as [H1 H2]. apply Z.leb_le in H1, H2.
  apply negb_true_iff, Z.eqb_neq. lia.
Qed.

Lemma all_digits_field (s : jsstring) :
  all_digits s = true -> forallb is_field_char s = true.
Proof.
  unfold all_digits. rewrite !forallb_forall. intros H c Hc.
  unfold is_field_char. now rewrite (H c Hc).
Qed.

Lemma dec_str_field (s : jsstring) (n f : Z) :
  dec_str s n f ->
  forallb is_field_char s = true /\
  exists c r, s = c :: r /\ is_digit c = true.
Proof.
  intros (ip & fp & Hip & Hfp & Hne & _ & _ & Hs).
  destruct ip as [| c ip]; [congruence |].
  pose proof Hip as Hip'. unfold all_digits in Hip'. cbn [forallb] in Hip'.
  apply andb_true_iff in Hip' as [Hc _].
  destruct Hs as [-> | [-> ->]].
  - split; [| now exists c, (ip ++ cu_dot :: fp)].
    rewrite forallb_app, (all_digits_field _ Hip). cbn [forallb andb].
    now rewrite (all_digits_field _ Hfp).
  - split; [now apply all_digits_field | now exists c, ip].
Qed.

Lemma field_char_no_exp (s : jsstring) :
  forallb is_field_char s = true ->
  forallb (fun c => negb ((c =? cu_e) || (c =? 69))) s = true.
Proof.
  rewrite !forallb_forall. intros H c Hc. specialize (H c Hc).
  unfold is_field_char, is_digit, cu_dot, cu_comma, cu_e in *.
  repeat (rewrite ?orb_true_iff, ?andb_true_iff, ?negb_true_iff,
            ?orb_false_iff, ?Z.eqb_eq, ?Z.eqb_neq, ?Z.leb_le in * ).
  lia.
Qed.

(** On a numeral made of digits and full stops, [StringToNumber] is its
    mantissa. *)
Lemma StringToNumber_mantissa (c : Z) (r : jsstring) :
  is_digit c = true -> forallb is_field_char (c :: r) = true ->
  StringToNumber (c :: r) =
  match parse_mantissa (c :: r) with
  | Some q => Num (q * pow10 0)%Q
  | None => NaN
  end.
Proof.
  intros Hc Hs. unfold StringToNumber.
  rewrite (trim_field_chars _ Hs).
  assert (Hsign : strip_sign (c :: r) = (false, c :: r)).
  { unfold strip_sign, is_digit, cu_minus, cu_plus in *.
    apply andb_true_iff in Hc as [H1 H2]. apply Z.leb_le in H1, H2.
    replace (c =? 45) with false by (symmetry; apply Z.eqb_neq; lia).
    replace (c =? 43) with false by (symmetry; apply Z.eqb_neq; lia).
    reflexivity. }
  rewrite Hsign, (split_at_none _ _ (field_char_no_exp _ Hs)).
  destruct (parse_mantissa (c :: r)); reflexivity.
Qed.

Lemma dec_str_mantissa (s : jsstring) (n f : Z) :
  dec_str s n f ->
  parse_mantissa s = Some (inject_Z n * pow10 (- f))%Q.
Proof.
  intros (ip & fp & Hip & Hfp & Hne & Hlen & Hval & Hs).
  unfold parse_mantissa.
  assert (Hlenb : negb (len ip + len fp =? 0) = true).
  { apply negb_true_iff, Z.eqb_neq. destruct ip; [congruence |].
    rewrite len_cons. pose proof (len_nonneg ip). pose proof (len_nonneg fp). lia. }
  destruct Hs as [-> | [-> ->]].
  - rewrite (@split_at_found _ ip fp cu_dot (all_digits_no_dot _ Hip) eq_refl).
    rewrite Hip, Hfp, Hlenb, Hval, Hlen. reflexivity.
  - rewrite (split_at_none _ _ (all_digits_no_dot _ Hip)).
    rewrite Hip, Hlenb, Hval. cbn [all_digits forallb andb].
    rewrite <- Hlen. reflexivity.
Qed.

Lemma dec_str_number (s : jsstring) (n f : Z) :
  dec_str s n f ->
  StringToNumber s = Num (inject_Z n * pow10 (- f) * pow10 0)%Q.
Proof.
  intros H. destruct (dec_str_field H) as (Hfield & c & r & -> & Hc).
  rewrite (@StringToNumber_mantissa c r Hc Hfield), (@dec_str_mantissa _ n f H).
  reflexivity.
Qed.

Lemma dec_str_pad (s : jsstring) (n f : Z) :
  dec_str s n f -> dec_str (cu_0 :: s) n f.
Proof.
  intros (ip & fp & Hip & Hfp & Hne & Hlen & Hval & Hs).
  exists (cu_0 :: ip), fp. repeat split; try assumption.
  - discriminate.
  - destruct Hs as [-> | [-> ->]]; [left | right]; auto.
Qed.

Lemma dec_str_digits (n : Z) : 0 <= n -> dec_str (digits n) n 0.
Proof.
  intros Hn. exists (digits n), []. repeat split.
  - apply digits_all_digits.
  - apply digits_nonempty.
  - rewrite app_nil_r. now apply digits_val_digits.
  - right. auto.
Qed.

Lemma fixed_string_dec (n f : Z) :
  0 <= n -> 0 <= f -> dec_str (fixed_string n f) n f.
Proof.
  intros Hn Hf. unfold fixed_string.
  destruct (f =? 0) eqn:E.
  - apply Z.eqb_eq in E. subst f. now apply dec_str_digits.
  - apply Z.eqb_neq in E.
    set (m := if len (digits n) <=? f
              then zerosz (f + 1 - len (digits n)) ++ digits n
              else digits n).
    assert (Hm : all_digits m = true /\ digits_val m = n /\ f + 1 <= len m).
    { subst m. destruct (len (digits n) <=? f) eqn:L.
      - apply Z.leb_le in L. pose proof (len_nonneg (digits n)).
        rewrite all_digits_app, digits_val_app, len_app.
        unfold zerosz. rewrite zeros_all_digits, digits_val_zeros, len_zeros.
        rewrite digits_all_digits, digits_val_digits by exact Hn.
        repeat split; lia.
      - apply Z.leb_gt in L.
        rewrite digits_all_digits, digits_val_digits by exact Hn.
        repeat split; lia. }
    destruct Hm as (Hall & Hval & Hlen).
    exists (firstz (len m - f) m), (skipz (len m - f) m).
    assert (Hcat : firstz (len m - f) m ++ skipz (len m - f) m = m)
      by apply firstn_skipn.
    repeat split.
    + now apply forallb_firstn.
    + now apply forallb_skipn.
    + intros Hnil. unfold firstz in Hnil.
      apply (f_equal (@List.length Z)) in Hnil.
      rewrite length_firstn in Hnil. cbn [List.length] in Hnil.
      unfold len in *. lia.
    + rewrite firstn_skipn_len; lia.
    + now rewrite Hcat.
    + left. reflexivity.
Qed.

End ReadBack.

(** ** Codec: arithmetic of the exact model *)

Section ExactArithmetic.
Local Open Scope Q_scope.

Lemma pow10_pos (k : Z) : 0 < pow10 k.
Proof. unfold pow10. apply Qpower_0_lt. reflexivity. Qed.

Lemma pow10_Z (k : Z) : (0 <= k)%Z -> pow10 k == inject_Z (10 ^ k).
Proof. intros H. unfold pow10. now rewrite Zpower_Qpower. Qed.

Lemma pow10_opp (k : Z) : pow10 (- k) == / pow10 k.
Proof. unfold pow10. apply Qpower_opp. Qed.

Lemma dec_value (n f : Z) :
  (0 <= f)%Z ->
  inject_Z n * pow10 (- f) * pow10 0 == inject_Z n / inject_Z (10 ^ f).
Proof.
  intros Hf. rewrite pow10_opp, (pow10_Z Hf).
  change (pow10 0) with 1. unfold Qdiv. ring.
Qed.

Lemma inject_Z_pow10_pos (f : Z) : (0 <= f)%Z -> 0 < inject_Z (10 ^ f).
Proof. intros Hf. rewrite <- (pow10_Z Hf). apply pow10_pos. Qed.

Lemma Qfloor_unique (z : Z) (q : Q) :
  inject_Z z <= q -> q < inject_Z z + 1 -> Qfloor q = z.
Proof.
  intros Hlo Hhi.
  pose proof (Qfloor_le q) as H1. pose proof (Qlt_floor q) as H2.
  assert (Ha : inject_Z (Qfloor q) < inject_Z (z + 1)).
  { rewrite inject_Z_plus. change (inject_Z 1) with 1.
    eapply Qle_lt_trans; eassumption. }
  assert (Hb : inject_Z z < inject_Z (Qfloor q + 1)).
  { eapply Qle_lt_trans; eassumption. }
  rewrite <- Zlt_Qlt in Ha, Hb. lia.
Qed.

Lemma Qfloor_nonneg (q : Q) : 0 <= q -> (0 <= Qfloor q)%Z.
Proof.
  intros H. change 0%Z with (Qfloor 0). now apply Qfloor_resp_le.
Qed.

Lemma Qtrunc_nonneg (q : Q) : 0 <= q -> Qtrunc q = Qfloor q.
Proof.
  intros H. unfold Qtrunc.
  destruct (Qle_bool 0 q) eqn:E; [reflexivity |].
  apply Qle_bool_iff in H. congruence.
Qed.

Lemma Qlt_bool_true (a b : Q) : a < b -> Qlt_bool a b = true.
Proof.
  intros H. unfold Qlt_bool. apply negb_true_iff.
  destruct (Qle_bool b a) eqn:E; [| reflexivity].
  apply Qle_bool_iff in E. Lqa.lra.
Qed.

Lemma Qlt_bool_false (a b : Q) : b <= a -> Qlt_bool a b = false.
Proof.
  intros H. unfold Qlt_bool. apply negb_false_iff. now apply Qle_bool_iff.
Qed.

Lemma Qle_bool_false (a b : Q) : b < a -> Qle_bool a b = false.
Proof.
  intros H. destruct (Qle_bool a b) eqn:E; [| reflexivity].
  apply Qle_bool_iff in E. Lqa.lra.
Qed.

(** [toFixed] on a non-negative number below [10^21]. *)
Lemma toFixed_nonneg (a : Q) (f : Z) :
  (0 <= f <= 100)%Z -> 0 <= a -> a < pow10 21 ->
  toFixed (Num a) f =
  Returns (fixed_string (Qfloor (Qabs a * pow10 f + (1 # 2))) f).
Proof.
  intros Hf Ha Hbig. unfold toFixed.
  replace ((f <? 0)%Z || (100 <? f)%Z) with false
    by (symmetry; apply orb_false_iff; split; apply Z.ltb_ge; lia).
  rewrite Qle_bool_false by (rewrite Qabs_pos; assumption).
  rewrite (Qlt_bool_false Ha). reflexivity.
Qed.

(** [Number::toString] of a non-negative integer below [10^21]. *)
Lemma NumberToString_integer (q : Q) (z : Z) :
  q == inject_Z z -> (0 <= z < 10 ^ 21)%Z ->
  NumberToString (Num q) = digits z.
Proof.
  intros Hq Hz. unfold NumberToString.
  rewrite (Qred_complete _ _ Hq).
  rewrite (Qcanon.Qred_identity (inject_Z z)) by apply Z.gcd_1_r.
  change (Qabs (inject_Z z)) with (Z.abs z # 1).
  rewrite Z.abs_eq by lia.
  replace (Qlt_bool (inject_Z z) 0) with false
    by (symmetry; apply Qlt_bool_false; unfold Qle, inject_Z; simpl; lia).
  destruct (Z.eq_dec z 0) as [-> | Hne]; [reflexivity |].
  replace (Qeq_bool (z # 1) 0) with false.
  2:{ symmetry. destruct (Qeq_bool (z # 1) 0) eqn:E; [| reflexivity].
      apply Qeq_bool_iff in E. unfold Qeq in E. simpl in E. lia. }
  cbn [Qden Qnum inject_Z]. change (Z.pos 1 =? 1)%Z with true.
  rewrite Qlt_bool_true; [reflexivity |].
  rewrite (pow10_Z (k := 21)) by lia.
  unfold Qlt, inject_Z. simpl Qnum. simpl Qden. lia.
Qed.

End ExactArithmetic.

(** ** Formatter: the significant digits of [toPrecision] *)

Section SignificantDigits.
Local Open Scope Z_scope.

Lemma digits_loop_len (fuel : nat) :
  forall n acc, 0 < n < 2 ^ Z.of_nat fuel ->
    let L := len (digits_loop fuel n acc) - len acc in
    1 <= L /\ 10 ^ (L - 1) <= n < 10 ^ L.
Proof.
  induction fuel as [| f IH]; intros n acc Hn.
  - change (2 ^ Z.of_nat 0) with 1 in Hn. lia.
  - cbn [digits_loop]. cbv zeta.
    rewrite Nat2Z.inj_succ, Z.pow_succ_r in Hn by lia.
    pose proof (Z.div_mod n 10 ltac:(lia)) as Hdm.
    pose proof (Z.mod_pos_bound n 10 ltac:(lia)) as Hmod.
    destruct (n / 10 =? 0) eqn:E.
    + apply Z.eqb_eq in E. rewrite len_cons.
      replace (len acc + 1 - len acc) with 1 by lia.
      change (10 ^ (1 - 1)) with 1. change (10 ^ 1) with 10. lia.
    + apply Z.eqb_neq in E.
      assert (Hq : 0 < n / 10 < 2 ^ Z.of_nat f).
      { split.
        - assert (0 <= n / 10) by (apply Z.div_pos; lia). lia.
        - apply Z.div_lt_upper_bound; lia. }
      specialize (IH (n / 10) ((48 + n mod 10) :: acc) Hq). cbv zeta in IH.
      rewrite len_cons in IH.
      set (L' := len (digits_loop f (n / 10) ((48 + n mod 10) :: acc))
                 - (len acc + 1)) in *.
      replace (len (digits_loop f (n / 10) ((48 + n mod 10) :: acc)) - len acc)
        with (L' + 1) by (subst L'; lia).
      destruct IH as (HL & Hlo & Hhi).
      replace (L' + 1 - 1) with (L' - 1 + 1) by lia.
      rewrite !Z.pow_add_r by lia. change (10 ^ 1) with 10.
      split; [lia |]. split; nia.
Qed.

Lemma digits_len_bounds (n : Z) :
  0 < n ->
  1 <= len (digits n) /\ 10 ^ (len (digits n) - 1) <= n < 10 ^ len (digits n).
Proof.
  intros Hn. unfold digits.
  pose proof (@digits_loop_len (S (Z.to_nat (Z.log2 n))) n []) as H.
  cbv zeta in H. change (len []) with 0 in H. rewrite Z.sub_0_r in H.
  apply H. split; [exact Hn |].
  rewrite Nat2Z.inj_succ, Z2Nat.id by apply Z.log2_nonneg.
  apply Z.log2_spec. exact Hn.
Qed.

Lemma digits_len_unique (n k : Z) :
  1 <= k -> 10 ^ (k - 1) <= n < 10 ^ k -> len (digits n) = k.
Proof.
  intros Hk [Hlo Hhi].
  assert (Hn : 0 < n).
  { assert (0 < 10 ^ (k - 1)) by (apply Z.pow_pos_nonneg; lia). lia. }
  destruct (digits_len_bounds Hn) as (HL & Hl & Hh).
  set (L := len (digits n)) in *.
  destruct (Z.lt_trichotomy L k) as [Hlt | [Heq | Hgt]]; [| exact Heq |].
  - assert (10 ^ L <= 10 ^ (k - 1)) by (apply Z.pow_le_mono_r; lia). lia.
  - assert (10 ^ k <= 10 ^ (L - 1)) by (apply Z.pow_le_mono_r; lia). lia.
Qed.

End SignificantDigits.

Section SignificantDigitsQ.
Local Open Scope Q_scope.

Lemma pow10_add (a b : Z) : pow10 (a + b) == pow10 a * pow10 b.
Proof. unfold pow10. apply Qpower_plus. discriminate. Qed.

Lemma pow10_sub_Z (u v : Z) :
  (0 <= u)%Z -> (0 <= v)%Z ->
  pow10 (u - v) == inject_Z (10 ^ u) / inject_Z (10 ^ v).
Proof.
  intros Hu Hv. rewrite <- (pow10_Z Hu), <- (pow10_Z Hv).
  unfold pow10. apply Qpower_minus. discriminate.
Qed.

Lemma Qfrac_lt (a b c d : Z) :
  (0 < b)%Z -> (0 < d)%Z -> (a * d < c * b)%Z ->
  inject_Z a / inject_Z b < inject_Z c / inject_Z d.
Proof.
  intros Hb Hd H.
  assert (Hb' : 0 < inject_Z b) by (change 0 with (inject_Z 0); now rewrite <- Zlt_Qlt).
  assert (Hd' : 0 < inject_Z d) by (change 0 with (inject_Z 0); now rewrite <- Zlt_Qlt).
  apply Qlt_shift_div_r; [exact Hb' |].
  assert (E : inject_Z c / inject_Z d * inject_Z b ==
              inject_Z c * inject_Z b / inject_Z d) by (field; Lqa.lra).
  rewrite E. apply Qlt_shift_div_l; [exact Hd' |].
  rewrite <- !inject_Z_mult, <- Zlt_Qlt. exact H.
Qed.

Lemma Qfrac_le (a b c d : Z) :
  (0 < b)%Z -> (0 < d)%Z -> (a * d <= c * b)%Z ->
  inject_Z a / inject_Z b <= inject_Z c / inject_Z d.
Proof.
  intros Hb Hd H.
  assert (Hb' : 0 < inject_Z b) by (change 0 with (inject_Z 0); now rewrite <- Zlt_Qlt).
  assert (Hd' : 0 < inject_Z d) by (change 0 with (inject_Z 0); now rewrite <- Zlt_Qlt).
  apply Qle_shift_div_r; [exact Hb' |].
  assert (E : inject_Z c / inject_Z d * inject_Z b ==
              inject_Z c * inject_Z b / inject_Z d) by (field; Lqa.lra).
  rewrite E. apply Qle_shift_div_l; [exact Hd' |].
  rewrite <- !inject_Z_mult, <- Zle_Qle. exact H.
Qed.

(** [floor_log10] is the decimal exponent of a positive rational. *)
Lemma floor_log10_spec (x : Q) :
  0 < x -> pow10 (floor_log10 x) <= x /\ x < pow10 (floor_log10 x + 1).
Proof.
  intros Hx. destruct x as [a b].
  assert (Ha : (0 < a)%Z) by (unfold Qlt in Hx; simpl in Hx; lia).
  unfold floor_log10. cbn [Qnum Qden].
  destruct (digits_len_bounds Ha) as (Hla & Hal & Hah).
  destruct (@digits_len_bounds (Zpos b) ltac:(lia)) as (Hlb & Hbl & Hbh).
  set (la := len (digits a)) in *. set (lb := len (digits (Zpos b))) in *.
  assert (Pa : (0 < 10 ^ la)%Z) by (apply Z.pow_pos_nonneg; lia).
  assert (Pa' : (0 < 10 ^ (la - 1))%Z) by (apply Z.pow_pos_nonneg; lia).
  assert (Pb : (0 < 10 ^ lb)%Z) by (apply Z.pow_pos_nonneg; lia).
  assert (Pb' : (0 < 10 ^ (lb - 1))%Z) by (apply Z.pow_pos_nonneg; lia).
  assert (Elo : pow10 (la - lb - 1) ==
                inject_Z (10 ^ (la - 1)) / inject_Z (10 ^ lb)).
  { replace (la - lb - 1)%Z with ((la - 1) - lb)%Z by lia.
    apply pow10_sub_Z; lia. }
  assert (Ehi : pow10 (la - lb + 1) ==
                inject_Z (10 ^ la) / inject_Z (10 ^ (lb - 1))).
  { replace (la - lb + 1)%Z with (la - (lb - 1))%Z by lia.
    apply pow10_sub_Z; lia. }
  assert (Hlo : pow10 (la - lb - 1) <= a # b).
  { rewrite Elo, (Qmake_Qdiv a b). apply Qfrac_le; nia. }
  assert (Hhi : a # b < pow10 (la - lb + 1)).
  { rewrite Ehi, (Qmake_Qdiv a b). apply Qfrac_lt; nia. }
  destruct (Qle_bool (pow10 (la - lb)) (a # b)) eqn:E.
  - apply Qle_bool_iff in E. split; assumption.
  - replace (la - lb - 1 + 1)%Z with (la - lb)%Z by lia.
    split; [exact Hlo |].
    destruct (Qlt_le_dec (a # b) (pow10 (la - lb))) as [H | H]; [exact H |].
    apply Qle_bool_iff in H. congruence.
Qed.

(** The [n] of [sig_digits] has exactly [p] digits. *)
Lemma sig_digits_range (x : Q) (p : Z) :
  0 < x -> (1 <= p)%Z ->
  (10 ^ (p - 1) <= snd (sig_digits x p) < 10 ^ p)%Z.
Proof.
  intros Hx Hp. unfold sig_digits.
  destruct (floor_log10_spec Hx) as [Hlo Hhi].
  revert Hlo Hhi. generalize (floor_log10 x). intros e0 Hlo Hhi.
  remember (x * pow10 (p - 1 - e0)) as y eqn:Ey.
  assert (Hs : 0 < pow10 (p - 1 - e0)) by apply pow10_pos.
  assert (Hylo : inject_Z (10 ^ (p - 1)) <= y).
  { rewrite <- (pow10_Z (k := p - 1)) by lia.
    assert (E : pow10 (p - 1) == pow10 e0 * pow10 (p - 1 - e0)).
    { rewrite <- pow10_add.
      replace (e0 + (p - 1 - e0))%Z with (p - 1)%Z by lia. reflexivity. }
    rewrite E, Ey. apply Qmult_le_compat_r; [exact Hlo |].
    now apply Qlt_le_weak. }
  assert (Hyhi : y < inject_Z (10 ^ p)).
  { rewrite <- (pow10_Z (k := p)) by lia.
    assert (E : pow10 p == pow10 (e0 + 1) * pow10 (p - 1 - e0)).
    { rewrite <- pow10_add.
      replace (e0 + 1 + (p - 1 - e0))%Z with p by lia. reflexivity. }
    rewrite E, Ey. apply Qmult_lt_compat_r; assumption. }
  remember (Qfloor (y + (1 # 2))) as n0 eqn:En0.
  assert (Hn0lo : (10 ^ (p - 1) <= n0)%Z).
  { rewrite En0, <- (Qfloor_Z (10 ^ (p - 1))). apply Qfloor_resp_le. Lqa.lra. }
  assert (Hn0hi : (n0 <= 10 ^ p)%Z).
  { pose proof (Qfloor_le (y + (1 # 2))) as H. rewrite <- En0 in H.
    assert (H' : inject_Z n0 < inject_Z (10 ^ p + 1)).
    { rewrite inject_Z_plus. change (inject_Z 1) with 1. Lqa.lra. }
    rewrite <- Zlt_Qlt in H'. lia. }
  assert (Hpow : (10 ^ (p - 1) < 10 ^ p)%Z) by (apply Z.pow_lt_mono_r; lia).
  destruct (n0 =? 10 ^ p)%Z eqn:E; cbn [snd].
  - lia.
  - apply Z.eqb_neq in E. lia.
Qed.

End SignificantDigitsQ.

Section SignificantDigitsFixed.
Local Open Scope Z_scope.

Lemma filter_digits_id (m : jsstring) :
  all_digits m = true -> filter is_digit m = m.
Proof.
  induction m as [| c r IH]; [reflexivity |].
  unfold all_digits. cbn [forallb filter]. intros H.
  apply andb_true_iff in H as [Hc Hr]. rewrite Hc. f_equal. now apply IH.
Qed.

Lemma filter_digits_sign (sign : jsstring) :
  sign = [] \/ sign = [cu_minus] -> filter is_digit sign = [].
Proof. intros [-> | ->]; reflexivity. Qed.

Lemma filter_digits_remove_dot (s : jsstring) :
  filter is_digit (remove_first_dot s) = filter is_digit s.
Proof.
  induction s as [| c r IH]; [reflexivity |].
  cbn [remove_first_dot]. destruct (c =? cu_dot) eqn:E.
  - apply Z.eqb_eq in E. subst c. reflexivity.
  - cbn [filter]. now rewrite IH.
Qed.

Lemma filter_digits_point (m : jsstring) :
  all_digits m = true -> filter is_digit (point_after_first m) = m.
Proof.
  intros H. destruct m as [| a [| b r]]; try (now apply filter_digits_id).
  unfold point_after_first.
  pose proof (filter_digits_id _ H) as E. cbn [filter] in E |- *.
  unfold all_digits in H. cbn [forallb] in H.
  apply andb_true_iff in H as [Ha H]. rewrite Ha in E |- *.
  change (is_digit cu_dot) with false. cbv iota. exact E.
Qed.

Lemma filter_digits_split (k : Z) (m : jsstring) :
  all_digits m = true ->
  filter is_digit (firstz k m ++ cu_dot :: skipz k m) = m.
Proof.
  intros H. rewrite filter_app. cbn [filter].
  change (is_digit cu_dot) with false. cbv iota.
  rewrite (filter_digits_id (firstz k m)) by now apply forallb_firstn.
  rewrite (filter_digits_id (skipz k m)) by now apply forallb_skipn.
  apply firstn_skipn.
Qed.

Lemma filter_digits_zeros (j : nat) : filter is_digit (zeros j) = zeros j.
Proof. apply filter_digits_id, zeros_all_digits. Qed.

Lemma append_zeros_shape (fuel : nat) :
  forall exp l sig, exists j, append_zeros fuel exp l sig = sig ++ zeros j.
Proof.
  induction fuel as [| f IH]; intros exp l sig.
  - exists O. cbn [append_zeros zeros repeat]. now rewrite app_nil_r.
  - cbn [append_zeros]. destruct (ngt exp (nZ l)).
    + destruct (IH (nsub exp (nZ 1)) l (sig ++ [cu_0])) as (j & ->).
      exists (S j). rewrite <- app_assoc. reflexivity.
    + exists O. cbn [zeros repeat]. now rewrite app_nil_r.
Qed.

Lemma zeros_snoc (j : nat) : zeros j ++ [cu_0] = zeros (S j).
Proof.
  unfold zeros. induction j as [| j IH]; [reflexivity |].
  cbn [repeat app]. now rewrite IH.
Qed.

Lemma prepend_zeros_shape (fuel : nat) :
  forall exp sig, exists j, prepend_zeros fuel exp sig = zeros j ++ sig.
Proof.
  induction fuel as [| f IH]; intros exp sig.
  - exists O. reflexivity.
  - cbn [prepend_zeros]. destruct (ngt exp (nZ 1)).
    + destruct (IH (nsub exp (nZ 1)) (cu_0 :: sig)) as (j & ->).
      exists (S j). rewrite <- zeros_snoc, <- app_assoc. reflexivity.
    + exists O. reflexivity.
Qed.

End SignificantDigitsFixed.

(** ** Formatter: [toPrecisionFixed] never shows an exponent *)

Section NoExponent.
Local Open Scope Z_scope.

Lemma fixed_cons (c : Z) (s : jsstring) :
  fixed_point_form (c :: s) = fixed_char c && fixed_point_form s.
Proof. reflexivity. Qed.

Lemma fixed_digits (n : Z) : fixed_point_form (digits n) = true.
Proof. apply all_digits_fixed, digits_all_digits. Qed.

Lemma fixed_zerosz (k : Z) : fixed_point_form (zerosz k) = true.
Proof. apply all_digits_fixed, zeros_all_digits. Qed.

Lemma fixed_firstz (k : Z) (s : jsstring) :
  fixed_point_form s = true -> fixed_point_form (firstz k s) = true.
Proof. apply forallb_firstn. Qed.

Lemma fixed_skipz (k : Z) (s : jsstring) :
  fixed_point_form s = true -> fixed_point_form (skipz k s) = true.
Proof. apply forallb_skipn. Qed.

Lemma fixed_sign (sign : jsstring) :
  sign = [] \/ sign = [cu_minus] -> fixed_point_form sign = true.
Proof. intros [-> | ->]; reflexivity. Qed.

Lemma replace_exp_fixed (c : Z) (f : jsstring -> jsstring -> jsstring)
    (s : jsstring) :
  fixed_point_form s = true -> replace_exp c f s = s.
Proof.
  intros H. unfold replace_exp.
  rewrite replace_go_one_line by now apply fixed_one_line.
  cbn [app]. now rewrite split_exp_no_e by now apply fixed_no_e.
Qed.

Lemma exponent_one_line (sg ex : jsstring) (c : Z) :
  c = cu_plus \/ c = cu_minus ->
  fixed_point_form sg = true -> all_digits ex = true ->
  one_line (sg ++ cu_e :: c :: ex) = true.
Proof.
  intros Hc Hsg Hex. unfold one_line. rewrite forallb_app. cbn [forallb].
  fold (one_line sg). fold (one_line ex).
  rewrite (fixed_one_line _ Hsg), (all_digits_one_line _ Hex).
  destruct Hc; subst c; reflexivity.
Qed.

Lemma exponent_no_e (ex : jsstring) (c : Z) :
  c = cu_plus \/ c = cu_minus -> all_digits ex = true ->
  no_e (c :: ex) = true.
Proof.
  intros Hc Hex. unfold no_e. cbn [forallb]. fold (no_e ex).
  rewrite (all_digits_no_e _ Hex). destruct Hc; subst c; reflexivity.
Qed.

(** What the two replacements make of an exponential rendering. *)
Lemma replace_positive_exponent (sg ex : jsstring) :
  fixed_point_form sg = true -> sg <> [] ->
  all_digits ex = true -> ex <> [] ->
  replace_exp cu_minus pad_leading
    (replace_exp cu_plus pad_trailing (sg ++ cu_e :: cu_plus :: ex)) =
  pad_trailing sg ex.
Proof.
  intros Hsg Hne Hex Hexne.
  pose proof (@exponent_one_line sg ex cu_plus (or_introl eq_refl) Hsg Hex) as Hline.
  pose proof (@exponent_no_e ex cu_plus (or_introl eq_refl) Hex) as Hnoe.
  unfold replace_exp at 2.
  rewrite replace_go_one_line by exact Hline. cbn [app].
  rewrite (@split_exp_found _ ex Hexne Hnoe sg Hne).
  apply replace_exp_fixed. now apply fixed_pad_trailing.
Qed.

Lemma replace_negative_exponent (sg ex : jsstring) :
  fixed_point_form sg = true -> sg <> [] ->
  all_digits ex = true -> ex <> [] ->
  replace_exp cu_minus pad_leading
    (replace_exp cu_plus pad_trailing (sg ++ cu_e :: cu_minus :: ex)) =
  pad_leading sg ex.
Proof.
  intros Hsg Hne Hex Hexne.
  pose proof (@exponent_one_line sg ex cu_minus (or_intror eq_refl) Hsg Hex) as Hline.
  pose proof (@exponent_no_e ex cu_minus (or_intror eq_refl) Hex) as Hnoe.
  unfold replace_exp at 2.
  rewrite replace_go_one_line by exact Hline. cbn [app].
  rewrite (@split_exp_other_sign cu_minus cu_plus ex ltac:(discriminate) Hnoe sg)
    by now apply fixed_no_e.
  unfold replace_exp.
  rewrite replace_go_one_line by exact Hline. cbn [app].
  now rewrite (@split_exp_found _ ex Hexne Hnoe sg Hne).
Qed.

Lemma Qabs_zero (q : Q) : (Qabs q == 0)%Q -> (q == 0)%Q.
Proof.
  intros H. assert (Hle : (Qabs q <= 0)%Q) by (rewrite H; apply Qle_refl).
  apply Qabs_Qle_condition in Hle. destruct Hle as [H1 H2].
  apply Qle_antisym; [exact H2 | exact H1].
Qed.

(** The four layouts of a [toPrecision] result, around its [p] significant
    digits [m]. *)
Lemma toPrecision_layout (q : Q) (p : Z) :
  1 <= p <= 100 ->
  exists sign m e,
    (sign = [] \/ sign = [cu_minus]) /\
    all_digits m = true /\ len m = p /\
    (~ (q == 0)%Q -> 10 ^ (p - 1) <= digits_val m < 10 ^ p) /\
    (toPrecision (Num q) p =
       Returns (sign ++ point_after_first m ++ exponent_suffix e) \/
     toPrecision (Num q) p = Returns (sign ++ m) \/
     toPrecision (Num q) p =
       Returns (sign ++ firstz (e + 1) m ++ cu_dot :: skipz (e + 1) m) \/
     toPrecision (Num q) p =
       Returns (sign ++ cu_0 :: cu_dot :: zerosz (- (e + 1)) ++ m)).
Proof.
  intros Hp. unfold toPrecision.
  replace ((p <? 1) || (100 <? p)) with false
    by (symmetry; apply orb_false_iff; split; [apply Z.ltb_ge | apply Z.ltb_ge]; lia).
  set (sign := if Qlt_bool q 0 then [cu_minus] else []).
  assert (Hsign : sign = [] \/ sign = [cu_minus])
    by (subst sign; destruct (Qlt_bool q 0); auto).
  destruct (Qeq_bool (Qabs q) 0) eqn:E0.
  - apply Qeq_bool_iff, Qabs_zero in E0.
    exists sign, (zerosz p), 0. split; [exact Hsign |].
    split; [apply zeros_all_digits |].
    split; [unfold zerosz; rewrite len_zeros; lia |].
    split; [intros Hq; contradiction |].
    replace ((0 <? -6) || (p <=? 0)) with false
      by (symmetry; apply orb_false_iff; split; [reflexivity | apply Z.leb_gt; lia]).
    destruct (0 =? p - 1); [auto |]. change (0 <=? 0) with true. auto.
  - assert (Hpos : (0 < Qabs q)%Q).
    { pose proof (Qabs_nonneg q) as H0. apply Qeq_bool_neq in E0.
      destruct (Qlt_le_dec 0 (Qabs q)) as [H | H]; [exact H |].
      exfalso. apply E0. now apply Qle_antisym. }
    pose proof (@sig_digits_range (Qabs q) p Hpos (proj1 Hp)) as Hn.
    destruct (sig_digits (Qabs q) p) as [e n]. cbn [snd] in Hn.
    exists sign, (digits n), e. split; [exact Hsign |].
    split; [apply digits_all_digits |].
    split; [apply digits_len_unique; lia |].
    split.
    { intros _. rewrite digits_val_digits; [exact Hn |].
      assert (0 < 10 ^ (p - 1)) by (apply Z.pow_pos_nonneg; lia). lia. }
    destruct ((e <? -6) || (p <=? e)); [auto |].
    destruct (e =? p - 1); [auto |]. destruct (0 <=? e); auto.
Qed.

(** For a finite number and a digit count [p] between 1 and 100,
    [toPrecisionFixed] returns a string in which neither ["e+"] nor ["e-"]
    occurs: it holds nothing but digits, full stops and minus signs, and its
    digits are the [p] significant digits [m] of the number, padded with
    zeros before or after. *)
Theorem toPrecisionFixed_no_exponent (q : Q) (p : Z) :
  1 <= p <= 100 ->
  exists s,
    toPrecisionFixed (Num q) p = Returns s /\
    includes (u16 "e+") s = false /\
    includes (u16 "e-") s = false /\
    fixed_point_form s = true /\
    exists m i j,
      len m = p /\ all_digits m = true /\
      (~ (q == 0)%Q -> 10 ^ (p - 1) <= digits_val m < 10 ^ p) /\
      filter is_digit s = zeros i ++ m ++ zeros j.
Proof.
  intros Hp.
  destruct (toPrecision_layout q Hp)
    as (sign & m & e & Hsign & Hm & Hlen & Hval & Hlay).
  pose proof (fixed_sign Hsign) as Hfs.
  pose proof (all_digits_fixed _ Hm) as Hfm.
  pose proof (filter_digits_sign Hsign) as Hds.
  assert (Hmne : m <> []).
  { intros ->. change (len []) with 0 in Hlen. lia. }
  assert (Hres : exists s,
    toPrecisionFixed (Num q) p = Returns s /\ fixed_point_form s = true /\
    exists i j, filter is_digit s = zeros i ++ m ++ zeros j).
  { unfold toPrecisionFixed.
    destruct Hlay as [-> | [-> | [-> | ->]]]; cbn [bind].
    - assert (Hsg : fixed_point_form (sign ++ point_after_first m) = true).
      { rewrite fixed_app, Hfs. now apply fixed_point_after_first. }
      assert (Hsgne : sign ++ point_after_first m <> []).
      { intros E. apply app_eq_nil in E as [_ E].
        exact (point_after_first_nonempty Hmne E). }
      assert (Hdsg : filter is_digit (remove_first_dot (sign ++ point_after_first m)) = m).
      { rewrite filter_digits_remove_dot, filter_app, Hds.
        now apply filter_digits_point. }
      unfold exponent_suffix. rewrite app_assoc.
      destruct (e <? 0).
      + rewrite (replace_negative_exponent Hsg Hsgne
                   (digits_all_digits (Z.abs e)) (@digits_nonempty (Z.abs e))).
        eexists. split; [reflexivity |].
        split; [now apply fixed_pad_leading |].
        unfold pad_leading.
        destruct (prepend_zeros_shape
                    (turns (StringToNumber (digits (Z.abs e))) 1)
                    (StringToNumber (digits (Z.abs e)))
                    (remove_first_dot (sign ++ point_after_first m)))
          as (j & ->).
        exists (S j), O. cbn [filter].
        change (is_digit cu_0) with true. change (is_digit cu_dot) with false.
        cbv iota. rewrite filter_app, filter_digits_zeros, Hdsg.
        cbn [zeros repeat]. now rewrite app_nil_r.
      + rewrite (replace_positive_exponent Hsg Hsgne
                   (digits_all_digits (Z.abs e)) (@digits_nonempty (Z.abs e))).
        eexists. split; [reflexivity |].
        split; [now apply fixed_pad_trailing |].
        unfold pad_trailing.
        destruct (append_zeros_shape
                    (turns (StringToNumber (digits (Z.abs e)))
                       (len (remove_first_dot (sign ++ point_after_first m)) - 1))
                    (StringToNumber (digits (Z.abs e)))
                    (len (remove_first_dot (sign ++ point_after_first m)) - 1)
                    (remove_first_dot (sign ++ point_after_first m)))
          as (j & ->).
        exists O, j. rewrite filter_app, filter_digits_zeros, Hdsg. reflexivity.
    - assert (Hf : fixed_point_form (sign ++ m) = true)
        by now rewrite fixed_app, Hfs, Hfm.
      rewrite (@replace_exp_fixed cu_plus pad_trailing _ Hf).
      rewrite (@replace_exp_fixed cu_minus pad_leading _ Hf).
      eexists. split; [reflexivity |]. split; [exact Hf |].
      exists O, O. rewrite filter_app, Hds, (filter_digits_id _ Hm).
      cbn [zeros repeat app]. now rewrite app_nil_r.
    - assert (Hf : fixed_point_form
                     (sign ++ firstz (e + 1) m ++ cu_dot :: skipz (e + 1) m) = true).
      { rewrite !fixed_app, fixed_cons, Hfs, (fixed_firstz _ _ Hfm),
          (fixed_skipz _ _ Hfm). reflexivity. }
      rewrite (@replace_exp_fixed cu_plus pad_trailing _ Hf).
      rewrite (@replace_exp_fixed cu_minus pad_leading _ Hf).
      eexists. split; [reflexivity |]. split; [exact Hf |].
      exists O, O. rewrite filter_app, Hds, (@filter_digits_split (e + 1) m Hm).
      cbn [zeros repeat app]. now rewrite app_nil_r.
    - assert (Hf : fixed_point_form
                     (sign ++ cu_0 :: cu_dot :: zerosz (- (e + 1)) ++ m) = true).
      { rewrite fixed_app, !fixed_cons, fixed_app, Hfs, fixed_zerosz, Hfm.
        reflexivity. }
      rewrite (@replace_exp_fixed cu_plus pad_trailing _ Hf).
      rewrite (@replace_exp_fixed cu_minus pad_leading _ Hf).
      eexists. split; [reflexivity |]. split; [exact Hf |].
      exists (S (Z.to_nat (- (e + 1)))), O.
      rewrite filter_app, Hds. cbn [filter app].
      change (is_digit cu_0) with true. change (is_digit cu_dot) with false.
      cbv iota. unfold zerosz.
      rewrite filter_app, filter_digits_zeros, (filter_digits_id _ Hm).
      cbn [zeros repeat app]. now rewrite app_nil_r. }
  destruct Hres as (s & Hs & Hfix & i & j & Hdig).
  exists s. split; [exact Hs |].
  split; [exact (fixed_no_exponent cu_plus _ Hfix) |].
  split; [exact (fixed_no_exponent cu_minus _ Hfix) |].
  split; [exact Hfix |].
  exists m, i, j. repeat split; try assumption; now apply Hval.
Qed.

Lemma toPrecisionFixed_no_exponent_witness :
  exists s,
    toPrecisionFixed (Num (123 * 10 ^ 19 # 1)) 3 = Returns s /\
    includes (u16 "e+") s = false /\
    includes (u16 "e-") s = false /\
    fixed_point_form s = true /\
    exists m i j,
      len m = 3 /\ all_digits m = true /\
      (~ (123 * 10 ^ 19 # 1 == 0)%Q -> 10 ^ (3 - 1) <= digits_val m < 10 ^ 3) /\
      filter is_digit s = zeros i ++ m ++ zeros j.
Proof.
  apply (@toPrecisionFixed_no_exponent (123 * 10 ^ 19 # 1) 3). lia.
Defined.

(** The two magnitudes named by the specification, and a negative one. *)
Lemma toPrecisionFixed_examples :
  toPrecision (Num (123 * 10 ^ 19 # 1)) 3 = Returns (u16 "1.23e+21") /\
  toPrecisionFixed (Num (123 * 10 ^ 19 # 1)) 3
    = Returns (u16 "1230000000000000000000") /\
  toPrecision (Num (456 # 10 ^ 12)) 3 = Returns (u16 "4.56e-10") /\
  toPrecisionFixed (Num (456 # 10 ^ 12)) 3 = Returns (u16 "0.000000000456") /\
  toPrecisionFixed (Num (7403 # 1000)) 4 = Returns (u16 "7.403").
Proof. repeat split; vm_compute; reflexivity. Qed.

(** C3.  For a negative number whose [toPrecision] is in exponent form the
    two replacements of [toPrecisionFixed] take the sign for a digit of the
    significand: [-4.56e-10] (three digits) comes out as
    ["0.000000000-456"], which is no numeral, and [-1.23e21] as
    ["-123000000000000000000"], which is [-1.23e20].  The positive numbers
    of the same magnitudes are rendered right. *)
Theorem toPrecisionFixed_sign_misplaced :
  toPrecision (Num (b64 (- 456 # 10 ^ 12))) 3 = Returns (u16 "-4.56e-10") /\
  toPrecisionFixed (Num (b64 (- 456 # 10 ^ 12))) 3 =
    Returns (u16 "0.000000000-456") /\
  StringToNumber (u16 "0.000000000-456") = NaN /\
  toPrecisionFixed (Num (b64 (456 # 10 ^ 12))) 3 =
    Returns (u16 "0.000000000456") /\
  toPrecision (Num (b64 (- 123 * 10 ^ 19 # 1))) 3 =
    Returns (u16 "-1.23e+21") /\
  toPrecisionFixed (Num (b64 (- 123 * 10 ^ 19 # 1))) 3 =
    Returns (u16 "-123000000000000000000") /\
  toPrecisionFixed (Num (b64 (123 * 10 ^ 19 # 1))) 3 =
    Returns (u16 "1230000000000000000000").
Proof. repeat split; vm_compute; reflexivity. Qed.

End NoExponent.

(** ** Codec: degrees, minutes and seconds of a number of seconds *)

Section Sexagesimal.
Local Open Scope Q_scope.

Lemma Zle_inject (a b : Z) : inject_Z a <= inject_Z b -> (a <= b)%Z.
Proof. now rewrite <- Zle_Qle. Qed.

Lemma Zlt_inject (a b : Z) : inject_Z a < inject_Z b -> (a < b)%Z.
Proof. now rewrite <- Zlt_Qlt. Qed.

(** Rounding to the nearest integer, upwards on a tie. *)
Lemma round_half_up_bounds (a : Q) :
  a - (1 # 2) < inject_Z (Qfloor (a + (1 # 2))) /\
  inject_Z (Qfloor (a + (1 # 2))) <= a + (1 # 2).
Proof.
  pose proof (Qfloor_le (a + (1 # 2))) as H1.
  pose proof (Qlt_floor (a + (1 # 2))) as H2.
  rewrite inject_Z_plus in H2. change (inject_Z 1) with 1 in H2.
  split; Lqa.lra.
Qed.

Lemma round_half_up_integer (z : Z) (a : Q) :
  a == inject_Z z -> Qfloor (a + (1 # 2)) = z.
Proof.
  intros H. apply Qfloor_unique; rewrite H; Lqa.lra.
Qed.

(** The whole minutes [M] and whole degrees [D] of [qs] seconds. *)
Lemma sexagesimal_split (qs : Q) :
  0 <= qs ->
  let D := Qfloor (qs / inject_Z 3600) in
  let M := Qfloor (qs / inject_Z 60) in
  Qfloor (inject_Z M / inject_Z 60) = D /\
  (60 * D <= M < 60 * D + 60)%Z /\ (0 <= D)%Z /\ (0 <= M)%Z.
Proof.
  intros Hqs D M.
  assert (E3600 : qs / inject_Z 3600 == qs * (1 # 3600)) by (unfold Qdiv; reflexivity).
  assert (E60 : qs / inject_Z 60 == qs * (1 # 60)) by (unfold Qdiv; reflexivity).
  pose proof (Qfloor_le (qs / inject_Z 3600)) as D1.
  pose proof (Qlt_floor (qs / inject_Z 3600)) as D2.
  pose proof (Qfloor_le (qs / inject_Z 60)) as M1.
  pose proof (Qlt_floor (qs / inject_Z 60)) as M2.
  fold D in D1, D2. fold M in M1, M2.
  rewrite inject_Z_plus in D2, M2. change (inject_Z 1) with 1 in D2, M2.
  rewrite E3600 in D1, D2. rewrite E60 in M1, M2.
  assert (HD : (0 <= D)%Z).
  { apply Qfloor_nonneg. rewrite E3600. Lqa.lra. }
  assert (HM : (0 <= M)%Z).
  { apply Qfloor_nonneg. rewrite E60. Lqa.lra. }
  assert (Hlo : (60 * D <= M)%Z).
  { assert (H : (Qfloor (inject_Z (60 * D)) <= Qfloor (qs / inject_Z 60))%Z).
    { apply Qfloor_resp_le. rewrite E60, inject_Z_mult.
      change (inject_Z 60) with 60. Lqa.lra. }
    rewrite Qfloor_Z in H. exact H. }
  assert (Hhi : (M < 60 * D + 60)%Z).
  { apply Zlt_inject. rewrite inject_Z_plus, inject_Z_mult.
    change (inject_Z 60) with 60. Lqa.lra. }
  repeat split; try assumption.
  apply Qfloor_unique.
  - assert (E : inject_Z M / inject_Z 60 == inject_Z M * (1 # 60)) by (unfold Qdiv; reflexivity).
    rewrite E. rewrite Zle_Qle in Hlo. rewrite inject_Z_mult in Hlo.
    change (inject_Z 60) with 60 in Hlo. Lqa.lra.
  - assert (E : inject_Z M / inject_Z 60 == inject_Z M * (1 # 60)) by (unfold Qdiv; reflexivity).
    rewrite E. rewrite Zlt_Qlt in Hhi. rewrite inject_Z_plus, inject_Z_mult in Hhi.
    change (inject_Z 60) with 60 in Hhi. Lqa.lra.
Qed.

End Sexagesimal.

(** ** Codec: what [Geo.toDMS] writes in the format [dms] *)

Section RenderDMS.
Local Open Scope Q_scope.

Lemma inject_Z_sub (a b : Z) : inject_Z (a - b) == inject_Z a - inject_Z b.
Proof.
  unfold Z.sub. rewrite inject_Z_plus, inject_Z_opp. reflexivity.
Qed.

Lemma toDMS_default_places (x : Q) (g : globals) :
  toDMS (VNumber (Num x)) (Some (u16 "dms")) None g =
  toDMS (VNumber (Num x)) (Some (u16 "dms")) (Some 0%Z) g.
Proof. reflexivity. Qed.

Lemma toDMS_dms_unfold (x : Q) (f : Z) (g : globals) :
  toDMS (VNumber (Num x)) (Some (u16 "dms")) (Some f) g =
  (sec <- toFixed (Num (Qabs x * inject_Z 3600)) f ;;
   let d := VNumber (nfloor (ndiv (StringToNumber sec) (nZ 3600))) in
   let m := VNumber (nrem (nfloor (ndiv (StringToNumber sec) (nZ 60)))
                          (nZ 60)) in
   s <- toFixed (nrem (StringToNumber sec) (nZ 60)) f ;;
   let d := pad_below 100 d in
   let d := pad_below 10 d in
   let m := pad_below 10 m in
   let s := pad_below 10 (VString s) in
   let dms := ToString d ++ cu_degree :: ToString m ++ cu_prime ::
              ToString s ++ [cu_dprime] in
   Returns (Some dms, Some dms))%js.
Proof. reflexivity. Qed.


Lemma pad_below_string (k : Z) (s : jsstring) (n f : Z) :
  dec_str s n f ->
  exists s', ToString (pad_below k (VString s)) = s' /\ dec_str s' n f.
Proof.
  intros H. unfold pad_below. destruct (nlt _ _); cbn [ToString];
    eexists; (split; [reflexivity |]); [now apply dec_str_pad | exact H].
Qed.

Lemma pad_below_integer (k : Z) (q : Q) (z : Z) :
  q == inject_Z z -> (0 <= z < 10 ^ 21)%Z ->
  exists s', ToString (pad_below k (VNumber (Num q))) = s' /\ dec_str s' z 0.
Proof.
  intros Hq Hz. unfold pad_below. destruct (nlt _ _); cbn [ToString];
    rewrite (NumberToString_integer Hq Hz);
    eexists; (split; [reflexivity |]);
    [apply dec_str_pad |]; apply dec_str_digits; lia.
Qed.

Lemma pad_degrees (D : Z) :
  (0 <= D < 100)%Z ->
  exists A,
    ToString (pad_below 10 (pad_below 100 (VNumber (Num (inject_Z D))))) =
    cu_0 :: A /\ dec_str A D 0.
Proof.
  intros HD. unfold pad_below at 2. cbn [ToNumber nlt nZ].
  rewrite Qlt_bool_true by (rewrite <- Zlt_Qlt; lia).
  cbn [ToString].
  rewrite (@NumberToString_integer (inject_Z D) D (Qeq_refl _)) by lia.
  unfold pad_below. destruct (nlt _ _); cbn [ToString].
  - exists (cu_0 :: digits D). split; [reflexivity |].
    apply dec_str_pad, dec_str_digits. lia.
  - exists (digits D). split; [reflexivity |]. apply dec_str_digits. lia.
Qed.

Lemma toDMS_dms (x : Q) (dp : option Z) (f : Z) (g : globals) :
  Qabs x <= 90 -> (0 <= f <= 100)%Z ->
  dp = Some f \/ (dp = None /\ f = 0%Z) ->
  exists A B C D Mz R,
    toDMS (VNumber (Num x)) (Some (u16 "dms")) dp g =
      Returns (Some (cu_0 :: A ++ cu_degree :: B ++ cu_prime :: C ++ [cu_dprime]),
               Some (cu_0 :: A ++ cu_degree :: B ++ cu_prime :: C ++ [cu_dprime])) /\
    dec_str A D 0 /\ dec_str B Mz 0 /\ dec_str C R f /\
    Qabs (inject_Z D + inject_Z Mz / 60 + inject_Z R / inject_Z (10 ^ f) / 3600
          - Qabs x) <= (1 # 2) / inject_Z (10 ^ f) / 3600.
Proof.
  intros Hx Hf Hdp.
  assert (Hgo : toDMS (VNumber (Num x)) (Some (u16 "dms")) dp g =
                toDMS (VNumber (Num x)) (Some (u16 "dms")) (Some f) g).
  { destruct Hdp as [-> | [-> ->]]; [reflexivity | apply toDMS_default_places]. }
  rewrite Hgo, toDMS_dms_unfold. clear Hgo Hdp dp.
  pose proof (Qabs_nonneg x) as Hx0.
  pose proof (@inject_Z_pow10_pos f ltac:(lia)) as HP.
  pose proof (pow10_Z (k := f) ltac:(lia)) as HPe.
  set (P := inject_Z (10 ^ f)) in *.
  set (a := Qabs x * inject_Z 3600).
  assert (Ha0 : 0 <= a).
  { subst a. change (inject_Z 3600) with 3600. Lqa.lra. }
  assert (Ha : a <= 324000).
  { subst a. change (inject_Z 3600) with 3600. Lqa.lra. }
  assert (Ha21 : a < pow10 21).
  { rewrite (pow10_Z (k := 21)) by lia.
    change (inject_Z (10 ^ 21)) with 1000000000000000000000. Lqa.lra. }
  rewrite (toFixed_nonneg Hf Ha0 Ha21). cbn [bind].
  set (N := Qfloor (Qabs a * pow10 f + (1 # 2))).
  destruct (round_half_up_bounds (Qabs a * pow10 f)) as [HNlo HNhi].
  fold N in HNlo, HNhi. rewrite (Qabs_pos a Ha0), HPe in HNlo, HNhi.
  assert (HN : (0 <= N)%Z).
  { apply Qfloor_nonneg. rewrite (Qabs_pos a Ha0).
    pose proof (pow10_pos f). Lqa.nra. }
  pose proof (fixed_string_dec HN (proj1 Hf)) as Hsec.
  rewrite (dec_str_number Hsec).
  pose proof (@dec_value N f (proj1 Hf)) as Hqs. fold P in Hqs.
  set (qs := inject_Z N * pow10 (- f) * pow10 0) in *.
  assert (HqsP : qs * P == inject_Z N).
  { rewrite Hqs. field. Lqa.lra. }
  assert (HP1 : 1 <= P).
  { subst P. change 1 with (inject_Z 1). rewrite <- Zle_Qle.
    assert (0 < 10 ^ f)%Z by (apply Z.pow_pos_nonneg; lia). lia. }
  assert (Hqs0 : 0 <= qs).
  { rewrite Zle_Qle in HN. change (inject_Z 0) with 0 in HN. Lqa.nra. }
  assert (Hqs1 : qs < 324001) by Lqa.nra.
  cbn [ndiv nrem nfloor nZ].
  change (Qeq_bool (inject_Z 3600) 0) with false.
  change (Qeq_bool (inject_Z 60) 0) with false. cbv iota.
  cbn [ndiv nrem nfloor nZ].
  change (Qeq_bool (inject_Z 60) 0) with false. cbv iota.
  destruct (sexagesimal_split Hqs0) as (HMD & HDM & HD0 & HM0).
  set (D := Qfloor (qs / inject_Z 3600)) in *.
  set (M := Qfloor (qs / inject_Z 60)) in *.
  assert (E60 : forall y, y / inject_Z 60 == y * (1 # 60)) by (intros; unfold Qdiv; reflexivity).
  assert (E3600 : forall y, y / inject_Z 3600 == y * (1 # 3600)) by (intros; unfold Qdiv; reflexivity).
  assert (HD100 : (D < 100)%Z).
  { apply Zlt_inject. pose proof (Qfloor_le (qs / inject_Z 3600)) as H.
    fold D in H. rewrite E3600 in H. change (inject_Z 100) with 100. Lqa.lra. }
  pose proof (Qfloor_le (qs / inject_Z 60)) as HM1.
  pose proof (Qlt_floor (qs / inject_Z 60)) as HM2.
  fold M in HM1, HM2. rewrite inject_Z_plus in HM2.
  change (inject_Z 1) with 1 in HM2. rewrite E60 in HM1, HM2.
  rewrite (@Qtrunc_nonneg (inject_Z M / inject_Z 60))
    by (rewrite E60; rewrite Zle_Qle in HM0; change (inject_Z 0) with 0 in HM0; Lqa.lra).
  rewrite HMD.
  rewrite (@Qtrunc_nonneg (qs / inject_Z 60)) by (rewrite E60; Lqa.lra).
  fold M.
  set (rq := qs - inject_Z 60 * inject_Z M).
  assert (Hrq0 : 0 <= rq) by (subst rq; change (inject_Z 60) with 60; Lqa.lra).
  assert (Hrq1 : rq < 60) by (subst rq; change (inject_Z 60) with 60; Lqa.lra).
  assert (Hrq21 : rq < pow10 21).
  { rewrite (pow10_Z (k := 21)) by lia.
    change (inject_Z (10 ^ 21)) with 1000000000000000000000. Lqa.lra. }
  rewrite (toFixed_nonneg Hf Hrq0 Hrq21). cbn [bind].
  assert (HR : Qfloor (Qabs rq * pow10 f + (1 # 2)) = (N - 60 * M * 10 ^ f)%Z).
  { apply round_half_up_integer. rewrite (Qabs_pos rq Hrq0), HPe.
    rewrite inject_Z_sub, !inject_Z_mult. fold P.
    change (inject_Z 60) with 60. subst rq. change (inject_Z 60) with 60.
    rewrite <- HqsP. ring. }
  rewrite HR. set (R2 := (N - 60 * M * 10 ^ f)%Z) in *.
  assert (HR0 : (0 <= R2)%Z).
  { rewrite <- HR. apply Qfloor_nonneg. rewrite (Qabs_pos rq Hrq0).
    pose proof (pow10_pos f). Lqa.nra. }
  destruct (@pad_degrees D ltac:(lia)) as (A & -> & HA).
  destruct (@pad_below_integer 10 (inject_Z M - inject_Z 60 * inject_Z D)
              (M - 60 * D)%Z) as (B & -> & HB).
  { rewrite inject_Z_sub, inject_Z_mult. reflexivity. }
  { lia. }
  destruct (@pad_below_string 10 _ _ _ (fixed_string_dec HR0 (proj1 Hf)))
    as (C & -> & HC).
  exists A, B, C, D, (M - 60 * D)%Z, R2.
  split; [reflexivity |]. split; [exact HA |]. split; [exact HB |].
  split; [exact HC |].
  assert (EV : inject_Z D + inject_Z (M - 60 * D) / 60 + inject_Z R2 / P / 3600
               - Qabs x == (inject_Z N - a * P) * (/ P * (1 # 3600))).
  { subst R2 a. rewrite !inject_Z_sub, !inject_Z_mult. fold P.
    change (inject_Z 60) with 60. change (inject_Z 3600) with 3600.
    field. Lqa.lra. }
  assert (ER : (1 # 2) / P / 3600 == (1 # 2) * (/ P * (1 # 3600))).
  { field. Lqa.lra. }
  rewrite EV, ER.
  assert (Hu : 0 < / P * (1 # 3600)).
  { assert (0 < / P) by now apply Qinv_lt_0_compat. Lqa.lra. }
  set (u := / P * (1 # 3600)) in *. set (w := inject_Z N - a * P) in *.
  assert (Hw : -(1 # 2) <= w <= 1 # 2) by (subst w; split; Lqa.lra).
  apply Qabs_Qle_condition. split; Lqa.nra.
Qed.

End RenderDMS.

(** ** Codec: parsing what [Geo.toLat] wrote *)

Section RoundTrip.
Local Open Scope Z_scope.

Lemma split_go_field (sep : Z) (rest : jsstring) :
  is_field_char sep = false ->
  forall F cur b,
    forallb is_field_char F = true -> (F <> [] \/ b = false) ->
    split_go cur b (F ++ sep :: rest) = (rev cur ++ F) :: split_go [] true rest.
Proof.
  intros Hsep. induction F as [| c F IH]; intros cur b HF Hb.
  - destruct Hb as [Hb | ->]; [congruence |].
    cbn [app split_go]. rewrite Hsep, app_nil_r. reflexivity.
  - cbn [forallb] in HF. apply andb_true_iff in HF as [Hc HF].
    cbn [app split_go]. rewrite Hc.
    rewrite (IH (c :: cur) false HF (or_intror eq_refl)).
    cbn [rev]. now rewrite <- app_assoc.
Qed.

Lemma split_fields_three (A B C : jsstring) :
  forallb is_field_char A = true -> forallb is_field_char B = true ->
  forallb is_field_char C = true -> B <> [] -> C <> [] ->
  split_fields (A ++ cu_degree :: B ++ cu_prime :: C ++ [cu_dprime]) =
  [A; B; C; []].
Proof.
  intros HA HB HC HBn HCn. unfold split_fields.
  rewrite (@split_go_field cu_degree _ eq_refl A [] false HA (or_intror eq_refl)).
  rewrite (@split_go_field cu_prime _ eq_refl B [] true HB (or_introl HBn)).
  rewrite (@split_go_field cu_dprime _ eq_refl C [] true HC (or_introl HCn)).
  reflexivity.
Qed.

Lemma parseDMS_dms_three (a : Z) (A B C : jsstring) (h : Z) :
  is_digit a = true ->
  forallb is_field_char (a :: A) = true -> forallb is_field_char B = true ->
  forallb is_field_char C = true -> B <> [] -> C <> [] ->
  h = 78 \/ h = 83 ->
  let str := (a :: A) ++ cu_degree :: B ++ cu_prime :: C ++ [cu_dprime] ++ [h] in
  trim str = str /\
  parseDMS_dms str = [a :: A; B; C] /\
  test_negative str = (h =? 83).
Proof.
  intros Ha HA HB HC HBn HCn Hh str.
  assert (Hbody : str = (a :: A ++ cu_degree :: B ++ cu_prime :: C ++ [cu_dprime]) ++ [h]).
  { subst str. repeat first [rewrite <- app_assoc | progress cbn [app]].
    reflexivity. }
  assert (Hdig : (a =? cu_minus) = false).
  { unfold is_digit, cu_minus in *. apply andb_true_iff in Ha as [H1 H2].
    apply Z.leb_le in H1, H2. apply Z.eqb_neq. lia. }
  assert (Hrev : rev str = h :: rev (a :: A ++ cu_degree :: B ++ cu_prime :: C ++ [cu_dprime])).
  { rewrite Hbody, rev_app_distr. reflexivity. }
  assert (Htrim : trim str = str).
  { rewrite Hbody. cbn [app]. apply trim_ends.
    - now apply is_digit_not_white.
    - destruct Hh as [-> | ->]; reflexivity. }
  split; [exact Htrim |]. split.
  - unfold parseDMS_dms. rewrite Htrim.
    assert (Hminus : strip_leading_minus str = str).
    { rewrite Hbody. cbn [app strip_leading_minus]. now rewrite Hdig. }
    rewrite Hminus. unfold strip_trailing_compass. rewrite Hrev.
    replace (is_compass h) with true by (destruct Hh as [-> | ->]; reflexivity).
    rewrite rev_involutive.
    change (a :: A ++ cu_degree :: B ++ cu_prime :: C ++ [cu_dprime])
      with ((a :: A) ++ cu_degree :: B ++ cu_prime :: C ++ [cu_dprime]).
    rewrite (@split_fields_three (a :: A) B C HA HB HC HBn HCn). reflexivity.
  - unfold test_negative. rewrite Hrev. rewrite Hbody at 1. cbn [app].
    rewrite Hdig. unfold is_west_south.
    destruct Hh as [-> | ->]; reflexivity.
Qed.

End RoundTrip.

(** ** Codec: the round trip *)

Section RoundTripTheorem.
Local Open Scope Q_scope.

Lemma dec_str_nonempty (s : jsstring) (n f : Z) : dec_str s n f -> s <> [].
Proof.
  intros H. destruct (dec_str_field H) as (_ & c & r & -> & _). discriminate.
Qed.

(** The number [Geo.parseDMS] computes from three fields. *)
Lemma three_fields_value (D Mz R2 f : Z) :
  (0 <= f)%Z ->
  inject_Z D * pow10 (- 0) * pow10 0 / inject_Z 1 +
  inject_Z Mz * pow10 (- 0) * pow10 0 / inject_Z 60 +
  inject_Z R2 * pow10 (- f) * pow10 0 / inject_Z 3600 ==
  inject_Z D + inject_Z Mz / 60 + inject_Z R2 / inject_Z (10 ^ f) / 3600.
Proof.
  intros Hf. rewrite (dec_value R2 Hf).
  change (pow10 (- 0)) with 1. change (pow10 0) with 1.
  change (inject_Z 1) with 1. change (inject_Z 60) with 60.
  change (inject_Z 3600) with 3600.
  pose proof (inject_Z_pow10_pos Hf). field. Lqa.lra.
Qed.

(** C4, as stated, fails in binary64: with 12 decimal places the latitude
    51.4778 of the header's sample is written [51°28′40.080000000016″N],
    because the product [51.4778 * 3600] is rounded, and is read back as
    51.47780000000001, the next binary64 number; the difference,
    [2^-47] degree or [2.6e-11] arcsecond, exceeds [0.5e-12] arcsecond. *)
Lemma dms_round_trip_binary64_counterexample :
  exists r,
    Binary64.toLat (VNumber (Num (b64 (514778 # 10000)))) (Some (u16 "dms"))
                   (Some 12%Z) None =
      Returns (u16 "51" ++ cu_degree :: u16 "28" ++ cu_prime ::
               u16 "40.080000000016" ++ cu_dprime :: u16 "N",
               Some (u16 "051" ++ cu_degree :: u16 "28" ++ cu_prime ::
                     u16 "40.080000000016" ++ [cu_dprime])) /\
    Binary64.parseDMS
      (VString (u16 "51" ++ cu_degree :: u16 "28" ++ cu_prime ::
                u16 "40.080000000016" ++ cu_dprime :: u16 "N")) =
      Returns (Num r) /\
    r == b64 (5147780000000001 # 10 ^ 14) /\
    r - b64 (514778 # 10000) == inject_Z 2 ^ (-47) /\
    ~ Qabs (r - b64 (514778 # 10000)) <=
      (1 # 2) / inject_Z (10 ^ 12) / 3600.
Proof.
  eexists. split; [vm_compute; reflexivity |].
  split; [vm_compute; reflexivity |].
  split; [vm_compute; reflexivity |].
  split; [vm_compute; reflexivity |].
  vm_compute. intros H. apply H. reflexivity.
Qed.

(** C4, amended.  In exact arithmetic, for a latitude [x] in [[-90, 90]]
    and [dp] decimal places (none given: 0; at most 100, the limit of
    [toFixed]), [Geo.toLat(x, 'dms', dp)] returns a string that
    [Geo.parseDMS] reads back as a number within [0.5 * 10^-dp] arcsecond
    of [x]. *)
Theorem dms_round_trip (x : Q) (dp : option Z) (g : globals) :
  -90 <= x <= 90 ->
  match dp with Some f => (0 <= f <= 100)%Z | None => True end ->
  exists s g' r,
    toLat (VNumber (Num x)) (Some (u16 "dms")) dp g = Returns (s, g') /\
    parseDMS (VString s) = Returns (Num r) /\
    Qabs (r - x) <=
    (1 # 2) / inject_Z (10 ^ match dp with Some f => f | None => 0 end) / 3600.
Proof.
  intros Hx Hdp.
  set (f := match dp with Some f => f | None => 0%Z end).
  assert (Hf : (0 <= f <= 100)%Z) by (subst f; destruct dp; lia).
  assert (Hdp' : dp = Some f \/ (dp = None /\ f = 0%Z))
    by (subst f; destruct dp; auto).
  assert (Hax : Qabs x <= 90) by (apply Qabs_Qle_condition; Lqa.lra).
  destruct (@toDMS_dms x dp f g Hax Hf Hdp')
    as (A & B & C & D & Mz & R2 & HtoDMS & HA & HB & HC & Hbound).
  destruct (dec_str_field HA) as (HAf & a & A' & -> & Ha).
  destruct (dec_str_field HB) as (HBf & _).
  destruct (dec_str_field HC) as (HCf & _).
  pose proof (dec_str_nonempty HB) as HBn.
  pose proof (dec_str_nonempty HC) as HCn.
  unfold toLat. rewrite HtoDMS. cbn [bind slice1 skipn].
  unfold compass. cbn [ToNumber nlt nZ].
  set (h := if Qlt_bool x (inject_Z 0) then 83%Z else 78%Z).
  assert (Hh : h = 78%Z \/ h = 83%Z)
    by (subst h; destruct (Qlt_bool x (inject_Z 0)); auto).
  destruct (@parseDMS_dms_three a A' B C h Ha HAf HBf HCf HBn HCn Hh)
    as (Htrim & Hdms & Hneg).
  set (str := (a :: A') ++ cu_degree :: B ++ cu_prime :: C ++ [cu_dprime] ++ [h]) in *.
  assert (Hstr :
    ((a :: A') ++ cu_degree :: B ++ cu_prime :: C ++ [cu_dprime]) ++
    (if Qlt_bool x (inject_Z 0) then u16 "S" else u16 "N") = str).
  { subst str h. destruct (Qlt_bool x (inject_Z 0));
      repeat first [rewrite <- app_assoc | progress cbn [app]]; reflexivity. }
  clear HtoDMS.
  assert (Hparse : parseDMS (VString str) =
    Returns (if (h =? 83)%Z
             then Num (- (inject_Z D * pow10 (- 0) * pow10 0 / inject_Z 1 +
                          inject_Z Mz * pow10 (- 0) * pow10 0 / inject_Z 60 +
                          inject_Z R2 * pow10 (- f) * pow10 0 / inject_Z 3600))
             else Num (inject_Z D * pow10 (- 0) * pow10 0 / inject_Z 1 +
                       inject_Z Mz * pow10 (- 0) * pow10 0 / inject_Z 60 +
                       inject_Z R2 * pow10 (- f) * pow10 0 / inject_Z 3600))).
  { rewrite parseDMS_string_cases. cbv zeta. rewrite Hdms, Htrim, Hneg.
    cbn [join_comma app str_eqb].
    rewrite (dec_str_number HA), (dec_str_number HB), (dec_str_number HC).
    cbn [ndiv nadd nlift2 nZ nneg].
    change (Qeq_bool (inject_Z 1) 0) with false.
    change (Qeq_bool (inject_Z 60) 0) with false.
    change (Qeq_bool (inject_Z 3600) 0) with false. cbv iota.
    destruct (h =? 83)%Z; reflexivity. }
  pose proof (three_fields_value D Mz R2 (proj1 Hf)) as Hv.
  set (v0 := inject_Z D * pow10 (- 0) * pow10 0 / inject_Z 1 +
             inject_Z Mz * pow10 (- 0) * pow10 0 / inject_Z 60 +
             inject_Z R2 * pow10 (- f) * pow10 0 / inject_Z 3600) in *.
  rewrite <- Hv in Hbound.
  subst h. destruct (Qlt_bool x (inject_Z 0)) eqn:Hsign.
  - change (83 =? 83)%Z with true in Hparse.
    exists str. eexists. exists (- v0). split; [rewrite Hstr; reflexivity |].
    split; [exact Hparse |].
    assert (Hx0 : x < 0).
    { unfold Qlt_bool in Hsign. apply negb_true_iff in Hsign.
      destruct (Qlt_le_dec x 0) as [H | H]; [exact H |].
      apply Qle_bool_iff in H. change (inject_Z 0) with 0 in Hsign. congruence. }
    assert (E : - v0 - x == - (v0 - Qabs x)).
    { rewrite (Qabs_neg x) by Lqa.lra. ring. }
    rewrite E, Qabs_opp. exact Hbound.
  - change (78 =? 83)%Z with false in Hparse.
    exists str. eexists. exists v0. split; [rewrite Hstr; reflexivity |].
    split; [exact Hparse |].
    assert (Hx0 : 0 <= x).
    { unfold Qlt_bool in Hsign. apply negb_false_iff in Hsign.
      now apply Qle_bool_iff in Hsign. }
    assert (E : v0 - x == v0 - Qabs x) by (rewrite (Qabs_pos x Hx0); reflexivity).
    rewrite E. exact Hbound.
Qed.

Lemma dms_round_trip_witness :
  exists s g' r,
    toLat (VNumber (Num (-514778 # 10000))) (Some (u16 "dms")) (Some 2%Z) None
      = Returns (s, g') /\
    parseDMS (VString s) = Returns (Num r) /\
    Qabs (r - (-514778 # 10000)) <= (1 # 2) / inject_Z (10 ^ 2) / 3600.
Proof.
  apply (@dms_round_trip (-514778 # 10000) (Some 2%Z) None).
  - split; unfold Qle; simpl; lia.
  - lia.
Defined.

(** The round trip on the sample of the source's header. *)
Lemma dms_round_trip_example :
  toLat (VNumber (Num (-514778 # 10000))) (Some (u16 "dms")) (Some 2%Z) None
    = Returns (u16 "51" ++ cu_degree :: u16 "28" ++ cu_prime ::
               u16 "40.08" ++ cu_dprime :: u16 "S",
               Some (u16 "051" ++ cu_degree :: u16 "28" ++ cu_prime ::
                     u16 "40.08" ++ [cu_dprime])) /\
  parseDMS (VString (u16 "51" ++ cu_degree :: u16 "28" ++ cu_prime ::
                     u16 "40.08" ++ cu_dprime :: u16 "S"))
    = Returns (Num (-1111920480 # 21600000)).
Proof. split; vm_compute; reflexivity. Qed.

End RoundTripTheorem.

(** ** Engine: angles *)

Section EngineBasics.
Local Open Scope R_scope.

Lemma toRadians_0 : toRadians 0 = 0.
Proof. unfold toRadians. field. Qed.

Lemma toDegrees_toRadians (x : R) : toDegrees (toRadians x) = x.
Proof.
  pose proof PI_RGT_0. unfold toDegrees, toRadians. field. lra.
Qed.

Lemma toRadians_toDegrees (x : R) : toRadians (toDegrees x) = x.
Proof.
  pose proof PI_RGT_0. unfold toDegrees, toRadians. field. lra.
Qed.

Lemma toRadians_sub (a b : R) :
  toRadians (a - b) = toRadians a - toRadians b.
Proof. unfold toRadians. field. Qed.

Lemma toRadians_lt (a b : R) : a < b -> toRadians a < toRadians b.
Proof.
  pose proof PI_RGT_0 as Hpi. intros H. unfold toRadians, Rdiv.
  apply Rmult_lt_compat_r; [lra |]. apply Rmult_lt_compat_r; lra.
Qed.

Lemma toRadians_le (a b : R) : a <= b -> toRadians a <= toRadians b.
Proof.
  intros [H | ->]; [left; now apply toRadians_lt | right; reflexivity].
Qed.

Lemma toRadians_90 : toRadians 90 = PI / 2.
Proof. unfold toRadians. field. Qed.

Lemma toRadians_180 : toRadians 180 = PI.
Proof. unfold toRadians. field. Qed.

Lemma toRadians_m90 : toRadians (-90) = - (PI / 2).
Proof. unfold toRadians. field. Qed.

Lemma toRadians_m180 : toRadians (-180) = - PI.
Proof. unfold toRadians. field. Qed.

Lemma toRadians_opp (a : R) : toRadians (- a) = - toRadians a.
Proof. unfold toRadians. field. Qed.

Lemma normalise_lon_id (lam : R) :
  - PI <= lam < PI -> normalise_lon lam = lam.
Proof.
  pose proof PI_RGT_0 as Hpi. intros Hl. unfold normalise_lon.
  rewrite (@Rrem_eq (lam + 3 * PI) (2 * PI) 1); lra.
Qed.

Lemma atan2_0_pos (x : R) : 0 < x -> atan2 0 x = 0.
Proof.
  intros Hx. unfold atan2. destruct (Rlt_dec 0 x); [| contradiction].
  unfold Rdiv. rewrite Rmult_0_l. apply atan_0.
Qed.

Lemma atan2_0_neg (x : R) : x < 0 -> atan2 0 x = PI.
Proof.
  intros Hx. unfold atan2. destruct (Rlt_dec 0 x); [lra |].
  destruct (Rlt_dec x 0); [| contradiction].
  destruct (Rle_dec 0 0); [| lra].
  unfold Rdiv. rewrite Rmult_0_l, atan_0. ring.
Qed.

Lemma atan2_pos_0 (y : R) : 0 < y -> atan2 y 0 = PI / 2.
Proof.
  intros Hy. unfold atan2. destruct (Rlt_dec 0 0); [lra |].
  destruct (Rlt_dec 0 0); [lra |]. destruct (Rlt_dec 0 y); [reflexivity | contradiction].
Qed.

Lemma atan2_neg_0 (y : R) : y < 0 -> atan2 y 0 = - (PI / 2).
Proof.
  intros Hy. unfold atan2. destruct (Rlt_dec 0 0); [lra |].
  destruct (Rlt_dec 0 0); [lra |]. destruct (Rlt_dec 0 y); [lra |].
  destruct (Rlt_dec y 0); [reflexivity | contradiction].
Qed.

(** [atan2 (sin t) (cos t)] gives the angle back on [[-PI/2, PI/2]]. *)
Lemma atan2_sin_cos (k t : R) :
  0 < k -> - (PI / 2) <= t <= PI / 2 -> atan2 (k * sin t) (k * cos t) = t.
Proof.
  pose proof PI_RGT_0 as Hpi. intros Hk [Hlo Hhi].
  destruct (Req_dec t (PI / 2)) as [-> | Hne1].
  - rewrite sin_PI2, cos_PI2, Rmult_0_r. apply atan2_pos_0. lra.
  - destruct (Req_dec t (- (PI / 2))) as [-> | Hne2].
    + rewrite sin_neg, cos_neg, sin_PI2, cos_PI2, Rmult_0_r.
      apply atan2_neg_0. lra.
    + assert (Hc : 0 < cos t) by (apply cos_gt_0; lra).
      unfold atan2. destruct (Rlt_dec 0 (k * cos t)) as [_ | Hn].
      * replace (k * sin t / (k * cos t)) with (tan t)
          by (unfold tan; field; lra).
        apply atan_tan. lra.
      * exfalso. apply Hn. now apply Rmult_lt_0_compat.
Qed.

End EngineBasics.

(** ** Engine: bearings along meridians and parallels *)

Section EngineBearings.
Local Open Scope R_scope.

(** X1.  In exact arithmetic, along a meridian the initial bearing is due
    north (0) towards a point further north and due south (180) towards a
    point further south. *)
Theorem bearingTo_meridian (p q : LatLon) :
  lon q = lon p ->
  (lat p < lat q < lat p + 180 -> bearingTo p q = 0) /\
  (lat p - 180 < lat q < lat p -> bearingTo p q = 180).
Proof.
  pose proof PI_RGT_0 as Hpi. intros Hlon.
  assert (Hx : cos (toRadians (lat p)) * sin (toRadians (lat q)) -
               sin (toRadians (lat p)) * cos (toRadians (lat q)) * cos 0 =
               sin (toRadians (lat q) - toRadians (lat p))).
  { rewrite sin_minus, cos_0. ring. }
  unfold bearingTo. rewrite Hlon.
  replace (lon p - lon p) with 0 by ring.
  rewrite toRadians_0, sin_0, Hx, Rmult_0_l, <- toRadians_sub.
  split; intros [Hlo Hhi].
  - assert (H0 : 0 < toRadians (lat q - lat p)).
    { rewrite <- toRadians_0. apply toRadians_lt. lra. }
    assert (H1 : toRadians (lat q - lat p) < PI).
    { rewrite <- toRadians_180. apply toRadians_lt. lra. }
    rewrite atan2_0_pos by (apply sin_gt_0; assumption).
    unfold toDegrees.
    replace (0 * 180 / PI + 360) with 360 by (field; lra).
    rewrite (@Rrem_eq 360 360 1); lra.
  - assert (H0 : toRadians (lat q - lat p) < 0).
    { rewrite <- toRadians_0. apply toRadians_lt. lra. }
    assert (H1 : - PI < toRadians (lat q - lat p)).
    { rewrite <- toRadians_m180. apply toRadians_lt. lra. }
    rewrite atan2_0_neg by (apply sin_lt_0_var; lra).
    unfold toDegrees.
    replace (PI * 180 / PI + 360) with 540 by (field; lra).
    rewrite (@Rrem_eq 540 360 1); lra.
Qed.

Lemma bearingTo_meridian_witness :
  bearingTo (mkLatLon 10 20 6371) (mkLatLon 30 20 6371) = 0 /\
  bearingTo (mkLatLon 10 20 6371) (mkLatLon (-50) 20 6371) = 180.
Proof.
  split.
  - apply (proj1 (@bearingTo_meridian (mkLatLon 10 20 6371)
                    (mkLatLon 30 20 6371) eq_refl)).
    cbn [lat]. lra.
  - apply (proj2 (@bearingTo_meridian (mkLatLon 10 20 6371)
                    (mkLatLon (-50) 20 6371) eq_refl)).
    cbn [lat]. lra.
Defined.

Lemma mercator_angle (x : R) :
  -90 < x < 90 ->
  0 < toRadians x / 2 + PI / 4 < PI / 2.
Proof.
  pose proof PI_RGT_0 as Hpi. intros [Hlo Hhi].
  assert (H1 : toRadians (-90) < toRadians x) by now apply toRadians_lt.
  assert (H2 : toRadians x < toRadians 90) by now apply toRadians_lt.
  rewrite toRadians_m90 in H1. rewrite toRadians_90 in H2. lra.
Qed.

Lemma mercator_tan_pos (x : R) :
  -90 < x < 90 -> 0 < tan (toRadians x / 2 + PI / 4).
Proof.
  intros H. destruct (mercator_angle H). now apply tan_gt_0.
Qed.

Lemma mercator_dpsi_parallel (x : R) :
  -90 < x < 90 -> mercator_dpsi (toRadians x) (toRadians x) = 0.
Proof.
  intros H. apply mercator_dpsi_same.
  pose proof (mercator_tan_pos H). lra.
Qed.

Lemma mercator_dpsi_pos (x y : R) :
  -90 < x -> x < y -> y < 90 ->
  0 < mercator_dpsi (toRadians x) (toRadians y).
Proof.
  pose proof PI_RGT_0 as Hpi. intros Hx Hxy Hy.
  assert (Hax : 0 < toRadians x / 2 + PI / 4 < PI / 2)
    by (apply mercator_angle; lra).
  assert (Hay : 0 < toRadians y / 2 + PI / 4 < PI / 2)
    by (apply mercator_angle; lra).
  assert (Hlt : toRadians x < toRadians y) by now apply toRadians_lt.
  assert (Htx : 0 < tan (toRadians x / 2 + PI / 4)) by (apply tan_gt_0; lra).
  assert (Hinc : tan (toRadians x / 2 + PI / 4) <
                 tan (toRadians y / 2 + PI / 4)).
  { apply tan_increasing; lra. }
  unfold mercator_dpsi. rewrite <- ln_1. apply ln_increasing; [lra |].
  apply Rmult_lt_reg_r with (tan (toRadians x / 2 + PI / 4)); [exact Htx |].
  unfold Rdiv. rewrite Rmult_assoc, Rinv_l by lra. lra.
Qed.

Lemma mercator_dpsi_swap (x y : R) :
  -90 < x < 90 -> -90 < y < 90 ->
  mercator_dpsi (toRadians y) (toRadians x) =
  - mercator_dpsi (toRadians x) (toRadians y).
Proof.
  intros Hx Hy. pose proof (mercator_tan_pos Hx) as Tx.
  pose proof (mercator_tan_pos Hy) as Ty.
  unfold mercator_dpsi.
  rewrite <- ln_Rinv.
  - f_equal. field. split; lra.
  - apply Rdiv_lt_0_compat; assumption.
Qed.

Lemma shorter_way_small (d : R) : - PI <= d <= PI -> shorter_way d = d.
Proof.
  intros [Hlo Hhi]. unfold shorter_way.
  destruct (Rlt_dec PI (Rabs d)) as [H | _]; [| reflexivity].
  exfalso. unfold Rabs in H. destruct (Rcase_abs d); lra.
Qed.

Lemma shorter_way_east (d : R) : PI < d -> shorter_way d = d - 2 * PI.
Proof.
  pose proof PI_RGT_0 as Hpi. intros H. unfold shorter_way.
  destruct (Rlt_dec PI (Rabs d)) as [_ | Hn].
  - destruct (Rlt_dec 0 d); [ring | lra].
  - exfalso. apply Hn. rewrite Rabs_right; lra.
Qed.

Lemma shorter_way_west (d : R) : d < - PI -> shorter_way d = d + 2 * PI.
Proof.
  pose proof PI_RGT_0 as Hpi. intros H. unfold shorter_way.
  destruct (Rlt_dec PI (Rabs d)) as [_ | Hn].
  - destruct (Rlt_dec 0 d); [lra | ring].
  - exfalso. apply Hn. rewrite Rabs_left; lra.
Qed.

Lemma bearing_of_angle (t d : R) (k : Z) :
  toDegrees t = d -> IZR k * 360 <= d + 360 < (IZR k + 1) * 360 ->
  0 <= d + 360 ->
  Rrem (toDegrees t + 360) 360 = d + 360 - IZR k * 360.
Proof.
  intros -> Hk H0. apply Rrem_eq; lra.
Qed.

(** X2.  In exact arithmetic, between two points whose latitudes lie
    strictly between the poles, the rhumb-line bearing lies in
    [[0, 360)]. *)
Theorem rhumbBearingTo_range (p q : LatLon) :
  -90 < lat p < 90 -> -90 < lat q < 90 ->
  0 <= rhumbBearingTo p q < 360.
Proof.
  intros _ _. unfold rhumbBearingTo. apply Rrem_range; [lra |].
  pose proof (toDegrees_bounds (atan2_bounds
    (shorter_way (toRadians (lon q - lon p)))
    (mercator_dpsi (toRadians (lat p)) (toRadians (lat q))))). lra.
Qed.

Lemma rhumbBearingTo_range_witness :
  0 <= rhumbBearingTo (mkLatLon 51.5136 (-0.0983) 6371)
                      (mkLatLon 51.4778 (-0.0015) 6371) < 360.
Proof.
  apply (@rhumbBearingTo_range (mkLatLon 51.5136 (-0.0983) 6371)
           (mkLatLon 51.4778 (-0.0015) 6371)); cbn [lat]; lra.
Defined.

Lemma toDegrees_PI2 : toDegrees (PI / 2) = 90.
Proof. pose proof PI_RGT_0. unfold toDegrees. field. lra. Qed.

Lemma toDegrees_opp (t : R) : toDegrees (- t) = - toDegrees t.
Proof. pose proof PI_RGT_0. unfold toDegrees. field. lra. Qed.

(** X3.  In exact arithmetic, along a parallel of latitude the rhumb-line
    bearing is due east (90) or due west (270), whichever way round the
    globe is shorter: a difference of longitude beyond 180 degrees is taken
    across the anti-meridian. *)
Theorem rhumbBearingTo_parallel (p q : LatLon) :
  lat q = lat p -> -90 < lat p < 90 ->
  (0 < lon q - lon p <= 180 \/ -360 < lon q - lon p < -180 ->
   rhumbBearingTo p q = 90) /\
  (-180 <= lon q - lon p < 0 \/ 180 < lon q - lon p < 360 ->
   rhumbBearingTo p q = 270).
Proof.
  pose proof PI_RGT_0 as Hpi. intros Hlat Hrange.
  unfold rhumbBearingTo. rewrite Hlat, (mercator_dpsi_parallel Hrange).
  set (d := lon q - lon p).
  assert (H180 : forall a, a < 180 -> toRadians a < PI)
    by (intros a Ha; rewrite <- toRadians_180; now apply toRadians_lt).
  assert (H180' : forall a, 180 < a -> PI < toRadians a)
    by (intros a Ha; rewrite <- toRadians_180; now apply toRadians_lt).
  assert (Hm180 : forall a, -180 < a -> - PI < toRadians a)
    by (intros a Ha; rewrite <- toRadians_m180; now apply toRadians_lt).
  assert (Hm180' : forall a, a < -180 -> toRadians a < - PI)
    by (intros a Ha; rewrite <- toRadians_m180; now apply toRadians_lt).
  assert (H360 : toRadians 360 = 2 * PI) by (unfold toRadians; field).
  assert (Hm360 : toRadians (-360) = - (2 * PI)) by (unfold toRadians; field).
  assert (H0 : forall a, 0 < a -> 0 < toRadians a)
    by (intros a Ha; rewrite <- toRadians_0; now apply toRadians_lt).
  assert (H0' : forall a, a < 0 -> toRadians a < 0)
    by (intros a Ha; rewrite <- toRadians_0; now apply toRadians_lt).
  assert (East : forall y, 0 < y ->
            Rrem (toDegrees (atan2 y 0) + 360) 360 = 90).
  { intros y Hy. rewrite (atan2_pos_0 Hy), toDegrees_PI2.
    rewrite (@Rrem_eq (90 + 360) 360 1); lra. }
  assert (West : forall y, y < 0 ->
            Rrem (toDegrees (atan2 y 0) + 360) 360 = 270).
  { intros y Hy. rewrite (atan2_neg_0 Hy), toDegrees_opp, toDegrees_PI2.
    rewrite (@Rrem_eq (Ropp 90 + 360) 360 0); lra. }
  split; intros [H | H].
  - apply East. destruct H as [Hlo [Hhi | Hhi]].
    + rewrite shorter_way_small; [now apply H0 |].
      pose proof (H0 d Hlo). pose proof (H180 d Hhi). lra.
    + rewrite Hhi, toRadians_180, shorter_way_small; lra.
  - apply East. destruct H as [Hlo Hhi].
    rewrite shorter_way_west by now apply Hm180'.
    pose proof (toRadians_lt Hlo) as Hl. rewrite Hm360 in Hl. lra.
  - apply West. destruct H as [[Hlo | Hlo] Hhi].
    + rewrite shorter_way_small; [now apply H0' |].
      pose proof (H0' d Hhi). pose proof (Hm180 d Hlo). lra.
    + rewrite <- Hlo, toRadians_m180, shorter_way_small; lra.
  - apply West. destruct H as [Hlo Hhi].
    rewrite shorter_way_east by now apply H180'.
    pose proof (toRadians_lt Hhi) as Hl. rewrite H360 in Hl. lra.
Qed.

Lemma rhumbBearingTo_parallel_witness :
  rhumbBearingTo (mkLatLon 10 170 6371) (mkLatLon 10 (-170) 6371) = 90 /\
  rhumbBearingTo (mkLatLon 10 20 6371) (mkLatLon 10 5 6371) = 270.
Proof.
  split.
  - apply (proj1 (@rhumbBearingTo_parallel (mkLatLon 10 170 6371)
                    (mkLatLon 10 (-170) 6371) eq_refl
                    ltac:(cbn [lat]; lra))).
    right. cbn [lon]. lra.
  - apply (proj2 (@rhumbBearingTo_parallel (mkLatLon 10 20 6371)
                    (mkLatLon 10 5 6371) eq_refl
                    ltac:(cbn [lat]; lra))).
    left. cbn [lon]. lra.
Defined.

(** X4.  In exact arithmetic, along a meridian the rhumb-line bearing is due
    north (0) or due south (180). *)
Theorem rhumbBearingTo_meridian (p q : LatLon) :
  lon q = lon p -> -90 < lat p < 90 -> -90 < lat q < 90 ->
  (lat p < lat q -> rhumbBearingTo p q = 0) /\
  (lat q < lat p -> rhumbBearingTo p q = 180).
Proof.
  pose proof PI_RGT_0 as Hpi. intros Hlon Hp Hq.
  unfold rhumbBearingTo. rewrite Hlon.
  replace (lon p - lon p) with 0 by ring.
  rewrite toRadians_0, shorter_way_small by lra.
  split; intros H.
  - rewrite atan2_0_pos by (apply mercator_dpsi_pos; lra).
    unfold toDegrees.
    replace (0 * 180 / PI + 360) with 360 by (field; lra).
    rewrite (@Rrem_eq 360 360 1); lra.
  - rewrite atan2_0_neg.
    + unfold toDegrees.
      replace (PI * 180 / PI + 360) with 540 by (field; lra).
      rewrite (@Rrem_eq 540 360 1); lra.
    + rewrite (mercator_dpsi_swap Hq Hp).
      assert (0 < mercator_dpsi (toRadians (lat q)) (toRadians (lat p)))
        by (apply mercator_dpsi_pos; lra).
      lra.
Qed.

Lemma rhumbBearingTo_meridian_witness :
  rhumbBearingTo (mkLatLon 10 20 6371) (mkLatLon 30 20 6371) = 0 /\
  rhumbBearingTo (mkLatLon 10 20 6371) (mkLatLon (-50) 20 6371) = 180.
Proof.
  split.
  - apply (proj1 (@rhumbBearingTo_meridian (mkLatLon 10 20 6371)
                    (mkLatLon 30 20 6371) eq_refl
                    ltac:(cbn [lat]; lra) ltac:(cbn [lat]; lra))).
    cbn [lat]. lra.
  - apply (proj2 (@rhumbBearingTo_meridian (mkLatLon 10 20 6371)
                    (mkLatLon (-50) 20 6371) eq_refl
                    ltac:(cbn [lat]; lra) ltac:(cbn [lat]; lra))).
    cbn [lat]. lra.
Defined.

End EngineBearings.

(** ** Engine: distances *)

Section EngineDistances.
Local Open Scope R_scope.

Lemma toPrecision_range (q : Q) (p : Z) :
  ((1 <= p <= 100)%Z -> exists s, toPrecision (Num q) p = Returns s) /\
  ((p < 1 \/ 100 < p)%Z -> toPrecision (Num q) p = Throws RangeError).
Proof.
  unfold toPrecision. split; intros H.
  - replace ((p <? 1)%Z || (100 <? p)%Z) with false
      by (symmetry; apply orb_false_iff; split; apply Z.ltb_ge; lia).
    destruct (if Qeq_bool (Qabs q) 0 then _ else _) as [e m].
    destruct ((e <? -6)%Z || (p <=? e)%Z); [eexists; reflexivity |].
    destruct (e =? p - 1)%Z; [eexists; reflexivity |].
    destruct (0 <=? e)%Z; eexists; reflexivity.
  - replace ((p <? 1)%Z || (100 <? p)%Z) with true; [reflexivity |].
    symmetry. apply orb_true_iff. destruct H; [left | right]; apply Z.ltb_lt; lia.
Qed.

Lemma toPrecisionFixed_range (q : Q) (p : Z) :
  ((1 <= p <= 100)%Z -> exists s, toPrecisionFixed (Num q) p = Returns s) /\
  ((p < 1 \/ 100 < p)%Z -> toPrecisionFixed (Num q) p = Throws RangeError).
Proof.
  destruct (toPrecision_range q p) as [Hok Hbad]. unfold toPrecisionFixed.
  split; intros H.
  - destruct (Hok H) as (s & ->). cbn [bind]. eexists; reflexivity.
  - now rewrite (Hbad H).
Qed.

(** X5.  In exact arithmetic, where the distance between two points of
    finite coordinates is a finite number, [distanceTo] returns a string
    when the precision is omitted (4 digits are used) or lies between 1 and
    100, and throws a [RangeError] for any other precision. *)
Theorem distanceTo_precision (round64 : R -> Q) (p q : LatLon) :
  (exists s, distanceTo round64 p q None = Returns s /\
             distanceTo round64 p q (Some 4%Z) = Returns s) /\
  (forall n, (1 <= n <= 100)%Z ->
             exists s, distanceTo round64 p q (Some n) = Returns s) /\
  (forall n, (n < 1 \/ 100 < n)%Z ->
             distanceTo round64 p q (Some n) = Throws RangeError).
Proof.
  unfold distanceTo, toPrecisionFixedR.
  set (d := round64 _).
  split; [| split].
  - destruct (proj1 (toPrecisionFixed_range d 4) ltac:(lia)) as (s & Hs).
    exists s. split; exact Hs.
  - intros n Hn. exact (proj1 (toPrecisionFixed_range d n) Hn).
  - intros n Hn. exact (proj2 (toPrecisionFixed_range d n) Hn).
Qed.

Lemma toPrecisionFixed_zero (q : Q) :
  (q == 0)%Q -> toPrecisionFixed (Num q) 4 = Returns (u16 "0.000").
Proof.
  intros Hq. unfold toPrecisionFixed, toPrecision.
  change ((4 <? 1)%Z || (100 <? 4)%Z) with false. cbv iota.
  replace (Qlt_bool q 0) with false
    by (symmetry; apply Qlt_bool_false; rewrite Hq; apply Qle_refl).
  replace (Qeq_bool (Qabs q) 0) with true.
  - vm_compute. reflexivity.
  - symmetry. apply Qeq_bool_iff. rewrite Hq. reflexivity.
Qed.

Lemma haversine_same (phi lam : R) :
  sin ((phi - phi) / 2) * sin ((phi - phi) / 2) +
  cos phi * cos phi * sin ((lam - lam) / 2) * sin ((lam - lam) / 2) = 0.
Proof.
  replace ((phi - phi) / 2) with 0 by field.
  replace ((lam - lam) / 2) with 0 by field.
  rewrite sin_0. ring.
Qed.

(** X6.  The distance from a point to itself is rendered ["0.000"], provided the
    rounding to a Number keeps zero. *)
Theorem distanceTo_self (round64 : R -> Q) (p : LatLon) :
  (round64 0%R == 0)%Q ->
  distanceTo round64 p p None = Returns (u16 "0.000").
Proof.
  intros H0. unfold distanceTo, toPrecisionFixedR.
  rewrite haversine_same, Rminus_0_r, sqrt_0, sqrt_1.
  rewrite atan2_0_pos by lra.
  replace (radius p * (2 * 0)) with 0 by ring.
  now apply toPrecisionFixed_zero.
Qed.

Lemma round_grid_0 : (round_grid 0%R == 0)%Q.
Proof.
  unfold round_grid. rewrite Rmult_0_l.
  replace (Int_part 0) with 0%Z; [reflexivity |].
  apply Int_part_spec. lra.
Qed.

Lemma distanceTo_self_witness :
  distanceTo round_grid (mkLatLon 51.5136 (-0.0983) 6371)
             (mkLatLon 51.5136 (-0.0983) 6371) None = Returns (u16 "0.000").
Proof.
  apply (@distanceTo_self round_grid (mkLatLon 51.5136 (-0.0983) 6371)).
  exact round_grid_0.
Defined.

(** The central angle of the haversine formula along a meridian. *)
Lemma haversine_meridian (t : R) :
  - PI <= t <= PI ->
  2 * atan2 (sqrt (sin (t / 2) * sin (t / 2)))
            (sqrt (1 - sin (t / 2) * sin (t / 2))) = Rabs t.
Proof.
  pose proof PI_RGT_0 as Hpi. intros [Hlo Hhi].
  assert (Hc : 1 - sin (t / 2) * sin (t / 2) = cos (t / 2) * cos (t / 2)).
  { pose proof (sin2_cos2 (t / 2)) as E. unfold Rsqr in E. lra. }
  rewrite Hc.
  assert (Hcos : 0 <= cos (t / 2)) by (apply cos_ge_0; lra).
  rewrite (sqrt_square _ Hcos).
  fold (Rsqr (sin (t / 2))). rewrite sqrt_Rsqr_abs.
  assert (Habs : Rabs (sin (t / 2)) = sin (Rabs t / 2)).
  { unfold Rabs at 2. destruct (Rcase_abs t) as [Hn | Hp].
    - replace (- t / 2) with (- (t / 2)) by field. rewrite sin_neg.
      apply Rabs_left1.
      assert (H0 : 0 <= sin (- (t / 2))) by (apply sin_ge_0; lra).
      rewrite sin_neg in H0. lra.
    - apply Rabs_right. apply Rle_ge, sin_ge_0; lra. }
  assert (Hcabs : cos (t / 2) = cos (Rabs t / 2)).
  { unfold Rabs. destruct (Rcase_abs t) as [Hn | Hp]; [| reflexivity].
    replace (- t / 2) with (- (t / 2)) by field. now rewrite cos_neg. }
  rewrite Habs, Hcabs.
  assert (Ha : 0 <= Rabs t <= PI).
  { unfold Rabs. destruct (Rcase_abs t); lra. }
  rewrite <- (Rmult_1_l (sin (Rabs t / 2))), <- (Rmult_1_l (cos (Rabs t / 2))).
  rewrite atan2_sin_cos by lra. field.
Qed.

(** X7.  In exact arithmetic, along a meridian the great-circle distance and
    the rhumb-line distance are the same number: the radius times the
    difference of latitude in radians. *)
Theorem distanceTo_meridian (round64 : R -> Q) (p q : LatLon) :
  lon q = lon p -> -180 <= lat q - lat p <= 180 ->
  distanceTo round64 p q None = rhumbDistanceTo round64 p q /\
  rhumbDistanceTo round64 p q =
    toPrecisionFixed
      (Num (round64 (Rabs (toRadians (lat q - lat p)) * radius p))) 4.
Proof.
  pose proof PI_RGT_0 as Hpi. intros Hlon Hlat.
  assert (Ht : - PI <= toRadians (lat q - lat p) <= PI).
  { split.
    - rewrite <- toRadians_m180. apply toRadians_le. lra.
    - rewrite <- toRadians_180. apply toRadians_le. lra. }
  assert (Hr : rhumbDistanceTo round64 p q =
    toPrecisionFixed
      (Num (round64 (Rabs (toRadians (lat q - lat p)) * radius p))) 4).
  { unfold rhumbDistanceTo, toPrecisionFixedR. rewrite Hlon.
    replace (lon p - lon p) with 0 by ring.
    rewrite Rabs_R0, toRadians_0, shorter_way_small by lra.
    rewrite <- toRadians_sub.
    set (t := toRadians (lat q - lat p)).
    replace (t * t + rhumbDistanceTo_q p q * rhumbDistanceTo_q p q * 0 * 0)
      with (Rsqr t) by (unfold Rsqr; ring).
    now rewrite sqrt_Rsqr_abs. }
  split; [| exact Hr].
  rewrite Hr. unfold distanceTo, toPrecisionFixedR. rewrite Hlon.
  replace ((toRadians (lon p) - toRadians (lon p)) / 2) with 0 by field.
  rewrite sin_0, <- toRadians_sub.
  set (t := toRadians (lat q - lat p)) in *.
  replace (sin (t / 2) * sin (t / 2) +
           cos (toRadians (lat p)) * cos (toRadians (lat q)) * 0 * 0)
    with (sin (t / 2) * sin (t / 2)) by ring.
  rewrite (haversine_meridian Ht).
  replace (radius p * Rabs t) with (Rabs t * radius p) by ring.
  reflexivity.
Qed.

Lemma distanceTo_meridian_witness :
  distanceTo round_grid (mkLatLon 10 20 6371) (mkLatLon 30 20 6371) None =
  rhumbDistanceTo round_grid (mkLatLon 10 20 6371) (mkLatLon 30 20 6371) /\
  rhumbDistanceTo round_grid (mkLatLon 10 20 6371) (mkLatLon 30 20 6371) =
    toPrecisionFixed
      (Num (round_grid (Rabs (toRadians (30 - 10)) * 6371))) 4.
Proof.
  apply (@distanceTo_meridian round_grid (mkLatLon 10 20 6371)
           (mkLatLon 30 20 6371) eq_refl).
  cbn [lat]. lra.
Defined.

(** X8.  In exact arithmetic, the rhumb-line distance does not depend on the
    direction when the two latitudes differ by more than the tolerance on
    [dpsi], or not at all. *)
Theorem rhumbDistanceTo_symmetric (round64 : R -> Q) (p q : LatLon) :
  radius p = radius q ->
  -90 < lat p < 90 -> -90 < lat q < 90 ->
  lit_10e_12 < Rabs (rhumbDistanceTo_dpsi p q) \/ lat p = lat q ->
  rhumbDistanceTo round64 p q = rhumbDistanceTo round64 q p.
Proof.
  intros Hrad Hp Hq Hcase.
  assert (Hswap : rhumbDistanceTo_dpsi q p = - rhumbDistanceTo_dpsi p q).
  { unfold rhumbDistanceTo_dpsi. now apply mercator_dpsi_swap. }
  assert (Hqq : rhumbDistanceTo_q q p = rhumbDistanceTo_q p q).
  { unfold rhumbDistanceTo_q. rewrite Hswap, Rabs_Ropp.
    destruct Hcase as [Hbig | Heq].
    - destruct (Rlt_dec lit_10e_12 (Rabs (rhumbDistanceTo_dpsi p q)))
        as [_ | Hn]; [| contradiction].
      assert (Hne : rhumbDistanceTo_dpsi p q <> 0).
      { intros E. rewrite E, Rabs_R0, lit_10e_12_value in Hbig.
        assert (0 < / 10 ^ 11) by (apply Rinv_0_lt_compat, pow_lt; lra). lra. }
      field. exact Hne.
    - rewrite Heq.
      replace (toRadians (lat q) - toRadians (lat q)) with 0 by ring.
      destruct (Rlt_dec _ _); [| reflexivity].
      unfold Rdiv. now rewrite !Rmult_0_l. }
  unfold rhumbDistanceTo. rewrite Hqq, Hrad.
  replace (Rabs (lon p - lon q)) with (Rabs (lon q - lon p))
    by (rewrite <- Rabs_Ropp; f_equal; ring).
  set (dl := shorter_way _). set (k := rhumbDistanceTo_q p q).
  replace ((toRadians (lat p) - toRadians (lat q)) *
           (toRadians (lat p) - toRadians (lat q)) + k * k * dl * dl)
    with ((toRadians (lat q) - toRadians (lat p)) *
          (toRadians (lat q) - toRadians (lat p)) + k * k * dl * dl) by ring.
  reflexivity.
Qed.

Lemma rhumbDistanceTo_symmetric_witness :
  rhumbDistanceTo round_grid (mkLatLon 0 0 6371) (mkLatLon 30 40 6371) =
  rhumbDistanceTo round_grid (mkLatLon 30 40 6371) (mkLatLon 0 0 6371).
Proof.
  apply (@rhumbDistanceTo_symmetric round_grid (mkLatLon 0 0 6371)
           (mkLatLon 30 40 6371) eq_refl).
  - cbn [lat]. lra.
  - cbn [lat]. lra.
  - left. unfold rhumbDistanceTo_dpsi. cbn [lat].
    rewrite mercator_dpsi_equator_30, lit_10e_12_value. exact ln_3_large.
Defined.

End EngineDistances.

(** ** Engine: points *)

Section EnginePoints.
Local Open Scope R_scope.

Lemma toRadians_lat_range (x : R) :
  -90 <= x <= 90 -> - (PI / 2) <= toRadians x <= PI / 2.
Proof.
  intros [Hlo Hhi]. split.
  - rewrite <- toRadians_m90. now apply toRadians_le.
  - rewrite <- toRadians_90. now apply toRadians_le.
Qed.

Lemma toRadians_lon_range (x : R) :
  -180 <= x < 180 -> - PI <= toRadians x < PI.
Proof.
  intros [Hlo Hhi]. split.
  - rewrite <- toRadians_m180. now apply toRadians_le.
  - rewrite <- toRadians_180. now apply toRadians_lt.
Qed.

Lemma atan2_0_nonneg (x : R) : 0 <= x -> atan2 0 x = 0.
Proof.
  intros [H | <-]; [now apply atan2_0_pos | apply atan2_0_0].
Qed.

(** X9.  In exact arithmetic, travelling no distance leads nowhere:
    [destinationPoint] returns the origin (with the default radius),
    whatever the bearing. *)
Theorem destinationPoint_zero (p : LatLon) (brng : R) :
  radius p <> 0 -> -90 <= lat p <= 90 -> -180 <= lon p < 180 ->
  destinationPoint p brng 0 = mkLatLon (lat p) (lon p) 6371.
Proof.
  intros Hr Hlat Hlon.
  pose proof (toRadians_lat_range Hlat) as Hphi.
  pose proof (toRadians_lon_range Hlon) as Hlam.
  unfold destinationPoint, destinationPoint_lam2, new_LatLon.
  replace (0 / radius p) with 0 by (field; exact Hr).
  rewrite sin_0, cos_0.
  replace (sin (toRadians (lat p)) * 1 +
           cos (toRadians (lat p)) * 0 * cos (toRadians brng))
    with (sin (toRadians (lat p))) by ring.
  rewrite (asin_sin _ Hphi).
  replace (sin (toRadians brng) * 0 * cos (toRadians (lat p))) with 0 by ring.
  rewrite atan2_0_nonneg.
  - rewrite Rplus_0_r, (normalise_lon_id Hlam), !toDegrees_toRadians.
    reflexivity.
  - pose proof (sin2_cos2 (toRadians (lat p))) as E. unfold Rsqr in E.
    replace (1 - sin (toRadians (lat p)) * sin (toRadians (lat p)))
      with (cos (toRadians (lat p)) * cos (toRadians (lat p))) by lra.
    apply Rle_0_sqr.
Qed.

Lemma destinationPoint_zero_witness :
  destinationPoint (mkLatLon 51.5 (-0.1) 6371) 45 0 =
  mkLatLon 51.5 (-0.1) 6371.
Proof.
  apply (@destinationPoint_zero (mkLatLon 51.5 (-0.1) 6371) 45);
    cbn [radius lat lon]; lra.
Defined.

(** X10.  In exact arithmetic, travelling no distance along a rhumb line
    leads nowhere either: away from the poles [rhumbDestinationPoint]
    returns the origin (with the default radius), whatever the bearing. *)
Theorem rhumbDestinationPoint_zero (p : LatLon) (brng : R) :
  radius p <> 0 -> -90 < lat p < 90 -> -180 <= lon p < 180 ->
  rhumbDestinationPoint p brng 0 = mkLatLon (lat p) (lon p) 6371.
Proof.
  pose proof PI_RGT_0 as Hpi. intros Hr Hlat Hlon.
  assert (Hphi : - (PI / 2) <= toRadians (lat p) <= PI / 2)
    by (apply toRadians_lat_range; lra).
  pose proof (toRadians_lon_range Hlon) as Hlam.
  assert (Hdphi : rhumbDestinationPoint_dphi p brng 0 = 0).
  { unfold rhumbDestinationPoint_dphi. field. exact Hr. }
  assert (Hphi2 : rhumbDestinationPoint_phi2 p brng 0 = toRadians (lat p)).
  { unfold rhumbDestinationPoint_phi2. rewrite Hdphi, Rplus_0_r.
    destruct (Rlt_dec (PI / 2) (Rabs (toRadians (lat p)))) as [H | _];
      [| reflexivity].
    exfalso. unfold Rabs in H. destruct (Rcase_abs _); lra. }
  assert (Hdpsi : rhumbDestinationPoint_dpsi p brng 0 = 0).
  { unfold rhumbDestinationPoint_dpsi. rewrite Hphi2.
    now apply mercator_dpsi_parallel. }
  assert (Hq : rhumbDestinationPoint_q p brng 0 = cos (toRadians (lat p))).
  { unfold rhumbDestinationPoint_q. rewrite Hdpsi, Rabs_R0, lit_10e_12_value.
    destruct (Rlt_dec _ _) as [H | _]; [| reflexivity].
    assert (0 < / 10 ^ 11) by (apply Rinv_0_lt_compat, pow_lt; lra). lra. }
  assert (Hlam2 : rhumbDestinationPoint_lam2 p brng 0 = toRadians (lon p)).
  { unfold rhumbDestinationPoint_lam2. rewrite Hq.
    assert (0 < cos (toRadians (lat p))).
    { apply cos_gt_0.
      - rewrite <- toRadians_m90. apply toRadians_lt. lra.
      - rewrite <- toRadians_90. apply toRadians_lt. lra. }
    field. split; lra. }
  unfold rhumbDestinationPoint, new_LatLon.
  rewrite Hphi2, Hlam2, (normalise_lon_id Hlam), !toDegrees_toRadians.
  reflexivity.
Qed.

Lemma rhumbDestinationPoint_zero_witness :
  rhumbDestinationPoint (mkLatLon 51.5 (-0.1) 6371) 45 0 =
  mkLatLon 51.5 (-0.1) 6371.
Proof.
  apply (@rhumbDestinationPoint_zero (mkLatLon 51.5 (-0.1) 6371) 45);
    cbn [radius lat lon]; lra.
Defined.

(** X11.  In exact arithmetic, the latitude of the great-circle midpoint does
    not depend on the order of the two points. *)
Theorem midpointTo_lat_symmetric (p q : LatLon) :
  lat (midpointTo p q) = lat (midpointTo q p).
Proof.
  unfold midpointTo, new_LatLon. cbn [lat].
  replace (lon p - lon q) with (- (lon q - lon p)) by ring.
  rewrite toRadians_opp, cos_neg, sin_neg.
  set (c1 := cos (toRadians (lat p))). set (c2 := cos (toRadians (lat q))).
  set (s1 := sin (toRadians (lat p))). set (s2 := sin (toRadians (lat q))).
  set (d := toRadians (lon q - lon p)).
  pose proof (sin2_cos2 d) as E. unfold Rsqr in E.
  replace ((c2 + c1 * cos d) * (c2 + c1 * cos d) +
           c1 * - sin d * (c1 * - sin d))
    with (c2 * c2 + 2 * c1 * c2 * cos d +
          c1 * c1 * (sin d * sin d + cos d * cos d)) by ring.
  replace ((c1 + c2 * cos d) * (c1 + c2 * cos d) + c2 * sin d * (c2 * sin d))
    with (c1 * c1 + 2 * c1 * c2 * cos d +
          c2 * c2 * (sin d * sin d + cos d * cos d)) by ring.
  rewrite E, !Rmult_1_r.
  replace (s2 + s1) with (s1 + s2) by ring.
  replace (c2 * c2 + 2 * c1 * c2 * cos d + c1 * c1)
    with (c1 * c1 + 2 * c1 * c2 * cos d + c2 * c2) by ring.
  reflexivity.
Qed.

(** X12.  In exact arithmetic, the great-circle midpoint of a point and
    itself is that point (with the default radius). *)
Theorem midpointTo_self (p : LatLon) :
  -90 <= lat p <= 90 -> -180 <= lon p < 180 ->
  midpointTo p p = mkLatLon (lat p) (lon p) 6371.
Proof.
  pose proof PI_RGT_0 as Hpi. intros Hlat Hlon.
  pose proof (toRadians_lat_range Hlat) as Hphi.
  pose proof (toRadians_lon_range Hlon) as Hlam.
  unfold midpointTo, midpointTo_lam3, new_LatLon.
  replace (lon p - lon p) with 0 by ring.
  rewrite toRadians_0, sin_0, cos_0, !Rmult_1_r, !Rmult_0_r, Rplus_0_r.
  set (phi := toRadians (lat p)) in *.
  assert (Hc : 0 <= cos phi) by (apply cos_ge_0; lra).
  rewrite sqrt_square by lra.
  replace (sin phi + sin phi) with (2 * sin phi) by ring.
  replace (cos phi + cos phi) with (2 * cos phi) by ring.
  rewrite atan2_sin_cos by lra.
  rewrite atan2_0_nonneg by lra.
  rewrite Rplus_0_r, (normalise_lon_id Hlam).
  unfold phi. rewrite !toDegrees_toRadians. reflexivity.
Qed.

Lemma midpointTo_self_witness :
  midpointTo (mkLatLon 51.5 (-0.1) 6371) (mkLatLon 51.5 (-0.1) 6371) =
  mkLatLon 51.5 (-0.1) 6371.
Proof.
  apply (@midpointTo_self (mkLatLon 51.5 (-0.1) 6371));
    cbn [lat lon]; lra.
Defined.

(** The loxodromic midpoint lies at the mean of the two latitudes. *)
Theorem rhumbMidpointTo_lat_mean (p q : LatLon) :
  lat (rhumbMidpointTo p q) = (lat p + lat q) / 2.
Proof.
  pose proof PI_RGT_0 as Hpi.
  unfold rhumbMidpointTo, new_LatLon. cbn [lat].
  unfold toDegrees, toRadians. field. lra.
Qed.

(** X13.  In exact arithmetic, between two points of one parallel, at most
    180 degrees of longitude apart, the loxodromic midpoint lies on that
    parallel at the mean of the two longitudes. *)
Theorem rhumbMidpointTo_parallel (p q : LatLon) :
  lat q = lat p -> -90 < lat p < 90 ->
  -180 <= lon q - lon p <= 180 ->
  -180 <= (lon p + lon q) / 2 < 180 ->
  rhumbMidpointTo p q = mkLatLon (lat p) ((lon p + lon q) / 2) 6371.
Proof.
  pose proof PI_RGT_0 as Hpi. intros Hlat Hrange Hd Hmean.
  assert (Hfar : ~ PI < Rabs (toRadians (lon q) - toRadians (lon p))).
  { rewrite <- toRadians_sub. intros H.
    assert (- PI <= toRadians (lon q - lon p) <= PI).
    { split.
      - rewrite <- toRadians_m180. apply toRadians_le. lra.
      - rewrite <- toRadians_180. apply toRadians_le. lra. }
    unfold Rabs in H. destruct (Rcase_abs _); lra. }
  assert (Hl3 : rhumbMidpointTo_lam3 p q = toRadians ((lon p + lon q) / 2)).
  { unfold rhumbMidpointTo_lam3. rewrite Hlat.
    destruct (Rlt_dec PI (Rabs (toRadians (lon q) - toRadians (lon p))))
      as [H | _]; [contradiction |].
    pose proof (mercator_tan_pos Hrange) as Ht.
    replace (PI / 4 + toRadians (lat p) / 2)
      with (toRadians (lat p) / 2 + PI / 4) by ring.
    replace (tan (toRadians (lat p) / 2 + PI / 4) /
             tan (toRadians (lat p) / 2 + PI / 4)) with 1 by (field; lra).
    rewrite ln_1. destruct (Req_EM_T 0 0) as [_ | H]; [| contradiction].
    unfold toRadians. field. }
  unfold rhumbMidpointTo, new_LatLon. rewrite Hl3, Hlat.
  rewrite (normalise_lon_id (toRadians_lon_range Hmean)).
  rewrite toDegrees_toRadians.
  replace ((toRadians (lat p) + toRadians (lat p)) / 2)
    with (toRadians (lat p)) by field.
  now rewrite toDegrees_toRadians.
Qed.

Lemma rhumbMidpointTo_parallel_witness :
  rhumbMidpointTo (mkLatLon 10 20 6371) (mkLatLon 10 60 6371) =
  mkLatLon 10 ((20 + 60) / 2) 6371.
Proof.
  apply (@rhumbMidpointTo_parallel (mkLatLon 10 20 6371)
           (mkLatLon 10 60 6371) eq_refl); cbn [lat lon]; lra.
Defined.

(** X14.  Two paths that start at the same place have no intersection:
    [intersection] answers [null], whatever the bearings. *)
Theorem intersection_coincident (p1 p2 : LatLon) (brng1 brng2 : R) :
  lat p2 = lat p1 -> lon p2 = lon p1 ->
  intersection p1 brng1 p2 brng2 = None.
Proof.
  intros Hlat Hlon. unfold intersection. rewrite Hlat, Hlon.
  rewrite haversine_same, sqrt_0, asin_0, Rmult_0_r.
  unfold Reqb. destruct (Req_EM_T 0 0) as [_ | H]; [reflexivity | contradiction].
Qed.

Lemma intersection_coincident_witness :
  intersection (mkLatLon 51.5 (-0.1) 6371) 10 (mkLatLon 51.5 (-0.1) 1) 200
  = None.
Proof.
  apply (@intersection_coincident (mkLatLon 51.5 (-0.1) 6371)
           (mkLatLon 51.5 (-0.1) 1) 10 200 eq_refl eq_refl).
Defined.

End EnginePoints.

(** ** Codec: what can be raised *)

Section CodecExceptions.
Local Open Scope Z_scope.

Lemma parseDMS_object_cases (s : jsstring) :
  parseDMS (VObject s) = Throws TypeError \/ parseDMS (VObject s) = Returns NaN.
Proof.
  unfold parseDMS.
  change (str_eqb (typeof VUndefined) (u16 "object")) with false.
  change (str_eqb (typeof (VObject s)) (u16 "number")) with false.
  cbn [andb ToString]. cbv zeta.
  destruct (str_eqb (join_comma (parseDMS_dms s)) []); [now right |].
  destruct (parseDMS_dms s) as [| d [| m [| sc [| x r]]]]; auto.
Qed.

(** X15.  [Geo.parseDMS] raises nothing on undefined, null, a boolean, a
    number or a string; on an object that has no [trim] method (a plain
    object, an array, a page element: the objects of [value]) it either
    raises the [TypeError] of [dmsStr.trim()] or answers [NaN], it never
    yields a number. *)
Theorem parseDMS_raises_only_on_objects :
  (forall v, (forall s, v <> VObject s) -> exists n, parseDMS v = Returns n) /\
  (forall s, parseDMS (VObject s) = Throws TypeError \/
             parseDMS (VObject s) = Returns NaN).
Proof.
  split; [| exact parseDMS_object_cases].
  intros v Hv. destruct v as [| | b | n | s | s].
  - exists NaN. vm_compute. reflexivity.
  - exists NaN. vm_compute. reflexivity.
  - exists NaN. destruct b; vm_compute; reflexivity.
  - destruct n as [| q].
    + exists NaN. vm_compute. reflexivity.
    + exists (Num q). reflexivity.
  - rewrite parseDMS_string_cases. cbv zeta.
    destruct (str_eqb _ _); [eexists; reflexivity |].
    destruct (parseDMS_dms s) as [| d [| m [| sc [| x r]]]];
      eexists; reflexivity.
  - exfalso. exact (Hv s eq_refl).
Qed.

Lemma toFixed_throws (x : number) (f : Z) (e : error) :
  toFixed x f = Throws e -> e = RangeError /\ (f < 0 \/ 100 < f).
Proof.
  unfold toFixed.
  destruct ((f <? 0) || (100 <? f)) eqn:E.
  - intros H. injection H as <-. split; [reflexivity |].
    apply orb_true_iff in E as [E | E]; apply Z.ltb_lt in E; lia.
  - destruct x as [| q]; [discriminate |].
    destruct (Qle_bool _ _); discriminate.
Qed.

Lemma toFixed_returns (x : number) (f : Z) :
  0 <= f <= 100 -> exists s, toFixed x f = Returns s.
Proof.
  intros Hf. destruct (toFixed x f) as [s | e] eqn:E; [now exists s |].
  apply toFixed_throws in E. lia.
Qed.

(** X16.  The three ways [Geo.toDMS] can raise on undefined, null, a boolean,
    a number, a string or an object (the values of [value]; a symbol or a
    big integer, which the conversion to a number refuses, are not among
    them): the type guard on an object (or [null]), a number of decimal
    places that [toFixed] refuses, and an unknown format given together with
    [dp] before any rendering has created the global [dms]. *)
Theorem toDMS_exceptions (deg : value) (format : option jsstring)
    (dp : option Z) (g : globals) (e : error) :
  toDMS deg format dp g = Throws e ->
  (e = TypeError /\ typeof deg = u16 "object") \/
  (e = RangeError /\ exists f, dp = Some f /\ (f < 0 \/ 100 < f)) \/
  (e = ReferenceError /\ g = None /\
   exists fmt f, format = Some fmt /\ dp = Some f /\ known_format fmt = false).
Proof.
  unfold toDMS.
  destruct (str_eqb (typeof deg) (u16 "object")) eqn:Hobj.
  { intros H. injection H as <-. left. split; [reflexivity |].
    destruct deg; try discriminate Hobj; reflexivity. }
  destruct (n_isNaN (ToNumber deg)); [discriminate |].
  destruct dp as [f |].
  - set (fmt := match format with Some f0 => f0 | None => u16 "dms" end).
    assert (Hfmt : format = None /\ fmt = u16 "dms" \/ format = Some fmt)
      by (subst fmt; destruct format; auto).
    clearbody fmt.
    assert (Hrange : forall x e', toFixed x f = Throws e' ->
              e' = e -> (e = TypeError /\ typeof deg = u16 "object") \/
              (e = RangeError /\ exists f0, Some f = Some f0 /\ (f0 < 0 \/ 100 < f0)) \/
              (e = ReferenceError /\ g = None /\
               exists fmt0 f0, format = Some fmt0 /\ Some f = Some f0 /\
                               known_format fmt0 = false)).
    { intros x e' Hx <-. apply toFixed_throws in Hx as [-> Hf].
      right; left. split; [reflexivity |]. now exists f. }
    destruct (str_eqb fmt (u16 "d")) eqn:Ed.
    { destruct (toFixed _ f) eqn:E1; cbn [bind]; [discriminate |].
      intros H. injection H as H. exact (Hrange _ _ E1 H). }
    destruct (str_eqb fmt (u16 "dm")) eqn:Edm.
    { destruct (toFixed _ f) eqn:E1; cbn [bind].
      - destruct (toFixed (nrem _ _) f) eqn:E2; cbn [bind]; cbv zeta;
          [discriminate |].
        intros H. injection H as H. exact (Hrange _ _ E2 H).
      - intros H. injection H as H. exact (Hrange _ _ E1 H). }
    destruct (str_eqb fmt (u16 "dms")) eqn:Edms.
    { destruct (toFixed _ f) eqn:E1; cbn [bind].
      - destruct (toFixed (nrem _ _) f) eqn:E2; cbn [bind]; cbv zeta;
          [discriminate |].
        intros H. injection H as H. exact (Hrange _ _ E2 H).
      - intros H. injection H as H. exact (Hrange _ _ E1 H). }
    destruct g as [s |]; [discriminate |].
    intros H. injection H as <-. right; right.
    split; [reflexivity |]. split; [reflexivity |].
    destruct Hfmt as [[_ ->] | ->]; [discriminate Edms |].
    exists fmt, f. repeat split. unfold known_format. now rewrite Ed, Edm, Edms.
  - set (fmt := match format with Some f0 => f0 | None => u16 "dms" end).
    clearbody fmt.
    assert (H4 : forall x, exists s, toFixed x 4 = Returns s)
      by (intros; apply toFixed_returns; lia).
    assert (H2 : forall x, exists s, toFixed x 2 = Returns s)
      by (intros; apply toFixed_returns; lia).
    assert (H0 : forall x, exists s, toFixed x 0 = Returns s)
      by (intros; apply toFixed_returns; lia).
    destruct (str_eqb fmt (u16 "d")) eqn:Ed.
    { rewrite Ed. destruct (H4 (nabs (ToNumber deg))) as (s & ->). discriminate. }
    destruct (str_eqb fmt (u16 "dm")) eqn:Edm.
    { rewrite Ed, Edm.
      destruct (H2 (nmul (nabs (ToNumber deg)) (nZ 60))) as (s & ->). cbn [bind].
      destruct (H2 (nrem (StringToNumber s) (nZ 60))) as (s' & ->).
      cbn [bind]; cbv zeta. discriminate. }
    assert (Hdms : forall x, (sec <- toFixed (nmul x (nZ 3600)) 0 ;;
       let d := VNumber (nfloor (ndiv (StringToNumber sec) (nZ 3600))) in
       let m := VNumber (nrem (nfloor (ndiv (StringToNumber sec) (nZ 60)))
                              (nZ 60)) in
       s <- toFixed (nrem (StringToNumber sec) (nZ 60)) 0 ;;
       let d := pad_below 100 d in
       let d := pad_below 10 d in
       let m := pad_below 10 m in
       let s := pad_below 10 (VString s) in
       let dms := ToString d ++ cu_degree :: ToString m ++ cu_prime ::
                  ToString s ++ [cu_dprime] in
       Returns (Some dms, Some dms))%js <> Throws e).
    { intros x. destruct (H0 (nmul x (nZ 3600))) as (s & ->). cbn [bind].
      destruct (H0 (nrem (StringToNumber s) (nZ 60))) as (s' & ->).
      cbn [bind]; cbv zeta. discriminate. }
    destruct (str_eqb fmt (u16 "dms")) eqn:Edms.
    + rewrite Ed, Edm, Edms. intros H. exfalso. exact (Hdms _ H).
    + change (str_eqb (u16 "dms") (u16 "d")) with false.
      change (str_eqb (u16 "dms") (u16 "dm")) with false.
      change (str_eqb (u16 "dms") (u16 "dms")) with true.
      cbv iota. intros H. exfalso. exact (Hdms _ H).
Qed.

Lemma toDMS_exceptions_witness :
  ((TypeError = TypeError /\ typeof VNull = u16 "object") \/
   (TypeError = RangeError /\
    exists f, @None Z = Some f /\ (f < 0 \/ 100 < f)) \/
   (TypeError = ReferenceError /\ @None jsstring = None /\
    exists fmt f, @None jsstring = Some fmt /\ @None Z = Some f /\
                  known_format fmt = false)) /\
  ((RangeError = TypeError /\ typeof (VNumber (Num 1)) = u16 "object") \/
   (RangeError = RangeError /\
    exists f, Some 101 = Some f /\ (f < 0 \/ 100 < f)) \/
   (RangeError = ReferenceError /\ @None jsstring = None /\
    exists fmt f, Some (u16 "dms") = Some fmt /\ Some 101 = Some f /\
                  known_format fmt = false)).
Proof.
  split.
  - apply (@toDMS_exceptions VNull None None None TypeError). reflexivity.
  - apply (@toDMS_exceptions (VNumber (Num 1)) (Some (u16 "dms")) (Some 101)
             None RangeError).
    vm_compute. reflexivity.
Defined.

End CodecExceptions.

(** ** Codec: the global [dms], signs and missing values *)

Section CodecRendering.
Local Open Scope Z_scope.

Lemma bind_returns {A B} (c : result A) (k : A -> result B) (b : B) :
  bind c k = Returns b -> exists a, c = Returns a /\ k a = Returns b.
Proof.
  destruct c as [a | e]; cbn [bind]; [| discriminate].
  intros H. now exists a.
Qed.

(** Whenever [Geo.toDMS] returns a string, the global [dms] holds that
    string afterwards. *)
Lemma toDMS_sets_global (deg : value) (format : option jsstring)
    (dp : option Z) (g g' : globals) (s : jsstring) :
  toDMS deg format dp g = Returns (Some s, g') -> g' = Some s.
Proof.
  unfold toDMS.
  destruct (str_eqb (typeof deg) (u16 "object")); [discriminate |].
  destruct (n_isNaN (ToNumber deg)); [discriminate |].
  destruct (match dp with Some dp0 => _ | None => _ end) as [fmt f].
  destruct (str_eqb fmt (u16 "d")).
  { intros H. apply bind_returns in H as (a & _ & H). cbv zeta in H.
    injection H as H1 H2. now subst. }
  destruct (str_eqb fmt (u16 "dm")).
  { intros H. apply bind_returns in H as (a & _ & H). cbv zeta in H.
    apply bind_returns in H as (b & _ & H). cbv zeta in H.
    injection H as H1 H2. now subst. }
  destruct (str_eqb fmt (u16 "dms")).
  { intros H. apply bind_returns in H as (a & _ & H). cbv zeta in H.
    apply bind_returns in H as (b & _ & H). cbv zeta in H.
    injection H as H1 H2. now subst. }
  destruct g as [d |]; [| discriminate].
  intros H. injection H as H1 H2. now subst.
Qed.

(** X17.  The global [dms] leaks from one call to the next: after a call that
    returned a string, a call with an unknown format and an explicit [dp]
    returns that same string again, whatever number it is given; an unknown
    format without [dp] is read as ['dms'] with no decimals. *)
Theorem toDMS_unknown_format (fmt : jsstring) :
  known_format fmt = false ->
  (forall deg format dp g s g',
      toDMS deg format dp g = Returns (Some s, g') ->
      forall y f, toDMS (VNumber (Num y)) (Some fmt) (Some f) g' =
                  Returns (Some s, g')) /\
  (forall y f, toDMS (VNumber (Num y)) (Some fmt) (Some f) None =
               Throws ReferenceError) /\
  (forall y g, toDMS (VNumber (Num y)) (Some fmt) None g =
               toDMS (VNumber (Num y)) (Some (u16 "dms")) (Some 0) g).
Proof.
  unfold known_format. intros H.
  apply orb_false_iff in H as [H Hdms]. apply orb_false_iff in H as [Hd Hdm].
  split; [| split].
  - intros deg format dp g s g' Hcall y f.
    rewrite (@toDMS_sets_global _ _ _ _ _ _ Hcall).
    unfold toDMS.
    change (str_eqb (typeof (VNumber (Num y))) (u16 "object")) with false.
    cbn [ToNumber n_isNaN]. cbv iota. now rewrite Hd, Hdm, Hdms.
  - intros y f. unfold toDMS.
    change (str_eqb (typeof (VNumber (Num y))) (u16 "object")) with false.
    cbn [ToNumber n_isNaN]. cbv iota. now rewrite Hd, Hdm, Hdms.
  - intros y g. unfold toDMS.
    change (str_eqb (typeof (VNumber (Num y))) (u16 "object")) with false.
    cbn [ToNumber n_isNaN]. cbv iota. rewrite Hd, Hdm, Hdms. reflexivity.
Qed.

Lemma toDMS_unknown_format_witness :
  toDMS (VNumber (Num 7)) (Some (u16 "deg")) (Some 2) None =
    Throws ReferenceError /\
  toDMS (VNumber (Num 7)) (Some (u16 "deg")) (Some 2)
        (Some (u16 "051" ++ cu_degree :: u16 "28" ++ cu_prime ::
               u16 "40" ++ [cu_dprime])) =
    Returns (Some (u16 "051" ++ cu_degree :: u16 "28" ++ cu_prime ::
                   u16 "40" ++ [cu_dprime]),
             Some (u16 "051" ++ cu_degree :: u16 "28" ++ cu_prime ::
                   u16 "40" ++ [cu_dprime])).
Proof.
  destruct (@toDMS_unknown_format (u16 "deg") eq_refl) as (Hstale & Hnone & _).
  split.
  - apply Hnone.
  - apply (Hstale (VNumber (Num (514778 # 10000))) None None None).
    vm_compute. reflexivity.
Defined.

Lemma Qabs_opp_eq (x : Q) : Qabs (- x) = Qabs x.
Proof.
  destruct x as [n d]. unfold Qabs, Qopp. cbn [Qnum Qden].
  now rewrite Z.abs_opp.
Qed.

(** [Geo.toDMS] discards the sign of its argument. *)
Lemma toDMS_opp (x : Q) (format : option jsstring) (dp : option Z)
    (g : globals) :
  toDMS (VNumber (Num (- x))) format dp g =
  toDMS (VNumber (Num x)) format dp g.
Proof.
  unfold toDMS. cbn [ToNumber nabs n_isNaN typeof]. now rewrite Qabs_opp_eq.
Qed.

Lemma toDMS_number_some (x : Q) (format : option jsstring) (dp : option Z)
    (g : globals) (r : option jsstring) (g' : globals) :
  toDMS (VNumber (Num x)) format dp g = Returns (r, g') ->
  exists s, r = Some s.
Proof.
  unfold toDMS.
  change (str_eqb (typeof (VNumber (Num x))) (u16 "object")) with false.
  cbn [ToNumber n_isNaN]. cbv iota.
  destruct (match dp with Some dp0 => _ | None => _ end) as [fmt f].
  destruct (str_eqb fmt (u16 "d")).
  { intros H. apply bind_returns in H as (a & _ & H). cbv zeta in H.
    injection H as H1 H2. eexists; symmetry; exact H1. }
  destruct (str_eqb fmt (u16 "dm")).
  { intros H. apply bind_returns in H as (a & _ & H). cbv zeta in H.
    apply bind_returns in H as (b & _ & H). cbv zeta in H.
    injection H as H1 H2. eexists; symmetry; exact H1. }
  destruct (str_eqb fmt (u16 "dms")).
  { intros H. apply bind_returns in H as (a & _ & H). cbv zeta in H.
    apply bind_returns in H as (b & _ & H). cbv zeta in H.
    injection H as H1 H2. eexists; symmetry; exact H1. }
  destruct g as [d |]; [| discriminate].
  intros H. injection H as H1 H2. eexists; symmetry; exact H1.
Qed.

Lemma compass_pos (x : Q) (neg pos : string) :
  (0 < x)%Q -> compass (VNumber (Num x)) neg pos = u16 pos.
Proof.
  intros Hx. unfold compass. cbn [ToNumber nlt nZ].
  rewrite Qlt_bool_false; [reflexivity |].
  change (inject_Z 0) with 0%Q. now apply Qlt_le_weak.
Qed.

Lemma compass_neg (x : Q) (neg pos : string) :
  (0 < x)%Q -> compass (VNumber (Num (- x))) neg pos = u16 neg.
Proof.
  intros Hx. unfold compass. cbn [ToNumber nlt nZ].
  rewrite Qlt_bool_true; [reflexivity |].
  change (inject_Z 0) with 0%Q. Lqa.lra.
Qed.

(** X18.  A coordinate and its opposite are written with the same digits and
    differ only in the final letter: N/S for a latitude, E/W for a
    longitude. *)
Theorem hemisphere_letter (x : Q) (format : option jsstring) (dp : option Z)
    (g : globals) :
  (0 < x)%Q ->
  (forall s g', toLat (VNumber (Num x)) format dp g = Returns (s, g') ->
     exists body, s = body ++ u16 "N" /\
       toLat (VNumber (Num (- x))) format dp g = Returns (body ++ u16 "S", g')) /\
  (forall s g', toLon (VNumber (Num x)) format dp g = Returns (s, g') ->
     exists body, s = body ++ u16 "E" /\
       toLon (VNumber (Num (- x))) format dp g = Returns (body ++ u16 "W", g')).
Proof.
  intros Hx. split; intros s g'.
  - unfold toLat. rewrite toDMS_opp.
    destruct (toDMS (VNumber (Num x)) format dp g) as [[r g0] | e] eqn:E;
      cbn [bind]; [| discriminate].
    destruct (@toDMS_number_some _ _ _ _ _ _ E) as (d & ->).
    rewrite (@compass_pos x _ _ Hx), (@compass_neg x _ _ Hx).
    intros H. injection H as <- <-. now exists (slice1 d).
  - unfold toLon. rewrite toDMS_opp.
    destruct (toDMS (VNumber (Num x)) format dp g) as [[r g0] | e] eqn:E;
      cbn [bind]; [| discriminate].
    destruct (@toDMS_number_some _ _ _ _ _ _ E) as (d & ->).
    rewrite (@compass_pos x _ _ Hx), (@compass_neg x _ _ Hx).
    intros H. injection H as <- <-. now exists d.
Qed.

Lemma hemisphere_letter_witness :
  (exists body,
     u16 "51" ++ cu_degree :: u16 "28" ++ cu_prime :: u16 "40" ++
       cu_dprime :: u16 "N" = body ++ u16 "N" /\
     toLat (VNumber (Num (- (514778 # 10000)))) None None None =
       Returns (body ++ u16 "S",
                Some (u16 "051" ++ cu_degree :: u16 "28" ++ cu_prime ::
                      u16 "40" ++ [cu_dprime]))) /\
  (exists body,
     u16 "000.0983" ++ cu_degree :: u16 "E" = body ++ u16 "E" /\
     toLon (VNumber (Num (- (983 # 10000)))) (Some (u16 "d")) None None =
       Returns (body ++ u16 "W", Some (u16 "000.0983" ++ [cu_degree]))).
Proof.
  split.
  - apply (proj1 (@hemisphere_letter (514778 # 10000) None None None eq_refl)).
    vm_compute. reflexivity.
  - apply (proj2 (@hemisphere_letter (983 # 10000) (Some (u16 "d")) None None
                    eq_refl)).
    vm_compute. reflexivity.
Defined.

(** X19.  A value that is not a number (undefined, a [NaN], a string that
    does not read as a number) is written as an en dash, and the global
    [dms] is left alone; [Geo.toBrng], which converts before it calls
    [Geo.toDMS], does so for a plain object or an array as well.  (Strings
    with a radix prefix and [Infinity], which are numbers, are set
    aside.) *)
Theorem missing_value_dash (v : value) (format : option jsstring)
    (dp : option Z) (g : globals) :
  (forall s, v = VString s \/ v = VObject s -> radix_or_infinity s = false) ->
  ToNumber v = NaN ->
  toBrng v format dp g = Returns ([cu_endash], g) /\
  ((forall s, v <> VObject s) ->
   toLat v format dp g = Returns ([cu_endash], g) /\
   toLon v format dp g = Returns ([cu_endash], g)).
Proof.
  intros _ Hnan. split.
  - unfold toBrng. rewrite Hnan. reflexivity.
  - intros Hobj.
    assert (Hty : str_eqb (typeof v) (u16 "object") = false).
    { destruct v; try reflexivity.
      - discriminate Hnan.
      - exfalso. exact (Hobj _ eq_refl). }
    unfold toLat, toLon, toDMS. rewrite Hty, Hnan. split; reflexivity.
Qed.

Lemma missing_value_dash_witness :
  toBrng (VString (u16 "north")) None None None = Returns ([cu_endash], None) /\
  toLat VUndefined None None None = Returns ([cu_endash], None) /\
  toLon VUndefined None None None = Returns ([cu_endash], None).
Proof.
  split.
  - apply (proj1 (@missing_value_dash (VString (u16 "north")) None None None
                    ltac:(intros s [E | E];
                          [injection E as <-; reflexivity | discriminate E])
                    eq_refl)).
  - apply (proj2 (@missing_value_dash VUndefined None None None
                    ltac:(intros s [E | E]; discriminate E) eq_refl)).
    intros s. discriminate.
Defined.

End CodecRendering.

(** ** Codec: bearings *)

Section CodecBearing.
Local Open Scope Q_scope.

Lemma Qle_bool_Qeq (a b b' : Q) : b == b' -> Qle_bool a b = Qle_bool a b'.
Proof.
  intros H. destruct (Qle_bool a b) eqn:E1, (Qle_bool a b') eqn:E2;
    try reflexivity.
  - apply Qle_bool_iff in E1. rewrite H in E1. apply Qle_bool_iff in E1.
    congruence.
  - apply Qle_bool_iff in E2. rewrite <- H in E2. apply Qle_bool_iff in E2.
    congruence.
Qed.

Lemma Qle_bool_Qeq_l (a a' b : Q) : a == a' -> Qle_bool a b = Qle_bool a' b.
Proof.
  intros H. destruct (Qle_bool a b) eqn:E1, (Qle_bool a' b) eqn:E2;
    try reflexivity.
  - apply Qle_bool_iff in E1. rewrite H in E1. apply Qle_bool_iff in E1.
    congruence.
  - apply Qle_bool_iff in E2. rewrite <- H in E2. apply Qle_bool_iff in E2.
    congruence.
Qed.

Lemma NumberToString_Qeq (q q' : Q) :
  q == q' -> NumberToString (Num q) = NumberToString (Num q').
Proof.
  intros H. unfold NumberToString. now rewrite (Qred_complete _ _ H).
Qed.

(** [toFixed] depends on the value of a rational only. *)
Lemma toFixed_Qeq (q q' : Q) (f : Z) :
  q == q' -> toFixed (Num q) f = toFixed (Num q') f.
Proof.
  intros H. unfold toFixed.
  destruct ((f <? 0)%Z || (100 <? f)%Z); [reflexivity |].
  assert (Ha : Qabs q == Qabs q') by now rewrite H.
  rewrite (Qle_bool_Qeq (pow10 21) Ha), (NumberToString_Qeq H).
  destruct (Qle_bool (pow10 21) (Qabs q')); [reflexivity |].
  unfold Qlt_bool. rewrite (Qle_bool_Qeq 0 H).
  assert (Hfl : Qfloor (Qabs q * pow10 f + (1 # 2)) =
                Qfloor (Qabs q' * pow10 f + (1 # 2))).
  { apply Qfloor_comp. now rewrite Ha. }
  now rewrite Hfl.
Qed.

Lemma toDMS_Qeq (q q' : Q) (format : option jsstring) (dp : option Z)
    (g : globals) :
  q == q' ->
  toDMS (VNumber (Num q)) format dp g = toDMS (VNumber (Num q')) format dp g.
Proof.
  intros H. unfold toDMS. cbn [typeof ToNumber n_isNaN nabs nmul nlift2 nZ].
  assert (Ha : Qabs q == Qabs q') by now rewrite H.
  assert (H60 : Qabs q * inject_Z 60 == Qabs q' * inject_Z 60)
    by now rewrite Ha.
  assert (H3600 : Qabs q * inject_Z 3600 == Qabs q' * inject_Z 3600)
    by now rewrite Ha.
  destruct (str_eqb (u16 "number") (u16 "object")); [reflexivity |].
  cbv iota.
  destruct (match dp with Some dp0 => _ | None => _ end) as [fmt f].
  now rewrite (toFixed_Qeq f Ha), (toFixed_Qeq f H60), (toFixed_Qeq f H3600).
Qed.

(** [(x + 360) % 360] folds a bearing of [[-360, 360)] into [[0, 360)]. *)
Lemma fold_bearing (x : Q) :
  -360 <= x -> x < 360 ->
  exists r, nrem (nadd (Num x) (nZ 360)) (nZ 360) = Num r /\
            r == (if Qlt_bool x 0 then x + 360 else x).
Proof.
  intros Hlo Hhi. cbn [nadd nlift2 nrem nZ].
  change (Qeq_bool (inject_Z 360) 0) with false. cbv iota.
  eexists. split; [reflexivity |].
  change (inject_Z 360) with 360.
  assert (E : (x + 360) / 360 == (x + 360) * (1 # 360)) by (unfold Qdiv; reflexivity).
  assert (H0 : 0 <= (x + 360) / 360) by (rewrite E; Lqa.lra).
  rewrite (Qtrunc_nonneg H0).
  destruct (Qlt_le_dec x 0) as [Hneg | Hpos].
  - rewrite (Qlt_bool_true Hneg).
    rewrite (@Qfloor_unique 0 ((x + 360) / 360)).
    + change (inject_Z 0) with 0. ring.
    + change (inject_Z 0) with 0. exact H0.
    + change (inject_Z 0) with 0. rewrite E. Lqa.lra.
  - rewrite (Qlt_bool_false Hpos).
    rewrite (@Qfloor_unique 1 ((x + 360) / 360)).
    + change (inject_Z 1) with 1. ring.
    + change (inject_Z 1) with 1. rewrite E. Lqa.lra.
    + change (inject_Z 1) with 1. rewrite E. Lqa.lra.
Qed.

(** X20.  In exact arithmetic, for a bearing of [[-360, 360)], [Geo.toBrng]
    renders the bearing folded into [[0, 360)] (a negative one increased by
    360), then applies its patch. *)
Theorem toBrng_folds (x : Q) (format : option jsstring) (dp : option Z)
    (g : globals) :
  -360 <= x -> x < 360 ->
  toBrng (VNumber (Num x)) format dp g =
  (r <- toDMS (VNumber (Num (if Qlt_bool x 0 then x + 360 else x)))
              format dp g ;;
   let (brng, g') := r in
   Returns (match brng with
            | None => [cu_endash]
            | Some brng => replace_first (u16 "360") (u16 "0") brng
            end, g'))%js.
Proof.
  intros Hlo Hhi. unfold toBrng. cbn [ToNumber].
  destruct (fold_bearing Hlo Hhi) as (r & -> & Hr).
  now rewrite (toDMS_Qeq format dp g Hr).
Qed.

Lemma toBrng_folds_witness :
  toBrng (VNumber (Num (-90))) None None None =
  (r <- toDMS (VNumber (Num (if Qlt_bool (-90) 0 then -90 + 360 else -90)))
              None None None ;;
   let (brng, g') := r in
   Returns (match brng with
            | None => [cu_endash]
            | Some brng => replace_first (u16 "360") (u16 "0") brng
            end, g'))%js.
Proof.
  apply (@toBrng_folds (-90) None None None).
  - unfold Qle; simpl; lia.
  - unfold Qlt; simpl; lia.
Defined.

Lemma toBrng_folds_example :
  toBrng (VNumber (Num (-90))) None None None =
  Returns (u16 "270" ++ cu_degree :: u16 "00" ++ cu_prime ::
           u16 "00" ++ [cu_dprime],
           Some (u16 "270" ++ cu_degree :: u16 "00" ++ cu_prime ::
                 u16 "00" ++ [cu_dprime])).
Proof. vm_compute. reflexivity. Qed.

End CodecBearing.

(** ** Codec: signs in the text parsed *)

Section CodecSign.
Local Open Scope Z_scope.

Lemma drop_white_length (s : jsstring) :
  (List.length (drop_white s) <= List.length s)%nat.
Proof.
  induction s as [| c r IH]; [apply Nat.le_refl |].
  cbn [drop_white]. destruct (is_white c); cbn [List.length]; lia.
Qed.

Lemma drop_white_same_length (s : jsstring) :
  List.length (drop_white s) = List.length s -> drop_white s = s.
Proof.
  destruct s as [| c r]; [reflexivity |].
  cbn [drop_white]. destruct (is_white c); [| reflexivity].
  pose proof (drop_white_length r). cbn [List.length]. lia.
Qed.

Lemma drop_white_fixed_head (c : Z) (r : jsstring) :
  drop_white (c :: r) = c :: r -> is_white c = false.
Proof.
  cbn [drop_white]. destruct (is_white c); [| reflexivity].
  intros H. pose proof (drop_white_length r) as L. rewrite H in L.
  cbn [List.length] in L. lia.
Qed.

(** A string that [trim] leaves alone has no white space at either end. *)
Lemma trim_fixed (s : jsstring) :
  trim s = s -> drop_white s = s /\ drop_white (rev s) = rev s.
Proof.
  intros H.
  assert (L1 := drop_white_length s).
  assert (L2 := drop_white_length (rev (drop_white s))).
  assert (L : List.length (trim s) = List.length s) by now rewrite H.
  unfold trim in L. rewrite length_rev in L. rewrite length_rev in L2.
  assert (E : drop_white s = s) by (apply drop_white_same_length; lia).
  split; [exact E |].
  unfold trim in H. rewrite E in H.
  apply (f_equal (@rev Z)) in H. now rewrite rev_involutive in H.
Qed.

Lemma trim_cons (c : Z) (s : jsstring) :
  is_white c = false -> trim s = s -> trim (c :: s) = c :: s.
Proof.
  intros Hc Hs. destruct (trim_fixed Hs) as [_ Hr].
  apply trim_fix; [now apply drop_white_head |].
  cbn [rev]. destruct (rev s) as [| l r] eqn:E.
  - cbn [app]. now apply drop_white_head.
  - cbn [app]. apply drop_white_head. exact (drop_white_fixed_head Hr).
Qed.

Lemma trim_snoc (s : jsstring) (h : Z) :
  match s with c :: _ => is_white c = false | [] => True end ->
  is_white h = false -> trim (s ++ [h]) = s ++ [h].
Proof.
  intros Hs Hh. apply trim_fix.
  - destruct s as [| c r]; cbn [app]; now apply drop_white_head.
  - rewrite rev_app_distr. cbn [rev app]. now apply drop_white_head.
Qed.

Lemma test_negative_false (c : Z) (r : jsstring) :
  test_negative (c :: r) = false -> (c =? cu_minus) = false.
Proof.
  unfold test_negative. intros H. now apply orb_false_iff in H as [H _].
Qed.

Lemma parseDMS_string_negated (s t : jsstring) :
  parseDMS_dms s = parseDMS_dms t ->
  test_negative (trim s) = true -> test_negative (trim t) = false ->
  parseDMS (VString s) = (n <- parseDMS (VString t) ;; Returns (nneg n))%js.
Proof.
  intros Hdms Hs Ht. rewrite !parseDMS_string_cases. cbv zeta.
  rewrite Hdms, Hs, Ht.
  destruct (str_eqb (join_comma (parseDMS_dms t)) []); [reflexivity |].
  destruct (parseDMS_dms t) as [| d [| m [| sc [| x r]]]]; reflexivity.
Qed.

(** X21.  A leading minus sign negates what the rest of the string denotes. *)
Theorem parseDMS_leading_minus (b : jsstring) :
  trim b = b -> test_negative b = false ->
  parseDMS (VString (cu_minus :: b)) =
  (n <- parseDMS (VString b) ;; Returns (nneg n))%js.
Proof.
  intros Htrim Hneg.
  assert (Htm : trim (cu_minus :: b) = cu_minus :: b)
    by (apply trim_cons; [reflexivity | exact Htrim]).
  apply parseDMS_string_negated.
  - unfold parseDMS_dms. rewrite Htm, Htrim.
    cbn [strip_leading_minus]. change (cu_minus =? cu_minus) with true.
    cbv iota. destruct b as [| c r]; [reflexivity |].
    cbn [strip_leading_minus]. now rewrite (test_negative_false _ _ Hneg).
  - rewrite Htm. reflexivity.
  - now rewrite Htrim.
Qed.

Lemma parseDMS_leading_minus_witness :
  parseDMS (VString (cu_minus :: u16 "3 37 09")) =
  (n <- parseDMS (VString (u16 "3 37 09")) ;; Returns (nneg n))%js.
Proof.
  apply (@parseDMS_leading_minus (u16 "3 37 09")); vm_compute; reflexivity.
Defined.

Lemma is_west_south_compass (h : Z) :
  is_west_south h = true -> is_compass h = true.
Proof.
  unfold is_west_south, is_compass. intros H.
  repeat (rewrite ?orb_true_iff, ?Z.eqb_eq in * ). tauto.
Qed.

Lemma is_compass_plain (h : Z) :
  is_compass h = true -> is_white h = false /\ (h =? cu_minus) = false.
Proof.
  unfold is_compass. intros H.
  repeat (rewrite ?orb_true_iff, ?Z.eqb_eq in H).
  repeat match goal with H : _ \/ _ |- _ => destruct H end; subst h;
    split; reflexivity.
Qed.

Lemma parseDMS_dms_compass (b : jsstring) (h : Z) :
  match b with
  | c :: _ => is_white c = false /\ c <> cu_minus
  | [] => True
  end ->
  is_compass h = true ->
  trim (b ++ [h]) = b ++ [h] /\
  parseDMS_dms (b ++ [h]) =
    (let dms := split_fields b in
     match rev dms with
     | l :: _ => if str_eqb l [] then removelast dms else dms
     | [] => dms
     end) /\
  test_negative (b ++ [h]) = is_west_south h.
Proof.
  intros Hb Hh. destruct (is_compass_plain _ Hh) as [Hw Hm].
  assert (Htrim : trim (b ++ [h]) = b ++ [h]).
  { apply trim_snoc; [| exact Hw]. destruct b; tauto. }
  split; [exact Htrim |]. split.
  - unfold parseDMS_dms. rewrite Htrim.
    assert (Hminus : strip_leading_minus (b ++ [h]) = b ++ [h]).
    { destruct b as [| c r]; cbn [app strip_leading_minus].
      - now rewrite Hm.
      - destruct Hb as [_ Hc]. apply Z.eqb_neq in Hc. now rewrite Hc. }
    rewrite Hminus. unfold strip_trailing_compass.
    rewrite rev_app_distr. cbn [rev app]. rewrite Hh, rev_involutive.
    reflexivity.
  - unfold test_negative. rewrite rev_app_distr. cbn [rev app].
    destruct b as [| c r]; cbn [app].
    + now rewrite Hm.
    + destruct Hb as [_ Hc]. apply Z.eqb_neq in Hc. now rewrite Hc.
Qed.

(** X22.  A final W or S negates what the same string with a final N or E
    denotes. *)
Theorem parseDMS_hemisphere (b : jsstring) (w e : Z) :
  match b with
  | c :: _ => is_white c = false /\ c <> cu_minus
  | [] => True
  end ->
  is_west_south w = true ->
  is_compass e = true -> is_west_south e = false ->
  parseDMS (VString (b ++ [w])) =
  (n <- parseDMS (VString (b ++ [e])) ;; Returns (nneg n))%js.
Proof.
  intros Hb Hw He Hne.
  destruct (@parseDMS_dms_compass b w Hb (is_west_south_compass _ Hw))
    as (Tw & Dw & Nw).
  destruct (@parseDMS_dms_compass b e Hb He) as (Te & De & Ne).
  apply parseDMS_string_negated.
  - now rewrite Dw, De.
  - now rewrite Tw, Nw.
  - now rewrite Te, Ne.
Qed.

Lemma parseDMS_hemisphere_witness :
  parseDMS (VString (u16 "000" ++ cu_degree :: u16 " 00" ++ cu_prime ::
                     u16 " 05.31" ++ cu_dprime :: u16 " " ++ [87])) =
  (n <- parseDMS (VString (u16 "000" ++ cu_degree :: u16 " 00" ++ cu_prime ::
                           u16 " 05.31" ++ cu_dprime :: u16 " " ++ [69])) ;;
   Returns (nneg n))%js.
Proof.
  apply (@parseDMS_hemisphere
           (u16 "000" ++ cu_degree :: u16 " 00" ++ cu_prime ::
            u16 " 05.31" ++ cu_dprime :: u16 " ") 87 69).
  - split; [reflexivity | discriminate].
  - reflexivity.
  - reflexivity.
  - reflexivity.
Defined.

End CodecSign.

(** ** Codec: the formats [d] and [dm] *)

Section RenderDegrees.
Local Open Scope Q_scope.

Lemma pad_below_vstring (k : Z) (s : jsstring) (n f : Z) :
  dec_str s n f ->
  exists s', pad_below k (VString s) = VString s' /\ dec_str s' n f.
Proof.
  intros H. unfold pad_below. destruct (nlt _ _); cbn [ToString];
    eexists; (split; [reflexivity |]); [now apply dec_str_pad | exact H].
Qed.

Lemma pow10_21_large (a : Q) : a <= 1000000 -> a < pow10 21.
Proof.
  intros H. rewrite (pow10_Z (k := 21)) by lia.
  change (inject_Z (10 ^ 21)) with 1000000000000000000000. Lqa.lra.
Qed.

(** Rounding [a] to [f] decimals: the integer [N] of [toFixed]. *)
Lemma round_decimals (a : Q) (f : Z) :
  (0 <= f)%Z -> 0 <= a ->
  let N := Qfloor (Qabs a * pow10 f + (1 # 2)) in
  (0 <= N)%Z /\
  Qabs (inject_Z N / inject_Z (10 ^ f) - a) <= (1 # 2) / inject_Z (10 ^ f).
Proof.
  intros Hf Ha N.
  pose proof (inject_Z_pow10_pos Hf) as HP.
  pose proof (pow10_Z Hf) as HPe.
  destruct (round_half_up_bounds (Qabs a * pow10 f)) as [Hlo Hhi].
  fold N in Hlo, Hhi. rewrite (Qabs_pos a Ha), HPe in Hlo, Hhi.
  set (P := inject_Z (10 ^ f)) in *.
  split.
  - apply Qfloor_nonneg. rewrite (Qabs_pos a Ha).
    pose proof (pow10_pos f). Lqa.nra.
  - assert (E : inject_Z N / P - a == (inject_Z N - a * P) * / P)
      by (field; Lqa.lra).
    assert (E2 : (1 # 2) / P == (1 # 2) * / P) by (field; Lqa.lra).
    rewrite E, E2.
    assert (Hi : 0 < / P) by now apply Qinv_lt_0_compat.
    set (u := / P) in *. set (w := inject_Z N - a * P) in *.
    assert (Hw : -(1 # 2) <= w <= 1 # 2) by (subst w; split; Lqa.lra).
    apply Qabs_Qle_condition. split; Lqa.nra.
Qed.

(** What [Geo.toDMS] writes in the format [d]. *)
Lemma toDMS_d (x : Q) (dp : option Z) (f : Z) (g : globals) :
  Qabs x <= 1000000 -> (0 <= f <= 100)%Z ->
  dp = Some f \/ (dp = None /\ f = 4%Z) ->
  exists A N,
    toDMS (VNumber (Num x)) (Some (u16 "d")) dp g =
      Returns (Some (A ++ [cu_degree]), Some (A ++ [cu_degree])) /\
    dec_str A N f /\
    Qabs (inject_Z N / inject_Z (10 ^ f) - Qabs x) <=
    (1 # 2) / inject_Z (10 ^ f).
Proof.
  intros Hx Hf Hdp.
  assert (Hgo : toDMS (VNumber (Num x)) (Some (u16 "d")) dp g =
                toDMS (VNumber (Num x)) (Some (u16 "d")) (Some f) g).
  { destruct Hdp as [-> | [-> ->]]; reflexivity. }
  rewrite Hgo. clear Hgo Hdp dp.
  pose proof (Qabs_nonneg x) as Hx0.
  unfold toDMS. cbn [typeof ToNumber n_isNaN nabs].
  change (str_eqb (u16 "number") (u16 "object")) with false.
  change (str_eqb (u16 "d") (u16 "d")) with true. cbv iota.
  rewrite (toFixed_nonneg Hf Hx0 (pow10_21_large Hx)). cbn [bind].
  destruct (@round_decimals (Qabs x) f (proj1 Hf) Hx0) as [HN Hbound].
  set (N := Qfloor (Qabs (Qabs x) * pow10 f + (1 # 2))) in *.
  pose proof (fixed_string_dec HN (proj1 Hf)) as Hd.
  destruct (@pad_below_vstring 100 _ _ _ Hd) as (s1 & -> & H1).
  destruct (@pad_below_vstring 10 _ _ _ H1) as (s2 & -> & H2).
  cbn [ToString]. exists s2, N. repeat split; assumption.
Qed.

End RenderDegrees.

Section ParseOneField.
Local Open Scope Z_scope.

Lemma split_fields_one (A : jsstring) :
  forallb is_field_char A = true ->
  split_fields (A ++ [cu_degree]) = [A; []].
Proof.
  intros HA. unfold split_fields.
  rewrite (@split_go_field cu_degree _ eq_refl A [] false HA (or_intror eq_refl)).
  reflexivity.
Qed.

Lemma split_fields_two (A B : jsstring) :
  forallb is_field_char A = true -> forallb is_field_char B = true ->
  B <> [] ->
  split_fields (A ++ cu_degree :: B ++ [cu_prime]) = [A; B; []].
Proof.
  intros HA HB HBn. unfold split_fields.
  rewrite (@split_go_field cu_degree _ eq_refl A [] false HA (or_intror eq_refl)).
  rewrite (@split_go_field cu_prime _ eq_refl B [] true HB (or_introl HBn)).
  reflexivity.
Qed.

Lemma digit_head (a : Z) :
  is_digit a = true -> is_white a = false /\ a <> cu_minus.
Proof.
  intros Ha. split; [now apply is_digit_not_white |].
  unfold is_digit, cu_minus in *. apply andb_true_iff in Ha as [H1 H2].
  apply Z.leb_le in H1, H2. lia.
Qed.

(** Reading back a rendering followed by a compass letter [h]. *)
Lemma parseDMS_rendering (body : jsstring) (fields : list jsstring) (h : Z) :
  match body with
  | c :: _ => is_white c = false /\ c <> cu_minus
  | [] => True
  end ->
  is_compass h = true ->
  split_fields body = fields ++ [[]] ->
  parseDMS_dms (body ++ [h]) = fields /\
  test_negative (trim (body ++ [h])) = is_west_south h.
Proof.
  intros Hb Hh Hsplit.
  destruct (@parseDMS_dms_compass body h Hb Hh) as (Ht & Hd & Hn).
  split; [| now rewrite Ht].
  rewrite Hd. cbv zeta. rewrite Hsplit, rev_app_distr. cbn [rev app str_eqb].
  apply removelast_last.
Qed.

End ParseOneField.

Section RenderMinutes.
Local Open Scope Q_scope.

Lemma pad_degrees_any (D : Z) :
  (0 <= D < 10 ^ 21)%Z ->
  exists A,
    ToString (pad_below 10 (pad_below 100 (VNumber (Num (inject_Z D))))) = A /\
    dec_str A D 0.
Proof.
  intros HD. unfold pad_below at 2. cbn [ToNumber].
  destruct (nlt (Num (inject_Z D)) (nZ 100)).
  - cbn [ToString].
    rewrite (@NumberToString_integer (inject_Z D) D (Qeq_refl _) HD).
    apply pad_below_string. apply dec_str_pad, dec_str_digits. lia.
  - apply pad_below_integer; [reflexivity | exact HD].
Qed.

(** The whole degrees [D] of [qm] minutes. *)
Lemma minutes_split (qm : Q) :
  0 <= qm ->
  let D := Qfloor (qm / inject_Z 60) in
  (0 <= D)%Z /\ inject_Z D * 60 <= qm /\ qm < inject_Z D * 60 + 60.
Proof.
  intros Hq D.
  assert (E60 : qm / inject_Z 60 == qm * (1 # 60)) by (unfold Qdiv; reflexivity).
  pose proof (Qfloor_le (qm / inject_Z 60)) as D1.
  pose proof (Qlt_floor (qm / inject_Z 60)) as D2.
  fold D in D1, D2. rewrite inject_Z_plus in D2.
  change (inject_Z 1) with 1 in D2. rewrite E60 in D1, D2.
  split; [| split; Lqa.lra].
  apply Qfloor_nonneg. rewrite E60. Lqa.lra.
Qed.

(** What [Geo.toDMS] writes in the format [dm]. *)
Lemma toDMS_dm (x : Q) (dp : option Z) (f : Z) (g : globals) :
  Qabs x <= 1000000 -> (0 <= f <= 100)%Z ->
  dp = Some f \/ (dp = None /\ f = 2%Z) ->
  exists A B D R,
    toDMS (VNumber (Num x)) (Some (u16 "dm")) dp g =
      Returns (Some (A ++ cu_degree :: B ++ [cu_prime]),
               Some (A ++ cu_degree :: B ++ [cu_prime])) /\
    dec_str A D 0 /\ dec_str B R f /\
    Qabs (inject_Z D + inject_Z R / inject_Z (10 ^ f) / 60 - Qabs x) <=
    (1 # 2) / inject_Z (10 ^ f) / 60.
Proof.
  intros Hx Hf Hdp.
  assert (Hgo : toDMS (VNumber (Num x)) (Some (u16 "dm")) dp g =
                toDMS (VNumber (Num x)) (Some (u16 "dm")) (Some f) g).
  { destruct Hdp as [-> | [-> ->]]; reflexivity. }
  rewrite Hgo. clear Hgo Hdp dp.
  pose proof (Qabs_nonneg x) as Hx0.
  pose proof (@inject_Z_pow10_pos f ltac:(lia)) as HP.
  pose proof (pow10_Z (k := f) ltac:(lia)) as HPe.
  unfold toDMS. cbn [typeof ToNumber n_isNaN nabs nmul nlift2 nZ].
  change (str_eqb (u16 "number") (u16 "object")) with false.
  change (str_eqb (u16 "dm") (u16 "d")) with false.
  change (str_eqb (u16 "dm") (u16 "dm")) with true. cbv iota.
  set (P := inject_Z (10 ^ f)) in *.
  set (a := Qabs x * inject_Z 60).
  assert (Ha0 : 0 <= a).
  { subst a. change (inject_Z 60) with 60. Lqa.lra. }
  assert (Ha : a <= 60000000).
  { subst a. change (inject_Z 60) with 60. Lqa.lra. }
  assert (Ha21 : a < pow10 21).
  { rewrite (pow10_Z (k := 21)) by lia.
    change (inject_Z (10 ^ 21)) with 1000000000000000000000. Lqa.lra. }
  rewrite (toFixed_nonneg Hf Ha0 Ha21). cbn [bind].
  set (N := Qfloor (Qabs a * pow10 f + (1 # 2))).
  destruct (round_half_up_bounds (Qabs a * pow10 f)) as [HNlo HNhi].
  fold N in HNlo, HNhi. rewrite (Qabs_pos a Ha0), HPe in HNlo, HNhi.
  fold P in HNlo, HNhi.
  assert (HN : (0 <= N)%Z).
  { apply Qfloor_nonneg. rewrite (Qabs_pos a Ha0).
    pose proof (pow10_pos f). Lqa.nra. }
  pose proof (fixed_string_dec HN (proj1 Hf)) as Hmin.
  rewrite (dec_str_number Hmin).
  pose proof (@dec_value N f (proj1 Hf)) as Hqs. fold P in Hqs.
  set (qs := inject_Z N * pow10 (- f) * pow10 0) in *.
  assert (HqsP : qs * P == inject_Z N).
  { rewrite Hqs. field. Lqa.lra. }
  assert (HP1 : 1 <= P).
  { subst P. change 1 with (inject_Z 1). rewrite <- Zle_Qle.
    assert (0 < 10 ^ f)%Z by (apply Z.pow_pos_nonneg; lia). lia. }
  assert (Hqs0 : 0 <= qs).
  { rewrite Zle_Qle in HN. change (inject_Z 0) with 0 in HN. Lqa.nra. }
  assert (Hqs1 : qs < 60000001) by Lqa.nra.
  cbn [ndiv nrem nfloor nZ].
  change (Qeq_bool (inject_Z 60) 0) with false. cbv iota.
  cbn [nfloor].
  destruct (minutes_split Hqs0) as (HD0 & HDlo & HDhi).
  set (D := Qfloor (qs / inject_Z 60)) in *.
  assert (E60 : forall y, y / inject_Z 60 == y * (1 # 60))
    by (intros; unfold Qdiv; reflexivity).
  assert (HD21 : (D < 10 ^ 21)%Z).
  { apply Zlt_inject. change (inject_Z (10 ^ 21)) with 1000000000000000000000.
    Lqa.lra. }
  rewrite (@Qtrunc_nonneg (qs / inject_Z 60)) by (rewrite E60; Lqa.lra).
  fold D.
  set (rq := qs - inject_Z 60 * inject_Z D).
  assert (Hrq0 : 0 <= rq) by (subst rq; change (inject_Z 60) with 60; Lqa.lra).
  assert (Hrq1 : rq < 60) by (subst rq; change (inject_Z 60) with 60; Lqa.lra).
  assert (Hrq21 : rq < pow10 21) by (apply pow10_21_large; Lqa.lra).
  rewrite (toFixed_nonneg Hf Hrq0 Hrq21). cbn [bind].
  assert (HR : Qfloor (Qabs rq * pow10 f + (1 # 2)) = (N - 60 * D * 10 ^ f)%Z).
  { apply round_half_up_integer. rewrite (Qabs_pos rq Hrq0), HPe.
    rewrite inject_Z_sub, !inject_Z_mult. fold P.
    change (inject_Z 60) with 60. subst rq. change (inject_Z 60) with 60.
    rewrite <- HqsP. ring. }
  rewrite HR. set (R2 := (N - 60 * D * 10 ^ f)%Z) in *.
  assert (HR0 : (0 <= R2)%Z).
  { rewrite <- HR. apply Qfloor_nonneg. rewrite (Qabs_pos rq Hrq0).
    pose proof (pow10_pos f). Lqa.nra. }
  destruct (@pad_degrees_any D ltac:(lia)) as (A & -> & HA).
  destruct (@pad_below_string 10 _ _ _ (fixed_string_dec HR0 (proj1 Hf)))
    as (B & -> & HB).
  exists A, B, D, R2.
  split; [reflexivity |]. split; [exact HA |]. split; [exact HB |].
  assert (EV : inject_Z D + inject_Z R2 / P / 60 - Qabs x ==
               (inject_Z N - a * P) * (/ P * (1 # 60))).
  { subst R2 a. rewrite !inject_Z_sub, !inject_Z_mult. fold P.
    change (inject_Z 60) with 60. field. Lqa.lra. }
  assert (ER : (1 # 2) / P / 60 == (1 # 2) * (/ P * (1 # 60))).
  { field. Lqa.lra. }
  rewrite EV, ER.
  assert (Hu : 0 < / P * (1 # 60)).
  { assert (0 < / P) by now apply Qinv_lt_0_compat. Lqa.lra. }
  set (u := / P * (1 # 60)) in *. set (w := inject_Z N - a * P) in *.
  assert (Hw : -(1 # 2) <= w <= 1 # 2) by (subst w; split; Lqa.lra).
  apply Qabs_Qle_condition. split; Lqa.nra.
Qed.

(** What [Geo.toDMS] writes in the format [dms], for any magnitude. *)
Lemma toDMS_dms_any (x : Q) (dp : option Z) (f : Z) (g : globals) :
  Qabs x <= 1000000 -> (0 <= f <= 100)%Z ->
  dp = Some f \/ (dp = None /\ f = 0%Z) ->
  exists A B C D Mz R,
    toDMS (VNumber (Num x)) (Some (u16 "dms")) dp g =
      Returns (Some (A ++ cu_degree :: B ++ cu_prime :: C ++ [cu_dprime]),
               Some (A ++ cu_degree :: B ++ cu_prime :: C ++ [cu_dprime])) /\
    dec_str A D 0 /\ dec_str B Mz 0 /\ dec_str C R f /\
    Qabs (inject_Z D + inject_Z Mz / 60 + inject_Z R / inject_Z (10 ^ f) / 3600
          - Qabs x) <= (1 # 2) / inject_Z (10 ^ f) / 3600.
Proof.
  intros Hx Hf Hdp.
  assert (Hgo : toDMS (VNumber (Num x)) (Some (u16 "dms")) dp g =
                toDMS (VNumber (Num x)) (Some (u16 "dms")) (Some f) g).
  { destruct Hdp as [-> | [-> ->]]; [reflexivity | apply toDMS_default_places]. }
  rewrite Hgo, toDMS_dms_unfold. clear Hgo Hdp dp.
  pose proof (Qabs_nonneg x) as Hx0.
  pose proof (@inject_Z_pow10_pos f ltac:(lia)) as HP.
  pose proof (pow10_Z (k := f) ltac:(lia)) as HPe.
  set (P := inject_Z (10 ^ f)) in *.
  set (a := Qabs x * inject_Z 3600).
  assert (Ha0 : 0 <= a).
  { subst a. change (inject_Z 3600) with 3600. Lqa.lra. }
  assert (Ha : a <= 3600000000).
  { subst a. change (inject_Z 3600) with 3600. Lqa.lra. }
  assert (Ha21 : a < pow10 21).
  { rewrite (pow10_Z (k := 21)) by lia.
    change (inject_Z (10 ^ 21)) with 1000000000000000000000. Lqa.lra. }
  rewrite (toFixed_nonneg Hf Ha0 Ha21). cbn [bind].
  set (N := Qfloor (Qabs a * pow10 f + (1 # 2))).
  destruct (round_half_up_bounds (Qabs a * pow10 f)) as [HNlo HNhi].
  fold N in HNlo, HNhi. rewrite (Qabs_pos a Ha0), HPe in HNlo, HNhi.
  assert (HN : (0 <= N)%Z).
  { apply Qfloor_nonneg. rewrite (Qabs_pos a Ha0).
    pose proof (pow10_pos f). Lqa.nra. }
  pose proof (fixed_string_dec HN (proj1 Hf)) as Hsec.
  rewrite (dec_str_number Hsec).
  pose proof (@dec_value N f (proj1 Hf)) as Hqs. fold P in Hqs.
  set (qs := inject_Z N * pow10 (- f) * pow10 0) in *.
  assert (HqsP : qs * P == inject_Z N).
  { rewrite Hqs. field. Lqa.lra. }
  assert (HP1 : 1 <= P).
  { subst P. change 1 with (inject_Z 1). rewrite <- Zle_Qle.
    assert (0 < 10 ^ f)%Z by (apply Z.pow_pos_nonneg; lia). lia. }
  assert (Hqs0 : 0 <= qs).
  { rewrite Zle_Qle in HN. change (inject_Z 0) with 0 in HN. Lqa.nra. }
  assert (Hqs1 : qs < 3600000001) by Lqa.nra.
  cbn [ndiv nrem nfloor nZ].
  change (Qeq_bool (inject_Z 3600) 0) with false.
  change (Qeq_bool (inject_Z 60) 0) with false. cbv iota.
  cbn [ndiv nrem nfloor nZ].
  change (Qeq_bool (inject_Z 60) 0) with false. cbv iota.
  destruct (sexagesimal_split Hqs0) as (HMD & HDM & HD0 & HM0).
  set (D := Qfloor (qs / inject_Z 3600)) in *.
  set (M := Qfloor (qs / inject_Z 60)) in *.
  assert (E60 : forall y, y / inject_Z 60 == y * (1 # 60)) by (intros; unfold Qdiv; reflexivity).
  assert (E3600 : forall y, y / inject_Z 3600 == y * (1 # 3600)) by (intros; unfold Qdiv; reflexivity).
  assert (HD21 : (D < 10 ^ 21)%Z).
  { apply Zlt_inject. pose proof (Qfloor_le (qs / inject_Z 3600)) as H.
    fold D in H. rewrite E3600 in H.
    change (inject_Z (10 ^ 21)) with 1000000000000000000000. Lqa.lra. }
  pose proof (Qfloor_le (qs / inject_Z 60)) as HM1.
  pose proof (Qlt_floor (qs / inject_Z 60)) as HM2.
  fold M in HM1, HM2. rewrite inject_Z_plus in HM2.
  change (inject_Z 1) with 1 in HM2. rewrite E60 in HM1, HM2.
  rewrite (@Qtrunc_nonneg (inject_Z M / inject_Z 60))
    by (rewrite E60; rewrite Zle_Qle in HM0; change (inject_Z 0) with 0 in HM0; Lqa.lra).
  rewrite HMD.
  rewrite (@Qtrunc_nonneg (qs / inject_Z 60)) by (rewrite E60; Lqa.lra).
  fold M.
  set (rq := qs - inject_Z 60 * inject_Z M).
  assert (Hrq0 : 0 <= rq) by (subst rq; change (inject_Z 60) with 60; Lqa.lra).
  assert (Hrq1 : rq < 60) by (subst rq; change (inject_Z 60) with 60; Lqa.lra).
  assert (Hrq21 : rq < pow10 21) by (apply pow10_21_large; Lqa.lra).
  rewrite (toFixed_nonneg Hf Hrq0 Hrq21). cbn [bind].
  assert (HR : Qfloor (Qabs rq * pow10 f + (1 # 2)) = (N - 60 * M * 10 ^ f)%Z).
  { apply round_half_up_integer. rewrite (Qabs_pos rq Hrq0), HPe.
    rewrite inject_Z_sub, !inject_Z_mult. fold P.
    change (inject_Z 60) with 60. subst rq. change (inject_Z 60) with 60.
    rewrite <- HqsP. ring. }
  rewrite HR. set (R2 := (N - 60 * M * 10 ^ f)%Z) in *.
  assert (HR0 : (0 <= R2)%Z).
  { rewrite <- HR. apply Qfloor_nonneg. rewrite (Qabs_pos rq Hrq0).
    pose proof (pow10_pos f). Lqa.nra. }
  destruct (@pad_degrees_any D ltac:(lia)) as (A & -> & HA).
  destruct (@pad_below_integer 10 (inject_Z M - inject_Z 60 * inject_Z D)
              (M - 60 * D)%Z) as (B & -> & HB).
  { rewrite inject_Z_sub, inject_Z_mult. reflexivity. }
  { lia. }
  destruct (@pad_below_string 10 _ _ _ (fixed_string_dec HR0 (proj1 Hf)))
    as (C & -> & HC).
  exists A, B, C, D, (M - 60 * D)%Z, R2.
  split; [reflexivity |]. split; [exact HA |]. split; [exact HB |].
  split; [exact HC |].
  assert (EV : inject_Z D + inject_Z (M - 60 * D) / 60 + inject_Z R2 / P / 3600
               - Qabs x == (inject_Z N - a * P) * (/ P * (1 # 3600))).
  { subst R2 a. rewrite !inject_Z_sub, !inject_Z_mult. fold P.
    change (inject_Z 60) with 60. change (inject_Z 3600) with 3600.
    field. Lqa.lra. }
  assert (ER : (1 # 2) / P / 3600 == (1 # 2) * (/ P * (1 # 3600))).
  { field. Lqa.lra. }
  rewrite EV, ER.
  assert (Hu : 0 < / P * (1 # 3600)).
  { assert (0 < / P) by now apply Qinv_lt_0_compat. Lqa.lra. }
  set (u := / P * (1 # 3600)) in *. set (w := inject_Z N - a * P) in *.
  assert (Hw : -(1 # 2) <= w <= 1 # 2) by (subst w; split; Lqa.lra).
  apply Qabs_Qle_condition. split; Lqa.nra.
Qed.

End RenderMinutes.

(** ** Codec: the round trip of a longitude *)

Section LongitudeRoundTrip.
Local Open Scope Q_scope.

Lemma str_eqb_eq (a b : jsstring) : str_eqb a b = true -> a = b.
Proof.
  revert b. induction a as [| x a IH]; intros [| y b]; cbn [str_eqb];
    try discriminate; [reflexivity |].
  intros H. apply andb_true_iff in H as [Hxy Hab].
  apply Z.eqb_eq in Hxy. subst y. f_equal. now apply IH.
Qed.

Lemma known_format_cases (format : jsstring) :
  known_format format = true ->
  format = u16 "d" \/ format = u16 "dm" \/ format = u16 "dms".
Proof.
  unfold known_format. intros H.
  apply orb_true_iff in H as [H | H];
    [apply orb_true_iff in H as [H | H] |];
    apply str_eqb_eq in H; auto.
Qed.

(** The sign that the compass letter carries back to the number. *)
Lemma signed_bound (x v tol : Q) :
  Qabs (v - Qabs x) <= tol ->
  Qabs ((if Qlt_bool x (inject_Z 0) then - v else v) - x) <= tol.
Proof.
  intros H. destruct (Qlt_bool x (inject_Z 0)) eqn:Hsign.
  - assert (Hx0 : x < 0).
    { unfold Qlt_bool in Hsign. apply negb_true_iff in Hsign.
      destruct (Qlt_le_dec x 0) as [H0 | H0]; [exact H0 |].
      apply Qle_bool_iff in H0. change (inject_Z 0) with 0 in Hsign.
      congruence. }
    assert (E : - v - x == - (v - Qabs x)).
    { rewrite (Qabs_neg x) by Lqa.lra. ring. }
    rewrite E, Qabs_opp. exact H.
  - assert (Hx0 : 0 <= x).
    { unfold Qlt_bool in Hsign. apply negb_false_iff in Hsign.
      now apply Qle_bool_iff in Hsign. }
    assert (E : v - x == v - Qabs x) by (rewrite (Qabs_pos x Hx0); reflexivity).
    rewrite E. exact H.
Qed.

(** Reading back a rendering [body] followed by the letter [Geo.toLat] or
    [Geo.toLon] appends: [fields] are the numerals of [body], [v] the number
    they denote, [hn] and [hp] the letters of the negative and of the positive
    side. *)
Lemma coordinate_reads_back (x : Q) (neg pos : string) (hn hp : Z)
    (body : jsstring) (fields : list jsstring) (v : Q) :
  u16 neg = [hn] -> u16 pos = [hp] ->
  is_west_south hn = true -> is_compass hp = true ->
  is_west_south hp = false ->
  match body with
  | c :: _ => is_white c = false /\ c <> cu_minus
  | [] => True
  end ->
  split_fields body = fields ++ [[]] ->
  (exists c r, join_comma fields = c :: r) ->
  match fields with
  | [d; m; sc] =>
      nadd (nadd (ndiv (StringToNumber d) (nZ 1))
                 (ndiv (StringToNumber m) (nZ 60)))
           (ndiv (StringToNumber sc) (nZ 3600)) = Num v
  | [d; m] =>
      nadd (ndiv (StringToNumber d) (nZ 1))
           (ndiv (StringToNumber m) (nZ 60)) = Num v
  | [d] => StringToNumber d = Num v
  | _ => False
  end ->
  parseDMS (VString (body ++ compass (VNumber (Num x)) neg pos)) =
  Returns (Num (if Qlt_bool x (inject_Z 0) then - v else v)).
Proof.
  intros Hneg Hpos Hn1 Hp1 Hp2 Hb Hsplit (c & r & Hjoin) Hval.
  unfold compass. cbn [ToNumber nlt nZ]. rewrite Hneg, Hpos.
  destruct (Qlt_bool x (inject_Z 0)).
  - destruct (@parseDMS_rendering body fields hn Hb
                (is_west_south_compass _ Hn1) Hsplit) as (Hd & Hn).
    rewrite parseDMS_string_cases. cbv zeta. rewrite Hd, Hn, Hn1, Hjoin.
    cbn [str_eqb].
    destruct fields as [| d [| m [| sc [| y l]]]]; try contradiction;
      rewrite Hval; reflexivity.
  - destruct (@parseDMS_rendering body fields hp Hb Hp1 Hsplit) as (Hd & Hn).
    rewrite parseDMS_string_cases. cbv zeta. rewrite Hd, Hn, Hp2, Hjoin.
    cbn [str_eqb].
    destruct fields as [| d [| m [| sc [| y l]]]]; try contradiction;
      rewrite Hval; reflexivity.
Qed.

Lemma toLon_reads_back (x : Q) (body : jsstring) (fields : list jsstring)
    (v : Q) :
  match body with
  | c :: _ => is_white c = false /\ c <> cu_minus
  | [] => True
  end ->
  split_fields body = fields ++ [[]] ->
  (exists c r, join_comma fields = c :: r) ->
  match fields with
  | [d; m; sc] =>
      nadd (nadd (ndiv (StringToNumber d) (nZ 1))
                 (ndiv (StringToNumber m) (nZ 60)))
           (ndiv (StringToNumber sc) (nZ 3600)) = Num v
  | [d; m] =>
      nadd (ndiv (StringToNumber d) (nZ 1))
           (ndiv (StringToNumber m) (nZ 60)) = Num v
  | [d] => StringToNumber d = Num v
  | _ => False
  end ->
  parseDMS (VString (body ++ compass (VNumber (Num x)) "W" "E")) =
  Returns (Num (if Qlt_bool x (inject_Z 0) then - v else v)).
Proof.
  apply (@coordinate_reads_back x "W" "E" 87 69); reflexivity.
Qed.

Lemma dec_str_head (s : jsstring) (n f : Z) :
  dec_str s n f ->
  match s with
  | c :: _ => is_white c = false /\ c <> cu_minus
  | [] => True
  end.
Proof.
  intros H. destruct (dec_str_field H) as (_ & c & r & -> & Hc).
  now apply digit_head.
Qed.

(** The longitude written in the format [dms] and read back. *)
Lemma toLon_dms_reads_back (x : Q) (dp : option Z) (f : Z) (g : globals) :
  Qabs x <= 1000000 -> (0 <= f <= 100)%Z ->
  dp = Some f \/ (dp = None /\ f = 0%Z) ->
  exists s g' r,
    toLon (VNumber (Num x)) (Some (u16 "dms")) dp g = Returns (s, g') /\
    parseDMS (VString s) = Returns (Num r) /\
    Qabs (r - x) <= (1 # 2) / inject_Z (10 ^ f) / 3600.
Proof.
  intros Hax Hf Hdp'.
  destruct (@toDMS_dms_any x dp f g Hax Hf Hdp')
    as (A & B & C & D & Mz & R2 & Hto & HA & HB & HC & Hbound).
  destruct (dec_str_field HA) as (HAf & a & A' & EA & Ha).
  destruct (dec_str_field HB) as (HBf & _).
  destruct (dec_str_field HC) as (HCf & _).
  pose proof (dec_str_nonempty HB) as HBn.
  pose proof (dec_str_nonempty HC) as HCn.
  unfold toLon. rewrite Hto. cbn [bind].
  eexists. eexists. eexists. split; [reflexivity |].
  split.
  + apply (@toLon_reads_back x
             (A ++ cu_degree :: B ++ cu_prime :: C ++ [cu_dprime]) [A; B; C]
             (inject_Z D * pow10 (- 0) * pow10 0 / inject_Z 1 +
              inject_Z Mz * pow10 (- 0) * pow10 0 / inject_Z 60 +
              inject_Z R2 * pow10 (- f) * pow10 0 / inject_Z 3600)).
    * rewrite EA. cbn [app]. now apply digit_head.
    * now apply split_fields_three.
    * exists a, (A' ++ cu_comma :: B ++ cu_comma :: C). rewrite EA.
      reflexivity.
    * rewrite (dec_str_number HA), (dec_str_number HB), (dec_str_number HC).
      cbn [ndiv nadd nlift2 nZ].
      change (Qeq_bool (inject_Z 1) 0) with false.
      change (Qeq_bool (inject_Z 60) 0) with false.
      change (Qeq_bool (inject_Z 3600) 0) with false. reflexivity.
  + apply signed_bound. rewrite (three_fields_value D Mz R2 (proj1 Hf)).
    exact Hbound.
Qed.

(** The latitude written in the format [dms] and read back. *)
Lemma toLat_dms_reads_back (x : Q) (dp : option Z) (f : Z) (g : globals) :
  Qabs x <= 90 -> (0 <= f <= 100)%Z ->
  dp = Some f \/ (dp = None /\ f = 0%Z) ->
  exists s g' r,
    toLat (VNumber (Num x)) (Some (u16 "dms")) dp g = Returns (s, g') /\
    parseDMS (VString s) = Returns (Num r) /\
    Qabs (r - x) <= (1 # 2) / inject_Z (10 ^ f) / 3600.
Proof.
  intros Hax Hf Hdp'.
  destruct (@toDMS_dms x dp f g Hax Hf Hdp')
    as (A & B & C & D & Mz & R2 & Hto & HA & HB & HC & Hbound).
  destruct (dec_str_field HA) as (HAf & a & A' & EA & Ha).
  destruct (dec_str_field HB) as (HBf & _).
  destruct (dec_str_field HC) as (HCf & _).
  pose proof (dec_str_nonempty HB) as HBn.
  pose proof (dec_str_nonempty HC) as HCn.
  unfold toLat. rewrite Hto. cbn [bind slice1 skipn].
  eexists. eexists. eexists. split; [reflexivity |].
  split.
  + apply (@coordinate_reads_back x "S" "N" 83 78
             (A ++ cu_degree :: B ++ cu_prime :: C ++ [cu_dprime]) [A; B; C]
             (inject_Z D * pow10 (- 0) * pow10 0 / inject_Z 1 +
              inject_Z Mz * pow10 (- 0) * pow10 0 / inject_Z 60 +
              inject_Z R2 * pow10 (- f) * pow10 0 / inject_Z 3600));
      try reflexivity.
    * rewrite EA. cbn [app]. now apply digit_head.
    * now apply split_fields_three.
    * exists a, (A' ++ cu_comma :: B ++ cu_comma :: C). rewrite EA.
      reflexivity.
    * rewrite (dec_str_number HA), (dec_str_number HB), (dec_str_number HC).
      cbn [ndiv nadd nlift2 nZ].
      change (Qeq_bool (inject_Z 1) 0) with false.
      change (Qeq_bool (inject_Z 60) 0) with false.
      change (Qeq_bool (inject_Z 3600) 0) with false. reflexivity.
  + apply signed_bound. rewrite (three_fields_value D Mz R2 (proj1 Hf)).
    exact Hbound.
Qed.

(** X23.  The round trip through [Geo.toLon] and [Geo.parseDMS], in exact
    arithmetic: in each of the three formats a longitude is read back
    within half a unit of the last decimal place written (of a degree, of a
    minute or of a second). *)
Theorem toLon_round_trip (x : Q) (format : jsstring) (dp : option Z)
    (g : globals) :
  known_format format = true ->
  -180 <= x <= 180 ->
  match dp with Some f => (0 <= f <= 100)%Z | None => True end ->
  exists s g' r,
    toLon (VNumber (Num x)) (Some format) dp g = Returns (s, g') /\
    parseDMS (VString s) = Returns (Num r) /\
    Qabs (r - x) <=
    (1 # 2) / inject_Z (10 ^ match dp with
                             | Some f => f
                             | None => default_places format
                             end) / format_unit format.
Proof.
  intros Hfmt Hx Hdp.
  set (f := match dp with Some f => f | None => default_places format end).
  assert (Hax : Qabs x <= 1000000) by (apply Qabs_Qle_condition; Lqa.lra).
  destruct (known_format_cases _ Hfmt) as [-> | [-> | ->]].
  - (* degrees *)
    assert (Hf : (0 <= f <= 100)%Z) by (subst f; destruct dp; [lia | vm_compute; split; discriminate]).
    assert (Hdp' : dp = Some f \/ (dp = None /\ f = 4%Z))
      by (subst f; destruct dp; auto).
    destruct (@toDMS_d x dp f g Hax Hf Hdp') as (A & N & Hto & HA & Hbound).
    destruct (dec_str_field HA) as (HAf & a & A' & EA & Ha).
    unfold toLon. rewrite Hto. cbn [bind].
    eexists. eexists. eexists. split; [reflexivity |].
    split.
    + apply (@toLon_reads_back x (A ++ [cu_degree]) [A]
               (inject_Z N * pow10 (- f) * pow10 0)).
      * rewrite EA. cbn [app]. now apply digit_head.
      * now apply split_fields_one.
      * exists a, A'. exact EA.
      * exact (dec_str_number HA).
    + apply signed_bound. rewrite (dec_value N (proj1 Hf)).
      change (format_unit (u16 "d")) with 1.
      assert (E : forall t, t / 1 == t) by (intros; field).
      rewrite E. exact Hbound.
  - (* degrees and minutes *)
    assert (Hf : (0 <= f <= 100)%Z) by (subst f; destruct dp; [lia | vm_compute; split; discriminate]).
    assert (Hdp' : dp = Some f \/ (dp = None /\ f = 2%Z))
      by (subst f; destruct dp; auto).
    destruct (@toDMS_dm x dp f g Hax Hf Hdp')
      as (A & B & D & R2 & Hto & HA & HB & Hbound).
    destruct (dec_str_field HA) as (HAf & a & A' & EA & Ha).
    destruct (dec_str_field HB) as (HBf & _).
    pose proof (dec_str_nonempty HB) as HBn.
    unfold toLon. rewrite Hto. cbn [bind].
    eexists. eexists. eexists. split; [reflexivity |].
    split.
    + apply (@toLon_reads_back x (A ++ cu_degree :: B ++ [cu_prime]) [A; B]
               (inject_Z D * pow10 (- 0) * pow10 0 / inject_Z 1 +
                inject_Z R2 * pow10 (- f) * pow10 0 / inject_Z 60)).
      * rewrite EA. cbn [app]. now apply digit_head.
      * now apply split_fields_two.
      * exists a, (A' ++ cu_comma :: B). rewrite EA. reflexivity.
      * rewrite (dec_str_number HA), (dec_str_number HB).
        cbn [ndiv nadd nlift2 nZ].
        change (Qeq_bool (inject_Z 1) 0) with false.
        change (Qeq_bool (inject_Z 60) 0) with false. reflexivity.
    + apply signed_bound. rewrite (dec_value R2 (proj1 Hf)).
      change (format_unit (u16 "dm")) with 60.
      change (pow10 (- 0)) with 1. change (pow10 0) with 1.
      change (inject_Z 1) with 1. change (inject_Z 60) with 60.
      pose proof (inject_Z_pow10_pos (proj1 Hf)) as HP.
      assert (E : inject_Z D * 1 * 1 / 1 + inject_Z R2 / inject_Z (10 ^ f) / 60
                  == inject_Z D + inject_Z R2 / inject_Z (10 ^ f) / 60)
        by (field; Lqa.lra).
      rewrite E. exact Hbound.
  - (* degrees, minutes and seconds *)
    assert (Hf : (0 <= f <= 100)%Z) by (subst f; destruct dp; [lia | vm_compute; split; discriminate]).
    assert (Hdp' : dp = Some f \/ (dp = None /\ f = 0%Z))
      by (subst f; destruct dp; auto).
    change (format_unit (u16 "dms")) with 3600.
    exact (@toLon_dms_reads_back x dp f g Hax Hf Hdp').
Qed.

Lemma toLon_round_trip_witness :
  exists s g' r,
    toLon (VNumber (Num (-983 # 10000))) (Some (u16 "dm")) None None
      = Returns (s, g') /\
    parseDMS (VString s) = Returns (Num r) /\
    Qabs (r - (-983 # 10000)) <=
    (1 # 2) / inject_Z (10 ^ default_places (u16 "dm")) /
    format_unit (u16 "dm").
Proof.
  apply (@toLon_round_trip (-983 # 10000) (u16 "dm") None None).
  - reflexivity.
  - split; unfold Qle; simpl; lia.
  - exact I.
Defined.

Lemma toLon_round_trip_example :
  toLon (VNumber (Num (-983 # 10000))) (Some (u16 "dm")) None None
    = Returns (u16 "000" ++ cu_degree :: u16 "05.90" ++ cu_prime :: u16 "W",
               Some (u16 "000" ++ cu_degree :: u16 "05.90" ++ [cu_prime])) /\
  parseDMS (VString (u16 "000" ++ cu_degree :: u16 "05.90" ++ cu_prime ::
                     u16 "W"))
    = Returns (Num (-590 # 6000)).
Proof. split; vm_compute; reflexivity. Qed.

End LongitudeRoundTrip.

(** ** Printing a point and reading it back *)

Section DisplayRoundTrip.
Local Open Scope Q_scope.

(** X24.  In exact arithmetic, a point printed without a format is written
    as its latitude, a comma and a blank, and its longitude, both in
    degrees, minutes and seconds; each part is read back by [Geo.parseDMS]
    within half a unit of the last decimal of a second. *)
Theorem toString_round_trip (round64 : R -> Q) (p : LatLon) (dp : option Z)
    (g : globals) :
  -90 <= round64 (lat p) <= 90 ->
  -180 <= round64 (lon p) <= 180 ->
  match dp with Some f => (0 <= f <= 100)%Z | None => True end ->
  exists a g1 b g2 r1 r2,
    toLat (VNumber (Num (round64 (lat p)))) (Some (u16 "dms")) dp g =
      Returns (a, g1) /\
    toLon (VNumber (Num (round64 (lon p)))) (Some (u16 "dms")) dp g1 =
      Returns (b, g2) /\
    toString round64 p None dp g = Returns (a ++ u16 ", " ++ b, g2) /\
    parseDMS (VString a) = Returns (Num r1) /\
    parseDMS (VString b) = Returns (Num r2) /\
    Qabs (r1 - round64 (lat p)) <=
      (1 # 2) / inject_Z (10 ^ match dp with Some f => f | None => 0 end) / 3600 /\
    Qabs (r2 - round64 (lon p)) <=
      (1 # 2) / inject_Z (10 ^ match dp with Some f => f | None => 0 end) / 3600.
Proof.
  intros Hlat Hlon Hdp.
  set (f := match dp with Some f => f | None => 0%Z end).
  assert (Hf : (0 <= f <= 100)%Z) by (subst f; destruct dp; lia).
  assert (Hdp' : dp = Some f \/ (dp = None /\ f = 0%Z))
    by (subst f; destruct dp; auto).
  assert (Hax : Qabs (round64 (lat p)) <= 90)
    by (apply Qabs_Qle_condition; Lqa.lra).
  assert (Hay : Qabs (round64 (lon p)) <= 1000000)
    by (apply Qabs_Qle_condition; Lqa.lra).
  destruct (@toLat_dms_reads_back _ dp f g Hax Hf Hdp')
    as (a & g1 & r1 & Ha & Hpa & Hba).
  destruct (@toLon_dms_reads_back _ dp f g1 Hay Hf Hdp')
    as (b & g2 & r2 & Hb & Hpb & Hbb).
  exists a, g1, b, g2, r1, r2.
  split; [exact Ha |]. split; [exact Hb |].
  split; [| repeat split; assumption].
  unfold toString. rewrite Ha. cbn [bind]. rewrite Hb. reflexivity.
Qed.

Lemma round_grid_exact (z : Z) :
  round_grid (IZR z / 1048576) = (z # 1048576).
Proof.
  unfold round_grid. f_equal. symmetry. apply Int_part_spec.
  replace (IZR z / 1048576 * 1048576)%R with (IZR z) by (field; lra). lra.
Qed.

Lemma toString_round_trip_witness :
  exists a g1 b g2 r1 r2,
    toLat (VNumber (Num (round_grid (54001664 / 1048576))))
          (Some (u16 "dms")) (Some 2%Z) None = Returns (a, g1) /\
    toLon (VNumber (Num (round_grid (-104858 / 1048576))))
          (Some (u16 "dms")) (Some 2%Z) g1 = Returns (b, g2) /\
    toString round_grid
      (mkLatLon (54001664 / 1048576) (-104858 / 1048576) 6371)
      None (Some 2%Z) None = Returns (a ++ u16 ", " ++ b, g2) /\
    parseDMS (VString a) = Returns (Num r1) /\
    parseDMS (VString b) = Returns (Num r2) /\
    Qabs (r1 - round_grid (54001664 / 1048576)) <=
      (1 # 2) / inject_Z (10 ^ 2) / 3600 /\
    Qabs (r2 - round_grid (-104858 / 1048576)) <=
      (1 # 2) / inject_Z (10 ^ 2) / 3600.
Proof.
  apply (@toString_round_trip round_grid
           (mkLatLon (54001664 / 1048576) (-104858 / 1048576) 6371)
           (Some 2%Z) None).
  - cbn [lat]. rewrite round_grid_exact. split; unfold Qle; simpl; lia.
  - cbn [lon]. rewrite round_grid_exact. split; unfold Qle; simpl; lia.
  - lia.
Defined.

Lemma toString_example :
  toString round_grid (mkLatLon (54001664 / 1048576) (-104858 / 1048576) 6371)
           None None None =
  Returns (u16 "51" ++ cu_degree :: u16 "30" ++ cu_prime :: u16 "00" ++
           cu_dprime :: u16 "N, 000" ++ cu_degree :: u16 "06" ++ cu_prime ::
           u16 "00" ++ cu_dprime :: u16 "W",
           Some (u16 "000" ++ cu_degree :: u16 "06" ++ cu_prime ::
                 u16 "00" ++ [cu_dprime])).
Proof.
  unfold toString. cbn [lat lon]. rewrite !round_grid_exact.
  vm_compute. reflexivity.
Qed.

End DisplayRoundTrip.

(** ** Formatter: the value of the numeral *)

Section PaddingCounts.
Local Open Scope Q_scope.

Lemma turns_exact (q : Q) (k l : Z) :
  q == inject_Z k -> turns (Num q) l = Z.to_nat (k - l).
Proof.
  intros H. unfold turns. f_equal.
  assert (E : q - inject_Z l == inject_Z (k - l))
    by (rewrite H, inject_Z_sub; reflexivity).
  rewrite (Qceiling_comp _ _ E). apply Qceiling_Z.
Qed.

(** The loop [while (exp-- > l) sig = sig + '0'] appends [exp - l] zeros. *)
Lemma append_zeros_count (j : nat) :
  forall (q : Q) (k l : Z) (sig : jsstring),
    q == inject_Z k -> j = Z.to_nat (k - l) ->
    append_zeros j (Num q) l sig = sig ++ zeros j.
Proof.
  induction j as [| j IH]; intros q k l sig Hq Hj.
  - cbn [append_zeros zeros repeat]. now rewrite app_nil_r.
  - cbn [append_zeros]. unfold ngt. cbn [nlt nZ].
    rewrite Qlt_bool_true by (rewrite Hq, <- Zlt_Qlt; lia).
    cbn [nsub nlift2 nZ].
    rewrite (IH (q - inject_Z 1) (k - 1)%Z l).
    + rewrite <- app_assoc. reflexivity.
    + rewrite Hq, inject_Z_sub. reflexivity.
    + lia.
Qed.

(** The loop [while (exp-- > 1) sig = '0' + sig] prepends [exp - 1]
    zeros. *)
Lemma prepend_zeros_count (j : nat) :
  forall (q : Q) (k : Z) (sig : jsstring),
    q == inject_Z k -> j = Z.to_nat (k - 1) ->
    prepend_zeros j (Num q) sig = zeros j ++ sig.
Proof.
  induction j as [| j IH]; intros q k sig Hq Hj.
  - reflexivity.
  - cbn [prepend_zeros]. unfold ngt. cbn [nlt nZ].
    rewrite Qlt_bool_true by (rewrite Hq, <- Zlt_Qlt; lia).
    cbn [nsub nlift2 nZ].
    rewrite (IH (q - inject_Z 1) (k - 1)%Z).
    + rewrite <- zeros_snoc, <- app_assoc. reflexivity.
    + rewrite Hq, inject_Z_sub. reflexivity.
    + lia.
Qed.

Lemma StringToNumber_digits (k : Z) :
  (0 <= k)%Z ->
  exists q, StringToNumber (digits k) = Num q /\ q == inject_Z k.
Proof.
  intros Hk. rewrite (dec_str_number (dec_str_digits Hk)).
  eexists. split; [reflexivity |].
  change (pow10 (- 0)) with 1. change (pow10 0) with 1. ring.
Qed.

Lemma remove_first_dot_point (m : jsstring) :
  all_digits m = true -> remove_first_dot (point_after_first m) = m.
Proof.
  intros H.
  assert (Hnd : forall s, all_digits s = true -> remove_first_dot s = s).
  { induction s as [| c r IH]; [reflexivity |].
    unfold all_digits. cbn [forallb remove_first_dot]. intros Hs.
    apply andb_true_iff in Hs as [Hc Hr].
    replace (c =? cu_dot)%Z with false.
    - f_equal. now apply IH.
    - symmetry. unfold is_digit, cu_dot in *.
      apply andb_true_iff in Hc as [H1 H2]. apply Z.leb_le in H1, H2.
      apply Z.eqb_neq. lia. }
  destruct m as [| a [| b r]]; [reflexivity | now apply Hnd |].
  unfold point_after_first.
  unfold all_digits in H. cbn [forallb] in H.
  apply andb_true_iff in H as [Ha Hr].
  cbn [remove_first_dot].
  replace (a =? cu_dot)%Z with false.
  - change (cu_dot =? cu_dot)%Z with true. reflexivity.
  - symmetry. unfold is_digit, cu_dot in *.
    apply andb_true_iff in Ha as [H1 H2]. apply Z.leb_le in H1, H2.
    apply Z.eqb_neq. lia.
Qed.

End PaddingCounts.

Section FixedNumerals.
Local Open Scope Z_scope.

Lemma dec_str_trailing_zeros (m : jsstring) (j : nat) :
  all_digits m = true -> m <> [] ->
  dec_str (m ++ zeros j) (digits_val m * 10 ^ Z.of_nat j) 0.
Proof.
  intros Hm Hne. exists (m ++ zeros j), []. repeat split.
  - now rewrite all_digits_app, Hm, zeros_all_digits.
  - intros E. apply app_eq_nil in E as [E _]. contradiction.
  - rewrite app_nil_r, digits_val_app, digits_val_zeros, len_zeros. lia.
  - right. auto.
Qed.

Lemma dec_str_leading_zeros (m : jsstring) (j : nat) :
  all_digits m = true ->
  dec_str (cu_0 :: cu_dot :: zeros j ++ m) (digits_val m)
          (Z.of_nat j + len m).
Proof.
  intros Hm. exists [cu_0], (zeros j ++ m). repeat split.
  - now rewrite all_digits_app, Hm, zeros_all_digits.
  - discriminate.
  - now rewrite len_app, len_zeros.
  - cbn [app]. rewrite digits_val_cons, digits_val_app, digits_val_zeros.
    unfold cu_0. lia.
  - left. reflexivity.
Qed.

Lemma dec_str_point (m : jsstring) (k : Z) :
  all_digits m = true -> 0 < k <= len m ->
  dec_str (firstz k m ++ cu_dot :: skipz k m) (digits_val m) (len m - k).
Proof.
  intros Hm Hk. exists (firstz k m), (skipz k m). repeat split.
  - now apply forallb_firstn.
  - now apply forallb_skipn.
  - intros E. apply (f_equal (@List.length Z)) in E.
    unfold firstz in E. rewrite length_firstn in E. cbn [List.length] in E.
    unfold len in Hk. lia.
  - apply firstn_skipn_len. lia.
  - unfold firstz, skipz. now rewrite firstn_skipn.
  - left. reflexivity.
Qed.

Lemma dec_str_plain (m : jsstring) :
  all_digits m = true -> m <> [] -> dec_str m (digits_val m) 0.
Proof.
  intros Hm Hne. exists m, []. repeat split; auto.
  - now rewrite app_nil_r.
Qed.

End FixedNumerals.

Section SignificantValue.
Local Open Scope Q_scope.

(** The pair of [sig_digits] denotes the decimal of [p] significant digits
    nearest to [x]. *)
Lemma sig_digits_value (x : Q) (p : Z) :
  0 < x -> (1 <= p)%Z ->
  let e := fst (sig_digits x p) in
  let n := snd (sig_digits x p) in
  (10 ^ (p - 1) <= n < 10 ^ p)%Z /\
  Qabs (inject_Z n * pow10 (e - p + 1) - x) <= (1 # 2) * pow10 (e - p + 1).
Proof.
  intros Hx Hp. cbv zeta. split; [now apply sig_digits_range |].
  unfold sig_digits.
  set (e0 := floor_log10 x).
  set (y := x * pow10 (p - 1 - e0)).
  destruct (round_half_up_bounds y) as [Hlo Hhi].
  set (n0 := Qfloor (y + (1 # 2))) in *.
  set (u := pow10 (e0 - p + 1)).
  assert (Hu : 0 < u) by apply pow10_pos.
  assert (Hxy : x == y * u).
  { subst y u. rewrite <- Qmult_assoc, <- pow10_add.
    replace (p - 1 - e0 + (e0 - p + 1))%Z with 0%Z by lia.
    change (pow10 0) with 1. ring. }
  assert (Hbase : Qabs (inject_Z n0 * u - x) <= (1 # 2) * u).
  { rewrite Hxy.
    assert (E : inject_Z n0 * u - y * u == (inject_Z n0 - y) * u) by ring.
    rewrite E. apply Qabs_Qle_condition. split; Lqa.nra. }
  destruct (n0 =? 10 ^ p)%Z eqn:E; cbn [fst snd].
  - apply Z.eqb_eq in E.
    assert (E10 : pow10 (e0 + 1 - p + 1) == 10 * u).
    { subst u. replace (e0 + 1 - p + 1)%Z with (1 + (e0 - p + 1))%Z by lia.
      rewrite pow10_add. reflexivity. }
    assert (Ep : inject_Z (10 ^ p) == 10 * inject_Z (10 ^ (p - 1))).
    { replace p with (1 + (p - 1))%Z at 1 by lia.
      rewrite Z.pow_add_r by lia. rewrite inject_Z_mult. reflexivity. }
    rewrite E10.
    assert (Ev : inject_Z (10 ^ (p - 1)) * (10 * u) - x ==
                 inject_Z n0 * u - x).
    { rewrite E, Ep. ring. }
    rewrite Ev.
    eapply Qle_trans; [exact Hbase |]. Lqa.lra.
  - exact Hbase.
Qed.

End SignificantValue.

Section FixedValue.
Local Open Scope Z_scope.

Lemma Qabs_pos_eq (q : Q) : (0 <= q)%Q -> Qabs q = q.
Proof.
  destruct q as [a b]. unfold Qle, Qabs. cbn [Qnum Qden]. intros H.
  rewrite Z.abs_eq by lia. reflexivity.
Qed.

Lemma replace_exp_keeps (s : jsstring) :
  fixed_point_form s = true ->
  replace_exp cu_minus pad_leading (replace_exp cu_plus pad_trailing s) = s.
Proof.
  intros H. rewrite (@replace_exp_fixed cu_plus pad_trailing _ H).
  now apply replace_exp_fixed.
Qed.

(** The numeral [toPrecisionFixed] returns for a positive number: the [p]
    digits [n] of [sig_digits], placed by the exponent [e]. *)
Lemma toPrecisionFixed_numeral (q : Q) (p : Z) :
  (0 < q)%Q -> 1 <= p <= 100 ->
  exists s N f,
    toPrecisionFixed (Num q) p = Returns s /\
    dec_str s N f /\ 0 <= f /\
    (inject_Z N * pow10 (- f) ==
     inject_Z (snd (sig_digits q p)) * pow10 (fst (sig_digits q p) - p + 1))%Q.
Proof.
  intros Hq Hp.
  destruct (@sig_digits_value q p Hq (proj1 Hp)) as [Hn _]. cbv zeta in Hn.
  unfold toPrecisionFixed, toPrecision.
  replace ((p <? 1) || (100 <? p)) with false
    by (symmetry; apply orb_false_iff; split; apply Z.ltb_ge; lia).
  rewrite (@Qlt_bool_false q 0 (Qlt_le_weak _ _ Hq)).
  rewrite (@Qabs_pos_eq q (Qlt_le_weak _ _ Hq)).
  replace (Qeq_bool q 0) with false.
  2:{ symmetry. destruct (Qeq_bool q 0) eqn:E; [| reflexivity].
      apply Qeq_bool_iff in E. rewrite E in Hq. discriminate Hq. }
  destruct (sig_digits q p) as [e n]. cbn [fst snd] in *.
  assert (Hn0 : 0 <= n).
  { assert (0 < 10 ^ (p - 1)) by (apply Z.pow_pos_nonneg; lia). lia. }
  set (m := digits n).
  assert (Hm : all_digits m = true) by apply digits_all_digits.
  assert (Hmne : m <> []) by apply digits_nonempty.
  assert (Hlen : len m = p) by (apply digits_len_unique; lia).
  assert (Hval : digits_val m = n) by now apply digits_val_digits.
  assert (Hfm : fixed_point_form m = true) by now apply all_digits_fixed.
  cbn [app].
  destruct ((e <? -6) || (p <=? e)) eqn:Eexp.
  - (* exponential rendering *)
    cbn [bind].
    assert (Hsg : fixed_point_form (point_after_first m) = true)
      by now apply fixed_point_after_first.
    assert (Hsgne : point_after_first m <> [])
      by now apply point_after_first_nonempty.
    unfold exponent_suffix.
    destruct (e <? 0) eqn:Eneg.
    + apply Z.ltb_lt in Eneg.
      assert (He : e < -6).
      { apply orb_true_iff in Eexp as [H | H];
          [now apply Z.ltb_lt in H | apply Z.leb_le in H; lia]. }
      rewrite (replace_negative_exponent Hsg Hsgne
                 (digits_all_digits (Z.abs e)) (@digits_nonempty (Z.abs e))).
      unfold pad_leading. rewrite (@remove_first_dot_point m Hm).
      destruct (@StringToNumber_digits (Z.abs e) ltac:(lia)) as (x & -> & Hx).
      rewrite (@turns_exact x (Z.abs e) 1 Hx).
      rewrite (@prepend_zeros_count _ x (Z.abs e) m Hx eq_refl).
      set (j := Z.to_nat (Z.abs e - 1)).
      exists (cu_0 :: cu_dot :: zeros j ++ m), n, (Z.of_nat j + p).
      split; [reflexivity |]. split.
      { rewrite <- Hval, <- Hlen. now apply dec_str_leading_zeros. }
      split; [lia |].
      replace (- (Z.of_nat j + p)) with (e - p + 1) by (subst j; lia).
      reflexivity.
    + apply Z.ltb_ge in Eneg.
      assert (He : p <= e).
      { apply orb_true_iff in Eexp as [H | H];
          [apply Z.ltb_lt in H; lia | now apply Z.leb_le in H]. }
      rewrite (replace_positive_exponent Hsg Hsgne
                 (digits_all_digits (Z.abs e)) (@digits_nonempty (Z.abs e))).
      unfold pad_trailing. rewrite (@remove_first_dot_point m Hm), Hlen.
      destruct (@StringToNumber_digits (Z.abs e) ltac:(lia)) as (x & -> & Hx).
      rewrite (@turns_exact x (Z.abs e) (p - 1) Hx).
      rewrite (@append_zeros_count _ x (Z.abs e) (p - 1) m Hx eq_refl).
      set (j := Z.to_nat (Z.abs e - (p - 1))).
      exists (m ++ zeros j), (n * 10 ^ Z.of_nat j), 0.
      split; [reflexivity |]. split.
      { rewrite <- Hval. now apply dec_str_trailing_zeros. }
      split; [lia |].
      change (pow10 (- 0)) with 1%Q.
      replace (e - p + 1) with (Z.of_nat j) by (subst j; lia).
      rewrite inject_Z_mult, (pow10_Z (k := Z.of_nat j)) by lia. ring.
  - apply orb_false_iff in Eexp as [E1 E2].
    apply Z.ltb_ge in E1. apply Z.leb_gt in E2.
    destruct (e =? p - 1) eqn:Elast.
    + apply Z.eqb_eq in Elast. cbn [bind].
      rewrite (@replace_exp_keeps _ Hfm).
      exists m, n, 0. split; [reflexivity |]. split.
      { rewrite <- Hval. now apply dec_str_plain. }
      split; [lia |].
      replace (e - p + 1) with 0 by lia. reflexivity.
    + apply Z.eqb_neq in Elast.
      destruct (0 <=? e) eqn:Epos.
      * apply Z.leb_le in Epos. cbn [bind].
        assert (Hf : fixed_point_form
                       (firstz (e + 1) m ++ cu_dot :: skipz (e + 1) m) = true).
        { rewrite fixed_app, fixed_cons, (fixed_firstz _ _ Hfm),
            (fixed_skipz _ _ Hfm). reflexivity. }
        rewrite (@replace_exp_keeps _ Hf).
        exists (firstz (e + 1) m ++ cu_dot :: skipz (e + 1) m), n,
               (p - (e + 1)).
        split; [reflexivity |]. split.
        { rewrite <- Hval, <- Hlen. apply dec_str_point; [exact Hm | lia]. }
        split; [lia |].
        replace (- (p - (e + 1))) with (e - p + 1) by lia. reflexivity.
      * apply Z.leb_gt in Epos. cbn [bind].
        assert (Hf : fixed_point_form
                       (cu_0 :: cu_dot :: zerosz (- (e + 1)) ++ m) = true).
        { rewrite !fixed_cons, fixed_app, fixed_zerosz, Hfm. reflexivity. }
        rewrite (@replace_exp_keeps _ Hf).
        exists (cu_0 :: cu_dot :: zerosz (- (e + 1)) ++ m), n,
               (Z.of_nat (Z.to_nat (- (e + 1))) + p).
        split; [reflexivity |]. split.
        { rewrite <- Hval, <- Hlen. unfold zerosz.
          now apply dec_str_leading_zeros. }
        split; [lia |].
        replace (- (Z.of_nat (Z.to_nat (- (e + 1))) + p)) with (e - p + 1)
          by lia.
        reflexivity.
Qed.

End FixedValue.

Section FixedValueTheorem.
Local Open Scope Q_scope.



End FixedValueTheorem.

(** ** The ride timer *)

Section RideTimerProperties.
Local Open Scope Z_scope.

Lemma NumberToString_small (z : Z) :
  0 <= z <= 60 -> NumberToString (nZ z) = digits z.
Proof.
  intros Hz. unfold nZ.
  apply (@NumberToString_integer (inject_Z z) z (Qeq_refl _)).
  change (10 ^ 21) with 1000000000000000000000. lia.
Qed.

Lemma tick_step (s m h : Z) :
  0 <= s <= 60 -> 0 <= m <= 59 ->
  tick (mkTimer s m h) =
  let s1 := if s =? 60 then 0 else s in
  let m1 := if s =? 60 then m + 1 else m in
  (mkTimer (s1 + 1) (if m1 =? 60 then 0 else m1)
           (if m1 =? 60 then h + 1 else h),
   two_digits m1 ++ u16 ":" ++ two_digits s1).
Proof.
  intros Hs Hm. unfold tick, two_digits. cbn [seconds minutes hours].
  cbv zeta.
  destruct (s =? 60) eqn:Es.
  - change (0 <? 10) with true. cbv iota. cbn [ToString].
    rewrite (@NumberToString_small (m + 1)), (@NumberToString_small 0) by lia.
    destruct (m + 1 <? 10); destruct (m + 1 =? 60);
      repeat first [rewrite <- app_assoc | progress cbn [app]]; reflexivity.
  - apply Z.eqb_neq in Es.
    destruct (m <? 10); destruct (m =? 60); destruct (s <? 10);
      cbn [ToString];
      rewrite (@NumberToString_small m), (@NumberToString_small s) by lia;
      repeat first [rewrite <- app_assoc | progress cbn [app]]; reflexivity.
Qed.

(** The globals after [n + 1] calls, in terms of the [n] seconds elapsed
    since the first one. *)
Lemma run_state (n : nat) :
  let t := Z.of_nat n in
  run (S n) timer_start =
  mkTimer (t mod 60 + 1) ((t / 60) mod 60) (t / 3600).
Proof.
  induction n as [| n IH].
  - reflexivity.
  - cbv zeta in *. change (run (S (S n)) timer_start)
      with (fst (tick (run (S n) timer_start))).
    rewrite IH. set (t := Z.of_nat n).
    replace (Z.of_nat (S n)) with (t + 1) by (subst t; lia).
    assert (Ht : 0 <= t) by (subst t; lia).
    rewrite tick_step by (Z.div_mod_to_equations; lia).
    cbv zeta. cbn [fst]. 
    destruct (t mod 60 + 1 =? 60) eqn:Es.
    + apply Z.eqb_eq in Es.
      destruct ((t / 60) mod 60 + 1 =? 60) eqn:Em.
      * apply Z.eqb_eq in Em. f_equal; Z.div_mod_to_equations; lia.
      * apply Z.eqb_neq in Em. f_equal; Z.div_mod_to_equations; lia.
    + apply Z.eqb_neq in Es.
      destruct ((t / 60) mod 60 =? 60) eqn:Em.
      * apply Z.eqb_eq in Em. exfalso. Z.div_mod_to_equations. lia.
      * f_equal; Z.div_mod_to_equations; lia.
Qed.

(** X26.  The ride-duration field, call after call: [n] seconds after the first
    call it shows the minutes and seconds elapsed within the hour, two
    digits each, except on each full hour, when it shows ["60:00"]; the
    hours are counted but never shown. *)
Theorem ride_duration_display (n : nat) :
  let t := Z.of_nat n in
  snd (tick (run n timer_start)) =
    two_digits (if (0 <? t) && (t mod 3600 =? 0) then 60 else (t / 60) mod 60)
    ++ u16 ":" ++ two_digits (t mod 60) /\
  hours (run (S n) timer_start) = t / 3600.
Proof.
  cbv zeta. split; [| now rewrite run_state].
  destruct n as [| n]; [reflexivity |].
  rewrite run_state. cbv zeta. set (u := Z.of_nat n).
  replace (Z.of_nat (S n)) with (u + 1) by (subst u; lia).
  assert (Hu : 0 <= u) by (subst u; lia).
  rewrite tick_step by (Z.div_mod_to_equations; lia).
  cbv zeta. cbn [snd].
  replace (0 <? u + 1) with true by (symmetry; apply Z.ltb_lt; lia).
  cbn [andb].
  destruct (u mod 60 + 1 =? 60) eqn:Es.
  - apply Z.eqb_eq in Es.
    replace ((u + 1) mod 60) with 0 by (Z.div_mod_to_equations; lia).
    destruct ((u + 1) mod 3600 =? 0) eqn:Eh.
    + apply Z.eqb_eq in Eh.
      replace ((u / 60) mod 60 + 1) with 60 by (Z.div_mod_to_equations; lia).
      reflexivity.
    + apply Z.eqb_neq in Eh.
      replace ((u / 60) mod 60 + 1) with (((u + 1) / 60) mod 60)
        by (Z.div_mod_to_equations; lia).
      reflexivity.
  - apply Z.eqb_neq in Es.
    replace ((u + 1) mod 3600 =? 0) with false
      by (symmetry; apply Z.eqb_neq; Z.div_mod_to_equations; lia).
    replace (((u + 1) / 60) mod 60) with ((u / 60) mod 60)
      by (Z.div_mod_to_equations; lia).
    replace ((u + 1) mod 60) with (u mod 60 + 1)
      by (Z.div_mod_to_equations; lia).
    reflexivity.
Qed.

Lemma tick_without_hours (s m h h' : Z) :
  exists s' m' k k' d,
    tick (mkTimer s m h) = (mkTimer s' m' k, d) /\
    tick (mkTimer s m h') = (mkTimer s' m' k', d).
Proof.
  unfold tick. cbn [seconds minutes hours].
  destruct (s =? 60); cbv zeta;
    [destruct (m + 1 =? 60) | destruct (m =? 60)];
    do 5 eexists; split; reflexivity.
Qed.

Lemma run_without_hours (n : nat) (s m h h' : Z) :
  exists s' m' k k',
    run n (mkTimer s m h) = mkTimer s' m' k /\
    run n (mkTimer s m h') = mkTimer s' m' k'.
Proof.
  induction n as [| n IH].
  - exists s, m, h, h'. split; reflexivity.
  - destruct IH as (s1 & m1 & k1 & k1' & E1 & E2).
    cbn [run]. rewrite E1, E2.
    destruct (tick_without_hours s1 m1 k1 k1')
      as (s2 & m2 & k2 & k2' & d & -> & ->).
    exists s2, m2, k2, k2'. split; reflexivity.
Qed.

(** X27.  [stopTime] puts the minutes and seconds back to zero and keeps the
    hours; it shows ["00:00"] unless everything is zero already, and the
    field then goes on call after call as it did from the start. *)
Theorem stopTime_restarts (t : timer) :
  fst (stopTime t) = mkTimer 0 0 (hours t) /\
  (t <> timer_start -> snd (stopTime t) = Some (u16 "00:00")) /\
  (t = timer_start -> snd (stopTime t) = None) /\
  (forall n, snd (tick (run n (fst (stopTime t)))) =
             snd (tick (run n timer_start))).
Proof.
  assert (Hst : fst (stopTime t) = mkTimer 0 0 (hours t)).
  { destruct t as [s m h]. unfold stopTime. cbn [seconds minutes hours].
    destruct (s =? 0) eqn:Es; [| reflexivity].
    destruct (m =? 0) eqn:Em; [| reflexivity].
    destruct (h =? 0) eqn:Eh; [| reflexivity].
    apply Z.eqb_eq in Es, Em, Eh. subst. reflexivity. }
  split; [exact Hst |]. split; [| split].
  - intros H. destruct t as [s m h]. unfold stopTime, timer_start in *.
    cbn [seconds minutes hours].
    destruct (s =? 0) eqn:Es; [| reflexivity].
    destruct (m =? 0) eqn:Em; [| reflexivity].
    destruct (h =? 0) eqn:Eh; [| reflexivity].
    apply Z.eqb_eq in Es, Em, Eh. subst. contradiction.
  - intros ->. reflexivity.
  - intros n. rewrite Hst. unfold timer_start.
    destruct (run_without_hours n 0 0 (hours t) 0)
      as (s' & m' & k & k' & -> & ->).
    destruct (tick_without_hours s' m' k k') as (? & ? & ? & ? & d & -> & ->).
    reflexivity.
Qed.

Lemma stopTime_restarts_witness :
  snd (stopTime (mkTimer 25 3 1)) = Some (u16 "00:00") /\
  snd (stopTime timer_start) = None.
Proof.
  split.
  - apply (proj1 (proj2 (stopTime_restarts (mkTimer 25 3 1)))).
    discriminate.
  - apply (proj1 (proj2 (proj2 (stopTime_restarts timer_start)))).
    reflexivity.
Defined.

End RideTimerProperties.

(** ** The fields that [Geo.parseDMS] reads *)

Section ParseFields.
Local Open Scope Z_scope.

Lemma split_go_skip (s rest : jsstring) :
  sep_run s = true -> split_go [] true (s ++ rest) = split_go [] true rest.
Proof.
  induction s as [| c r IH]; [reflexivity |].
  unfold sep_run. cbn [forallb app split_go]. intros H.
  apply andb_true_iff in H as [Hc Hr]. apply negb_true_iff in Hc.
  rewrite Hc. now apply IH.
Qed.

Lemma split_go_end (F : jsstring) :
  forallb is_field_char F = true ->
  forall cur b, split_go cur b F = [rev cur ++ F].
Proof.
  induction F as [| c r IH]; intros HF cur b.
  - cbn [split_go]. now rewrite app_nil_r.
  - cbn [forallb] in HF. apply andb_true_iff in HF as [Hc Hr].
    cbn [split_go]. rewrite Hc, (IH Hr). cbn [rev].
    now rewrite <- app_assoc.
Qed.

Lemma field_run_spec (F : jsstring) :
  field_run F = true -> forallb is_field_char F = true /\ F <> [].
Proof.
  unfold field_run. intros H. apply andb_true_iff in H as [H1 H2].
  split; [exact H1 |]. intros ->. discriminate H2.
Qed.

Lemma split_go_item (F s rest cur : jsstring) (b : bool) :
  field_run F = true -> sep_run s = true -> s <> [] ->
  split_go cur b (F ++ s ++ rest) = (rev cur ++ F) :: split_go [] true rest.
Proof.
  intros HF Hs Hne. destruct (field_run_spec _ HF) as [HFc HFn].
  destruct s as [| c s']; [contradiction |].
  unfold sep_run in Hs. cbn [forallb] in Hs.
  apply andb_true_iff in Hs as [Hc Hs']. apply negb_true_iff in Hc.
  cbn [app].
  rewrite (@split_go_field c (s' ++ rest) Hc F cur b HFc (or_introl HFn)).
  f_equal. now apply split_go_skip.
Qed.

(** The fields [split] finds in a text made of fields and separators. *)
Lemma split_go_flatten (l : list (jsstring * jsstring)) (F s : jsstring) :
  separated l = true -> field_run F = true -> sep_run s = true ->
  forall b,
    split_go [] b (flatten_fields l ++ F ++ s) =
    map fst l ++ F :: (if str_eqb s [] then [] else [[]]).
Proof.
  intros Hl HF Hs. induction l as [| p r IH]; intros b.
  - cbn [flatten_fields app map].
    destruct s as [| c s'].
    + rewrite app_nil_r. cbn [str_eqb].
      apply (split_go_end _ (proj1 (field_run_spec _ HF))).
    + cbn [str_eqb].
      rewrite <- (app_nil_r (c :: s')).
      rewrite (@split_go_item F (c :: s') [] [] b HF Hs); [reflexivity |].
      discriminate.
  - unfold separated in Hl. cbn [forallb] in Hl.
    apply andb_true_iff in Hl as [Hp Hr].
    apply andb_true_iff in Hp as [Hp Hne].
    apply andb_true_iff in Hp as [HpF Hps].
    cbn [flatten_fields map]. rewrite <- !app_assoc.
    rewrite (@split_go_item (fst p) (snd p) _ [] b HpF Hps).
    + cbn [rev app]. f_equal. now apply IH.
    + intros E. rewrite E in Hne. discriminate Hne.
Qed.

End ParseFields.

Section ParseFieldsTheorem.
Local Open Scope Z_scope.

Lemma field_char_plain (c : Z) :
  is_field_char c = true ->
  is_white c = false /\ (c =? cu_minus) = false /\
  is_compass c = false /\ is_west_south c = false.
Proof.
  intros H. split; [now apply is_field_char_not_white |].
  unfold is_field_char, is_digit, cu_dot, cu_comma, cu_minus,
    is_compass, is_west_south in *.
  repeat (rewrite ?orb_true_iff, ?andb_true_iff, ?orb_false_iff,
            ?Z.eqb_eq, ?Z.eqb_neq, ?Z.leb_le in * ).
  lia.
Qed.

Lemma field_run_head (F : jsstring) :
  field_run F = true -> exists c r, F = c :: r /\ is_field_char c = true.
Proof.
  intros H. destruct (field_run_spec _ H) as [Hc Hn].
  destruct F as [| c r]; [contradiction |].
  exists c, r. split; [reflexivity |].
  cbn [forallb] in Hc. now apply andb_true_iff in Hc as [Hc _].
Qed.

Lemma field_run_last (F : jsstring) :
  field_run F = true -> exists h t, rev F = h :: t /\ is_field_char h = true.
Proof.
  intros H. destruct (field_run_spec _ H) as [Hc Hn].
  destruct (rev F) as [| h t] eqn:E.
  - exfalso. apply Hn. rewrite <- (rev_involutive F), E. reflexivity.
  - exists h, t. split; [reflexivity |].
    rewrite forallb_forall in Hc. apply Hc, in_rev. rewrite E. now left.
Qed.

Lemma flatten_head (l : list (jsstring * jsstring)) (F s : jsstring) :
  separated l = true -> field_run F = true ->
  exists c r, flatten_fields l ++ F ++ s = c :: r /\
              is_field_char c = true /\
              exists r', join_comma (map fst l ++ [F]) = c :: r'.
Proof.
  intros Hl HF. destruct l as [| p l'].
  - destruct (field_run_head _ HF) as (c & r & -> & Hc).
    exists c, (r ++ s). split; [reflexivity |]. split; [exact Hc |].
    exists r. reflexivity.
  - unfold separated in Hl. cbn [forallb] in Hl.
    apply andb_true_iff in Hl as [Hp _].
    apply andb_true_iff in Hp as [Hp _].
    apply andb_true_iff in Hp as [HpF _].
    destruct (field_run_head _ HpF) as (c & r & E & Hc).
    cbn [flatten_fields map app]. rewrite E.
    exists c, (r ++ snd p ++ flatten_fields l' ++ F ++ s).
    split; [now rewrite <- !app_assoc |]. split; [exact Hc |].
    destruct (map fst l' ++ [F]) as [| x y] eqn:E2.
    + exfalso. destruct (map fst l'); discriminate E2.
    + cbn [join_comma]. eexists. cbn [app]. reflexivity.
Qed.

Lemma sep_run_app (a b : jsstring) :
  sep_run (a ++ b) = sep_run a && sep_run b.
Proof. apply forallb_app. Qed.

(** What [Geo.parseDMS] makes of a text of fields and separators: [l] holds
    the fields that are followed by a separator, [F] is the last field and
    [s] what follows it. *)
Lemma parseDMS_dms_flatten (l : list (jsstring * jsstring)) (F s : jsstring) :
  separated l = true -> field_run F = true -> sep_run s = true ->
  ends_white s = false ->
  let text := flatten_fields l ++ F ++ s in
  trim text = text /\
  parseDMS_dms text = map fst l ++ [F] /\
  test_negative text = ends_west_south s.
Proof.
  intros Hl HF Hs Hw text.
  destruct (flatten_head l F s Hl HF) as (c & r & Etext & Hc & _).
  destruct (field_char_plain _ Hc) as (Hcw & Hcm & _ & _).
  destruct (field_run_last _ HF) as (hF & tF & EF & HhF).
  destruct (field_char_plain _ HhF) as (HFw & _ & HFc & HFws).
  assert (Erev : rev text = rev s ++ rev F ++ rev (flatten_fields l)).
  { subst text. rewrite !rev_app_distr, app_assoc. reflexivity. }
  assert (Htrim : trim text = text).
  { apply trim_fix.
    - fold text in Etext. rewrite Etext. now apply drop_white_head.
    - rewrite Erev. unfold ends_white in Hw.
      destruct (rev s) as [| h t]; cbn [app].
      + rewrite EF. cbn [app]. now apply drop_white_head.
      + now apply drop_white_head. }
  assert (Hminus : strip_leading_minus text = text).
  { fold text in Etext. rewrite Etext. cbn [strip_leading_minus].
    now rewrite Hcm. }
  split; [exact Htrim |]. split.
  - unfold parseDMS_dms. rewrite Htrim, Hminus.
    unfold strip_trailing_compass. rewrite Erev.
    destruct (rev s) as [| h t] eqn:Es.
    + assert (s = []) by (rewrite <- (rev_involutive s), Es; reflexivity).
      subst s. cbn [app]. rewrite EF. cbn [app]. rewrite HFc.
      unfold split_fields, text.
      rewrite (@split_go_flatten l F [] Hl HF Hs false). cbn [str_eqb].
      rewrite rev_app_distr. cbn [rev app].
      destruct (field_run_spec _ HF) as [_ HFn].
      destruct F as [| x y]; [contradiction | reflexivity].
    + assert (Es' : s = rev t ++ [h])
        by (rewrite <- (rev_involutive s), Es; reflexivity).
      cbn [app].
      destruct (is_compass h).
      * rewrite !rev_app_distr, !rev_involutive, <- app_assoc.
        assert (Ht : sep_run (rev t) = true).
        { rewrite Es', sep_run_app in Hs. now apply andb_true_iff in Hs as [Hs _]. }
        unfold split_fields.
        rewrite (@split_go_flatten l F (rev t) Hl HF Ht false).
        destruct (str_eqb (rev t) []).
        -- rewrite rev_app_distr. cbn [rev app].
           destruct (field_run_spec _ HF) as [_ HFn].
           destruct F as [| x y]; [contradiction | reflexivity].
        -- change (F :: [[]]) with ([F] ++ [[]]). rewrite app_assoc.
           rewrite rev_app_distr. cbn [rev app str_eqb].
           apply removelast_last.
      * unfold split_fields, text.
        rewrite (@split_go_flatten l F s Hl HF Hs false).
        replace (str_eqb s []) with false
          by (rewrite Es'; destruct (rev t); reflexivity).
        change (F :: [[]]) with ([F] ++ [[]]). rewrite app_assoc.
        rewrite rev_app_distr. cbn [rev app str_eqb].
        apply removelast_last.
  - unfold test_negative, ends_west_south. fold text in Etext.
    rewrite Etext at 1. rewrite Hcm, Erev. cbn [orb].
    destruct (rev s) as [| h t]; cbn [app]; [| reflexivity].
    rewrite EF. cbn [app]. exact HFws.
Qed.

(** X28.  [Geo.parseDMS] on a text of fields (digits, full stops, commas)
    parted by separators (anything else): each field is converted to a
    number, one field is the degrees, two are degrees and minutes, three are
    degrees, minutes and seconds, any other count gives [NaN]; the result is
    negated when the text ends in W or S. *)
Theorem parseDMS_fields (l : list (jsstring * jsstring)) (F s : jsstring) :
  separated l = true -> field_run F = true -> sep_run s = true ->
  ends_white s = false ->
  parseDMS (VString (flatten_fields l ++ F ++ s)) =
  Returns (let v := sexagesimal (map StringToNumber (map fst l ++ [F])) in
           if ends_west_south s then nneg v else v).
Proof.
  intros Hl HF Hs Hw.
  destruct (parseDMS_dms_flatten l F s Hl HF Hs Hw) as (Ht & Hd & Hn).
  destruct (flatten_head l F s Hl HF) as (c & r & _ & _ & r' & Hj).
  rewrite parseDMS_string_cases. cbv zeta. rewrite Hd, Ht, Hn, Hj.
  cbn [str_eqb].
  destruct (map fst l ++ [F]) as [| d [| m [| sc [| x y]]]];
    cbn [map sexagesimal]; destruct (ends_west_south s); reflexivity.
Qed.

Lemma parseDMS_fields_witness :
  parseDMS (VString (flatten_fields [(u16 "3", [cu_degree; 32]);
                                     (u16 "37", u16 "' ")] ++
                     u16 "09" ++ [34; 87])) =
  Returns (let v := sexagesimal (map StringToNumber
                      (map fst [(u16 "3", [cu_degree; 32]);
                                (u16 "37", u16 "' ")] ++ [u16 "09"])) in
           if ends_west_south [34; 87] then nneg v else v).
Proof.
  apply (@parseDMS_fields [(u16 "3", [cu_degree; 32]); (u16 "37", u16 "' ")]
           (u16 "09") [34; 87]); reflexivity.
Defined.

Lemma parseDMS_fields_example :
  parseDMS (VString (u16 "3" ++ cu_degree :: u16 " 37' 09" ++ [34; 87])) =
    Returns (Num (-781740 # 216000)) /\
  parseDMS (VString (u16 "0033709W")) = Returns (Num (- 33709)) /\
  parseDMS (VString (u16 "51.4778")) = Returns (Num (514778 # 10000)).
Proof. repeat split; vm_compute; reflexivity. Qed.

End ParseFieldsTheorem.

(** ** The text of [Geo.toDMS] in closed form *)

Section Padding.
Local Open Scope Q_scope.

Lemma pad_to_dec (k : Z) (s : jsstring) (n f : Z) :
  dec_str s n f -> dec_str (pad_to k s n f) n f.
Proof.
  intros H. unfold pad_to. destruct (n <? k * 10 ^ f)%Z;
    [now apply dec_str_pad | exact H].
Qed.

(** [if (v < k) v = '0' + v] on a numeral and on a whole number. *)
Lemma pad_below_numeral (k : Z) (s : jsstring) (n f : Z) :
  dec_str s n f -> (0 <= f)%Z ->
  pad_below k (VString s) = VString (pad_to k s n f).
Proof.
  intros H Hf. unfold pad_below, pad_to. cbn [ToNumber ToString].
  rewrite (dec_str_number H). cbn [nlt nZ].
  pose proof (inject_Z_pow10_pos Hf) as HP.
  assert (E : inject_Z n * pow10 (- f) * pow10 0 ==
              inject_Z n / inject_Z (10 ^ f)) by now apply dec_value.
  destruct (n <? k * 10 ^ f)%Z eqn:L.
  - apply Z.ltb_lt in L. rewrite Qlt_bool_true; [reflexivity |].
    rewrite E. apply Qlt_shift_div_r; [exact HP |].
    rewrite <- inject_Z_mult, <- Zlt_Qlt. exact L.
  - apply Z.ltb_ge in L. rewrite Qlt_bool_false; [reflexivity |].
    rewrite E. apply Qle_shift_div_l; [exact HP |].
    rewrite <- inject_Z_mult, <- Zle_Qle. exact L.
Qed.

Lemma pad_below_whole (k : Z) (q : Q) (z : Z) :
  q == inject_Z z -> (0 <= z < 10 ^ 21)%Z ->
  (pad_below k (VNumber (Num q)) =
     if (z <? k)%Z then VString (cu_0 :: digits z) else VNumber (Num q)) /\
  ToString (pad_below k (VNumber (Num q))) = pad_to k (digits z) z 0.
Proof.
  intros Hq Hz. unfold pad_below, pad_to. cbn [ToNumber nlt nZ].
  change (10 ^ 0)%Z with 1%Z. rewrite Z.mul_1_r.
  destruct (z <? k)%Z eqn:L.
  - apply Z.ltb_lt in L.
    rewrite Qlt_bool_true by (rewrite Hq, <- Zlt_Qlt; exact L).
    cbn [ToString]. rewrite (NumberToString_integer Hq Hz). split; reflexivity.
  - apply Z.ltb_ge in L.
    rewrite Qlt_bool_false by (rewrite Hq, <- Zle_Qle; exact L).
    cbn [ToString]. rewrite (NumberToString_integer Hq Hz). split; reflexivity.
Qed.

Lemma pad_degrees_text (q : Q) (D : Z) :
  q == inject_Z D -> (0 <= D < 10 ^ 21)%Z ->
  ToString (pad_below 10 (pad_below 100 (VNumber (Num q)))) = degrees_text D.
Proof.
  intros Hq HD. unfold degrees_text.
  destruct (@pad_below_whole 100 q D Hq HD) as [E _]. rewrite E.
  unfold pad_to at 2. change (10 ^ 0)%Z with 1%Z. rewrite Z.mul_1_r.
  destruct (D <? 100)%Z.
  - rewrite (@pad_below_numeral 10 (cu_0 :: digits D) D 0); [reflexivity | | lia].
    apply dec_str_pad, dec_str_digits. lia.
  - exact (proj2 (@pad_below_whole 10 q D Hq HD)).
Qed.

Lemma degrees_text_dec (D : Z) : (0 <= D)%Z -> dec_str (degrees_text D) D 0.
Proof.
  intros HD. unfold degrees_text. apply pad_to_dec, pad_to_dec.
  now apply dec_str_digits.
Qed.

End Padding.

Section RenderText.
Local Open Scope Q_scope.

Lemma pow10_21_above (a : Q) : a <= 3600000001 -> a < pow10 21.
Proof.
  intros H. rewrite (pow10_Z (k := 21)) by lia.
  change (inject_Z (10 ^ 21)) with 1000000000000000000000. Lqa.lra.
Qed.

(** The integer of [toFixed], and the number its numeral denotes. *)
Lemma round_places_spec (a : Q) (f : Z) :
  (0 <= f)%Z -> 0 <= a ->
  let N := round_places a f in
  let P := inject_Z (10 ^ f) in
  (0 <= N)%Z /\ a * P - (1 # 2) < inject_Z N /\ inject_Z N <= a * P + (1 # 2).
Proof.
  intros Hf Ha N P. unfold round_places in N.
  destruct (round_half_up_bounds (Qabs a * pow10 f)) as [Hlo Hhi].
  fold N in Hlo, Hhi. rewrite (Qabs_pos a Ha), (pow10_Z Hf) in Hlo, Hhi.
  fold P in Hlo, Hhi.
  split; [| split; assumption].
  apply Qfloor_nonneg. rewrite (Qabs_pos a Ha).
  pose proof (pow10_pos f). Lqa.nra.
Qed.

Lemma round_places_below (a : Q) (f B : Z) :
  (0 <= f)%Z -> 0 <= a -> a <= inject_Z B ->
  (round_places a f < (B + 1) * 10 ^ f)%Z.
Proof.
  intros Hf Ha HB.
  destruct (@round_places_spec a f Hf Ha) as (_ & _ & Hhi).
  pose proof (inject_Z_pow10_pos Hf) as HP.
  assert (HP1 : 1 <= inject_Z (10 ^ f)).
  { change 1 with (inject_Z 1). rewrite <- Zle_Qle.
    assert (0 < 10 ^ f)%Z by (apply Z.pow_pos_nonneg; lia). lia. }
  apply Zlt_inject. rewrite inject_Z_mult, inject_Z_plus.
  change (inject_Z 1) with 1. Lqa.nra.
Qed.

Lemma toFixed_places (a : Q) (f : Z) :
  (0 <= f <= 100)%Z -> 0 <= a -> a <= 3600000001 ->
  toFixed (Num a) f = Returns (fixed_string (round_places a f) f).
Proof.
  intros Hf Ha Hb. now apply toFixed_nonneg; [| | apply pow10_21_above].
Qed.

(** The number that the numeral of [N] with [f] decimals denotes. *)
Lemma numeral_value (N f : Z) :
  (0 <= N)%Z -> (0 <= f)%Z ->
  exists qs, StringToNumber (fixed_string N f) = Num qs /\
             qs * inject_Z (10 ^ f) == inject_Z N.
Proof.
  intros HN Hf. rewrite (dec_str_number (fixed_string_dec HN Hf)).
  eexists. split; [reflexivity |].
  rewrite (dec_value N Hf). pose proof (inject_Z_pow10_pos Hf). field. Lqa.lra.
Qed.

(** Whole part and remainder of [qs = N / 10^f] by [k]. *)
Lemma split_by (k N f : Z) (qs : Q) :
  (0 < k)%Z -> (0 <= N)%Z -> (0 <= f)%Z ->
  qs * inject_Z (10 ^ f) == inject_Z N ->
  let u := (10 ^ f)%Z in
  Qfloor (qs / inject_Z k) = (N / (k * u))%Z /\
  (qs - inject_Z k * inject_Z (N / (k * u))) * inject_Z u ==
    inject_Z (N mod (k * u)) /\
  0 <= qs.
Proof.
  intros Hk HN Hf Hqs u. subst u. set (u := (10 ^ f)%Z) in *.
  assert (Hu : (0 < u)%Z) by (apply Z.pow_pos_nonneg; lia).
  assert (HP : 0 < inject_Z u) by (change 0 with (inject_Z 0); now rewrite <- Zlt_Qlt).
  assert (HK : 0 < inject_Z k) by (change 0 with (inject_Z 0); now rewrite <- Zlt_Qlt).
  assert (Hku : (0 < k * u)%Z) by lia.
  pose proof (Z.div_mod N (k * u) ltac:(lia)) as Hdm.
  pose proof (Z.mod_pos_bound N (k * u) Hku) as Hmod.
  set (D := (N / (k * u))%Z) in *. set (R := (N mod (k * u))%Z) in *.
  assert (EN : inject_Z N == inject_Z k * inject_Z u * inject_Z D + inject_Z R).
  { rewrite Hdm, inject_Z_plus, !inject_Z_mult. reflexivity. }
  assert (Eqs : qs == (inject_Z k * inject_Z u * inject_Z D + inject_Z R) /
                      inject_Z u).
  { rewrite <- EN, <- Hqs. field. Lqa.lra. }
  assert (HR0 : 0 <= inject_Z R) by (change 0 with (inject_Z 0); rewrite <- Zle_Qle; lia).
  assert (HR1 : inject_Z R < inject_Z k * inject_Z u).
  { rewrite <- inject_Z_mult, <- Zlt_Qlt. lia. }
  assert (Ediv : qs / inject_Z k ==
                 inject_Z D + inject_Z R / (inject_Z k * inject_Z u)).
  { rewrite Eqs. field. split; Lqa.lra. }
  assert (Hfr0 : 0 <= inject_Z R / (inject_Z k * inject_Z u)).
  { apply Qle_shift_div_l; [Lqa.nra | Lqa.lra]. }
  assert (Hfr1 : inject_Z R / (inject_Z k * inject_Z u) < 1).
  { apply Qlt_shift_div_r; [Lqa.nra | Lqa.lra]. }
  split; [| split].
  - apply Qfloor_unique; rewrite Ediv; Lqa.lra.
  - rewrite Eqs. field. Lqa.lra.
  - assert (0 <= inject_Z N) by (change 0 with (inject_Z 0); rewrite <- Zle_Qle; lia).
    assert (E : qs == inject_Z N / inject_Z u) by (rewrite <- Hqs; field; Lqa.lra).
    rewrite E. apply Qle_shift_div_l; [exact HP | Lqa.lra].
Qed.

Lemma toDMS_d_text (x : Q) (dp : option Z) (f : Z) (g : globals) :
  Qabs x <= 1000000 -> (0 <= f <= 100)%Z ->
  dp = Some f \/ (dp = None /\ f = 4%Z) ->
  toDMS (VNumber (Num x)) (Some (u16 "d")) dp g =
  Returns (Some (d_text (round_places (Qabs x) f) f),
           Some (d_text (round_places (Qabs x) f) f)).
Proof.
  intros Hx Hf Hdp.
  assert (Hgo : toDMS (VNumber (Num x)) (Some (u16 "d")) dp g =
                toDMS (VNumber (Num x)) (Some (u16 "d")) (Some f) g).
  { destruct Hdp as [-> | [-> ->]]; reflexivity. }
  rewrite Hgo. clear Hgo Hdp dp.
  pose proof (Qabs_nonneg x) as Hx0.
  unfold toDMS. cbn [typeof ToNumber n_isNaN nabs].
  change (str_eqb (u16 "number") (u16 "object")) with false.
  change (str_eqb (u16 "d") (u16 "d")) with true. cbv iota.
  rewrite (toFixed_places Hf Hx0) by Lqa.lra. cbn [bind].
  destruct (@round_places_spec (Qabs x) f (proj1 Hf) Hx0) as (HN & _).
  set (N := round_places (Qabs x) f) in *.
  pose proof (fixed_string_dec HN (proj1 Hf)) as Hd.
  rewrite (@pad_below_numeral 100 _ N f Hd (proj1 Hf)).
  rewrite (@pad_below_numeral 10 _ N f (pad_to_dec 100 Hd) (proj1 Hf)).
  reflexivity.
Qed.

Lemma toDMS_dm_text (x : Q) (dp : option Z) (f : Z) (g : globals) :
  Qabs x <= 1000000 -> (0 <= f <= 100)%Z ->
  dp = Some f \/ (dp = None /\ f = 2%Z) ->
  toDMS (VNumber (Num x)) (Some (u16 "dm")) dp g =
  Returns (Some (dm_text (round_places (Qabs x * inject_Z 60) f) f),
           Some (dm_text (round_places (Qabs x * inject_Z 60) f) f)).
Proof.
  intros Hx Hf Hdp.
  assert (Hgo : toDMS (VNumber (Num x)) (Some (u16 "dm")) dp g =
                toDMS (VNumber (Num x)) (Some (u16 "dm")) (Some f) g).
  { destruct Hdp as [-> | [-> ->]]; reflexivity. }
  rewrite Hgo. clear Hgo Hdp dp.
  pose proof (Qabs_nonneg x) as Hx0.
  unfold toDMS. cbn [typeof ToNumber n_isNaN nabs nmul nlift2 nZ].
  change (str_eqb (u16 "number") (u16 "object")) with false.
  change (str_eqb (u16 "dm") (u16 "d")) with false.
  change (str_eqb (u16 "dm") (u16 "dm")) with true. cbv iota.
  set (a := Qabs x * inject_Z 60).
  assert (Ha0 : 0 <= a) by (subst a; change (inject_Z 60) with 60; Lqa.lra).
  assert (Ha : a <= 3600000001) by (subst a; change (inject_Z 60) with 60; Lqa.lra).
  rewrite (toFixed_places Hf Ha0 Ha). cbn [bind].
  destruct (@round_places_spec a f (proj1 Hf) Ha0) as (HN & _).
  set (N := round_places a f) in *.
  destruct (numeral_value HN (proj1 Hf)) as (qs & -> & Hqs).
  destruct (@split_by 60 N f qs ltac:(lia) HN (proj1 Hf) Hqs)
    as (HD & HR & Hqs0).
  cbv zeta in HD, HR.
  assert (Hu : (0 < 10 ^ f)%Z) by (apply Z.pow_pos_nonneg; lia).
  pose proof (Z.mod_pos_bound N (60 * 10 ^ f) ltac:(lia)) as Hmod.
  assert (HD0 : (0 <= N / (60 * 10 ^ f))%Z) by (apply Z.div_pos; lia).
  assert (HDN : (N / (60 * 10 ^ f) <= N)%Z).
  { apply Z.div_le_upper_bound; [lia |]. nia. }
  pose proof (@round_places_below a f 60000000 (proj1 Hf) Ha0
                ltac:(subst a; change (inject_Z 60) with 60;
                      change (inject_Z 60000000) with 60000000; Lqa.lra))
    as HNb. fold N in HNb.
  assert (HD21 : (N / (60 * 10 ^ f) < 10 ^ 21)%Z).
  { apply Z.div_lt_upper_bound; [lia |]. change (10 ^ 21)%Z with
      1000000000000000000000%Z. nia. }
  cbn [ndiv nrem nfloor nZ].
  change (Qeq_bool (inject_Z 60) 0) with false. cbv iota.
  cbn [nfloor].
  assert (E60 : qs / inject_Z 60 == qs * (1 # 60)) by (unfold Qdiv; reflexivity).
  rewrite (@Qtrunc_nonneg (qs / inject_Z 60)) by (rewrite E60; Lqa.lra).
  rewrite HD.
  set (D := (N / (60 * 10 ^ f))%Z) in *.
  set (R := (N mod (60 * 10 ^ f))%Z) in *.
  pose proof (inject_Z_pow10_pos (proj1 Hf)) as HP.
  set (rq := qs - inject_Z 60 * inject_Z D) in *.
  assert (Hrq0 : 0 <= rq).
  { assert (0 <= inject_Z R) by (change 0 with (inject_Z 0); rewrite <- Zle_Qle; lia).
    Lqa.nra. }
  assert (Hrq1 : rq < 60).
  { assert (H60 : inject_Z R < 60 * inject_Z (10 ^ f)).
    { change 60 with (inject_Z 60). rewrite <- inject_Z_mult, <- Zlt_Qlt. lia. }
    Lqa.nra. }
  rewrite (toFixed_places Hf Hrq0) by Lqa.lra. cbn [bind].
  assert (ER : round_places rq f = R).
  { unfold round_places. apply round_half_up_integer.
    rewrite (Qabs_pos rq Hrq0), (pow10_Z (proj1 Hf)). exact HR. }
  rewrite ER.
  rewrite (@pad_degrees_text (inject_Z D) D (Qeq_refl _)) by lia.
  rewrite (@pad_below_numeral 10 _ R f
             (fixed_string_dec (proj1 Hmod) (proj1 Hf)) (proj1 Hf)).
  reflexivity.
Qed.

Lemma toDMS_dms_text (x : Q) (dp : option Z) (f : Z) (g : globals) :
  Qabs x <= 1000000 -> (0 <= f <= 100)%Z ->
  dp = Some f \/ (dp = None /\ f = 0%Z) ->
  toDMS (VNumber (Num x)) (Some (u16 "dms")) dp g =
  Returns (Some (dms_text (round_places (Qabs x * inject_Z 3600) f) f),
           Some (dms_text (round_places (Qabs x * inject_Z 3600) f) f)).
Proof.
  intros Hx Hf Hdp.
  assert (Hgo : toDMS (VNumber (Num x)) (Some (u16 "dms")) dp g =
                toDMS (VNumber (Num x)) (Some (u16 "dms")) (Some f) g).
  { destruct Hdp as [-> | [-> ->]]; [reflexivity | apply toDMS_default_places]. }
  rewrite Hgo, toDMS_dms_unfold. clear Hgo Hdp dp.
  pose proof (Qabs_nonneg x) as Hx0.
  set (a := Qabs x * inject_Z 3600).
  assert (Ha0 : 0 <= a) by (subst a; change (inject_Z 3600) with 3600; Lqa.lra).
  assert (Ha : a <= 3600000001) by (subst a; change (inject_Z 3600) with 3600; Lqa.lra).
  rewrite (toFixed_places Hf Ha0 Ha). cbn [bind].
  destruct (@round_places_spec a f (proj1 Hf) Ha0) as (HN & _).
  pose proof (@round_places_below a f 3600000000 (proj1 Hf) Ha0
                ltac:(subst a; change (inject_Z 3600) with 3600;
                      change (inject_Z 3600000000) with 3600000000; Lqa.lra))
    as HNb.
  set (N := round_places a f) in *.
  destruct (numeral_value HN (proj1 Hf)) as (qs & -> & Hqs).
  destruct (@split_by 3600 N f qs ltac:(lia) HN (proj1 Hf) Hqs)
    as (HD & _ & Hqs0).
  destruct (@split_by 60 N f qs ltac:(lia) HN (proj1 Hf) Hqs)
    as (HM & HR & _).
  cbv zeta in HD, HM, HR.
  assert (Hu : (0 < 10 ^ f)%Z) by (apply Z.pow_pos_nonneg; lia).
  pose proof (Z.mod_pos_bound N (60 * 10 ^ f) ltac:(lia)) as Hmod.
  assert (HDM : (N / (3600 * 10 ^ f) = N / (60 * 10 ^ f) / 60)%Z).
  { rewrite Z.div_div by lia. f_equal. lia. }
  assert (HM0 : (0 <= N / (60 * 10 ^ f))%Z) by (apply Z.div_pos; lia).
  assert (HD0 : (0 <= N / (3600 * 10 ^ f))%Z) by (apply Z.div_pos; lia).
  assert (HD21 : (N / (3600 * 10 ^ f) < 10 ^ 21)%Z).
  { apply Z.div_lt_upper_bound; [lia |]. change (10 ^ 21)%Z with
      1000000000000000000000%Z. nia. }
  cbn [ndiv nrem nfloor nZ].
  change (Qeq_bool (inject_Z 3600) 0) with false.
  change (Qeq_bool (inject_Z 60) 0) with false. cbv iota.
  cbn [ndiv nrem nfloor nZ].
  change (Qeq_bool (inject_Z 60) 0) with false. cbv iota.
  destruct (sexagesimal_split Hqs0) as (HMD & _).
  cbv zeta in HMD. rewrite HM, HD in HMD.
  assert (E60 : forall y, y / inject_Z 60 == y * (1 # 60))
    by (intros; unfold Qdiv; reflexivity).
  assert (E3600 : qs / inject_Z 3600 == qs * (1 # 3600))
    by (unfold Qdiv; reflexivity).
  rewrite (@Qtrunc_nonneg (qs / inject_Z 60)) by (rewrite E60; Lqa.lra).
  rewrite !HM, HD.
  set (D := (N / (3600 * 10 ^ f))%Z) in *.
  set (M := (N / (60 * 10 ^ f))%Z) in *.
  set (R := (N mod (60 * 10 ^ f))%Z) in *.
  rewrite (@Qtrunc_nonneg (inject_Z M / inject_Z 60)).
  2:{ rewrite E60. rewrite Zle_Qle in HM0. change (inject_Z 0) with 0 in HM0.
      Lqa.lra. }
  rewrite HMD.
  pose proof (inject_Z_pow10_pos (proj1 Hf)) as HP.
  set (rq := qs - inject_Z 60 * inject_Z M) in *.
  assert (Hrq0 : 0 <= rq).
  { assert (0 <= inject_Z R) by (change 0 with (inject_Z 0); rewrite <- Zle_Qle; lia).
    Lqa.nra. }
  assert (Hrq1 : rq < 60).
  { assert (H60 : inject_Z R < 60 * inject_Z (10 ^ f)).
    { change 60 with (inject_Z 60). rewrite <- inject_Z_mult, <- Zlt_Qlt. lia. }
    Lqa.nra. }
  rewrite (toFixed_places Hf Hrq0) by Lqa.lra. cbn [bind].
  assert (ER : round_places rq f = R).
  { unfold round_places. apply round_half_up_integer.
    rewrite (Qabs_pos rq Hrq0), (pow10_Z (proj1 Hf)). exact HR. }
  rewrite ER.
  rewrite (@pad_degrees_text (inject_Z D) D (Qeq_refl _)) by lia.
  pose proof (Z.mod_pos_bound M 60 ltac:(lia)) as HMm.
  assert (EM : inject_Z M - inject_Z 60 * inject_Z D == inject_Z (M mod 60)).
  { rewrite Z.mod_eq by lia. rewrite inject_Z_sub, inject_Z_mult.
    rewrite <- HDM. reflexivity. }
  rewrite (proj2 (@pad_below_whole 10 _ (M mod 60)%Z EM
                    ltac:(change (10 ^ 21)%Z with 1000000000000000000000%Z; lia))).
  rewrite (@pad_below_numeral 10 _ R f
             (fixed_string_dec (proj1 Hmod) (proj1 Hf)) (proj1 Hf)).
  reflexivity.
Qed.

End RenderText.

Section RenderTheorem.
Local Open Scope Q_scope.

Lemma round_places_Qeq (a b : Q) (f : Z) :
  a == b -> round_places a f = round_places b f.
Proof.
  intros E. unfold round_places. apply Qfloor_comp. now rewrite E.
Qed.

(** X29.  The text of [Geo.toDMS] in closed form, in exact arithmetic.  For
    a number of at most a million in absolute value, one of the formats
    'd', 'dm', 'dms' and a
    number of decimals [f] between 0 and 100 (the one given, or 4, 2, 0
    when [dp] is left out), the call returns, and leaves in the global
    [dms], the text read off one integer: [N], the absolute value in the
    format's smallest unit (degrees, minutes or seconds) times [10^f],
    rounded half up.  The degrees are [N] divided by the units in a degree,
    on at least three digits; the minutes of 'dms' are the whole minutes
    modulo 60 on two digits; the last field is the remainder of [N] by 60
    units, with [f] decimals.  Since the rounding comes before the split, a
    minutes or seconds field never reads 60. *)
Theorem toDMS_rendering (x : Q) (format : jsstring) (dp : option Z)
    (g : globals) :
  Qabs x <= 1000000 -> known_format format = true ->
  (forall f, dp = Some f -> (0 <= f <= 100)%Z) ->
  let f := match dp with Some f => f | None => default_places format end in
  let txt :=
    rendering format (round_places (Qabs x * format_unit format) f) f in
  toDMS (VNumber (Num x)) (Some format) dp g = Returns (Some txt, Some txt).
Proof.
  intros Hx Hk Hdp f txt. subst txt.
  destruct (@known_format_cases format Hk) as [-> | [-> | ->]].
  - change (format_unit (u16 "d")) with 1.
    change (rendering (u16 "d")) with d_text.
    rewrite (@round_places_Qeq (Qabs x * 1) (Qabs x) f) by ring.
    apply toDMS_d_text; [exact Hx | |].
    + subst f. destruct dp as [k |]; [now apply Hdp |].
      change (default_places (u16 "d")) with 4%Z. lia.
    + subst f. destruct dp as [k |]; [now left | now right].
  - change (format_unit (u16 "dm")) with (inject_Z 60).
    change (rendering (u16 "dm")) with dm_text.
    apply toDMS_dm_text; [exact Hx | |].
    + subst f. destruct dp as [k |]; [now apply Hdp |].
      change (default_places (u16 "dm")) with 2%Z. lia.
    + subst f. destruct dp as [k |]; [now left | now right].
  - change (format_unit (u16 "dms")) with (inject_Z 3600).
    change (rendering (u16 "dms")) with dms_text.
    apply toDMS_dms_text; [exact Hx | |].
    + subst f. destruct dp as [k |]; [now apply Hdp |].
      change (default_places (u16 "dms")) with 0%Z. lia.
    + subst f. destruct dp as [k |]; [now left | now right].
Qed.

Lemma toDMS_rendering_witness :
  toDMS (VNumber (Num (-(3599999 # 3600000)))) (Some (u16 "dms")) None None =
  Returns
    (Some (rendering (u16 "dms")
             (round_places (Qabs (-(3599999 # 3600000)) *
                            format_unit (u16 "dms")) 0) 0),
     Some (rendering (u16 "dms")
             (round_places (Qabs (-(3599999 # 3600000)) *
                            format_unit (u16 "dms")) 0) 0)).
Proof.
  apply (@toDMS_rendering (-(3599999 # 3600000)) (u16 "dms") None None).
  - unfold Qle; simpl; lia.
  - reflexivity.
  - discriminate.
Defined.

(** A value just under one degree rounds up to a full degree, and one just
    under a minute to a full minute: no field shows 60. *)
Lemma toDMS_rendering_example :
  rendering (u16 "dms")
    (round_places (Qabs (-(3599999 # 3600000)) * format_unit (u16 "dms")) 0)
    0 = u16 "001" ++ cu_degree :: u16 "00" ++ cu_prime :: u16 "00" ++
        [cu_dprime] /\
  rendering (u16 "dm") (round_places ((599999 # 600000) * 60) 2) 2 =
    u16 "001" ++ cu_degree :: u16 "00.00" ++ [cu_prime] /\
  rendering (u16 "d") (round_places (514778 # 10000) 4) 4 =
    u16 "051.4778" ++ [cu_degree] /\
  rendering (u16 "dms") (round_places ((514778 # 10000) * 3600) 0) 0 =
    u16 "051" ++ cu_degree :: u16 "28" ++ cu_prime :: u16 "40" ++
    [cu_dprime].
Proof. repeat split; vm_compute; reflexivity. Qed.

End RenderTheorem.

(** ** Where the rounding changes the text *)

Section RoundedText.

(** The quarter of a thousandth of a degree is written [00.02'] in exact
    arithmetic and [00.01'] by the program, whose product by 60 is rounded
    below 0.015; two and a half seconds of arc are written [03''] as a
    coordinate by both, and as a bearing [03''] in exact arithmetic and
    [02''] by the program, whose sum with 360 is rounded. *)
Lemma rounding_changes_the_text :
  toDMS (VNumber (Num (b64 (25 # 100000)))) (Some (u16 "dm")) (Some 2%Z) None
    = Returns (Some (u16 "000" ++ cu_degree :: u16 "00.02" ++ [cu_prime]),
               Some (u16 "000" ++ cu_degree :: u16 "00.02" ++ [cu_prime])) /\
  Binary64.toDMS (VNumber (Num (b64 (25 # 100000)))) (Some (u16 "dm"))
                 (Some 2%Z) None
    = Returns (Some (u16 "000" ++ cu_degree :: u16 "00.01" ++ [cu_prime]),
               Some (u16 "000" ++ cu_degree :: u16 "00.01" ++ [cu_prime])) /\
  toBrng (VNumber (Num (b64 (25 # 36000)))) None None None
    = Returns (u16 "000" ++ cu_degree :: u16 "00" ++ cu_prime :: u16 "03" ++
               [cu_dprime],
               Some (u16 "000" ++ cu_degree :: u16 "00" ++ cu_prime ::
                     u16 "03" ++ [cu_dprime])) /\
  Binary64.toBrng (VNumber (Num (b64 (25 # 36000)))) None None None
    = Returns (u16 "000" ++ cu_degree :: u16 "00" ++ cu_prime :: u16 "02" ++
               [cu_dprime],
               Some (u16 "000" ++ cu_degree :: u16 "00" ++ cu_prime ::
                     u16 "02" ++ [cu_dprime])).
Proof. repeat split; vm_compute; reflexivity. Qed.

End RoundedText.

(** ** The rounding to binary64 *)

Section RoundingLemmas.
Local Open Scope Q_scope.

Lemma pow2_pos (k : Z) : 0 < inject_Z 2 ^ k.
Proof. apply Qpower_0_lt. reflexivity. Qed.

Lemma pow2_Z (k : Z) : (0 <= k)%Z -> inject_Z 2 ^ k == inject_Z (2 ^ k).
Proof. intros H. now rewrite Zpower_Qpower. Qed.

Lemma pow2_add (a b : Z) : inject_Z 2 ^ (a + b) == inject_Z 2 ^ a * inject_Z 2 ^ b.
Proof. apply Qpower_plus. discriminate. Qed.

Lemma pow2_opp (k : Z) : inject_Z 2 ^ (- k) == / inject_Z 2 ^ k.
Proof. apply Qpower_opp. Qed.

Lemma pow2_ge_1 (k : Z) : (0 <= k)%Z -> 1 <= inject_Z 2 ^ k.
Proof.
  intros H. rewrite (pow2_Z H). change 1 with (inject_Z 1).
  rewrite <- Zle_Qle. assert (0 < 2 ^ k)%Z by (apply Z.pow_pos_nonneg; lia).
  lia.
Qed.

Lemma pow2_le (a b : Z) : (a <= b)%Z -> inject_Z 2 ^ a <= inject_Z 2 ^ b.
Proof.
  intros H. replace b with (a + (b - a))%Z by lia. rewrite pow2_add.
  pose proof (pow2_pos a). pose proof (@pow2_ge_1 (b - a) ltac:(lia)).
  Lqa.nra.
Qed.

Lemma pow2_succ (k : Z) : inject_Z 2 ^ (k + 1) == 2 * inject_Z 2 ^ k.
Proof. rewrite pow2_add. change (inject_Z 2 ^ 1) with 2. ring. Qed.

Lemma pow2_sub_Z (u v : Z) :
  (0 <= u)%Z -> (0 <= v)%Z ->
  inject_Z 2 ^ (u - v) == inject_Z (2 ^ u) / inject_Z (2 ^ v).
Proof.
  intros Hu Hv. rewrite <- (pow2_Z Hu), <- (pow2_Z Hv).
  apply Qpower_minus. discriminate.
Qed.

(** [nearest_even n d] is an integer nearest to [n / d]. *)
Lemma nearest_even_bounds (n d : Z) :
  (0 <= n)%Z -> (0 < d)%Z ->
  (0 <= nearest_even n d)%Z /\
  (- d <= 2 * n - 2 * nearest_even n d * d <= d)%Z.
Proof.
  intros Hn Hd. unfold nearest_even.
  pose proof (Z.div_mod n d ltac:(lia)) as E.
  pose proof (Z.mod_pos_bound n d Hd) as Hr.
  assert (Hk : (0 <= n / d)%Z) by (apply Z.div_pos; lia).
  set (k := (n / d)%Z) in *. set (r := (n mod d)%Z) in *.
  destruct (Z.ltb_spec (2 * r) d); [split; nia |].
  destruct (Z.ltb_spec d (2 * r)); [split; nia |].
  destruct (Z.even k); split; nia.
Qed.

Lemma nearest_even_near (n d : Z) :
  (0 <= n)%Z -> (0 < d)%Z ->
  Qabs (inject_Z (nearest_even n d) - inject_Z n / inject_Z d) <= 1 # 2.
Proof.
  intros Hn Hd.
  destruct (nearest_even_bounds Hn Hd) as (_ & Hlo & Hhi).
  set (k := nearest_even n d) in *.
  assert (Hd' : 0 < inject_Z d)
    by (change 0 with (inject_Z 0); now rewrite <- Zlt_Qlt).
  assert (E : inject_Z k - inject_Z n / inject_Z d ==
              (inject_Z k * inject_Z d - inject_Z n) / inject_Z d)
    by (field; Lqa.lra).
  rewrite E. apply Qabs_Qle_condition.
  rewrite Zle_Qle in Hlo, Hhi.
  rewrite inject_Z_sub, !inject_Z_mult in Hlo, Hhi.
  rewrite inject_Z_opp in Hlo. change (inject_Z 2) with 2 in *.
  split.
  - apply Qle_shift_div_l; [exact Hd' |]. Lqa.lra.
  - apply Qle_shift_div_r; [exact Hd' |]. Lqa.lra.
Qed.

(** [floor_log2] is the binary exponent of a positive rational. *)
Lemma floor_log2_spec (x : Q) :
  0 < x ->
  inject_Z 2 ^ floor_log2 x <= x /\ x < inject_Z 2 ^ (floor_log2 x + 1).
Proof.
  intros Hx. destruct x as [a b].
  assert (Ha : (0 < a)%Z) by (unfold Qlt in Hx; simpl in Hx; lia).
  unfold floor_log2. cbn [Qnum Qden].
  destruct (Z.log2_spec a Ha) as [Hal Hah].
  destruct (Z.log2_spec (Zpos b) ltac:(lia)) as [Hbl Hbh].
  pose proof (Z.log2_nonneg a) as Hla.
  pose proof (Z.log2_nonneg (Zpos b)) as Hlb.
  set (la := Z.log2 a) in *. set (lb := Z.log2 (Zpos b)) in *.
  rewrite <- !Z.add_1_r in *.
  assert (Pa : (0 < 2 ^ la)%Z) by (apply Z.pow_pos_nonneg; lia).
  assert (Pb : (0 < 2 ^ lb)%Z) by (apply Z.pow_pos_nonneg; lia).
  assert (Elo : inject_Z 2 ^ (la - lb - 1) ==
                inject_Z (2 ^ la) / inject_Z (2 ^ (lb + 1))).
  { replace (la - lb - 1)%Z with (la - (lb + 1))%Z by lia.
    apply pow2_sub_Z; lia. }
  assert (Ehi : inject_Z 2 ^ (la - lb + 1) ==
                inject_Z (2 ^ (la + 1)) / inject_Z (2 ^ lb)).
  { replace (la - lb + 1)%Z with ((la + 1) - lb)%Z by lia.
    apply pow2_sub_Z; lia. }
  assert (Hlo : inject_Z 2 ^ (la - lb - 1) <= a # b).
  { rewrite Elo, (Qmake_Qdiv a b). apply Qfrac_le; nia. }
  assert (Hhi : a # b < inject_Z 2 ^ (la - lb + 1)).
  { rewrite Ehi, (Qmake_Qdiv a b). apply Qfrac_lt; nia. }
  destruct (Qle_bool (inject_Z 2 ^ (la - lb)) (a # b)) eqn:E.
  - apply Qle_bool_iff in E. split; assumption.
  - replace (la - lb - 1 + 1)%Z with (la - lb)%Z by lia.
    split; [exact Hlo |].
    destruct (Qlt_le_dec (a # b) (inject_Z 2 ^ (la - lb))) as [H | H];
      [exact H |].
    apply Qle_bool_iff in H. congruence.
Qed.

Lemma floor_log2_lt (x : Q) (k : Z) :
  0 < x -> x < inject_Z 2 ^ k -> (floor_log2 x < k)%Z.
Proof.
  intros Hx Hk. destruct (floor_log2_spec Hx) as [Hlo _].
  destruct (Z.lt_ge_cases (floor_log2 x) k) as [H | H]; [exact H |].
  pose proof (pow2_le H). Lqa.lra.
Qed.

(** Equal rationals are rounded to the same fraction. *)
Lemma b64_comp (p q : Q) : p == q -> b64 p = b64 q.
Proof. intros H. unfold b64. now rewrite (Qred_complete _ _ H). Qed.

Lemma b64_zero (q : Q) : q == 0 -> b64 q = 0.
Proof. intros H. rewrite (b64_comp H). reflexivity. Qed.

(** The value [b64] rounds to: a multiple [m * 2^u] of the last place, with
    [m] of at most 53 bits, at most half a last place away. *)
Lemma b64_pos (q : Q) :
  0 < q ->
  exists m : Z,
    (0 <= m <= 2 ^ 53)%Z /\
    b64 q == inject_Z m * inject_Z 2 ^ last_place q /\
    Qabs (b64 q - q) <= inject_Z 2 ^ (last_place q - 1).
Proof.
  intros Hq. unfold b64, last_place. cbv zeta.
  assert (Hr : Qred q == q) by apply Qred_correct.
  assert (Hr0 : 0 < Qred q) by (rewrite Hr; exact Hq).
  set (q' := Qred q) in *. clearbody q'.
  replace (Qeq_bool q' 0) with false.
  2:{ symmetry. destruct (Qeq_bool q' 0) eqn:E; [| reflexivity].
      apply Qeq_bool_iff in E. rewrite E in Hr0. discriminate Hr0. }
  replace (Qle_bool 0 q') with true
    by (symmetry; apply Qle_bool_iff; Lqa.lra).
  assert (Ea : Qabs q' = q').
  { destruct q' as [n d]. unfold Qabs. f_equal. apply Z.abs_eq.
    unfold Qlt in Hr0. simpl in Hr0. lia. }
  rewrite Ea.
  destruct (floor_log2_spec Hr0) as [Hlo Hhi].
  set (e := floor_log2 q') in *.
  set (u := (Z.max e (-1022) - 52)%Z).
  assert (Hu : (e - 52 <= u)%Z) by (subst u; lia).
  pose proof (pow2_pos u) as Pu.
  set (m := if (0 <=? u)%Z
            then nearest_even (Qnum q') (Zpos (Qden q') * 2 ^ u)
            else nearest_even (Qnum q' * 2 ^ (- u)) (Zpos (Qden q'))).
  assert (Hm : (0 <= m)%Z /\
               Qabs (inject_Z m - q' / inject_Z 2 ^ u) <= 1 # 2).
  { subst m. destruct q' as [n d]. cbn [Qnum Qden].
    assert (Hn : (0 < n)%Z) by (unfold Qlt in Hr0; simpl in Hr0; lia).
    destruct (Z.leb_spec 0 u) as [H0 | H0].
    - assert (P : (0 < 2 ^ u)%Z) by (apply Z.pow_pos_nonneg; lia).
      split; [apply nearest_even_bounds; nia |].
      assert (E : (n # d) / inject_Z 2 ^ u ==
                  inject_Z n / inject_Z (Zpos d * 2 ^ u)).
      { rewrite (Qmake_Qdiv n d), inject_Z_mult, (pow2_Z H0).
        assert (0 < inject_Z (2 ^ u))
          by (change 0 with (inject_Z 0); now rewrite <- Zlt_Qlt).
        assert (0 < inject_Z (Zpos d))
          by (change 0 with (inject_Z 0); rewrite <- Zlt_Qlt; lia).
        field. split; Lqa.lra. }
      rewrite E. apply nearest_even_near; nia.
    - assert (P : (0 < 2 ^ (- u))%Z) by (apply Z.pow_pos_nonneg; lia).
      split; [apply nearest_even_bounds; nia |].
      assert (E : (n # d) / inject_Z 2 ^ u ==
                  inject_Z (n * 2 ^ (- u)) / inject_Z (Zpos d)).
      { rewrite (Qmake_Qdiv n d), inject_Z_mult.
        rewrite <- (@pow2_Z (- u)) by lia. rewrite pow2_opp.
        assert (0 < inject_Z (Zpos d))
          by (change 0 with (inject_Z 0); rewrite <- Zlt_Qlt; lia).
        field. split; Lqa.lra. }
      rewrite E. apply nearest_even_near; nia. }
  clearbody m. destruct Hm as [Hm0 Hm].
  apply Qabs_Qle_condition in Hm. destruct Hm as [Hm1 Hm2].
  assert (Ediv : q' / inject_Z 2 ^ u * inject_Z 2 ^ u == q')
    by (field; Lqa.lra).
  set (t := q' / inject_Z 2 ^ u) in *.
  assert (Ht : t < inject_Z (2 ^ 53)).
  { assert (H53 : inject_Z 2 ^ (e + 1) <= inject_Z 2 ^ (u + 53))
      by (apply pow2_le; lia).
    assert (E53 : inject_Z 2 ^ (u + 53) ==
                  inject_Z (2 ^ 53) * inject_Z 2 ^ u).
    { rewrite pow2_add, (@pow2_Z 53) by lia. ring. }
    apply Qlt_shift_div_r; [exact Pu |].
    rewrite <- E53. Lqa.lra. }
  exists m. split; [| split].
  - split; [exact Hm0 |].
    assert (H : inject_Z m < inject_Z (2 ^ 53 + 1)).
    { rewrite inject_Z_plus. change (inject_Z 1) with 1. Lqa.lra. }
    apply Zlt_inject in H. lia.
  - rewrite Qred_correct. reflexivity.
  - rewrite Qred_correct, <- Hr.
    assert (E : inject_Z m * inject_Z 2 ^ u - q' ==
                (inject_Z m - t) * inject_Z 2 ^ u) by (rewrite <- Ediv at 1; ring).
    rewrite E.
    assert (Eh : inject_Z 2 ^ (u - 1) == (1 # 2) * inject_Z 2 ^ u).
    { replace (u - 1)%Z with (u + - (1))%Z by lia.
      rewrite pow2_add, pow2_opp. change (inject_Z 2 ^ 1) with 2. field. }
    rewrite Eh. apply Qabs_Qle_condition. split; Lqa.nra.
Qed.

End RoundingLemmas.

Section RoundingError.
Local Open Scope Q_scope.

Lemma Qabs_Qred (q : Q) : Qabs (Qred (- q)) = Qabs (Qred q).
Proof.
  rewrite Qred_opp. destruct (Qred q) as [n d]. unfold Qabs, Qopp.
  cbn [Qnum Qden]. now rewrite Z.abs_opp.
Qed.

Lemma last_place_opp (q : Q) : last_place (- q) = last_place q.
Proof. unfold last_place. now rewrite Qabs_Qred. Qed.

Lemma b64_opp (q : Q) : b64 (- q) == - b64 q.
Proof.
  unfold b64. cbv zeta. rewrite Qred_opp.
  set (q' := Qred q).
  assert (Ea : Qabs (- q') = Qabs q').
  { destruct q' as [n d]. unfold Qabs, Qopp. cbn [Qnum Qden].
    now rewrite Z.abs_opp. }
  rewrite Ea.
  destruct (Qeq_bool q' 0) eqn:E0.
  - replace (Qeq_bool (- q') 0) with true; [reflexivity |].
    symmetry. apply Qeq_bool_iff. apply Qeq_bool_iff in E0. rewrite E0.
    reflexivity.
  - replace (Qeq_bool (- q') 0) with false.
    2:{ symmetry. destruct (Qeq_bool (- q') 0) eqn:E; [| reflexivity].
        apply Qeq_bool_iff in E.
        assert (q' == 0) by (rewrite <- (Qopp_involutive q'), E; reflexivity).
        apply Qeq_bool_iff in H. congruence. }
    assert (Hne : ~ q' == 0).
    { intros H. apply Qeq_bool_iff in H. congruence. }
    destruct (Qle_bool 0 q') eqn:E1.
    + apply Qle_bool_iff in E1.
      replace (Qle_bool 0 (- q')) with false; [reflexivity |].
      symmetry. destruct (Qle_bool 0 (- q')) eqn:E; [| reflexivity].
      apply Qle_bool_iff in E. exfalso. apply Hne. Lqa.lra.
    + assert (q' < 0).
      { destruct (Qlt_le_dec q' 0) as [H | H]; [exact H |].
        apply Qle_bool_iff in H. congruence. }
      replace (Qle_bool 0 (- q')) with true
        by (symmetry; apply Qle_bool_iff; Lqa.lra).
      now rewrite Qopp_involutive.
Qed.

(** Rounding moves a number by at most half a last place. *)
Lemma b64_error (q : Q) :
  Qabs (b64 q - q) <= inject_Z 2 ^ (last_place q - 1).
Proof.
  destruct (Q_dec q 0) as [[H | H] | H].
  - assert (Hp : 0 < - q) by Lqa.lra.
    destruct (b64_pos Hp) as (m & _ & _ & Hb).
    rewrite last_place_opp, b64_opp in Hb.
    assert (E : - b64 q - - q == - (b64 q - q)) by ring.
    rewrite E, Qabs_opp in Hb. exact Hb.
  - destruct (b64_pos H) as (m & _ & _ & Hb). exact Hb.
  - rewrite (b64_zero H).
    assert (E : Qabs (0 - q) == 0) by (rewrite H; reflexivity).
    rewrite E. apply Qlt_le_weak, pow2_pos.
Qed.

Lemma last_place_below (q : Q) (k : Z) :
  Qabs q < inject_Z 2 ^ k -> (-1021 <= k)%Z -> ~ q == 0 ->
  (last_place q <= k - 53)%Z.
Proof.
  intros Hq Hk Hne. unfold last_place.
  assert (Ha : Qabs (Qred q) == Qabs q) by (now rewrite Qred_correct).
  assert (H0 : 0 < Qabs (Qred q)).
  { rewrite Ha. pose proof (Qabs_nonneg q) as Hn. apply Qle_lteq in Hn.
    destruct Hn as [H | H]; [exact H |].
    exfalso. apply Hne. symmetry in H.
    destruct (Q_dec q 0) as [[H1 | H1] | H1]; [| | exact H1].
    - rewrite (Qabs_neg q) in H by Lqa.lra. Lqa.lra.
    - rewrite (Qabs_pos q) in H by Lqa.lra. Lqa.lra. }
  assert (floor_log2 (Qabs (Qred q)) < k)%Z.
  { apply floor_log2_lt; [exact H0 |]. rewrite Ha. exact Hq. }
  lia.
Qed.

(** A number below [2^k] in absolute value is moved by at most
    [2^(k-54)]. *)
Lemma b64_error_below (q : Q) (k : Z) :
  Qabs q < inject_Z 2 ^ k -> (-1021 <= k)%Z ->
  Qabs (b64 q - q) <= inject_Z 2 ^ (k - 54).
Proof.
  intros Hq Hk.
  destruct (Qeq_dec q 0) as [H | H].
  - rewrite (b64_zero H).
    assert (E : Qabs (0 - q) == 0) by (rewrite H; reflexivity).
    rewrite E. apply Qlt_le_weak, pow2_pos.
  - apply Qle_trans with (inject_Z 2 ^ (last_place q - 1));
      [apply b64_error |].
    apply pow2_le. pose proof (last_place_below Hq Hk H). lia.
Qed.

(** Whole numbers of less than 53 bits are binary64 numbers. *)
Lemma b64_exact_pos (n : Z) :
  (0 < n < 2 ^ 53)%Z -> b64 (inject_Z n) == inject_Z n.
Proof.
  intros Hn.
  assert (Hq : 0 < inject_Z n)
    by (change 0 with (inject_Z 0); rewrite <- Zlt_Qlt; lia).
  destruct (b64_pos Hq) as (m & Hm & Eb & Hb).
  assert (Hlt : Qabs (inject_Z n) < inject_Z 2 ^ 53).
  { rewrite (Qabs_pos _ (Qlt_le_weak _ _ Hq)), (@pow2_Z 53) by lia.
    rewrite <- Zlt_Qlt. lia. }
  assert (Hne : ~ inject_Z n == 0) by Lqa.lra.
  pose proof (@last_place_below _ 53 Hlt ltac:(lia) Hne) as Hu.
  set (u := last_place (inject_Z n)) in *.
  assert (Hj : (0 <= - u)%Z) by lia.
  pose proof (pow2_pos u) as Pu.
  assert (En : inject_Z n == inject_Z (n * 2 ^ (- u)) * inject_Z 2 ^ u).
  { rewrite inject_Z_mult, <- (pow2_Z Hj), pow2_opp. field. Lqa.lra. }
  rewrite Eb.
  assert (Eh : inject_Z 2 ^ (u - 1) == (1 # 2) * inject_Z 2 ^ u).
  { replace (u - 1)%Z with (u + - (1))%Z by lia.
    rewrite pow2_add, pow2_opp. change (inject_Z 2 ^ 1) with 2. field. }
  rewrite Eb, Eh in Hb.
  assert (Hd : Qabs (inject_Z m - inject_Z (n * 2 ^ (- u))) <= 1 # 2).
  { apply Qabs_Qle_condition in Hb.
    set (w := inject_Z (n * 2 ^ (- u))) in *.
    assert (E1 : inject_Z m * inject_Z 2 ^ u - inject_Z n ==
                 (inject_Z m - w) * inject_Z 2 ^ u) by (rewrite En; ring).
    rewrite E1 in Hb. apply Qabs_Qle_condition. split; Lqa.nra. }
  assert (Em : m = (n * 2 ^ (- u))%Z).
  { apply Qabs_Qle_condition in Hd. destruct Hd as [H1 H2].
    assert (A : inject_Z (n * 2 ^ (- u)) < inject_Z (m + 1)).
    { rewrite inject_Z_plus. change (inject_Z 1) with 1. Lqa.lra. }
    assert (B : inject_Z m < inject_Z (n * 2 ^ (- u) + 1)).
    { rewrite inject_Z_plus. change (inject_Z 1) with 1. Lqa.lra. }
    apply Zlt_inject in A, B. lia. }
  rewrite Em, <- En. reflexivity.
Qed.

Lemma b64_exact_Z (n : Z) :
  (- 2 ^ 53 < n < 2 ^ 53)%Z -> b64 (inject_Z n) == inject_Z n.
Proof.
  intros Hn. destruct (Z.lt_trichotomy n 0) as [H | [-> | H]].
  - assert (E : inject_Z n == - inject_Z (- n))
      by (rewrite inject_Z_opp; ring).
    rewrite (b64_comp E), b64_opp, (@b64_exact_pos (- n)) by lia.
    rewrite inject_Z_opp. ring.
  - reflexivity.
  - apply b64_exact_pos. lia.
Qed.

End RoundingError.

(** ** Binary64: the text of [Geo.toDMS] at whole seconds *)

Section RoundedRendering.
Local Open Scope Q_scope.

Lemma pow2_small (k : Z) (c : Q) :
  (0 <= k)%Z -> inject_Z (2 ^ k) * c == 1 -> inject_Z 2 ^ (- k) == c.
Proof.
  intros Hk E. rewrite pow2_opp, (pow2_Z Hk).
  assert (0 < inject_Z (2 ^ k)).
  { change 0 with (inject_Z 0). rewrite <- Zlt_Qlt.
    apply Z.pow_pos_nonneg; lia. }
  transitivity (/ inject_Z (2 ^ k) * (inject_Z (2 ^ k) * c));
    [rewrite E; ring | field; Lqa.lra].
Qed.

(** The whole part of a rounded quotient of whole numbers. *)
Lemma floor_b64_quot (N k : Z) (q : Q) :
  (0 <= N < 2 ^ 30)%Z -> (0 < k <= 3600)%Z ->
  q == inject_Z N / inject_Z k ->
  Qfloor (b64 q) = (N / k)%Z.
Proof.
  intros HN Hk Hq.
  pose proof (Z.div_mod N k ltac:(lia)) as Hdm.
  pose proof (Z.mod_pos_bound N k ltac:(lia)) as Hmod.
  assert (HD0 : (0 <= N / k)%Z) by (apply Z.div_pos; lia).
  assert (HDN : (N / k <= N)%Z)
    by (apply Z.div_le_upper_bound; [lia | nia]).
  set (D := (N / k)%Z) in *. set (R := (N mod k)%Z) in *.
  assert (HK : 0 < inject_Z k)
    by (change 0 with (inject_Z 0); rewrite <- Zlt_Qlt; lia).
  assert (HK' : inject_Z k <= 3600).
  { change 3600 with (inject_Z 3600). rewrite <- Zle_Qle. lia. }
  assert (EN : inject_Z N == inject_Z k * inject_Z D + inject_Z R).
  { rewrite Hdm, inject_Z_plus, inject_Z_mult. reflexivity. }
  assert (Eq' : q == inject_Z D + inject_Z R / inject_Z k).
  { rewrite Hq, EN. field. Lqa.lra. }
  destruct (Z.eq_dec R 0) as [HR | HR].
  - assert (E : q == inject_Z D).
    { rewrite Eq', HR. change (inject_Z 0) with 0. field. Lqa.lra. }
    rewrite (b64_comp E), (@b64_exact_Z D), Qfloor_Z; [reflexivity |].
    assert (2 ^ 30 < 2 ^ 53)%Z by (apply Z.pow_lt_mono_r; lia). lia.
  - assert (HR1 : 1 <= inject_Z R).
    { change 1 with (inject_Z 1). rewrite <- Zle_Qle. lia. }
    assert (HR2 : inject_Z R <= inject_Z k - 1).
    { change 1 with (inject_Z 1). rewrite <- inject_Z_sub, <- Zle_Qle. lia. }
    assert (Hlo : 1 # 3600 <= inject_Z R / inject_Z k).
    { apply Qle_shift_div_l; [exact HK |]. Lqa.lra. }
    assert (Hhi : inject_Z R / inject_Z k <= 1 - (1 # 3600)).
    { apply Qle_shift_div_r; [exact HK |]. Lqa.nra. }
    assert (HD : 0 <= inject_Z D).
    { change 0 with (inject_Z 0). now rewrite <- Zle_Qle. }
    assert (Habs : Qabs q < inject_Z 2 ^ 30).
    { rewrite (@pow2_Z 30) by lia.
      assert (HDb : inject_Z D + 1 <= inject_Z (2 ^ 30)).
      { change 1 with (inject_Z 1). rewrite <- inject_Z_plus, <- Zle_Qle.
        lia. }
      rewrite Qabs_pos by (rewrite Eq'; Lqa.lra). rewrite Eq'. Lqa.lra. }
    pose proof (@b64_error_below q 30 Habs ltac:(lia)) as Herr.
    change (30 - 54)%Z with (- 24)%Z in Herr.
    rewrite (@pow2_small 24 (1 # 16777216)) in Herr by (lia || reflexivity).
    apply Qabs_Qle_condition in Herr. destruct Herr as [H1 H2].
    apply Qfloor_unique; Lqa.lra.
Qed.

(** A numeral of a whole number is read as that number. *)
Lemma StringToNumber_whole (s : jsstring) (n : Z) :
  dec_str s n 0 -> (0 <= n < 2 ^ 53)%Z ->
  exists q, Binary64.StringToNumber s = Num q /\ q == inject_Z n.
Proof.
  intros Hs Hn. unfold Binary64.StringToNumber.
  rewrite (dec_str_number Hs). eexists. split; [reflexivity |].
  assert (E : inject_Z n * pow10 (- 0) * pow10 0 == inject_Z n).
  { change (pow10 (- 0)) with 1. change (pow10 0) with 1. ring. }
  rewrite (b64_comp E). apply b64_exact_Z. lia.
Qed.

Lemma pad64_numeral (k : Z) (s : jsstring) (n : Z) :
  dec_str s n 0 -> (0 <= n < 2 ^ 53)%Z ->
  Binary64.pad_below k (VString s) = VString (pad_to k s n 0).
Proof.
  intros Hs Hn. unfold Binary64.pad_below, pad_to.
  cbn [Binary64.ToNumber ToString].
  destruct (StringToNumber_whole Hs Hn) as (q & -> & Hq).
  cbn [nlt nZ]. change (10 ^ 0)%Z with 1%Z. rewrite Z.mul_1_r.
  destruct (n <? k)%Z eqn:L.
  - apply Z.ltb_lt in L.
    now rewrite Qlt_bool_true by (rewrite Hq, <- Zlt_Qlt; exact L).
  - apply Z.ltb_ge in L.
    now rewrite Qlt_bool_false by (rewrite Hq, <- Zle_Qle; exact L).
Qed.

Lemma pad64_degrees_text (q : Q) (D : Z) :
  q == inject_Z D -> (0 <= D < 2 ^ 53)%Z ->
  ToString (Binary64.pad_below 10 (Binary64.pad_below 100 (VNumber (Num q))))
  = degrees_text D.
Proof.
  intros Hq HD.
  assert (HD' : (0 <= D < 10 ^ 21)%Z).
  { assert (2 ^ 53 < 10 ^ 21)%Z by reflexivity. lia. }
  change (Binary64.pad_below 100 (VNumber (Num q)))
    with (pad_below 100 (VNumber (Num q))).
  unfold degrees_text.
  destruct (@pad_below_whole 100 q D Hq HD') as [E _]. rewrite E.
  unfold pad_to at 2. change (10 ^ 0)%Z with 1%Z. rewrite Z.mul_1_r.
  destruct (D <? 100)%Z.
  - rewrite (@pad64_numeral 10 (cu_0 :: digits D) D); [reflexivity | | lia].
    apply dec_str_pad, dec_str_digits. lia.
  - change (Binary64.pad_below 10 (VNumber (Num q)))
      with (pad_below 10 (VNumber (Num q))).
    exact (proj2 (@pad_below_whole 10 q D Hq HD')).
Qed.

Lemma seconds64_bounds (x : Q) :
  Qabs x <= 90 ->
  (0 <= seconds64 x <= 324000)%Z /\
  0 <= b64 (Qabs x * inject_Z 3600) <= 324001 /\
  Qabs (inject_Z (seconds64 x) - Qabs x * 3600) <=
    (1 # 2) + inject_Z 2 ^ (- 35).
Proof.
  intros Hx. pose proof (Qabs_nonneg x) as Hx0.
  set (a := Qabs x * inject_Z 3600).
  assert (Ha0 : 0 <= a) by (subst a; change (inject_Z 3600) with 3600; Lqa.lra).
  assert (Ha1 : a <= 324000)
    by (subst a; change (inject_Z 3600) with 3600; Lqa.lra).
  assert (Habs : Qabs a < inject_Z 2 ^ 19).
  { rewrite (Qabs_pos a Ha0), (@pow2_Z 19) by lia.
    change (inject_Z (2 ^ 19)) with 524288. Lqa.lra. }
  pose proof (@b64_error_below a 19 Habs ltac:(lia)) as Herr.
  change (19 - 54)%Z with (- 35)%Z in Herr.
  pose proof (@pow2_small 35 (1 # 34359738368) ltac:(lia) eq_refl) as E35.
  rewrite E35 in Herr. rewrite E35.
  apply Qabs_Qle_condition in Herr. destruct Herr as [H1 H2].
  set (p := b64 a) in *.
  assert (Hp0 : 0 <= p).
  { destruct (Qlt_le_dec p 0) as [H | H]; [| exact H]. exfalso.
    destruct (Qeq_dec a 0) as [E | E].
    - subst p. rewrite (b64_zero E) in H. discriminate H.
    - assert (Hpos : 0 < a) by Lqa.lra.
      destruct (b64_pos Hpos) as (m & [Hm _] & Eb & _). fold p in Eb.
      pose proof (pow2_pos (last_place a)).
      rewrite Zle_Qle in Hm. change (inject_Z 0) with 0 in Hm.
      rewrite Eb in H. Lqa.nra. }
  unfold seconds64. fold a. fold p.
  destruct (@round_places_spec p 0 ltac:(lia) Hp0) as (HN0 & HNlo & HNhi).
  cbv zeta in HNlo, HNhi. change (inject_Z (10 ^ 0)) with 1 in HNlo, HNhi.
  set (N := round_places p 0) in *.
  split; [| split].
  - split; [exact HN0 |].
    assert (H : inject_Z N < inject_Z (324000 + 1)).
    { change (inject_Z (324000 + 1)) with 324001. Lqa.lra. }
    apply Zlt_inject in H. lia.
  - split; [exact Hp0 | Lqa.lra].
  - subst a. change (inject_Z 3600) with 3600 in *.
    apply Qabs_Qle_condition. split; Lqa.lra.
Qed.

Lemma toDMS64_seconds (x : Q) (dp : option Z) (g : globals) :
  Qabs x <= 90 -> dp = None \/ dp = Some 0%Z ->
  Binary64.toDMS (VNumber (Num x)) (Some (u16 "dms")) dp g =
  Returns (Some (dms_text (seconds64 x) 0), Some (dms_text (seconds64 x) 0)).
Proof.
  intros Hx Hdp.
  assert (Hgo : Binary64.toDMS (VNumber (Num x)) (Some (u16 "dms")) dp g =
                Binary64.toDMS (VNumber (Num x)) (Some (u16 "dms"))
                               (Some 0%Z) g).
  { destruct Hdp as [-> | ->]; reflexivity. }
  rewrite Hgo. clear Hgo Hdp dp.
  destruct (@seconds64_bounds x Hx) as (HN & Hp & _).
  unfold seconds64 in *.
  unfold Binary64.toDMS.
  cbn [typeof Binary64.ToNumber n_isNaN nabs Binary64.nmul Binary64.nlift2 nZ].
  change (str_eqb (u16 "number") (u16 "object")) with false.
  change (str_eqb (u16 "dms") (u16 "d")) with false.
  change (str_eqb (u16 "dms") (u16 "dm")) with false.
  change (str_eqb (u16 "dms") (u16 "dms")) with true. cbv iota.
  set (p := b64 (Qabs x * inject_Z 3600)) in *.
  rewrite (@toFixed_places p 0 ltac:(lia) (proj1 Hp)) by Lqa.lra.
  cbn [bind].
  set (N := round_places p 0) in *.
  assert (HN53 : (0 <= N < 2 ^ 53)%Z).
  { assert (324000 < 2 ^ 53)%Z by reflexivity. lia. }
  assert (HN30 : (0 <= N < 2 ^ 30)%Z).
  { assert (324000 < 2 ^ 30)%Z by reflexivity. lia. }
  pose proof (@fixed_string_dec N 0 (proj1 HN) ltac:(lia)) as Hsec.
  destruct (StringToNumber_whole Hsec HN53) as (nq & -> & Hnq).
  cbn [Binary64.ndiv nrem nfloor nZ].
  change (Qeq_bool (inject_Z 3600) 0) with false.
  change (Qeq_bool (inject_Z 60) 0) with false. cbv iota.
  cbn [nrem nfloor nZ].
  change (Qeq_bool (inject_Z 60) 0) with false. cbv iota.
  assert (E3600 : nq / inject_Z 3600 == inject_Z N / inject_Z 3600)
    by (rewrite Hnq; reflexivity).
  assert (E60 : nq / inject_Z 60 == inject_Z N / inject_Z 60)
    by (rewrite Hnq; reflexivity).
  rewrite (@floor_b64_quot N 3600 _ HN30 ltac:(lia) E3600).
  rewrite (@floor_b64_quot N 60 _ HN30 ltac:(lia) E60).
  pose proof (Z.div_mod N 60 ltac:(lia)) as Hdm.
  pose proof (Z.mod_pos_bound N 60 ltac:(lia)) as Hmod.
  assert (HM0 : (0 <= N / 60)%Z) by (apply Z.div_pos; lia).
  assert (HD0 : (0 <= N / 3600)%Z) by (apply Z.div_pos; lia).
  assert (HDM : (N / 3600 = N / 60 / 60)%Z)
    by (rewrite Z.div_div by lia; reflexivity).
  assert (HMN : (N / 60 <= N)%Z) by (apply Z.div_le_upper_bound; lia).
  assert (HDN : (N / 3600 <= N)%Z) by (apply Z.div_le_upper_bound; lia).
  set (D := (N / 3600)%Z) in *. set (M := (N / 60)%Z) in *.
  set (R := (N mod 60)%Z) in *.
  assert (HMq : 0 <= inject_Z M)
    by (change 0 with (inject_Z 0); now rewrite <- Zle_Qle).
  assert (EQ60 : forall y, y / inject_Z 60 == y * (1 # 60))
    by (intros; unfold Qdiv; reflexivity).
  (* the minutes *)
  assert (Etr : Qtrunc (inject_Z M / inject_Z 60) = D).
  { rewrite Qtrunc_nonneg by (rewrite EQ60; Lqa.lra).
    pose proof (Z.div_mod M 60 ltac:(lia)) as Hdm'.
    pose proof (Z.mod_pos_bound M 60 ltac:(lia)) as Hmod'.
    rewrite HDM. apply Qfloor_unique.
    - rewrite EQ60. rewrite Hdm' at 2.
      rewrite inject_Z_plus, inject_Z_mult. change (inject_Z 60) with 60.
      assert (0 <= inject_Z (M mod 60))
        by (change 0 with (inject_Z 0); rewrite <- Zle_Qle; lia).
      Lqa.lra.
    - rewrite EQ60. rewrite Hdm' at 1.
      rewrite inject_Z_plus, inject_Z_mult. change (inject_Z 60) with 60.
      assert (inject_Z (M mod 60) < 60)
        by (change 60 with (inject_Z 60); rewrite <- Zlt_Qlt; lia).
      Lqa.lra. }
  rewrite Etr.
  (* the seconds *)
  assert (Etr' : Qtrunc (nq / inject_Z 60) = M).
  { rewrite Qtrunc_nonneg.
    2:{ rewrite E60, EQ60. rewrite Zle_Qle in HN.
        change (inject_Z 0) with 0 in HN. Lqa.lra. }
    rewrite E60. subst M. apply Qfloor_unique.
    - rewrite EQ60. rewrite Hdm at 2.
      rewrite inject_Z_plus, inject_Z_mult. change (inject_Z 60) with 60.
      assert (0 <= inject_Z R)
        by (change 0 with (inject_Z 0); rewrite <- Zle_Qle; lia).
      Lqa.lra.
    - rewrite EQ60. rewrite Hdm at 1.
      rewrite inject_Z_plus, inject_Z_mult. change (inject_Z 60) with 60.
      assert (inject_Z R < 60)
        by (change 60 with (inject_Z 60); rewrite <- Zlt_Qlt; lia).
      Lqa.lra. }
  rewrite Etr'.
  set (rq := nq - inject_Z 60 * inject_Z M).
  assert (Erq : rq == inject_Z R).
  { subst rq. rewrite Hnq. rewrite Hdm at 1.
    rewrite inject_Z_plus, inject_Z_mult. ring. }
  assert (Hrq0 : 0 <= rq).
  { rewrite Erq. change 0 with (inject_Z 0). rewrite <- Zle_Qle. lia. }
  assert (Hrq1 : rq < 60).
  { rewrite Erq. change 60 with (inject_Z 60). rewrite <- Zlt_Qlt. lia. }
  rewrite (@toFixed_places rq 0 ltac:(lia) Hrq0) by Lqa.lra. cbn [bind].
  assert (ER : round_places rq 0 = R).
  { unfold round_places. apply round_half_up_integer.
    rewrite (Qabs_pos rq Hrq0). change (pow10 0) with 1. rewrite Erq. ring. }
  rewrite ER.
  rewrite (@pad64_degrees_text (inject_Z D) D (Qeq_refl _)) by lia.
  pose proof (Z.mod_pos_bound M 60 ltac:(lia)) as HMm.
  assert (EM : inject_Z M - inject_Z 60 * inject_Z D == inject_Z (M mod 60)).
  { rewrite Z.mod_eq by lia. rewrite inject_Z_sub, inject_Z_mult.
    rewrite <- HDM. reflexivity. }
  change (Binary64.pad_below 10
            (VNumber (Num (inject_Z M - inject_Z 60 * inject_Z D))))
    with (pad_below 10 (VNumber (Num (inject_Z M - inject_Z 60 * inject_Z D)))).
  rewrite (proj2 (@pad_below_whole 10 _ (M mod 60)%Z EM
                    ltac:(change (10 ^ 21)%Z with 1000000000000000000000%Z; lia))).
  rewrite (@pad64_numeral 10 _ R
             (@fixed_string_dec R 0 (proj1 Hmod) ltac:(lia))) by lia.
  unfold dms_text. cbv zeta. change (10 ^ 0)%Z with 1%Z.
  rewrite !Z.mul_1_r. reflexivity.
Qed.

End RoundedRendering.

(** ** Binary64: the round trip at whole seconds *)

Section RoundedRoundTrip.
Local Open Scope Q_scope.
Local Unset Implicit Arguments.

Lemma parseDMS64_string_cases (s : jsstring) :
  Binary64.parseDMS (VString s) =
  let dms := parseDMS_dms s in
  if str_eqb (join_comma dms) [] then Returns NaN
  else match dms with
       | [d; m; sc] =>
           let v := Binary64.nadd
                      (Binary64.nadd
                         (Binary64.ndiv (Binary64.StringToNumber d) (nZ 1))
                         (Binary64.ndiv (Binary64.StringToNumber m) (nZ 60)))
                      (Binary64.ndiv (Binary64.StringToNumber sc) (nZ 3600)) in
           Returns (if test_negative (trim s) then nneg v else v)
       | [d; m] =>
           let v := Binary64.nadd
                      (Binary64.ndiv (Binary64.StringToNumber d) (nZ 1))
                      (Binary64.ndiv (Binary64.StringToNumber m) (nZ 60)) in
           Returns (if test_negative (trim s) then nneg v else v)
       | [d] =>
           Returns (if test_negative (trim s)
                    then nneg (Binary64.StringToNumber d)
                    else Binary64.StringToNumber d)
       | _ => Returns NaN
       end.
Proof.
  unfold Binary64.parseDMS.
  change (str_eqb (typeof VUndefined) (u16 "object")) with false.
  change (str_eqb (typeof (VString s)) (u16 "number")) with false.
  cbn [andb ToString]. cbv zeta.
  destruct (str_eqb (join_comma (parseDMS_dms s)) []); [reflexivity |].
  destruct (parseDMS_dms s) as [| d [| m [| sc [| x r]]]]; try reflexivity;
    destruct (test_negative (trim s)); reflexivity.
Qed.

(** The three fields of a whole number of seconds below 91 degrees. *)
Lemma seconds_fields (N : Z) :
  (0 <= N <= 324000)%Z ->
  let D := (N / 3600)%Z in
  let M := ((N / 60) mod 60)%Z in
  let R := (N mod 60)%Z in
  (0 <= D <= 90)%Z /\ (0 <= M < 60)%Z /\ (0 <= R < 60)%Z /\
  inject_Z D + inject_Z M / 60 + inject_Z R / 3600 == inject_Z N / 3600.
Proof.
  intros HN D M R. subst D M R.
  pose proof (Z.div_mod N 60 ltac:(lia)) as E1.
  pose proof (Z.mod_pos_bound N 60 ltac:(lia)) as B1.
  pose proof (Z.div_mod (N / 60) 60 ltac:(lia)) as E2.
  pose proof (Z.mod_pos_bound (N / 60) 60 ltac:(lia)) as B2.
  assert (E3 : (N / 3600 = N / 60 / 60)%Z)
    by (rewrite Z.div_div by lia; reflexivity).
  rewrite E3.
  set (R := (N mod 60)%Z) in *. set (M := ((N / 60) mod 60)%Z) in *.
  set (D := (N / 60 / 60)%Z) in *.
  assert (EN : (N = 3600 * D + 60 * M + R)%Z) by lia.
  split; [lia |]. split; [exact B2 |]. split; [exact B1 |].
  rewrite EN, !inject_Z_plus, !inject_Z_mult.
  change (inject_Z 3600) with 3600. change (inject_Z 60) with 60. field.
Qed.

Lemma degrees_text_below_100 (D : Z) :
  (D < 100)%Z -> degrees_text D = cu_0 :: pad_to 10 (digits D) D 0.
Proof.
  intros H. unfold degrees_text, pad_to. change (10 ^ 0)%Z with 1%Z.
  rewrite !Z.mul_1_r.
  replace (D <? 100)%Z with true by (symmetry; now apply Z.ltb_lt).
  destruct (D <? 10)%Z; reflexivity.
Qed.

Lemma inject_Z_le (a b : Z) : (a <= b)%Z -> inject_Z a <= inject_Z b.
Proof. intros H. now rewrite <- Zle_Qle. Qed.

(** The sum that [Geo.parseDMS] forms of three whole fields, each
    operation rounded, against the exact sum. *)
Lemma rounded_sum (qa qb qc : Q) (D M R : Z) :
  qa == inject_Z D -> qb == inject_Z M -> qc == inject_Z R ->
  (0 <= D <= 90)%Z -> (0 <= M < 60)%Z -> (0 <= R < 60)%Z ->
  Qabs (b64 (b64 (b64 (qa / inject_Z 1) + b64 (qb / inject_Z 60)) +
             b64 (qc / inject_Z 3600)) -
        (inject_Z D + inject_Z M / 60 + inject_Z R / 3600)) <=
  inject_Z 2 ^ (- 46) + inject_Z 2 ^ (- 53).
Proof.
  intros Ea Eb Ec HD HM HR.
  pose proof (@pow2_small 46 (1 # 70368744177664) ltac:(lia) eq_refl) as P46.
  pose proof (@pow2_small 47 (1 # 140737488355328) ltac:(lia) eq_refl) as P47.
  pose proof (@pow2_small 53 (1 # 9007199254740992) ltac:(lia) eq_refl) as P53.
  pose proof (@pow2_small 54 (1 # 18014398509481984) ltac:(lia) eq_refl) as P54.
  rewrite P46, P53.
  assert (HDq : 0 <= inject_Z D <= 90).
  { split; [change 0 with (inject_Z 0) | change 90 with (inject_Z 90)];
      apply inject_Z_le; lia. }
  assert (HMq : 0 <= inject_Z M <= 59).
  { split; [change 0 with (inject_Z 0) | change 59 with (inject_Z 59)];
      apply inject_Z_le; lia. }
  assert (HRq : 0 <= inject_Z R <= 59).
  { split; [change 0 with (inject_Z 0) | change 59 with (inject_Z 59)];
      apply inject_Z_le; lia. }
  (* the degrees *)
  assert (E0 : qa / inject_Z 1 == inject_Z D).
  { rewrite Ea. change (inject_Z 1) with 1. field. }
  assert (T0 : b64 (qa / inject_Z 1) == inject_Z D).
  { rewrite (b64_comp E0). apply b64_exact_Z.
    assert (90 < 2 ^ 53)%Z by reflexivity. lia. }
  set (t0 := b64 (qa / inject_Z 1)) in *. clearbody t0.
  (* the minutes *)
  assert (E1 : qb / inject_Z 60 == inject_Z M / 60).
  { rewrite Eb. reflexivity. }
  assert (A1 : Qabs (qb / inject_Z 60) < inject_Z 2 ^ 0).
  { change (inject_Z 2 ^ 0) with 1. rewrite E1.
    rewrite Qabs_pos by (apply Qle_shift_div_l; Lqa.lra).
    apply Qlt_shift_div_r; Lqa.lra. }
  pose proof (@b64_error_below _ 0 A1 ltac:(lia)) as T1.
  change (0 - 54)%Z with (- 54)%Z in T1.
  set (t1 := b64 (qb / inject_Z 60)) in *.
  clearbody t1. rewrite P54, E1 in T1. apply Qabs_Qle_condition in T1.
  assert (M60 : 0 <= inject_Z M / 60 <= 59 # 60).
  { split; [apply Qle_shift_div_l | apply Qle_shift_div_r]; Lqa.lra. }
  (* the seconds *)
  assert (E3 : qc / inject_Z 3600 == inject_Z R / 3600).
  { rewrite Ec. reflexivity. }
  assert (R3600 : 0 <= inject_Z R / 3600 <= 59 # 3600).
  { split; [apply Qle_shift_div_l | apply Qle_shift_div_r]; Lqa.lra. }
  assert (A3 : Qabs (qc / inject_Z 3600) < inject_Z 2 ^ 0).
  { change (inject_Z 2 ^ 0) with 1. rewrite E3.
    rewrite Qabs_pos by tauto. Lqa.lra. }
  pose proof (@b64_error_below _ 0 A3 ltac:(lia)) as T3.
  change (0 - 54)%Z with (- 54)%Z in T3.
  set (t3 := b64 (qc / inject_Z 3600)) in *.
  clearbody t3. rewrite P54, E3 in T3. apply Qabs_Qle_condition in T3.
  (* the two sums *)
  assert (A2 : Qabs (t0 + t1) < inject_Z 2 ^ 7).
  { change (inject_Z 2 ^ 7) with 128.
    apply Qabs_Qlt_condition. split; Lqa.lra. }
  pose proof (@b64_error_below _ 7 A2 ltac:(lia)) as T2.
  change (7 - 54)%Z with (- 47)%Z in T2.
  set (t2 := b64 (t0 + t1)) in *.
  clearbody t2. rewrite P47 in T2. apply Qabs_Qle_condition in T2.
  assert (A4 : Qabs (t2 + t3) < inject_Z 2 ^ 7).
  { change (inject_Z 2 ^ 7) with 128.
    apply Qabs_Qlt_condition. split; Lqa.lra. }
  pose proof (@b64_error_below _ 7 A4 ltac:(lia)) as T4.
  change (7 - 54)%Z with (- 47)%Z in T4.
  set (t4 := b64 (t2 + t3)) in *. clearbody t4.
  rewrite P47 in T4. apply Qabs_Qle_condition in T4.
  apply Qabs_Qle_condition. split; Lqa.lra.
Qed.

End RoundedRoundTrip.

Section RoundedRoundTripTheorem.
Local Open Scope Q_scope.
Local Unset Implicit Arguments.

(** X30.  In binary64, every operation rounded: for a latitude [x] in
    [[-90, 90]] and the default precision (no [dp], or 0),
    [Geo.toLat(x, 'dms', dp)] returns a string that [Geo.parseDMS] reads
    back as a number within half an arcsecond plus [2^-45] degree of [x].
    The excess covers the rounding of the product [x * 3600] in
    [Geo.toDMS] and of the two quotients and two sums in [Geo.parseDMS];
    the split into degrees, minutes and seconds is exact, the rounded
    quotients of whole numbers having the floor of the exact ones. *)
Theorem dms_round_trip_binary64 (x : Q) (dp : option Z) (g : globals) :
  -90 <= x <= 90 -> dp = None \/ dp = Some 0%Z ->
  exists s g' r,
    Binary64.toLat (VNumber (Num x)) (Some (u16 "dms")) dp g =
      Returns (s, g') /\
    Binary64.parseDMS (VString s) = Returns (Num r) /\
    Qabs (r - x) <= (1 # 2) / 3600 + inject_Z 2 ^ (- 45).
Proof.
  intros Hx Hdp.
  assert (Hax : Qabs x <= 90) by (apply Qabs_Qle_condition; Lqa.lra).
  destruct (@seconds64_bounds x Hax) as (HN & _ & Hnear).
  pose proof (@toDMS64_seconds x dp g Hax Hdp) as HtoDMS.
  set (N := seconds64 x) in *.
  destruct (@seconds_fields N HN) as (HD & HM & HR & Hsum).
  unfold dms_text in HtoDMS. cbv zeta in HtoDMS.
  change (10 ^ 0)%Z with 1%Z in HtoDMS. rewrite !Z.mul_1_r in HtoDMS.
  set (D := (N / 3600)%Z) in *. set (M := ((N / 60) mod 60)%Z) in *.
  set (R := (N mod 60)%Z) in *.
  rewrite (@degrees_text_below_100 D) in HtoDMS by lia.
  assert (HA : dec_str (pad_to 10 (digits D) D 0) D 0)
    by (apply pad_to_dec, dec_str_digits; lia).
  assert (HB : dec_str (pad_to 10 (digits M) M 0) M 0)
    by (apply pad_to_dec, dec_str_digits; lia).
  assert (HC : dec_str (pad_to 10 (fixed_string R 0) R 0) R 0)
    by (apply pad_to_dec, fixed_string_dec; lia).
  set (A := pad_to 10 (digits D) D 0) in *.
  set (B := pad_to 10 (digits M) M 0) in *.
  set (C := pad_to 10 (fixed_string R 0) R 0) in *.
  assert (H53 : (60 < 2 ^ 53)%Z /\ (90 < 2 ^ 53)%Z) by (split; reflexivity).
  destruct (@StringToNumber_whole A D HA ltac:(lia)) as (qa & HqA & Ea).
  destruct (@StringToNumber_whole B M HB ltac:(lia)) as (qb & HqB & Eb).
  destruct (@StringToNumber_whole C R HC ltac:(lia)) as (qc & HqC & Ec).
  pose proof (@rounded_sum qa qb qc D M R Ea Eb Ec HD ltac:(lia) ltac:(lia))
    as Hround.
  destruct (dec_str_field HA) as (HAf & a & A' & EA & Ha).
  destruct (dec_str_field HB) as (HBf & _).
  destruct (dec_str_field HC) as (HCf & _).
  pose proof (dec_str_nonempty HB) as HBn.
  pose proof (dec_str_nonempty HC) as HCn.
  rewrite EA in HtoDMS, HAf, HqA.
  unfold Binary64.toLat. rewrite HtoDMS. cbn [bind slice1 skipn].
  unfold Binary64.compass. cbn [Binary64.ToNumber nlt nZ].
  set (h := if Qlt_bool x (inject_Z 0) then 83%Z else 78%Z).
  assert (Hh : h = 78%Z \/ h = 83%Z)
    by (subst h; destruct (Qlt_bool x (inject_Z 0)); auto).
  destruct (@parseDMS_dms_three a A' B C h Ha HAf HBf HCf HBn HCn Hh)
    as (Htrim & Hdms & Hneg).
  set (str := (a :: A') ++ cu_degree :: B ++ cu_prime :: C ++ [cu_dprime] ++ [h]) in *.
  assert (Hstr :
    ((a :: A') ++ cu_degree :: B ++ cu_prime :: C ++ [cu_dprime]) ++
    (if Qlt_bool x (inject_Z 0) then u16 "S" else u16 "N") = str).
  { subst str h. destruct (Qlt_bool x (inject_Z 0));
      repeat first [rewrite <- app_assoc | progress cbn [app]]; reflexivity. }
  clear HtoDMS.
  set (v0 := b64 (b64 (b64 (qa / inject_Z 1) + b64 (qb / inject_Z 60)) +
                  b64 (qc / inject_Z 3600))) in *.
  assert (Hparse : Binary64.parseDMS (VString str) =
    Returns (if (h =? 83)%Z then Num (- v0) else Num v0)).
  { rewrite parseDMS64_string_cases. cbv zeta. rewrite Hdms, Htrim, Hneg.
    cbn [join_comma app str_eqb].
    rewrite HqA, HqB, HqC.
    cbn [Binary64.ndiv Binary64.nadd Binary64.nlift2 nZ nneg].
    change (Qeq_bool (inject_Z 1) 0) with false.
    change (Qeq_bool (inject_Z 60) 0) with false.
    change (Qeq_bool (inject_Z 3600) 0) with false. cbv iota.
    destruct (h =? 83)%Z; reflexivity. }
  assert (Hbound : Qabs (v0 - Qabs x) <= (1 # 2) / 3600 + inject_Z 2 ^ (- 45)).
  { pose proof (@pow2_small 35 (1 # 34359738368) ltac:(lia) eq_refl) as P35.
    pose proof (@pow2_small 45 (1 # 35184372088832) ltac:(lia) eq_refl) as P45.
    pose proof (@pow2_small 46 (1 # 70368744177664) ltac:(lia) eq_refl) as P46.
    pose proof (@pow2_small 53 (1 # 9007199254740992) ltac:(lia) eq_refl) as P53.
    rewrite P35 in Hnear. rewrite P46, P53, Hsum in Hround. rewrite P45.
    apply Qabs_Qle_condition in Hnear. apply Qabs_Qle_condition in Hround.
    set (n := inject_Z N) in *.
    assert (E : n / 3600 == n * (1 # 3600)) by (field).
    rewrite E in Hround.
    assert (E' : (1 # 2) / 3600 == 1 # 7200) by reflexivity.
    rewrite E'. apply Qabs_Qle_condition. split; Lqa.lra. }
  clearbody v0.
  subst h. destruct (Qlt_bool x (inject_Z 0)) eqn:Hsign.
  - change (83 =? 83)%Z with true in Hparse.
    exists str. eexists. exists (- v0). split; [rewrite <- Hstr; reflexivity |].
    split; [exact Hparse |].
    assert (Hx0 : x < 0).
    { unfold Qlt_bool in Hsign. apply negb_true_iff in Hsign.
      destruct (Qlt_le_dec x 0) as [H | H]; [exact H |].
      apply Qle_bool_iff in H. change (inject_Z 0) with 0 in Hsign. congruence. }
    assert (E : - v0 - x == - (v0 - Qabs x)).
    { rewrite (Qabs_neg x) by Lqa.lra. Lqa.lra. }
    rewrite E, Qabs_opp. exact Hbound.
  - change (78 =? 83)%Z with false in Hparse.
    exists str. eexists. exists v0. split; [rewrite <- Hstr; reflexivity |].
    split; [exact Hparse |].
    assert (Hx0 : 0 <= x).
    { unfold Qlt_bool in Hsign. apply negb_false_iff in Hsign.
      now apply Qle_bool_iff in Hsign. }
    assert (E : v0 - x == v0 - Qabs x) by (rewrite (Qabs_pos x Hx0); reflexivity).
    rewrite E. exact Hbound.
Qed.

Lemma dms_round_trip_binary64_witness :
  exists s g' r,
    Binary64.toLat (VNumber (Num (b64 (-514778 # 10000)))) (Some (u16 "dms"))
                   None None = Returns (s, g') /\
    Binary64.parseDMS (VString s) = Returns (Num r) /\
    Qabs (r - b64 (-514778 # 10000)) <= (1 # 2) / 3600 + inject_Z 2 ^ (- 45).
Proof.
  apply (@dms_round_trip_binary64 (b64 (-514778 # 10000)) None None).
  - vm_compute. split; discriminate.
  - left. reflexivity.
Defined.

End RoundedRoundTripTheorem.
